(* ===== verification/_CoqProject ===== *)
-Q . S2P
Prelude.v
Utf8.v
Json.v
JsonRound.v
Control.v
Lifecycle.v
Core.v
Limits.v
Schema.v
RoomState.v
RoomFanout.v
RoomBarrier.v
RoomApply.v
RoomLife.v
RoomLoop.v
Fixture.v
RoomRel.v
RoomSafe.v
RoomSave.v
RoomRun.v
RoomTurn.v
RoomSchema.v
RoomInv.v
RoomDurable.v
RoomNew.v
RoomFlush.v
RoomSpec.v
RoomFlow.v
RoomEdits.v
Manager.v
Shutdown.v
Admission.v
Store.v
Reopen.v
FileStore.v
Decode.v
Attach.v
Consumer.v
Deletion.v
MetaRpc.v
Auth.v
HubWire.v
Pods.v
Hub.v
WsConn.v
Config.v
Http.v
Router.v
App.v
Wire.v
Runs.v
