(* ===== verification/Prelude.v ===== *)
(** * Collaboration service: a verified model

    The service keeps memos and whiteboards as CRDT documents that many clients edit
    over WebSockets.  Each open document has a ROOM: one goroutine that owns the
    document, applies the members' updates, fans them out, saves the document and
    answers who asks whether their edits are stored.  A MANAGER maps documents to
    rooms and admits connections; ADAPTERS carry frames to sockets, checkpoints to
    the file service and authorization questions to another service.  This library
    models that Go code (module paths below are under src/internal/) and proves it
    does what it means to.

    ** Parts, files and code

    - This file: 64-bit integers, the state monad [M] with its outcomes (return,
      panic, out of fuel), weakest preconditions [wp], relations kept by every step
      ([steps]), the tactics [wp_run], [steps_tac], [calm_tac] and the hint database
      [steps] that the components extend, and machines ([drive]): code whose critical
      sections interleave is a partial step function, a run a list of events.
    - [Utf8], [Json], [Decode]: what the code uses of unicode/utf8 and encoding/json;
      [JsonRound]: what is printed is read back.
    - [Control] (domain/model): control messages, session ends, metadata rows.
    - [Lifecycle] (domain/service/lifecycle_state.go): the state word; module
      [Racing] runs concurrent callers of [beginTeardown] one atomic access at a time.
    - [Core]: the CRDT library as the class [YCore] of its calls, and its documented
      behaviour as [YLaws], [YQuiet] and [YMerge].  [Limits] (limits.go), [Schema] (assets_schema.go,
      convention.go).
    - [RoomState], [RoomFanout], [RoomBarrier], [RoomApply], [RoomLife], [RoomLoop]
      (room.go, presence.go, flush.go, sync.go, awareness_wire.go): the room.  [Room]
      is the run loop's state; each handler is a definition of the same name in the
      monad [RM]; [run_step] is one turn of [Room.run], the deferred recover included.
      What the room does to the outside is appended to [trace]; what the outside
      answers (a send, a save, the clock, the order of ranging over a map) is given by
      [Params] as a function of that trace, so no answer is assumed to repeat.
    - [RoomNew]: [newRoom], from the index row, the registry's answer and the
      checkpoint to a serving room or a failure.  [RoomFlush]: the durability state
      machine in the header of flush.go, which the room implements.
    - [Manager] (manager.go): the command queue's answers and [Session.Forward]; the
      registry as a machine whose events are the critical sections of [Join],
      [acquire], [CloseDeleted], [remove] and [Close], and the gauge calls made after
      them.  [Shutdown]: [Close] as a whole over that machine, with its signals select by
      select, the rooms' queues, its drain and its deadline.  [Admission]:
      [Join] as a whole, and what [CloseDeleted] answers.  [Deletion]: one deletion
      event, the call of [CloseDeleted] it makes and the loop of the room it finds,
      interleaved.
    - [Store], [FileStore] (adapter/outbound/persistence, metadatastore/inmemory):
      the checkpoint contract as the class [StoreLaws], the in-process store, which
      meets it, the in-memory index; the file-service store and its pointer resolver
      over the log of their calls and answers.
      [Reopen]: a room, the stores it saves to, and the room opened from them after it.
    - [HubWire], [Hub] (adapter/outbound/hub/redis): frames, delivery on the publishing
      and the receiving pod, the subscription handshake; subscribers and pumps, with
      the reference counts that decide when a pump stops.  [RoomEdits], [Pods]: what a
      turn publishes and takes, and the rooms of one document on several pods, each
      with its [peerUpdates] queue, composed with their hubs over a bag of frames,
      updates that wait for missing ones included.
    - [Attach], [Consumer] (adapter/inbound/lifecycle): the supervised broker session
      (shared with the metadata client), and what becomes of each deletion event.
    - [MetaRpc] (adapter/outbound/metadatastore/rabbitmq): the message contract, the
      store over an abstract transport, and the client whose calls, replies, broker
      drops and re-attachments interleave.
    - [Auth] (adapter/outbound/auth), [WsConn] (adapter/inbound/ws), [Config]
      (config/config.go), [Http] and [Router] (adapter/inbound/http: document creation,
      metrics; the router, its middlewares and the liveness probe).
    - [App] (app/app.go, cmd/server/main.go): adapter selection, opening and releasing,
      the room configuration, and the adapters put together from the upgrade to the
      session.  [Wire]: what a peer reads of the messages this service writes.
    - [Fixture]: a concrete core and surroundings, on which witnesses are evaluated;
      [Runs]: sample runs, three of which contradict comments of the source.

    ** How the room's theorems are built

    Most handlers only change the room by a few primitives.  [RoomRel] states those as
    classes ([SendRel], [RoomRel], [HandlerRel] for members, [PeerRel] for other pods;
    [CountRel] and [SaveRel] for the parts of a save, [EndRel] for a teardown) and
    proves once that every handler keeps any relation meeting them; [RoomTurn] adds
    saves and admissions ([TurnRel]) and lifts the relation to every room the loop
    reaches.  [RoomSafe], [RoomSave] and [RoomRun] follow teardown and saving and give
    the loop's invariant [live]; [RoomSchema], [RoomInv], [RoomDurable], [RoomFlush] and
    [RoomEdits] are instances.

    ** What is shown

    - Durability ([RoomDurable], [RoomFlush], [RoomSpec], [RoomInv], [Reopen]): a clean
      room is a stored room; [persisted] is only said of stored edits; each request gets
      one outcome; the room follows the state machine of flush.go, answer by answer, and
      a refused save retries or ends the room loudly; what a clean room held is what the
      next one opens with.
    - Safety of the loop ([RoomRun], [RoomFlow]): no turn, whatever the connections,
      stores and other pods do, lets a panic escape or loses count of connections;
      broadcasts terminate; teardown completes in order, once, and settles the
      contributions.
    - Content ([RoomSchema], [Schema], [RoomSpec], [RoomNew]): the live document stays in
      schema and in lockstep with its shadow, the size budget is exact, viewers cannot
      edit, unreadable stored state never opens as an empty document.
    - Admission ([App], [Manager], [Admission], [Auth], [WsConn], [RoomFlow]): a session
      rests on the gateway's actor and on the authorization service's own grant; no
      session spans a deletion, one room per document and the gauge off by the calls
      still due, authorization fails closed, what a refusal tells a stranger, a lost frame
      poisons its session.  A deletion is acknowledged only
      over a room that is done for, and goes through ([Deletion]).
    - Shutdown and start-up ([Shutdown], [App], [Config]): every registered room is
      signalled and waited for; whatever fails, what was opened is released, last
      first; a configuration that loads is well formed and says what it selects.
    - Storage ([Store], [FileStore]): the in-process store implements the contract,
      failures that take effect included; the file-service store acknowledges, rewrites,
      creates and loads exactly by the answers it got; a lost file is never recreated.
    - Between pods ([HubWire], [Hub], [Pods]): another pod's publish is delivered like a
      local one, an echo to no one; a held subscription is fed, an abandoned one leaks
      nothing.  Pods that took everything published hold the same document, whatever the
      order, but for what an own member's edit left waiting, and delivering what Redis took
      is enough to get there.
    - The bus ([Attach], [Consumer], [MetaRpc], [Wire]): a deletion event is settled once;
      a reply reaches its own call, no call waits on a dead stream; no session outlives
      its close; what is sent is what is read.
    - Transport and metrics ([WsConn], [Http], [Router]): frames in order, the reason
      before the close, nothing after; the gauges show the documents undurable now; what
      each request is answered, and the one line it leaves in the log.

    ** Bounds and fuel

    Sends that fail evict members, which broadcasts again: [broadcast_n] recurses at
    most once per member, and [cascade_fuel] is that number; [Stuck] is proved
    unreachable.  Byte loops are bounded by the input's length, JSON nesting by Go's
    limit.  Connection ids are 64-bit counters: theorems about fresh ids hold for the
    first 2^64 turns.  Rates are proved exact in [-2^12, 2^12], where binary64 counts
    exactly.  Byte counts, failure counts and durations the code keeps in [int] are
    unbounded integers where the text says nothing else.

    Subscriber ids of the hub are a 64-bit counter too: its theorems hold for the first
    2^64 events.  Times from the configuration are exact up to 9223372036 seconds, beyond
    which the code's own multiplication wraps.

    ** Assumptions

    Third-party code is a parameter: the CRDT library ([YLaws]; for [Pods] also [YMerge],
    that it merges: accepted updates commute and may be repeated, one whose dependencies
    are missing waits, and the update events of an apply carry what it integrated; for
    [RoomDurable] and [Reopen] [YQuiet], that an apply without an event changed nothing,
    so those speak of updates whose dependencies the document has), chi's route matching and recovery ([Chi]), the HTTP, Redis and AMQP clients,
    the circuit breaker (it answers what the guarded call answered or an error of its
    own), uuid generation (correlation ids of concurrent calls differ) and the Prometheus
    registry.  What a broker or a server answers is an event or an argument, never
    assumed to succeed.  Gauges the code keeps in seconds as floats are kept in
    nanoseconds.

    ** Not modelled

    Logging, the request log apart; the Prometheus exposition format; HTTP exchanges below
    the status and the body.  A contribution is emitted at once and
    its result arrives as a later command.  Waiting is not timed: a deadline is an event
    that may come at any moment. *)

From stdpp Require Import base gmap sets list strings.
From Stdlib Require Import ZArith Lia.

#[global] Set Default Goal Selector "!".

(** ** Machine integers

    Go's [uint64] wraps modulo 2^64, [int] is a two's complement 64-bit
    integer.  Lengths of byte slices are non-negative [int]s. *)

Definition u64 (z : Z) : Z := (z `mod` 2 ^ 64)%Z.
Definition i64 (z : Z) : Z := ((z + 2 ^ 63) `mod` 2 ^ 64 - 2 ^ 63)%Z.

Lemma u64_small z : (0 <= z < 2 ^ 64)%Z -> u64 z = z.
Proof. unfold u64. apply Z.mod_small. Qed.

Lemma u64_range z : (0 <= u64 z < 2 ^ 64)%Z.
Proof. unfold u64. apply Z.mod_pos_bound. lia. Qed.

Lemma i64_small z : (- 2 ^ 63 <= z < 2 ^ 63)%Z -> i64 z = z.
Proof. intros H. unfold i64. rewrite Z.mod_small; lia. Qed.

Lemma i64_range z : (- 2 ^ 63 <= i64 z < 2 ^ 63)%Z.
Proof.
  unfold i64. pose proof (Z.mod_pos_bound (z + 2 ^ 63) (2 ^ 64)). lia.
Qed.

(** A Go [[]byte] or [string] is a sequence of bytes; its [len] is an [int]. *)
Abbreviation bytes := string (only parsing).
Definition blen (b : bytes) : Z := Z.of_nat (String.length b).

Lemma blen_nonneg b : (0 <= blen b)%Z.
Proof. unfold blen. lia. Qed.

(** ** Computations over a mutable state

    A handler either returns, panics (the state it leaves behind is what a
    deferred recover sees), or runs out of the fuel the model gave to a
    recursion ([Stuck], which the development proves unreachable). *)

Inductive outcome (S A : Type) : Type :=
| Ret (a : A) (s : S)
| Panic (s : S)
| Stuck.
Arguments Ret {S A} a s.
Arguments Panic {S A} s.
Arguments Stuck {S A}.

Definition M (S A : Type) : Type := S -> outcome S A.

Section Monad.
Context {S : Type}.

Definition ret {A} (a : A) : M S A := fun s => Ret a s.
Definition bindM {A B} (m : M S A) (f : A -> M S B) : M S B :=
  fun s => match m s with
           | Ret a s' => f a s'
           | Panic s' => Panic s'
           | Stuck => Stuck
           end.
Definition get : M S S := fun s => Ret s s.
Definition gets {A} (f : S -> A) : M S A := fun s => Ret (f s) s.
Definition modify (f : S -> S) : M S unit := fun s => Ret tt (f s).
Definition panic {A} : M S A := fun s => Panic s.
Definition stuck {A} : M S A := fun _ => Stuck.

Fixpoint forM {X} (l : list X) (f : X -> M S unit) : M S unit :=
  match l with
  | [] => ret tt
  | x :: l' => bindM (f x) (fun _ => forM l' f)
  end.
End Monad.

Declare Scope go_scope.
Delimit Scope go_scope with go.
Notation "x ← m ; k" := (bindM m (fun x => k))
  (at level 20, m at level 100, k at level 200, only parsing) : go_scope.
Notation "' x ← m ; k" := (bindM m (fun x => match x with x => k end))
  (at level 20, x pattern, m at level 100, k at level 200, only parsing) : go_scope.
Notation "m ;; k" := (bindM m (fun _ => k))
  (at level 100, k at level 200, right associativity) : go_scope.
Notation "'when' b 'do' m" := (if b then m else ret tt)
  (at level 95, b at level 0, m at level 99) : go_scope.

(** ** Weakest preconditions

    [wp m Q R s]: from [s], [m] does not get stuck, a normal return satisfies
    [Q] and a panic satisfies [R]. *)

Definition wp {S A} (m : M S A) (Q : A -> S -> Prop) (R : S -> Prop) (s : S) : Prop :=
  match m s with
  | Ret a s' => Q a s'
  | Panic s' => R s'
  | Stuck => False
  end.

Section Wp.
Context {S : Type}.

Lemma wp_ret {A} (a : A) Q R (s : S) : Q a s -> wp (ret a) Q R s.
Proof. done. Qed.

Lemma wp_bind {A B} (m : M S A) (f : A -> M S B) Q R s :
  wp m (fun a s' => wp (f a) Q R s') R s -> wp (bindM m f) Q R s.
Proof. unfold wp, bindM. by destruct (m s). Qed.

Lemma wp_gets {A} (f : S -> A) Q R s : Q (f s) s -> wp (gets f) Q R s.
Proof. done. Qed.

Lemma wp_get Q R (s : S) : Q s s -> wp get Q R s.
Proof. done. Qed.

Lemma wp_modify f Q R (s : S) : Q tt (f s) -> wp (modify f) Q R s.
Proof. done. Qed.

Lemma wp_panic {A} (Q : A -> S -> Prop) R s : R s -> wp panic Q R s.
Proof. done. Qed.

Lemma wp_mono {A} (m : M S A) (Q Q' : A -> S -> Prop) (R R' : S -> Prop) s :
  wp m Q R s ->
  (forall a s', Q a s' -> Q' a s') -> (forall s', R s' -> R' s') ->
  wp m Q' R' s.
Proof. unfold wp. destruct (m s); naive_solver. Qed.

Lemma wp_and {A} (m : M S A) (Q Q' : A -> S -> Prop) (R R' : S -> Prop) s :
  wp m Q R s -> wp m Q' R' s ->
  wp m (fun a s' => Q a s' /\ Q' a s') (fun s' => R s' /\ R' s') s.
Proof. unfold wp. destruct (m s); naive_solver. Qed.

Lemma wp_if {A} (b : bool) (m m' : M S A) Q R s :
  (b = true -> wp m Q R s) -> (b = false -> wp m' Q R s) ->
  wp (if b then m else m') Q R s.
Proof. destruct b; auto. Qed.

(** Loop rule: an invariant of the state kept by every iteration. *)
Lemma wp_forM {X} (l : list X) (f : X -> M S unit) (I R : S -> Prop) s :
  (forall x s, x ∈ l -> I s -> wp (f x) (fun _ => I) R s) ->
  I s -> wp (forM l f) (fun _ => I) R s.
Proof.
  revert s. induction l as [|x l IH]; intros s Hstep HI; [done|].
  apply wp_bind. eapply wp_mono; [apply Hstep; [by left|done]| |done].
  intros [] s' HI'. apply IH; [|done]. intros y s'' Hy. apply Hstep. by right.
Qed.

(** A computation never gets stuck and relates its initial and final state by
    a preorder, whether it returns or panics. *)
Definition steps {A} (R : S -> S -> Prop) (m : M S A) : Prop :=
  forall s, wp m (fun _ s' => R s s') (R s) s.

Context (R : S -> S -> Prop) `{!PreOrder R}.

Lemma steps_ret {A} (a : A) : steps R (ret a).
Proof. intros s. apply wp_ret. reflexivity. Qed.

Lemma steps_gets {A} (f : S -> A) : steps R (gets f).
Proof. intros s. apply wp_gets. reflexivity. Qed.

Lemma steps_get : steps R get.
Proof. intros s. apply wp_get. reflexivity. Qed.

Lemma steps_panic {A} : steps R (panic (A := A)).
Proof. intros s. apply wp_panic. reflexivity. Qed.

Lemma steps_bind {A B} (m : M S A) (f : A -> M S B) :
  steps R m -> (forall a, steps R (f a)) -> steps R (bindM m f).
Proof.
  intros Hm Hf s. apply wp_bind. eapply wp_mono; [apply Hm| |done].
  intros a s' H1. eapply wp_mono; [apply (Hf a)| |]; cbv beta; intros; by (etrans; [exact H1|]).
Qed.

Lemma steps_if {A} (b : bool) (m m' : M S A) :
  steps R m -> steps R m' -> steps R (if b then m else m').
Proof. by destruct b. Qed.

Lemma steps_forM {X} (l : list X) (f : X -> M S unit) :
  (forall x, steps R (f x)) -> steps R (forM l f).
Proof.
  intros Hf. induction l as [|x l IH]; [apply steps_ret|].
  apply steps_bind; auto.
Qed.

Lemma steps_modify (f : S -> S) : (forall s, R s (f s)) -> steps R (modify f).
Proof. intros H s. apply wp_modify, H. Qed.

(** The same without panics: what a handler that cannot panic guarantees. *)
Definition calm {A} (m : M S A) : Prop :=
  forall s, wp m (fun _ s' => R s s') (fun _ => False) s.

Lemma calm_steps {A} (m : M S A) : calm m -> steps R m.
Proof. intros Hm s. eapply wp_mono; [apply Hm| |]; done. Qed.

Lemma calm_ret {A} (a : A) : calm (ret a).
Proof. intros s. apply wp_ret. reflexivity. Qed.

Lemma calm_gets {A} (f : S -> A) : calm (gets f).
Proof. intros s. apply wp_gets. reflexivity. Qed.

Lemma calm_modify (f : S -> S) : (forall s, R s (f s)) -> calm (modify f).
Proof. intros H s. apply wp_modify, H. Qed.

Lemma calm_bind {A B} (m : M S A) (f : A -> M S B) :
  calm m -> (forall a, calm (f a)) -> calm (bindM m f).
Proof.
  intros Hm Hf s. apply wp_bind. eapply wp_mono; [apply Hm| |done].
  intros a s' H1. eapply wp_mono; [apply (Hf a)| |done].
  cbv beta; intros. by (etrans; [exact H1|]).
Qed.

Lemma calm_forM {X} (l : list X) (f : X -> M S unit) :
  (forall x, calm (f x)) -> calm (forM l f).
Proof.
  intros Hf. induction l as [|x l IH]; [apply calm_ret|].
  apply calm_bind; auto.
Qed.

Lemma wp_calm {A B} (m : M S A) (k : A -> M S B) s (Q : B -> S -> Prop) (F : S -> Prop) :
  calm m -> (forall a s', R s s' -> wp (k a) Q F s') -> wp (bindM m k) Q F s.
Proof. intros Hm Hk. apply wp_bind. eapply wp_mono; [apply Hm|exact Hk|done]. Qed.

(** A computation that never gets stuck, specified under a condition. *)
Lemma wp_given {A} (H : Prop) (m : M S A) s (Q : A -> S -> Prop) (F : S -> Prop) :
  steps R m -> (H -> wp m Q F s) -> wp m (fun a s' => H -> Q a s') (fun s' => H -> F s') s.
Proof. intros Hs Hw. specialize (Hs s). unfold wp in *. by destruct (m s). Qed.

Lemma steps_wp {A} (m : M S A) s (Q : S -> Prop) :
  steps R m -> (forall s', R s s' -> Q s') -> wp m (fun _ => Q) Q s.
Proof. intros Hm HQ. eapply wp_mono; [apply Hm| |]; auto. Qed.
End Wp.

Create HintDb steps.
#[export] Hint Resolve calm_ret calm_gets calm_forM calm_steps : steps.
#[export] Hint Resolve steps_ret steps_gets steps_get steps_panic steps_forM : steps.

(** Walks a handler compositionally: binds, branches and matches are opened and
    the leaves are closed from the [steps] database. *)
Ltac steps_tac :=
  repeat first
    [ match goal with |- forall _, _ => intro end
    | solve [eauto with steps typeclass_instances]
    | apply steps_bind; [typeclasses eauto| |]
    | apply steps_if
    | match goal with
      | |- steps _ (match ?x with _ => _ end) => destruct x
      | |- steps _ (let _ := _ in _) => cbv zeta
      end ].

Ltac calm_tac :=
  repeat first
    [ match goal with |- forall _, _ => intro end
    | solve [eauto with steps typeclass_instances]
    | apply calm_bind; [typeclasses eauto| |]
    | match goal with
      | |- calm _ (if ?b then _ else _) => destruct b
      | |- calm _ (match ?x with _ => _ end) => destruct x
      end ].

(** Symbolic execution of one command under [wp]. *)
Ltac wp_step :=
  lazymatch goal with
  | |- wp (bindM _ _) _ _ _ => apply wp_bind
  | |- wp (ret _) _ _ _ => apply wp_ret
  | |- wp (gets _) _ _ _ => apply wp_gets
  | |- wp get _ _ _ => apply wp_get
  | |- wp (modify _) _ _ _ => apply wp_modify
  | |- wp panic _ _ _ => apply wp_panic
  end;
  cbv beta.
Ltac wp_run := repeat wp_step.

(** ** Reachability *)

Section Star.
Context {A : Type} (R : A -> A -> Prop).

Inductive star : A -> A -> Prop :=
| star_refl a : star a a
| star_snoc a b c : star a b -> R b c -> star a c.

Lemma star_inv (P : A -> Prop) a b :
  (forall x y, P x -> R x y -> P y) -> P a -> star a b -> P b.
Proof. intros Hstep Ha. induction 1; eauto. Qed.

Lemma star_trans a b c : star a b -> star b c -> star a c.
Proof. intros Hab. induction 1; eauto using star. Qed.
End Star.

(** ** Machines

    Code whose critical sections interleave is a partial step function from an event
    (one section of one caller, or what the outside does) and a state; a run is a list
    of events each of which was possible. *)

Section Machine.
Context {E S : Type} (step : E -> S -> option S).

Fixpoint drive (evs : list E) (s : S) : option S :=
  match evs with
  | [] => Some s
  | ev :: evs' => match step ev s with Some s' => drive evs' s' | None => None end
  end.

Lemma drive_app a b s : drive (a ++ b) s = match drive a s with Some s1 => drive b s1 | None => None end.
Proof. revert s. induction a as [|ev a IH]; intros s; simpl; [done|]. by destruct (step ev s). Qed.

Lemma drive_inv (I : S -> Prop) evs s s' :
  (forall ev s s', I s -> step ev s = Some s' -> I s') -> I s -> drive evs s = Some s' -> I s'.
Proof.
  intros Hstep. revert s. induction evs as [|ev evs IH]; intros s HI H; simpl in H; [by simplify_eq|].
  destruct (step ev s) as [s1|] eqn:Hs; [|done]. eauto.
Qed.

(** An invariant that holds while a counter has not wrapped around. *)
Lemma drive_inv_below (B : Z) (I : Z -> S -> Prop) evs s s' :
  (forall n ev s s', (0 <= n)%Z -> (n + 1 < B)%Z -> I n s -> step ev s = Some s' -> I (n + 1)%Z s') ->
  I 0%Z s -> (Z.of_nat (length evs) < B)%Z -> drive evs s = Some s' ->
  I (Z.of_nat (length evs)) s'.
Proof.
  intros Hstep H0 HB H.
  enough (Hg : forall n, (0 <= n)%Z -> I n s -> (n + Z.of_nat (length evs) < B)%Z ->
    I (n + Z.of_nat (length evs))%Z s') by (apply (Hg 0%Z); [lia|done|lia]).
  clear H0 HB. revert s H. induction evs as [|ev evs IH]; intros s H n Hn HI HB; simpl in H.
  - simplify_eq/=. by rewrite Z.add_0_r.
  - destruct (step ev s) as [s1|] eqn:Hs; [|done]. simpl in *.
    replace (n + Z.of_nat (Datatypes.S (length evs)))%Z with (n + 1 + Z.of_nat (length evs))%Z in * by lia.
    apply (IH s1 H); [lia| |lia]. apply (Hstep n ev s); [lia..|done|done].
Qed.
End Machine.

(** ** Generic lemmas on lists and maps *)

Lemma elem_of_suffix {A} (x : A) (l k : list A) : l `suffix_of` k -> x ∈ l -> x ∈ k.
Proof. intros [m ->] H. apply elem_of_app. by right. Qed.

Lemma size_delete_Some `{Countable K} {A} (m : gmap K A) k a :
  m !! k = Some a -> size m = S (size (delete k m)).
Proof.
  intros Hk. rewrite <- (insert_delete_id m k a) at 1 by done.
  apply map_size_insert_None, lookup_delete_eq.
Qed.

#[export] Instance List_filter_Permutation {A} (f : A -> bool) :
  Proper ((≡ₚ) ==> (≡ₚ)) (List.filter f).
Proof.
  intros l k H. induction H as [|x l k H IH|x y l|l k m H1 IH1 H2 IH2]; simpl.
  - done.
  - destruct (f x); [by constructor|done].
  - destruct (f x), (f y); try done. constructor.
  - by etrans.
Qed.
