(* ===== verification/Utf8.v ===== *)
(** * UTF-8 as Go's [unicode/utf8] decodes it

    [decode_rune] is [utf8.DecodeRuneInString], [decode_last_rune] is
    [utf8.DecodeLastRuneInString]: an invalid encoding yields U+FFFD and a width
    of one byte.  [trim_func] is [strings.TrimFunc]. *)

From stdpp Require Import base list strings.
From Stdlib Require Import NArith Lia Ascii String.
From S2P Require Import Prelude.

Local Open Scope N_scope.

Definition code (c : ascii) : N := N_of_ascii c.
Definition rune_error : N := 65533.

Definition in_range (lo hi n : N) : bool := (lo <=? n) && (n <=? hi).
Definition cont (c : ascii) : bool := in_range 128 191 (code c).

(** Bounds on the second byte, by first byte (the [acceptRanges] table). *)
Definition accept3 (b0 : N) (c : ascii) : bool :=
  if b0 =? 224 then in_range 160 191 (code c)
  else if b0 =? 237 then in_range 128 159 (code c) else cont c.
Definition accept4 (b0 : N) (c : ascii) : bool :=
  if b0 =? 240 then in_range 144 191 (code c)
  else if b0 =? 244 then in_range 128 143 (code c) else cont c.

Definition decode_rune (s : string) : N * nat :=
  match s with
  | EmptyString => (rune_error, 0%nat)
  | String c0 s1 =>
      let b0 := code c0 in
      if b0 <? 128 then (b0, 1%nat)
      else if in_range 194 223 b0 then
        match s1 with
        | String c1 _ =>
            if cont c1 then (N.land b0 31 * 64 + N.land (code c1) 63, 2%nat)
            else (rune_error, 1%nat)
        | _ => (rune_error, 1%nat)
        end
      else if in_range 224 239 b0 then
        match s1 with
        | String c1 (String c2 _) =>
            if accept3 b0 c1 && cont c2 then
              (N.land b0 15 * 4096 + N.land (code c1) 63 * 64 + N.land (code c2) 63, 3%nat)
            else (rune_error, 1%nat)
        | _ => (rune_error, 1%nat)
        end
      else if in_range 240 244 b0 then
        match s1 with
        | String c1 (String c2 (String c3 _)) =>
            if accept4 b0 c1 && cont c2 && cont c3 then
              (N.land b0 7 * 262144 + N.land (code c1) 63 * 4096
               + N.land (code c2) 63 * 64 + N.land (code c3) 63, 4%nat)
            else (rune_error, 1%nat)
        | _ => (rune_error, 1%nat)
        end
      else (rune_error, 1%nat)
  end.

Fixpoint drop (n : nat) (s : string) : string :=
  match n, s with
  | S n', String _ s' => drop n' s'
  | _, _ => s
  end.

Fixpoint take (n : nat) (s : string) : string :=
  match n, s with
  | S n', String c s' => String c (take n' s')
  | _, _ => EmptyString
  end.

(** The last rune: step back over at most three continuation bytes to a byte
    that can start a rune, and accept it only if it decodes up to the end. *)
Fixpoint find_start (k : nat) (i : nat) (s : string) : nat :=
  match k with
  | O => i
  | S k' =>
      match String.get i s with
      | Some c => if cont c then match i with O => O | S i' => find_start k' i' s end else i
      | None => i
      end
  end.

Definition decode_last_rune (s : string) : N * nat :=
  let n := String.length s in
  match n with
  | O => (rune_error, 0%nat)
  | S last =>
      let start := find_start 3 last s in
      let '(r, w) := decode_rune (drop start s) in
      if (start + w =? n)%nat then (r, w) else (rune_error, 1%nat)
  end.

Lemma decode_rune_width s : s <> EmptyString -> (1 <= (decode_rune s).2)%nat.
Proof.
  destruct s as [|c s]; [done|]. intros _. unfold decode_rune.
  repeat case_match; simpl; lia.
Qed.

Lemma decode_last_rune_width s : s <> EmptyString -> (1 <= (decode_last_rune s).2)%nat.
Proof.
  intros Hs. unfold decode_last_rune. destruct (String.length s) as [|n] eqn:E.
  - destruct s; [done|discriminate].
  - destruct (decode_rune _) as [r w] eqn:D.
    destruct (Nat.eqb_spec (find_start 3 n s + w) (S n)) as [He|]; simpl; [|lia].
    assert (find_start 3 n s <= n)%nat; [|lia].
    assert (Hle : forall k i, (find_start k i s <= i)%nat); [|apply Hle].
    induction k as [|k IH]; intros i; simpl; [done|].
    destruct (String.get i s); [|done]. destruct (cont _); [|done].
    destruct i as [|i]; [done|]. specialize (IH i). lia.
Qed.

(** [strings.TrimFunc]: fuel is the length, every step removes a byte. *)
Fixpoint trim_left (fuel : nat) (f : N -> bool) (s : string) : string :=
  match fuel with
  | O => s
  | S k =>
      match s with
      | EmptyString => EmptyString
      | _ => let '(r, w) := decode_rune s in if f r then trim_left k f (drop w s) else s
      end
  end.

Fixpoint trim_right (fuel : nat) (f : N -> bool) (s : string) : string :=
  match fuel with
  | O => s
  | S k =>
      match s with
      | EmptyString => EmptyString
      | _ => let '(r, w) := decode_last_rune s in
             if f r then trim_right k f (take (String.length s - w) s) else s
      end
  end.

Definition trim_func (f : N -> bool) (s : string) : string :=
  let l := trim_left (String.length s) f s in trim_right (String.length l) f l.

(** ** Fuel is enough: the trimmed string has no trimmable rune at either end *)

Lemma length_drop n s : String.length (drop n s) = (String.length s - n)%nat.
Proof. revert s. induction n; intros [|c s]; simpl; auto. Qed.

Lemma length_take_le n s : (String.length (take n s) <= n)%nat.
Proof. revert s. induction n; intros [|c s]; simpl; auto with arith. Qed.

Lemma trim_left_done fuel f s :
  (String.length s <= fuel)%nat ->
  trim_left fuel f s = EmptyString \/ f (decode_rune (trim_left fuel f s)).1 = false.
Proof.
  revert s. induction fuel as [|k IH]; intros s Hlen.
  - destruct s; [by left|simpl in Hlen; lia].
  - destruct s as [|c s]; [by left|]. cbn [trim_left].
    pose proof (decode_rune_width (String c s) ltac:(done)) as Hw.
    destruct (decode_rune (String c s)) as [r w] eqn:D. simpl in Hw.
    destruct (f r) eqn:F.
    + apply IH. rewrite length_drop. cbn [String.length] in *. lia.
    + right. by rewrite D.
Qed.

Lemma trim_right_done fuel f s :
  (String.length s <= fuel)%nat ->
  trim_right fuel f s = EmptyString \/ f (decode_last_rune (trim_right fuel f s)).1 = false.
Proof.
  revert s. induction fuel as [|k IH]; intros s Hlen.
  - destruct s; [by left|simpl in Hlen; lia].
  - destruct s as [|c s]; [by left|]. cbn [trim_right].
    pose proof (decode_last_rune_width (String c s) ltac:(done)) as Hw.
    destruct (decode_last_rune (String c s)) as [r w] eqn:D. simpl in Hw.
    destruct (f r) eqn:F.
    + apply IH. pose proof (length_take_le (String.length (String c s) - w) (String c s)).
      cbn [String.length] in *. lia.
    + right. by rewrite D.
Qed.

(** ** Byte strings *)

#[local] Arguments String.append !s1 s2 /.

Lemma string_app_assoc (a b c : string) : (a +:+ b) +:+ c = a +:+ (b +:+ c).
Proof. induction a as [|x a IH]; [done|]. simpl. by f_equal. Qed.
Lemma string_app_nil_r (a : string) : a +:+ EmptyString = a.
Proof. induction a as [|x a IH]; [done|]. simpl. by f_equal. Qed.
Lemma length_string_app (a b : string) : String.length (a +:+ b) = (String.length a + String.length b)%nat.
Proof. induction a as [|x a IH]; simpl; [done|]. by f_equal. Qed.
Lemma blen_app a b : blen (a +:+ b) = (blen a + blen b)%Z.
Proof. unfold blen. rewrite length_string_app. lia. Qed.
Lemma string_take_app a b : take (String.length a) (a +:+ b) = a.
Proof. induction a as [|x a IH]; simpl; [by destruct b|]. by f_equal. Qed.
Lemma string_drop_app a b : drop (String.length a) (a +:+ b) = b.
Proof. induction a as [|x a IH]; simpl; [by destruct b|]. done. Qed.
Lemma string_take_drop n s : take n s +:+ drop n s = s.
Proof. revert s. induction n as [|n IH]; intros [|x s]; simpl; try done. by f_equal. Qed.
Lemma string_take_all n b : (String.length b <= n)%nat -> take n b = b.
Proof. revert n. induction b as [|c b IH]; intros [|n] H; simpl in *; [done..|lia|]. f_equal. apply IH. lia. Qed.
Lemma length_string_min n b : String.length (take n b) = Nat.min n (String.length b).
Proof. revert n. induction b as [|c b IH]; intros [|n]; simpl; [done..|]. by rewrite IH. Qed.
Lemma length_string_take n s : (n <= String.length s)%nat -> String.length (take n s) = n.
Proof. intros H. rewrite length_string_min. lia. Qed.
Lemma blen_to_nat s : Z.to_nat (blen s) = String.length s.
Proof. unfold blen. lia. Qed.
