(* ===== verification/Json.v ===== *)
(** * The part of Go's [encoding/json] the service uses

    [encode_string] and [print] are what [json.Marshal] writes for strings and
    for objects of strings, integers and booleans; [parse] is the syntax check
    and decoding [json.Unmarshal] performs, with Go's nesting limit.  Strings are
    byte sequences, decoded with [Utf8.decode_rune]. *)

From stdpp Require Import base list strings pretty.
From Stdlib Require Import ZArith NArith Ascii String.
From S2P Require Import Prelude Utf8.

Local Open Scope string_scope.

Inductive json :=
| JNull
| JBool (b : bool)
| JNum (literal : string)
| JStr (s : string)
| JArr (l : list json)
| JObj (l : list (string * json)).

(** ** Encoding *)

Definition ch (n : N) : ascii := ascii_of_N n.
Definition chr (n : N) : string := String (ch n) "".

Definition hex_digit (n : N) : ascii :=
  ch (if (n <? 10)%N then 48 + n else 87 + n)%N.

Definition html_safe (b : N) : bool :=
  (32 <=? b)%N && (b <? 128)%N
  && negb ((b =? 34) || (b =? 92) || (b =? 60) || (b =? 62) || (b =? 38))%N.

Definition escape_byte (b : N) : string :=
  if html_safe b then chr b
  else if (b =? 34)%N || (b =? 92)%N then String (ch 92) (chr b)
  else if (b =? 8)%N then String (ch 92) "b"
  else if (b =? 12)%N then String (ch 92) "f"
  else if (b =? 10)%N then String (ch 92) "n"
  else if (b =? 13)%N then String (ch 92) "r"
  else if (b =? 9)%N then String (ch 92) "t"
  else String (ch 92) ("u00" +:+ String (hex_digit (b / 16)) (String (hex_digit (b mod 16)) "")).

(** [appendString] with HTML escaping, the default of [json.Marshal]. *)
Fixpoint escape (fuel : nat) (s : string) : string :=
  match fuel, s with
  | S k, String c s' =>
      if (code c <? 128)%N then escape_byte (code c) +:+ escape k s'
      else
        let '(r, w) := decode_rune s in
        if (r =? rune_error)%N && (w =? 1)%nat then
          String (ch 92) "ufffd" +:+ escape k (drop w s)
        else if (r =? 8232)%N || (r =? 8233)%N then
          String (ch 92) "u202" +:+ String (hex_digit (N.land r 15)) (escape k (drop w s))
        else take w s +:+ escape k (drop w s)
  | _, _ => ""
  end.

Definition quote : string := chr 34.
Definition encode_string (s : string) : string :=
  quote +:+ escape (String.length s) s +:+ quote.

Fixpoint join (sep : string) (l : list string) : string :=
  match l with
  | [] => ""
  | [x] => x
  | x :: l' => x +:+ sep +:+ join sep l'
  end.

Fixpoint print (v : json) : string :=
  match v with
  | JNull => "null"
  | JBool true => "true"
  | JBool false => "false"
  | JNum lit => lit
  | JStr s => encode_string s
  | JArr l => "[" +:+ join "," (map print l) +:+ "]"
  | JObj l => "{" +:+ join "," (map (fun kv => encode_string kv.1 +:+ ":" +:+ print kv.2) l) +:+ "}"
  end.

Definition JInt (z : Z) : json := JNum (pretty z).

(** ** Decoding *)

Definition is_ws (c : ascii) : bool :=
  let n := code c in ((n =? 32) || (n =? 9) || (n =? 10) || (n =? 13))%N.

Fixpoint skip_ws (s : string) : string :=
  match s with
  | String c s' => if is_ws c then skip_ws s' else s
  | "" => ""
  end.

Definition is_digit (c : ascii) : bool := in_range 48 57 (code c).

Fixpoint span_digits (s : string) : string * string :=
  match s with
  | String c s' => if is_digit c then let '(d, r) := span_digits s' in (String c d, r) else ("", s)
  | "" => ("", "")
  end.

(** -? (0 | [1-9][0-9]* ) (. [0-9]+ )? ( [eE] [+-]? [0-9]+ )?, part by part. *)
Definition sign_part (s : string) : string * string :=
  match s with String "-" r => ("-", r) | _ => ("", s) end.
Definition int_part (s : string) : string * string :=
  match s with String "0" r => ("0", r) | _ => span_digits s end.
Definition frac_part (s : string) : option (string * string) :=
  match s with
  | String "." r => let '(d, r') := span_digits r in
                    if String.eqb d "" then None else Some ("." +:+ d, r')
  | _ => Some ("", s)
  end.
Definition exp_part (s : string) : option (string * string) :=
  match s with
  | String c r =>
      if (code c =? 101)%N || (code c =? 69)%N then
        let '(es, r1) := match r with
                         | String "+" q => ("+", q)
                         | String "-" q => ("-", q)
                         | _ => ("", r) end in
        let '(d, r2) := span_digits r1 in
        if String.eqb d "" then None else Some (String c es +:+ d, r2)
      else Some ("", s)
  | "" => Some ("", "")
  end.
Definition parse_number (s : string) : option (string * string) :=
  let '(sg, s1) := sign_part s in
  let '(ip, s2) := int_part s1 in
  if String.eqb ip "" then None
  else match frac_part s2 with
       | None => None
       | Some (fp, s3) =>
           match exp_part s3 with
           | None => None
           | Some (ep, s4) => Some (sg +:+ ip +:+ fp +:+ ep, s4)
           end
       end.

Definition hex_val (c : ascii) : option N :=
  let n := code c in
  if in_range 48 57 n then Some (n - 48)%N
  else if in_range 97 102 n then Some (n - 87)%N
  else if in_range 65 70 n then Some (n - 55)%N
  else None.

Definition get_u4 (s : string) : option (N * string) :=
  match s with
  | String a (String b (String c (String d r))) =>
      match hex_val a, hex_val b, hex_val c, hex_val d with
      | Some x, Some y, Some z, Some w => Some (x * 4096 + y * 256 + z * 16 + w, r)%N
      | _, _, _, _ => None
      end
  | _ => None
  end.

(** [utf8.AppendRune] for a code point that is not a surrogate. *)
Definition encode_rune (r : N) : string :=
  if (r <? 128)%N then chr r
  else if (r <? 2048)%N then chr (192 + r / 64) +:+ chr (128 + r mod 64)
  else if (r <? 65536)%N then
    chr (224 + r / 4096) +:+ chr (128 + (r / 64) mod 64) +:+ chr (128 + r mod 64)
  else chr (240 + r / 262144) +:+ chr (128 + (r / 4096) mod 64)
       +:+ chr (128 + (r / 64) mod 64) +:+ chr (128 + r mod 64).

(** An escaped UTF-16 code unit: a valid pair is combined, a lone surrogate
    becomes U+FFFD and the second escape is read again on its own. *)
Definition unescape_u (r : N) (rest : string) : string * string :=
  if in_range 55296 57343 r then
    match rest with
    | String "\" (String "u" r1) =>
        match get_u4 r1 with
        | Some (r2, rest') =>
            if in_range 55296 56319 r && in_range 56320 57343 r2
            then (encode_rune ((r - 55296) * 1024 + (r2 - 56320) + 65536)%N, rest')
            else (encode_rune rune_error, rest)
        | None => (encode_rune rune_error, rest)
        end
    | _ => (encode_rune rune_error, rest)
    end
  else (encode_rune r, rest).

Definition simple_escape (c : ascii) : option string :=
  let n := code c in
  if ((n =? 34) || (n =? 92) || (n =? 47))%N then Some (String c "")
  else if (n =? 98)%N then Some (chr 8)
  else if (n =? 102)%N then Some (chr 12)
  else if (n =? 110)%N then Some (chr 10)
  else if (n =? 114)%N then Some (chr 13)
  else if (n =? 116)%N then Some (chr 9)
  else None.

(** The body of a string literal, after its opening quote. *)
Fixpoint parse_chars (fuel : nat) (s : string) : option (string * string) :=
  match fuel, s with
  | S k, String c s' =>
      let n := code c in
      if (n =? 34)%N then Some ("", s')
      else if (n =? 92)%N then
        match s' with
        | String "u" r =>
            match get_u4 r with
            | None => None
            | Some (u, r') =>
                let '(out, rest) := unescape_u u r' in
                match parse_chars k rest with
                | Some (t, q) => Some (out +:+ t, q)
                | None => None
                end
            end
        | String e r =>
            match simple_escape e with
            | None => None
            | Some out =>
                match parse_chars k r with
                | Some (t, q) => Some (out +:+ t, q)
                | None => None
                end
            end
        | "" => None
        end
      else if (n <? 32)%N then None
      else
        let '(r, w) := decode_rune s in
        let out := if (n <? 128)%N then String c "" else encode_rune r in
        match parse_chars k (drop w s) with
        | Some (t, q) => Some (out +:+ t, q)
        | None => None
        end
  | _, _ => None
  end.

Definition parse_string (s : string) : option (string * string) :=
  match s with
  | String c s' => if (code c =? 34)%N then parse_chars (S (String.length s')) s' else None
  | "" => None
  end.

Definition expect (lit s : string) : option string :=
  if String.prefix lit s then Some (drop (String.length lit) s) else None.

(** Go refuses values nested deeper than this. *)
Definition max_nesting_depth : nat := N.to_nat 10000.

Fixpoint parse_value (fuel depth : nat) (s : string) : option (json * string) :=
  match fuel with
  | O => None
  | S k =>
      match skip_ws s with
      | "" => None
      | String c r as s0 =>
          let n := code c in
          if (n =? 110)%N then rest ← expect "null" s0; Some (JNull, rest)
          else if (n =? 116)%N then rest ← expect "true" s0; Some (JBool true, rest)
          else if (n =? 102)%N then rest ← expect "false" s0; Some (JBool false, rest)
          else if (n =? 34)%N then '(str, rest) ← parse_string s0; Some (JStr str, rest)
          else if (n =? 91)%N then
            match depth with
            | O => None
            | S d =>
                match skip_ws r with
                | String "]" rest => Some (JArr [], rest)
                | _ => '(l, rest) ← parse_elems k d r; Some (JArr l, rest)
                end
            end
          else if (n =? 123)%N then
            match depth with
            | O => None
            | S d =>
                match skip_ws r with
                | String "}" rest => Some (JObj [], rest)
                | _ => '(l, rest) ← parse_members k d r; Some (JObj l, rest)
                end
            end
          else '(lit, rest) ← parse_number s0; Some (JNum lit, rest)
      end
  end
with parse_elems (fuel depth : nat) (s : string) : option (list json * string) :=
  match fuel with
  | O => None
  | S k =>
      '(v, r) ← parse_value k depth s;
      match skip_ws r with
      | String "]" rest => Some ([v], rest)
      | String "," rest => '(l, q) ← parse_elems k depth rest; Some (v :: l, q)
      | _ => None
      end
  end
with parse_members (fuel depth : nat) (s : string) : option (list (string * json) * string) :=
  match fuel with
  | O => None
  | S k =>
      '(key, r) ← parse_string (skip_ws s);
      match skip_ws r with
      | String ":" r1 =>
          '(v, r2) ← parse_value k depth r1;
          match skip_ws r2 with
          | String "}" rest => Some ([(key, v)], rest)
          | String "," rest => '(l, q) ← parse_members k depth rest; Some ((key, v) :: l, q)
          | _ => None
          end
      | _ => None
      end
  end.

(** A whole document: one value surrounded by white space.  Every recursive call
    consumes a byte or descends one level, so twice the length is enough fuel. *)
Definition parse (s : string) : option json :=
  '(v, rest) ← parse_value (2 * String.length s + 2) max_nesting_depth s;
  match skip_ws rest with "" => Some v | _ => None end.
