(* ===== verification/JsonRound.v ===== *)
(** * What is printed is read back

    [parse] after [print] is the identity on values whose strings are valid UTF-8 and
    whose numbers are integers; a string that is not valid reads back with U+FFFD for
    each invalid byte ([coerce]), which is what encoding/json does to it. *)

From stdpp Require Import base list sets strings pretty.
From Stdlib Require Import ZArith NArith Ascii String Lia Zify.
From S2P Require Import Prelude Utf8 Json.

Local Open Scope string_scope.

#[local] Arguments String.append !s1 s2 /.

(** ** Runes *)

Lemma land_mod a k : N.land a (N.ones k) = (a mod 2 ^ k)%N.
Proof. apply N.land_ones. Qed.

Lemma ch_code c : ch (code c) = c.
Proof. apply ascii_N_embedding. Qed.

Lemma in_range_spec lo hi n : in_range lo hi n = true -> (lo <= n <= hi)%N.
Proof. unfold in_range. rewrite andb_true_iff, !N.leb_le. done. Qed.

(** A sequence that decodes is the encoding of its rune. *)
Lemma encode_two b0 b1 :
  (194 <= b0 <= 223)%N -> (128 <= b1 <= 191)%N ->
  encode_rune (N.land b0 31 * 64 + N.land b1 63) = chr b0 +:+ chr b1.
Proof.
  intros H0 H1. change 31%N with (N.ones 5). change 63%N with (N.ones 6). rewrite !land_mod.
  change (2 ^ 5)%N with 32%N. change (2 ^ 6)%N with 64%N.
  assert (E0 : (b0 mod 32 = b0 - 192)%N) by (symmetry; apply (N.mod_unique b0 32 6); lia).
  assert (E1 : (b1 mod 64 = b1 - 128)%N) by (symmetry; apply (N.mod_unique b1 64 2); lia).
  rewrite E0, E1. unfold encode_rune.
  destruct (N.ltb_spec ((b0 - 192) * 64 + (b1 - 128)) 128); [lia|].
  destruct (N.ltb_spec ((b0 - 192) * 64 + (b1 - 128)) 2048); [|lia].
  f_equal; f_equal.
  - rewrite <- (N.div_unique ((b0 - 192) * 64 + (b1 - 128)) 64 (b0 - 192) (b1 - 128)); lia.
  - rewrite <- (N.mod_unique ((b0 - 192) * 64 + (b1 - 128)) 64 (b0 - 192) (b1 - 128)); lia.
Qed.

Lemma digits64_div a b : (b < 64)%N -> ((a * 64 + b) / 64 = a)%N.
Proof. intros H. symmetry. apply (N.div_unique _ 64 a b); lia. Qed.
Lemma digits64_mod a b : (b < 64)%N -> ((a * 64 + b) mod 64 = b)%N.
Proof. intros H. symmetry. apply (N.mod_unique _ 64 a b); lia. Qed.

Lemma encode_three b0 b1 b2 :
  (224 <= b0 <= 239)%N -> (128 <= b1 <= 191)%N -> (128 <= b2 <= 191)%N -> (b0 = 224 -> 160 <= b1)%N ->
  encode_rune (N.land b0 15 * 4096 + N.land b1 63 * 64 + N.land b2 63) = chr b0 +:+ chr b1 +:+ chr b2.
Proof.
  intros H0 H1 H2 Hlow. change 15%N with (N.ones 4). change 63%N with (N.ones 6). rewrite !land_mod.
  change (2 ^ 4)%N with 16%N. change (2 ^ 6)%N with 64%N.
  assert (E0 : (b0 mod 16 = b0 - 224)%N) by (symmetry; apply (N.mod_unique b0 16 14); lia).
  assert (E1 : (b1 mod 64 = b1 - 128)%N) by (symmetry; apply (N.mod_unique b1 64 2); lia).
  assert (E2 : (b2 mod 64 = b2 - 128)%N) by (symmetry; apply (N.mod_unique b2 64 2); lia).
  rewrite E0, E1, E2. set (x := (b0 - 224)%N). set (y := (b1 - 128)%N). set (z := (b2 - 128)%N).
  replace (x * 4096 + y * 64 + z)%N with ((x * 64 + y) * 64 + z)%N by lia.
  assert (Hb : (2048 <= (x * 64 + y) * 64 + z < 65536)%N).
  { subst x y z. destruct (decide (b0 = 224%N)) as [->|]; [specialize (Hlow eq_refl)|]; lia. }
  unfold encode_rune.
  destruct (N.ltb_spec ((x * 64 + y) * 64 + z) 128); [lia|].
  destruct (N.ltb_spec ((x * 64 + y) * 64 + z) 2048); [lia|].
  destruct (N.ltb_spec ((x * 64 + y) * 64 + z) 65536); [|lia].
  change 4096%N with (64 * 64)%N. rewrite <- N.Div0.div_div, !digits64_div, !digits64_mod by lia.
  f_equal; [|f_equal]; f_equal; lia.
Qed.

Lemma encode_four b0 b1 b2 b3 :
  (240 <= b0 <= 244)%N -> (128 <= b1 <= 191)%N -> (128 <= b2 <= 191)%N -> (128 <= b3 <= 191)%N ->
  (b0 = 240 -> 144 <= b1)%N ->
  encode_rune (N.land b0 7 * 262144 + N.land b1 63 * 4096 + N.land b2 63 * 64 + N.land b3 63)
  = chr b0 +:+ chr b1 +:+ chr b2 +:+ chr b3.
Proof.
  intros H0 H1 H2 H3 Hlow. change 7%N with (N.ones 3). change 63%N with (N.ones 6). rewrite !land_mod.
  change (2 ^ 3)%N with 8%N. change (2 ^ 6)%N with 64%N.
  assert (E0 : (b0 mod 8 = b0 - 240)%N) by (symmetry; apply (N.mod_unique b0 8 30); lia).
  assert (E1 : (b1 mod 64 = b1 - 128)%N) by (symmetry; apply (N.mod_unique b1 64 2); lia).
  assert (E2 : (b2 mod 64 = b2 - 128)%N) by (symmetry; apply (N.mod_unique b2 64 2); lia).
  assert (E3 : (b3 mod 64 = b3 - 128)%N) by (symmetry; apply (N.mod_unique b3 64 2); lia).
  rewrite E0, E1, E2, E3. set (w := (b0 - 240)%N). set (x := (b1 - 128)%N). set (y := (b2 - 128)%N). set (z := (b3 - 128)%N).
  replace (w * 262144 + x * 4096 + y * 64 + z)%N with (((w * 64 + x) * 64 + y) * 64 + z)%N by lia.
  assert (Hb : (65536 <= ((w * 64 + x) * 64 + y) * 64 + z)%N).
  { subst w x y z. destruct (decide (b0 = 240%N)) as [->|]; [specialize (Hlow eq_refl)|]; lia. }
  unfold encode_rune.
  destruct (N.ltb_spec (((w * 64 + x) * 64 + y) * 64 + z) 128); [lia|].
  destruct (N.ltb_spec (((w * 64 + x) * 64 + y) * 64 + z) 2048); [lia|].
  destruct (N.ltb_spec (((w * 64 + x) * 64 + y) * 64 + z) 65536); [lia|].
  change 262144%N with (64 * 64 * 64)%N. change 4096%N with (64 * 64)%N.
  rewrite <- !N.Div0.div_div, !digits64_div, !digits64_mod by lia.
  f_equal; [|f_equal; [|f_equal]]; f_equal; lia.
Qed.

(** What decoding looked at: a valid sequence, whatever follows it, or one byte. *)
Lemma decode_rune_cases c s r w :
  decode_rune (String c s) = (r, w) ->
  (r = rune_error /\ w = 1%nat)
  \/ (encode_rune r = take w (String c s) /\ (1 <= w <= S (String.length s))%nat
      /\ forall rest, decode_rune (take w (String c s) +:+ rest) = (r, w)).
Proof.
  unfold decode_rune. cbv zeta. destruct (N.ltb_spec (code c) 128) as [Hc|Hc].
  { intros [= <- <-]. right. simpl. split_and!; [|lia|lia|].
    - unfold encode_rune. destruct (N.ltb_spec (code c) 128); [|lia]. unfold chr. by rewrite ch_code.
    - intros rest. destruct (N.ltb_spec (code c) 128); [done|lia]. }
  destruct (in_range 194 223 (code c)) eqn:H2.
  { destruct s as [|c1 s]; [intros [= <- <-]; by left|].
    destruct (cont c1) eqn:H1; [|intros [= <- <-]; by left]. intros [= <- <-]. right.
    split_and!; [|simpl; lia|simpl; lia|].
    - rewrite encode_two by (by apply in_range_spec). unfold chr. rewrite !ch_code. done.
    - intros rest. simpl. destruct (N.ltb_spec (code c) 128); [lia|]. by rewrite H2, H1. }
  destruct (in_range 224 239 (code c)) eqn:H3.
  { destruct s as [|c1 [|c2 s]]; [intros [= <- <-]; by left..|].
    destruct (accept3 (code c) c1 && cont c2) eqn:Ha; [|intros [= <- <-]; by left]. intros [= <- <-]. right.
    split_and!; [|simpl; lia|simpl; lia|].
    - apply andb_true_iff in Ha as [Ha1 Ha2]. apply in_range_spec in H3, Ha2.
      assert (Hb : (128 <= code c1 <= 191)%N /\ (code c = 224 -> 160 <= code c1)%N).
      { unfold accept3 in Ha1. destruct (N.eqb_spec (code c) 224); [apply in_range_spec in Ha1; lia|].
        destruct (N.eqb_spec (code c) 237); apply in_range_spec in Ha1; lia. }
      rewrite encode_three by tauto. unfold chr. rewrite !ch_code. done.
    - intros rest. simpl. destruct (N.ltb_spec (code c) 128); [lia|]. by rewrite H2, H3, Ha. }
  destruct (in_range 240 244 (code c)) eqn:H4; [|intros [= <- <-]; by left].
  destruct s as [|c1 [|c2 [|c3 s]]]; [intros [= <- <-]; by left..|].
  destruct (accept4 (code c) c1 && cont c2 && cont c3) eqn:Ha; [|intros [= <- <-]; by left].
  intros [= <- <-]. right. split_and!; [|simpl; lia|simpl; lia|].
  - apply andb_true_iff in Ha as [[Ha1 Ha2]%andb_true_iff Ha3]. apply in_range_spec in H4, Ha2, Ha3.
    assert (Hb : (128 <= code c1 <= 191)%N /\ (code c = 240 -> 144 <= code c1)%N).
    { unfold accept4 in Ha1. destruct (N.eqb_spec (code c) 240); [apply in_range_spec in Ha1; lia|].
      destruct (N.eqb_spec (code c) 244); apply in_range_spec in Ha1; lia. }
    rewrite encode_four by tauto. unfold chr. rewrite !ch_code. done.
  - intros rest. simpl. destruct (N.ltb_spec (code c) 128); [lia|]. by rewrite H2, H3, H4, Ha.
Qed.

(** ** Strings *)

(** Each invalid byte becomes U+FFFD. *)
Fixpoint coerce (fuel : nat) (s : string) : string :=
  match fuel, s with
  | S k, String _ _ => let '(r, w) := decode_rune s in encode_rune r +:+ coerce k (drop w s)
  | _, _ => ""
  end.
Definition utf8_valid (s : string) : bool := String.eqb (coerce (String.length s) s) s.

(** Reading one byte of plain text and its escapes. *)
Definition consed (c : ascii) (res : option (string * string)) : option (string * string) :=
  match res with Some (t, q) => Some (String c t, q) | None => None end.

Lemma parse_escaped c k rest :
  (code c <? 128)%N = true ->
  parse_chars (S k) (escape_byte (code c) +:+ rest) = consed c (parse_chars k rest).
Proof. destruct c as [[] [] [] [] [] [] [] []]; try done. Qed.

Lemma drop_take_app w s rest : (w <= String.length s)%nat -> drop w (take w s +:+ rest) = rest.
Proof.
  intros H. rewrite <- (length_string_take w s H) at 1. apply string_drop_app.
Qed.

Definition prefixed (p : string) (res : option (string * string)) : option (string * string) :=
  match res with Some (t, q) => Some (p +:+ t, q) | None => None end.

Lemma parse_fffd k rest :
  parse_chars (S k) (String (ch 92) ("ufffd" +:+ rest)) = prefixed (encode_rune rune_error) (parse_chars k rest).
Proof. done. Qed.

Lemma parse_separator r k rest :
  (r =? 8232)%N || (r =? 8233)%N = true ->
  parse_chars (S k) (String (ch 92) ("u202" +:+ String (hex_digit (N.land r 15)) rest))
  = prefixed (encode_rune r) (parse_chars k rest).
Proof. intros [->%N.eqb_eq| ->%N.eqb_eq]%orb_true_iff; done. Qed.

Lemma parse_plain c s r w k rest :
  (code c <? 128)%N = false -> (1 <= w <= S (String.length s))%nat ->
  decode_rune (take w (String c s) +:+ rest) = (r, w) ->
  parse_chars (S k) (take w (String c s) +:+ rest) = prefixed (encode_rune r) (parse_chars k rest).
Proof.
  intros Hc Hw Hd. assert (Hdrop : drop w (take w (String c s) +:+ rest) = rest) by (apply drop_take_app; simpl; lia).
  destruct w as [|w]; [lia|]. cbn [take] in *. simpl in *.
  apply N.ltb_ge in Hc as Hc'.
  destruct (N.eqb_spec (code c) 34); [lia|]. destruct (N.eqb_spec (code c) 92); [lia|].
  destruct (N.ltb_spec (code c) 32); [lia|]. rewrite Hd, Hc. simpl. by rewrite Hdrop.
Qed.

(** A printed string is read back, invalid bytes coerced. *)
Lemma parse_escape n s k rest :
  (String.length s <= n)%nat -> (String.length (escape n s) < k)%nat ->
  parse_chars k (escape n s +:+ quote +:+ rest) = Some (coerce n s, rest).
Proof.
  revert s k. induction n as [|n IH]; intros s k Hs Hk.
  { destruct s; [|simpl in Hs; lia]. destruct k; [simpl in Hk; lia|]. done. }
  destruct s as [|c s]; [destruct k; [simpl in Hk; lia|done]|].
  cbn [escape coerce] in *. simpl in Hs.
  destruct (code c <? 128)%N eqn:Hc.
  { rewrite string_app_assoc, length_string_app in *. destruct k as [|k]; [lia|].
    assert (Hpos : (1 <= String.length (escape_byte (code c)))%nat).
    { unfold escape_byte. repeat case_match; simpl; lia. }
    rewrite parse_escaped, IH by (done || lia). simpl. unfold decode_rune. rewrite Hc. simpl.
    unfold encode_rune. rewrite Hc. unfold chr. by rewrite ch_code. }
  destruct (decode_rune (String c s)) as [r w] eqn:D.
  assert (Hrest : forall k', (String.length (escape n (drop w (String c s))) < k')%nat -> (1 <= w)%nat ->
    parse_chars k' (escape n (drop w (String c s)) +:+ quote +:+ rest) = Some (coerce n (drop w (String c s)), rest)).
  { intros k' Hk' Hw. apply IH; [|done]. rewrite length_drop. simpl. lia. }
  destruct ((r =? rune_error)%N && (w =? 1)%nat) eqn:He.
  { apply andb_true_iff in He as [->%N.eqb_eq ->%Nat.eqb_eq].
    rewrite (string_app_assoc (String _ _)), length_string_app in *. simpl in Hk. destruct k as [|k]; [lia|].
    change (parse_chars (S k) (String (ch 92) ("ufffd" +:+ (escape n (drop 1 (String c s)) +:+ quote +:+ rest)))
      = Some (encode_rune rune_error +:+ coerce n (drop 1 (String c s)), rest)).
    rewrite parse_fffd. rewrite (Hrest k) by (simpl; lia). done. }
  destruct (decode_rune_cases c s r w D) as [[-> ->]|(Henc & Hw & Hdec)]; [done|].
  destruct ((r =? 8232)%N || (r =? 8233)%N) eqn:Hs2.
  { rewrite length_string_app in Hk. simpl in Hk. destruct k as [|k]; [lia|].
    change (parse_chars (S k) (String (ch 92) ("u202" +:+ String (hex_digit (N.land r 15))
      (escape n (drop w (String c s)) +:+ quote +:+ rest))) = Some (encode_rune r +:+ coerce n (drop w (String c s)), rest)).
    rewrite parse_separator by done. rewrite Hrest by lia. done. }
  rewrite string_app_assoc. rewrite length_string_app in Hk. destruct k as [|k]; [lia|].
  rewrite (length_string_take w (String c s)) in Hk by (simpl; lia).
  rewrite (parse_plain c s r w) by (done || apply Hdec). rewrite Hrest by lia. done.
Qed.

Lemma parse_encoded s rest :
  parse_string (encode_string s +:+ rest) = Some (coerce (String.length s) s, rest).
Proof.
  unfold encode_string. rewrite !string_app_assoc.
  set (body := escape (String.length s) s +:+ quote +:+ rest).
  change (parse_chars (S (String.length body)) body = Some (coerce (String.length s) s, rest)).
  apply parse_escape; [lia|]. unfold body. rewrite length_string_app. lia.
Qed.

Lemma parse_encoded_valid s rest :
  utf8_valid s = true -> parse_string (encode_string s +:+ rest) = Some (s, rest).
Proof. intros Hv%String.eqb_eq. by rewrite parse_encoded, Hv. Qed.

(** ** Integers *)

Fixpoint all_digits (s : string) : bool :=
  match s with "" => true | String c s' => is_digit c && all_digits s' end.
Definition int_body (s : string) : bool :=
  String.eqb s "0" || match s with String c s' => in_range 49 57 (code c) && all_digits s' | "" => false end.
Definition int_shape (lit : string) : bool :=
  match lit with String "-" r => int_body r | _ => int_body lit end.

(** What may follow a number without becoming part of it. *)
Definition delimited (rest : string) : bool :=
  match rest with
  | String c _ => negb (is_digit c) && negb (existsb (N.eqb (code c)) [46; 69; 101]%N)
  | "" => true
  end.

Lemma span_digits_app s rest :
  all_digits s = true -> delimited rest = true -> span_digits (s +:+ rest) = (s, rest).
Proof.
  intros Hs Hr. induction s as [|c s IH]; simpl in *.
  - destruct rest as [|c rest]; [done|]. simpl in *. apply andb_true_iff in Hr as [Hr _].
    destruct (is_digit c); [done|]. done.
  - apply andb_true_iff in Hs as [-> Hs]. by rewrite IH.
Qed.

Lemma no_fraction rest : delimited rest = true -> frac_part rest = Some ("", rest) /\ exp_part rest = Some ("", rest).
Proof.
  destruct rest as [|c rest]; [done|]. simpl. rewrite andb_true_iff, !negb_true_iff. intros [_ Hr].
  apply orb_false_iff in Hr as [H1 [H2 [H3 _]%orb_false_iff]%orb_false_iff]. split; [|by rewrite H3, H2].
  by destruct c as [[] [] [] [] [] [] [] []].
Qed.

Lemma int_part_app s rest :
  int_body s = true -> delimited rest = true -> int_part (s +:+ rest) = (s, rest).
Proof.
  unfold int_body. intros [->%String.eqb_eq|Hs]%orb_true_iff Hr; [done|].
  destruct s as [|c s]; [done|]. apply andb_true_iff in Hs as [Hc Hs].
  assert (E : int_part (String c s +:+ rest) = span_digits (String c s +:+ rest)).
  { destruct c as [[] [] [] [] [] [] [] []]; done. }
  rewrite E. apply span_digits_app; [|done]. simpl. rewrite Hs, andb_true_r.
  apply in_range_spec in Hc. unfold is_digit, in_range. rewrite andb_true_iff, !N.leb_le. lia.
Qed.

Lemma int_body_start s : int_body s = true -> exists c s', s = String c s' /\ is_digit c = true.
Proof.
  unfold int_body. intros [->%String.eqb_eq|Hs]%orb_true_iff; [by eexists _, _|].
  destruct s as [|c s]; [done|]. apply andb_true_iff in Hs as [Hc _]. exists c, s. split; [done|].
  apply in_range_spec in Hc. unfold is_digit, in_range. rewrite andb_true_iff, !N.leb_le. lia.
Qed.

Lemma parse_integer lit rest :
  int_shape lit = true -> delimited rest = true -> parse_number (lit +:+ rest) = Some (lit, rest).
Proof.
  intros Hl Hr. destruct (no_fraction rest Hr) as [Hf He].
  assert (E : exists sg s, sign_part (lit +:+ rest) = (sg, s +:+ rest) /\ lit = sg +:+ s /\ int_body s = true).
  { unfold int_shape in Hl. destruct lit as [|c s]; [done|].
    destruct (ascii_dec c "-") as [->|Hc]; [by exists "-", s|].
    assert (Hb : int_body (String c s) = true) by (by destruct c as [[] [] [] [] [] [] [] []]).
    exists "", (String c s). split; [|done].
    destruct c as [[] [] [] [] [] [] [] []]; done. }
  destruct E as (sg & s & Hsg & -> & Hs). unfold parse_number. rewrite Hsg, int_part_app by done.
  destruct (int_body_start s Hs) as (c & s' & -> & _). simpl String.eqb. cbv iota.
  rewrite Hf, He. by rewrite !string_app_nil_r.
Qed.

(** ** Values *)

Fixpoint sendable (v : json) : bool :=
  match v with
  | JNull | JBool _ => true
  | JNum lit => int_shape lit
  | JStr s => utf8_valid s
  | JArr l => forallb sendable l
  | JObj l => forallb (fun '(k, x) => utf8_valid k && sendable x) l
  end.

Fixpoint nesting (v : json) : nat :=
  match v with
  | JArr l => S (foldr (fun x n => Nat.max (nesting x) n) 0 l)
  | JObj l => S (foldr (fun '(_, x) n => Nat.max (nesting x) n) 0 l)
  | _ => 0
  end.

Section Induction.
Context (P : json -> Prop).
Context (Hnull : P JNull) (Hbool : forall b, P (JBool b)) (Hnum : forall lit, P (JNum lit))
  (Hstr : forall s, P (JStr s)) (Harr : forall l, Forall P l -> P (JArr l))
  (Hobj : forall l, Forall (fun kv => P kv.2) l -> P (JObj l)).

Lemma json_nested_ind : forall v, P v.
Proof using All.
  fix IH 1. intros [| |lit|s|l|l]; [exact Hnull|apply Hbool|apply Hnum|apply Hstr|apply Harr|apply Hobj];
    induction l as [|x l IHl]; constructor; auto.
Qed.
End Induction.

(** How a printed value starts: never with white space or a closing bracket. *)
Definition opens_value (c : ascii) : bool :=
  negb (is_ws c) && negb (existsb (N.eqb (code c)) [93; 125]%N).

Lemma print_starts v : sendable v = true -> exists c s, print v = String c s /\ opens_value c = true.
Proof.
  destruct v as [|[]|lit|s|l|l]; intros H; try (by eexists _, _).
  simpl in *. unfold int_shape in H. destruct lit as [|c s]; [done|].
  exists c, s. split; [done|]. destruct (ascii_dec c "-") as [->|]; [done|].
  assert (Hb : int_body (String c s) = true) by (by destruct c as [[] [] [] [] [] [] [] []]).
  destruct (int_body_start _ Hb) as (c' & s' & [= <- <-] & Hd). by destruct c as [[] [] [] [] [] [] [] []].
Qed.

Lemma skip_ws_value c s : opens_value c = true -> skip_ws (String c s) = String c s.
Proof. unfold opens_value. rewrite andb_true_iff, negb_true_iff. intros [H _]. simpl. by rewrite H. Qed.

(** Enough fuel: no more than the bytes printed. *)
Definition reads_back (v : json) : Prop := forall fuel depth rest,
  sendable v = true -> (nesting v <= depth)%nat -> (String.length (print v) <= fuel)%nat -> delimited rest = true ->
  parse_value fuel depth (print v +:+ rest) = Some (v, rest).

Lemma expect_app lit rest : expect lit (lit +:+ rest) = Some (rest).
Proof.
  unfold expect. assert (E : String.prefix lit (lit +:+ rest) = true).
  { induction lit as [|c lit IH]; [by destruct rest|]. simpl. destruct (ascii_dec c c); [done|congruence]. }
  by rewrite E, string_drop_app.
Qed.

Lemma print_length v : sendable v = true -> (1 <= String.length (print v))%nat.
Proof. intros H. destruct (print_starts v H) as (c & s & -> & _). simpl. lia. Qed.

Lemma skip_ws_quote k rest : skip_ws (encode_string k +:+ rest) = encode_string k +:+ rest.
Proof. done. Qed.

Lemma elems_read_back l fuel depth rest :
  Forall reads_back l -> forallb sendable l = true -> l <> [] ->
  (foldr (fun x n => Nat.max (nesting x) n) 0 l <= depth)%nat ->
  (S (String.length (join "," (map print l))) <= fuel)%nat ->
  parse_elems fuel depth (join "," (map print l) +:+ "]" +:+ rest) = Some (l, rest).
Proof.
  intros HF. revert fuel. induction HF as [|v l Hv HF IH]; intros fuel Hs Hne Hd Hf; [done|].
  simpl in Hs, Hd. apply andb_true_iff in Hs as [Hsv Hsl]. destruct fuel as [|fuel]; [lia|].
  destruct l as [|w l].
  - simpl in *. rewrite Hv by (done || lia). simpl. done.
  - assert (Ej : join "," (map print (v :: w :: l)) = print v +:+ "," +:+ join "," (map print (w :: l))) by done.
    rewrite Ej in *. set (js := join "," (map print (w :: l))) in *.
    rewrite !length_string_app in Hf. change (String.length ",") with 1%nat in Hf.
    rewrite !string_app_assoc. cbn [parse_elems]. rewrite Hv by (done || lia). cbn [mbind option_bind].
    set (tail := js +:+ "]" +:+ rest).
    assert (Et : parse_elems fuel depth tail = Some (w :: l, rest)) by (apply IH; done || lia).
    simpl. rewrite Et. done.
Qed.

Lemma members_read_back l fuel depth rest :
  Forall (fun kv => reads_back kv.2) l -> forallb (fun '(k, x) => utf8_valid k && sendable x) l = true -> l <> [] ->
  (foldr (fun '(_, x) n => Nat.max (nesting x) n) 0 l <= depth)%nat ->
  (S (String.length (join "," (map (fun kv => encode_string kv.1 +:+ ":" +:+ print kv.2) l))) <= fuel)%nat ->
  parse_members fuel depth
    (join "," (map (fun kv => encode_string kv.1 +:+ ":" +:+ print kv.2) l) +:+ "}" +:+ rest) = Some (l, rest).
Proof.
  intros HF. revert fuel. induction HF as [|[k v] l Hv HF IH]; intros fuel Hs Hne Hd Hf; [done|].
  simpl in Hs, Hd, Hv. apply andb_true_iff in Hs as [[Hk Hsv]%andb_true_iff Hsl]. destruct fuel as [|fuel]; [lia|].
  destruct l as [|w l].
  - cbn [map join fst snd] in *.
    rewrite !length_string_app in Hf. simpl in Hf.
    rewrite !string_app_assoc. cbn [parse_members].
    rewrite skip_ws_quote, parse_encoded_valid by done. simpl. rewrite Hv by (done || lia). done.
  - set (pr := fun kv : string * json => encode_string kv.1 +:+ ":" +:+ print kv.2) in *.
    assert (Ej : join "," (map pr ((k, v) :: w :: l)) = (encode_string k +:+ ":" +:+ print v) +:+ "," +:+ join "," (map pr (w :: l))) by done.
    rewrite Ej in *. set (js := join "," (map pr (w :: l))) in *.
    rewrite !length_string_app in Hf. change (String.length ",") with 1%nat in Hf. change (String.length ":") with 1%nat in Hf.
    rewrite !string_app_assoc. cbn [parse_members]. rewrite skip_ws_quote, parse_encoded_valid by done.
    set (tail := js +:+ "}" +:+ rest).
    assert (Et : parse_members fuel depth tail = Some (w :: l, rest)) by (apply IH; done || lia).
    cbn [mbind option_bind]. simpl skip_ws. cbv iota. rewrite Hv by (done || lia). simpl. rewrite Et. done.
Qed.

Lemma not_bracket {A} c s (a : string -> A) (b : A) :
  opens_value c = true -> match String c s with String "]" rest => a rest | _ => b end = b.
Proof. by destruct c as [[] [] [] [] [] [] [] []]. Qed.

Lemma number_dispatch lit rest fuel depth :
  int_shape lit = true -> delimited rest = true ->
  parse_value (S fuel) depth (lit +:+ rest) = Some (JNum lit, rest).
Proof.
  intros Hl Hr. pose proof (parse_integer lit rest Hl Hr) as Hp. unfold int_shape in Hl.
  destruct lit as [|c s]; [done|].
  assert (Hc : (c = "-"%char \/ is_digit c = true)).
  { destruct (ascii_dec c "-") as [->|Hne]; [by left|right].
    assert (Hb : int_body (String c s) = true) by (by destruct c as [[] [] [] [] [] [] [] []]).
    destruct (int_body_start _ Hb) as (c' & s' & [= <- <-] & Hd). done. }
  clear Hl. cbn [parse_value]. change (String c s +:+ rest) with (String c (s +:+ rest)) in *.
  assert (Hws : skip_ws (String c (s +:+ rest)) = String c (s +:+ rest)).
  { destruct Hc as [->|Hc]; [done|]. by destruct c as [[] [] [] [] [] [] [] []]. }
  rewrite Hws. cbv iota.
  assert (Hn : forall n, n ∈ [110; 116; 102; 34; 91; 123]%N -> (code c =? n)%N = false).
  { intros n Hn. apply N.eqb_neq. intros E. destruct Hc as [->|Hc]; [set_solver|].
    apply in_range_spec in Hc. set_solver by lia. }
  cbv zeta. rewrite !Hn by set_solver. rewrite Hp. done.
Qed.

Lemma print_read_back v : reads_back v.
Proof.
  induction v as [|b|lit|s|l HF|l HF] using json_nested_ind; intros fuel depth rest Hs Hd Hf Hr.
  - destruct fuel as [|fuel]; [simpl in Hf; lia|].
    change (parse_value (S fuel) depth (print JNull +:+ rest)) with
      (q ← expect "null" ("null" +:+ rest); Some (JNull, q)). by rewrite expect_app.
  - destruct fuel as [|fuel]; [destruct b; simpl in Hf; lia|]. destruct b.
    + change (parse_value (S fuel) depth (print (JBool true) +:+ rest)) with
        (q ← expect "true" ("true" +:+ rest); Some (JBool true, q)). by rewrite expect_app.
    + change (parse_value (S fuel) depth (print (JBool false) +:+ rest)) with
        (q ← expect "false" ("false" +:+ rest); Some (JBool false, q)). by rewrite expect_app.
  - pose proof (print_length _ Hs). destruct fuel as [|fuel]; [simpl in *; lia|]. by apply number_dispatch.
  - pose proof (print_length _ Hs). destruct fuel as [|fuel]; [simpl in *; lia|]. simpl print.
    assert (E : parse_value (S fuel) depth (encode_string s +:+ rest)
      = '(str, q) ← parse_string (encode_string s +:+ rest); Some (JStr str, q)) by done.
    rewrite E, parse_encoded_valid by done. done.
  - simpl in Hs, Hd. destruct depth as [|d]; [lia|].
    cbn [print] in *. rewrite !length_string_app in Hf. destruct fuel as [|fuel]; [simpl in Hf; lia|].
    rewrite !string_app_assoc. destruct l as [|v l]; [done|].
    assert (Hv : sendable v = true) by (simpl in Hs; by apply andb_true_iff in Hs as [? _]).
    destruct (print_starts v Hv) as (c & t & Hp & Hc).
    assert (Hj : exists t', join "," (map print (v :: l)) = String c t').
    { destruct l as [|w l]; cbn [map join]; rewrite Hp; by eexists. }
    destruct Hj as [t' Hj].
    assert (E : parse_value (S fuel) (S d) ("[" +:+ join "," (map print (v :: l)) +:+ "]" +:+ rest)
      = '(l, q) ← parse_elems fuel d (join "," (map print (v :: l)) +:+ "]" +:+ rest); Some (JArr l, q)).
    { rewrite Hj. cbn [parse_value]. simpl skip_ws at 1. cbv iota zeta. simpl N.eqb. cbv iota.
      rewrite skip_ws_value by done. by apply (not_bracket c _ (fun q => Some (JArr [], q))). }
    rewrite E, elems_read_back; [done|done|done|done|lia|simpl in Hf |- *; lia].
  - simpl in Hs, Hd. destruct depth as [|d]; [lia|].
    cbn [print] in *. rewrite !length_string_app in Hf. destruct fuel as [|fuel]; [simpl in Hf; lia|].
    rewrite !string_app_assoc. destruct l as [|kv l]; [done|].
    set (pr := fun kv : string * json => encode_string kv.1 +:+ ":" +:+ print kv.2) in *.
    assert (Hj : exists t', join "," (map pr (kv :: l)) = quote +:+ t').
    { destruct l as [|w l]; cbn [map join]; unfold pr at 1, encode_string; rewrite !string_app_assoc; by eexists. }
    destruct Hj as [t' Hj].
    assert (E : parse_value (S fuel) (S d) ("{" +:+ join "," (map pr (kv :: l)) +:+ "}" +:+ rest)
      = '(l, q) ← parse_members fuel d (join "," (map pr (kv :: l)) +:+ "}" +:+ rest); Some (JObj l, q)).
    { rewrite Hj, string_app_assoc. done. }
    change (String.length "{") with 1%nat in Hf. change (String.length "}") with 1%nat in Hf.
    rewrite E. rewrite members_read_back; [done|done|done|done|lia|]. fold pr. lia.
Qed.

(** A whole document is read back. *)
Lemma parse_print v : sendable v = true -> (nesting v <= max_nesting_depth)%nat -> parse (print v) = Some v.
Proof.
  intros Hs Hd. unfold parse.
  pose proof (print_read_back v (2 * String.length (print v) + 2) max_nesting_depth "" Hs Hd ltac:(lia) eq_refl) as H.
  rewrite string_app_nil_r in H. by rewrite H.
Qed.

Example read_back_sample :
  let v := JObj [("kind", JStr "a<b>&" ); ("é", JArr [JNum "-12"; JNum "0"; JNull; JObj []; JStr quote]); ("x", JBool false)] in
  sendable v = true /\ parse (print v) = Some v /\ utf8_valid (chr 200) = false.
Proof. vm_compute. split_and!; reflexivity. Qed.

(** ** The integers Go prints *)

Definition digit_sum (s : string) (n : N) : N :=
  fold_left (fun n c => 10 * n + (code c - 48))%N (list_ascii_of_string s) n.

Lemma pretty_char x : (x < 10)%N -> code (pretty_N_char x) = (48 + x)%N.
Proof. intros H. destruct x as [|p]; [done|]. do 4 (destruct p as [p|p|]; try done; try lia). Qed.

Lemma digit_sum_app s t n : digit_sum (s +:+ t) n = digit_sum t (digit_sum s n).
Proof. revert n. induction s as [|c s IH]; intros n; [done|]. apply IH. Qed.

Lemma all_digits_app s t : all_digits (s +:+ t) = all_digits s && all_digits t.
Proof. induction s as [|c s IH]; [done|]. simpl. by rewrite IH, andb_assoc. Qed.

Lemma pretty_N_go_digits x acc :
  (0 < x)%N -> exists s, pretty_N_go x acc = s +:+ acc /\ int_body s = true /\ all_digits s = true /\ digit_sum s 0 = x.
Proof.
  revert acc. induction (N.lt_wf_0 x) as [x _ IH]; intros acc Hx. rewrite pretty_N_go_step by done.
  assert (Hm : (x mod 10 < 10)%N) by (apply N.mod_lt; lia). pose proof (pretty_char _ Hm) as Hc.
  pose proof (N.Div0.div_mod x 10) as Hdm.
  set (m := (x mod 10)%N) in *. set (q := (x / 10)%N) in *. clearbody m q.
  assert (Hd : is_digit (pretty_N_char m) = true).
  { unfold is_digit, in_range. rewrite Hc, andb_true_iff, !N.leb_le. lia. }
  destruct (N.eq_0_gt_0_cases q) as [E|E].
  - rewrite E, pretty_N_go_0. exists (String (pretty_N_char m) ""). split_and!; [done| |by simpl; rewrite Hd|].
    + unfold int_body. apply orb_true_iff. right. simpl. unfold in_range. rewrite Hc, andb_true_r, andb_true_iff, !N.leb_le. lia.
    + unfold digit_sum. cbn [list_ascii_of_string fold_left]. rewrite Hc. lia.
  - destruct (IH q ltac:(lia) (String (pretty_N_char m) acc) E)
      as (s & -> & Hb & Ha & Hs).
    exists (s +:+ String (pretty_N_char m) ""). split_and!.
    + by rewrite string_app_assoc.
    + unfold int_body in *. apply orb_true_iff in Hb as [->%String.eqb_eq|Hb]; [unfold digit_sum in Hs; simpl in Hs; lia|].
      apply orb_true_iff. right. destruct s as [|c s]; [done|]. simpl in *.
      apply andb_true_iff in Hb as [-> Hb]. simpl. by rewrite all_digits_app, Hb; simpl; rewrite Hd.
    + rewrite all_digits_app, Ha. simpl. by rewrite Hd.
    + rewrite digit_sum_app, Hs. unfold digit_sum. cbn [list_ascii_of_string fold_left]. rewrite Hc. lia.
Qed.

Lemma pretty_pos p : exists s, pretty (N.pos p) = s /\ int_body s = true /\ all_digits s = true /\ digit_sum s 0 = N.pos p.
Proof.
  destruct (pretty_N_go_digits (N.pos p) "" ltac:(lia)) as (s & E & H). exists s. split; [|done].
  unfold pretty, pretty_N. destruct (decide _); [done|]. by rewrite E, string_app_nil_r.
Qed.

Lemma pretty_int_shape (z : Z) : int_shape (pretty z) = true.
Proof.
  destruct z as [|p|p]; [done| |]; destruct (pretty_pos p) as (s & E & Hb & _).
  - change (pretty (Z.pos p)) with (pretty (N.pos p)). rewrite E.
    destruct (int_body_start s Hb) as (c & s' & -> & Hd). by destruct c as [[] [] [] [] [] [] [] []].
  - change (pretty (Z.neg p)) with ("-" +:+ pretty (N.pos p)). by rewrite E.
Qed.
