(* ===== verification/Control.v ===== *)
(** * The domain model: control messages, session ends, documents and identities

    Models internal/domain/model: control.go (wire types, the session-end table
    and [NewSessionEnd], [ControlMessage] and its JSON body), collaborator_mode.go,
    document.go and auth.go.  Go string types are [string], their constants keep
    their names; an actor id is the 128-bit value of the UUID. *)

From stdpp Require Import base gmap list strings pretty.
From Stdlib Require Import ZArith NArith Ascii String.
From S2P Require Import Prelude Utf8 Json.

Local Open Scope string_scope.

(** ** Wire message types *)

Abbreviation WireMessageType := N (only parsing).
Definition WireSync : WireMessageType := 0%N.
Definition WireAwareness : WireMessageType := 1%N.
Definition WireEphemeral : WireMessageType := 2%N.
Definition WireControl : WireMessageType := 3%N.
Definition WireDurabilityRequest : WireMessageType := 4%N.
Definition WireHeartbeat : WireMessageType := 5%N.

(** ** Control kinds, modes and reasons *)

Definition ControlAdmission := "admission".
Definition ControlSaved := "saved".
Definition ControlSaveError := "save-error".
Definition ControlReadOnlyState := "read-only-state".
Definition ControlCollaboratorMode := "collaborator-mode".
Definition ControlRoomUserChange := "room-user-change".
Definition ControlUpdateRejected := "update-rejected".
Definition ControlSessionEnd := "session-end".
Definition ControlPersisted := "persisted".
Definition ControlPersistFailed := "persist-failed".

Definition AdmissionRead := "read".
Definition AdmissionWrite := "write".

Definition ReasonNotAuthenticated := "not-authenticated".
Definition ReasonNotYetDurable := "not-yet-durable".
Definition ReasonNoUpdateAccess := "no-update-access".
Definition ReasonMultiUserNotAllowed := "multi-user-not-allowed".

(** The session mode is a Go string, but only these two values are ever produced
    ([authorizeSession], [resolveJoinCapability]). *)
Inductive CollaboratorMode := ModeViewer | ModeCollaborator.
#[export] Instance CollaboratorMode_eq_dec : EqDecision CollaboratorMode.
Proof. solve_decision. Defined.
Definition mode_string (m : CollaboratorMode) : string :=
  match m with ModeViewer => "viewer" | ModeCollaborator => "collaborator" end.

(** ** Session ends *)

Abbreviation SessionEndCode := string (only parsing).
Definition CodeUpdateRateExceeded : SessionEndCode := "update-rate-exceeded".
Definition CodeDocumentSizeLimitExceeded : SessionEndCode := "document-size-limit-exceeded".
Definition CodeDocumentDeleted : SessionEndCode := "document-deleted".
Definition CodeEditsNotSaved : SessionEndCode := "edits-not-saved".
Definition CodeServerShutdown : SessionEndCode := "server-shutdown".
Definition CodeUpdateNotAccepted : SessionEndCode := "update-not-accepted".
Definition CodeContentRefused : SessionEndCode := "content-refused".
Definition CodeForbidden : SessionEndCode := "forbidden".

Definition ScopeMember := "member".
Definition ScopeDocument := "document".

Definition DispositionTransient := "transient".
Definition DispositionManual := "manual".
Definition DispositionTerminal := "terminal".

Record SessionEnd := mkEnd {
  end_code : SessionEndCode;
  end_scope : string;
  end_disposition : string }.
#[export] Instance SessionEnd_eq_dec : EqDecision SessionEnd.
Proof. solve_decision. Defined.

Definition sessionEndTable : list (SessionEndCode * SessionEnd) :=
  [ (CodeUpdateRateExceeded, mkEnd CodeUpdateRateExceeded ScopeMember DispositionTransient);
    (CodeDocumentSizeLimitExceeded, mkEnd CodeDocumentSizeLimitExceeded ScopeMember DispositionManual);
    (CodeDocumentDeleted, mkEnd CodeDocumentDeleted ScopeDocument DispositionTerminal);
    (CodeEditsNotSaved, mkEnd CodeEditsNotSaved ScopeDocument DispositionTerminal);
    (CodeServerShutdown, mkEnd CodeServerShutdown ScopeDocument DispositionTransient);
    (CodeUpdateNotAccepted, mkEnd CodeUpdateNotAccepted ScopeMember DispositionTransient);
    (CodeContentRefused, mkEnd CodeContentRefused ScopeMember DispositionManual);
    (CodeForbidden, mkEnd CodeForbidden ScopeMember DispositionTerminal) ].

Fixpoint table_lookup {A} (code : string) (t : list (string * A)) : option A :=
  match t with
  | [] => None
  | (k, v) :: t' => if String.eqb k code then Some v else table_lookup code t'
  end.

(** [None] is the panic on a code outside the closed set. *)
Definition NewSessionEnd (code : SessionEndCode) : option SessionEnd :=
  table_lookup code sessionEndTable.

Definition SessionEndCodes : list SessionEndCode := map fst sessionEndTable.

(** ** Control messages *)

Record ControlMessage := mkControl {
  Kind : string;
  RequestID : string;
  Version : Z;
  Error : string;
  ReadOnly : option bool;
  Reason : string;
  Mode : string;
  Users : Z;
  Code : string;
  Scope : string;
  Disposition : string }.
#[export] Instance ControlMessage_eq_dec : EqDecision ControlMessage.
Proof. solve_decision. Defined.

(** The zero value with a kind: a Go composite literal names the other fields. *)
Definition control (k : string) : ControlMessage :=
  mkControl k "" 0 "" None "" "" 0 "" "" "".

Definition msg_saved (v : Z) := mkControl ControlSaved "" v "" None "" "" 0 "" "" "".
Definition msg_save_error (err reason : string) :=
  mkControl ControlSaveError "" 0 err None reason "" 0 "" "" "".
Definition msg_admission (mode reason : string) :=
  mkControl ControlAdmission "" 0 "" None reason mode 0 "" "" "".
Definition msg_user_change (n : Z) := mkControl ControlRoomUserChange "" 0 "" None "" "" n "" "" "".
Definition msg_persisted (id : string) := mkControl ControlPersisted id 0 "" None "" "" 0 "" "" "".
Definition msg_persist_failed (id err : string) :=
  mkControl ControlPersistFailed id 0 err None "" "" 0 "" "" "".
Definition msg_update_rejected (err : string) :=
  mkControl ControlUpdateRejected "" 0 err None "" "" 0 "" "" "".
Definition ReadOnlyState (b : bool) : option bool := Some b.
Definition msg_read_only (b : bool) (reason : string) :=
  mkControl ControlReadOnlyState "" 0 "" (ReadOnlyState b) reason "" 0 "" "" "".
Definition msg_collaborator_mode (mode reason : string) :=
  mkControl ControlCollaboratorMode "" 0 "" None reason mode 0 "" "" "".

(** [SessionEnd.Control] *)
Definition end_control (e : SessionEnd) : ControlMessage :=
  mkControl ControlSessionEnd "" 0 "" None "" "" 0 (end_code e) (end_scope e) (end_disposition e).

Definition IsReadOnly (m : ControlMessage) : bool :=
  match ReadOnly m with Some b => b | None => false end.

(** [omitempty]: the zero string, the zero integer and the nil pointer are left
    out; a non-nil pointer is written whatever it points to. *)
Definition opt_str (k v : string) : list (string * json) :=
  if String.eqb v "" then [] else [(k, JStr v)].
Definition opt_int (k : string) (v : Z) : list (string * json) :=
  if Z.eqb v 0 then [] else [(k, JInt v)].
Definition opt_bool (k : string) (v : option bool) : list (string * json) :=
  match v with None => [] | Some b => [(k, JBool b)] end.

Definition control_fields (m : ControlMessage) : list (string * json) :=
  [("kind", JStr (Kind m))]
  ++ opt_str "requestId" (RequestID m)
  ++ opt_int "version" (Version m)
  ++ opt_str "error" (Error m)
  ++ opt_bool "readOnly" (ReadOnly m)
  ++ opt_str "reason" (Reason m)
  ++ opt_str "mode" (Mode m)
  ++ opt_int "users" (Users m)
  ++ opt_str "code" (Code m)
  ++ opt_str "scope" (Scope m)
  ++ opt_str "disposition" (Disposition m).

Definition marshal_control (m : ControlMessage) : bytes := print (JObj (control_fields m)).

(** The object a client reads back: a missing key is [None]. *)
Definition field (k : string) (v : json) : option json :=
  match v with JObj l => table_lookup k l | _ => None end.

(** ** Documents and identities *)

Abbreviation ContentType := string (only parsing).
Definition ContentTypeMemo : ContentType := "memo".
Definition ContentTypeWhiteboard : ContentType := "whiteboard".

Abbreviation DocumentID := string (only parsing).

(** An actor id is a UUID, read as a 128-bit number; [uuid.Nil] is zero. *)
Abbreviation ActorID := N (only parsing).
Definition uuid_nil : ActorID := 0%N.
Record Identity := mkIdentity { actorID : option ActorID }.

Inductive Privilege := PrivilegeRead | PrivilegeUpdateContent.
Record AuthDecision := mkDecision { Allowed : bool; DecisionReason : string }.

(** Timestamps are nanoseconds on the UTC time line. *)
Record Metadata := mkMetadata {
  m_ID : DocumentID;
  m_ContentType : ContentType;
  m_Version : Z;
  m_ContentPointer : string;
  m_Migrated : bool;
  m_IsMultiUser : option bool;
  m_AuthorizationPolicyID : string;
  m_StorageBucketID : string;
  m_OwnerRef : string;
  m_CreatedAt : Z;
  m_UpdatedAt : Z }.
#[export] Instance Metadata_eq_dec : EqDecision Metadata.
Proof. solve_decision. Defined.

(** [MetadataStore.Load] answers a row, not-found, or another error. *)
Inductive load_answer := Loaded (m : Metadata) | NotFound | LoadFailed.

(** ** Properties *)

Lemma table_lookup_In {A} code (t : list (string * A)) v :
  table_lookup code t = Some v -> In (code, v) t.
Proof.
  induction t as [|[k w] t IH]; simpl; [done|].
  destruct (String.eqb_spec k code) as [->|]; intros H; [left; congruence|right; auto].
Qed.
