(* ===== verification/Lifecycle.v ===== *)
(** * The room lifecycle (internal/domain/service/lifecycle_state.go)

    [roomState] and [legalTransition] are the code's edge table; [transition],
    [activate], [beginTeardown] and [finishDraining] act on the state word.  The
    Module [Racing] splits [beginTeardown]'s loop into its atomic load and its
    compare-and-swap, and interleaves any number of callers with the other
    transitions. *)

From stdpp Require Import base list.
From Stdlib Require Import Lia.
From S2P Require Import Prelude.

Inductive roomState := stateMaterializing | stateActive | stateDraining | stateClosed.
#[export] Instance roomState_eq_dec : EqDecision roomState.
Proof. solve_decision. Defined.

Definition legalTransition (from to : roomState) : bool :=
  match from with
  | stateMaterializing => bool_decide (to = stateActive) || bool_decide (to = stateDraining)
  | stateActive => bool_decide (to = stateDraining)
  | stateDraining => bool_decide (to = stateClosed)
  | stateClosed => false
  end.

(** A compare-and-swap guarded by the edge table: the result and the new word. *)
Definition cas (from to cur : roomState) : bool * roomState :=
  if decide (cur = from) then (true, to) else (false, cur).

Definition transition (from to cur : roomState) : bool * roomState :=
  if legalTransition from to then cas from to cur else (false, cur).

Definition activate : roomState -> bool * roomState := transition stateMaterializing stateActive.
Definition finishDraining : roomState -> bool * roomState := transition stateDraining stateClosed.

Definition tearing_down (s : roomState) : bool :=
  match s with stateDraining | stateClosed => true | _ => false end.

(** [beginTeardown] run without interference: the first iteration decides. *)
Definition beginTeardown (cur : roomState) : bool * roomState :=
  if tearing_down cur then (false, cur) else cas cur stateDraining cur.

(** The order in which the states are passed through. *)
Definition rank (s : roomState) : nat :=
  match s with stateMaterializing => 0 | stateActive => 1 | stateDraining => 2 | stateClosed => 3 end.

Lemma rank_inj s t : rank s = rank t -> s = t.
Proof. by destruct s, t. Qed.

Lemma legalTransition_rank from to : legalTransition from to = true -> rank from < rank to.
Proof. destruct from, to; simpl; try done; lia. Qed.

Lemma cas_spec from to cur :
  cas from to cur = (true, to) /\ cur = from \/ cas from to cur = (false, cur) /\ cur <> from.
Proof. unfold cas. destruct (decide (cur = from)); auto. Qed.

Lemma transition_rank from to cur : rank cur <= rank (transition from to cur).2.
Proof.
  unfold transition. destruct (legalTransition from to) eqn:L; [|done].
  apply legalTransition_rank in L.
  destruct (cas_spec from to cur) as [[-> ->]|[-> _]]; simpl; lia.
Qed.

Lemma beginTeardown_live cur :
  tearing_down cur = false -> beginTeardown cur = (true, stateDraining).
Proof. destruct cur; done. Qed.

Lemma beginTeardown_again cur :
  tearing_down cur = true -> beginTeardown cur = (false, cur).
Proof. destruct cur; done. Qed.

Module Racing.

(** Where one caller of [beginTeardown] is: about to load in iteration [k],
    about to swap the word it read, or returned. *)
Inductive pc := Load (k : nat) | Cas (k : nat) (s : roomState) | Done (won : bool).

#[export] Instance pc_eq_dec : EqDecision pc.
Proof. solve_decision. Defined.

Record config := mkConfig { word : roomState; callers : list pc }.

(** One atomic step of one caller. *)
Definition caller_step (w : roomState) (p : pc) : roomState * pc :=
  match p with
  | Load k => (w, if tearing_down w then Done false else Cas k w)
  | Cas k s => let '(ok, w') := cas s stateDraining w in
               (w', if ok then Done true else Load (S k))
  | Done b => (w, Done b)
  end.

Inductive step : config -> config -> Prop :=
| step_caller w ps i p :
    ps !! i = Some p ->
    step (mkConfig w ps)
         (mkConfig (caller_step w p).1 (<[i := (caller_step w p).2]> ps))
| step_activate w ps : step (mkConfig w ps) (mkConfig (activate w).2 ps)
| step_finish w ps : step (mkConfig w ps) (mkConfig (finishDraining w).2 ps).

Definition initial (w : roomState) (n : nat) : config := mkConfig w (replicate n (Load 0)).

Definition winner (c : config) (i : nat) : Prop := callers c !! i = Some (Done true).

(** What an iteration counter or a remembered word says about the current one. *)
Definition pc_ok (w : roomState) (p : pc) : Prop :=
  match p with
  | Load k => k <= rank w /\ k <= 2
  | Cas k s => k <= rank s /\ rank s <= rank w /\ rank s <= 1
  | Done _ => True
  end.

Definition inv (c : config) : Prop :=
  (forall i p, callers c !! i = Some p -> pc_ok (word c) p)
  /\ (forall i, winner c i -> tearing_down (word c) = true)
  /\ (forall i j, winner c i -> winner c j -> i = j).

Lemma pc_ok_mono w w' p : rank w <= rank w' -> pc_ok w p -> pc_ok w' p.
Proof. destruct p; simpl; lia. Qed.

Lemma tearing_down_rank w : tearing_down w = true <-> 2 <= rank w.
Proof. destruct w; simpl; split; (done || lia). Qed.

Lemma caller_step_rank w p : pc_ok w p -> rank w <= rank (caller_step w p).1.
Proof.
  destruct p as [k|k s|b]; simpl; [lia| |lia]. intros (Hk & Hs & H1).
  destruct (cas_spec s stateDraining w) as [[-> ->]|[-> _]]; simpl; lia.
Qed.

Lemma caller_step_ok w p : pc_ok w p -> pc_ok (caller_step w p).1 (caller_step w p).2.
Proof.
  destruct p as [k|k s|b]; simpl; [| |done].
  - intros [Hk H2]. destruct (tearing_down w) eqn:T; simpl; [done|].
    destruct w; simpl in *; (done || lia).
  - intros (Hk & Hs & H1).
    destruct (cas_spec s stateDraining w) as [[-> ->]|[-> Hne]]; simpl; [done|].
    assert (rank s <> rank w) by (intros E%rank_inj; congruence). lia.
Qed.

(** A caller that wins finds the word live and leaves it tearing down. *)
Lemma caller_step_wins w p :
  pc_ok w p -> p <> Done true -> (caller_step w p).2 = Done true ->
  tearing_down w = false /\ tearing_down (caller_step w p).1 = true.
Proof.
  destruct p as [k|k s|b]; simpl; [by destruct (tearing_down w)| |congruence].
  intros (Hk & Hs & H1) _.
  destruct (cas_spec s stateDraining w) as [[-> ->]|[-> Hne]]; simpl; [|done].
  intros _. split; [|done]. destruct s; simpl in *; (done || lia).
Qed.

Lemma inv_env w w' ps : rank w <= rank w' -> inv (mkConfig w ps) -> inv (mkConfig w' ps).
Proof.
  intros Hr (Hok & Htd & Huniq). split_and!; simpl.
  - intros i p Hi. eapply pc_ok_mono; [done|by eapply Hok].
  - intros i Hi. apply tearing_down_rank.
    pose proof (Htd i Hi) as HT. apply tearing_down_rank in HT. simpl in HT. lia.
  - exact Huniq.
Qed.

Lemma inv_caller w ps i p :
  ps !! i = Some p -> inv (mkConfig w ps) ->
  inv (mkConfig (caller_step w p).1 (<[i := (caller_step w p).2]> ps)).
Proof.
  intros Hi HI. pose proof HI as (Hok & Htd & Huniq). simpl in *.
  pose proof (Hok i p Hi) as Hp.
  assert (Hold : forall j, j <> i -> winner (mkConfig (caller_step w p).1 (<[i:=(caller_step w p).2]> ps)) j ->
                 winner (mkConfig w ps) j).
  { intros j Hj. unfold winner; simpl. by rewrite list_lookup_insert_ne. }
  assert (Hnew : winner (mkConfig (caller_step w p).1 (<[i:=(caller_step w p).2]> ps)) i ->
                 winner (mkConfig w ps) i \/ (tearing_down w = false /\ tearing_down (caller_step w p).1 = true)).
  { unfold winner; simpl. rewrite list_lookup_insert_eq by (by eapply lookup_lt_Some).
    intros [= E]. destruct (decide (p = Done true)) as [->|Hne]; [by left|].
    right. by apply caller_step_wins. }
  pose proof (caller_step_rank w p Hp) as Hr.
  destruct (inv_env w (caller_step w p).1 ps Hr HI) as (_ & Htd' & _).
  split_and!; simpl.
  - intros j q Hj. destruct (decide (j = i)) as [->|Hj'].
    + rewrite list_lookup_insert_eq in Hj by (by eapply lookup_lt_Some).
      injection Hj as <-. by apply caller_step_ok.
    + rewrite list_lookup_insert_ne in Hj by done. eapply pc_ok_mono; eauto.
  - intros j Hj. destruct (decide (j = i)) as [->|Hj'].
    + destruct (Hnew Hj) as [Hw|[_ ?]]; [|done]. by eapply Htd'.
    + by eapply Htd', Hold.
  - intros j k Hj Hk.
    destruct (decide (j = i)) as [->|Hji], (decide (k = i)) as [->|Hki]; [done|..].
    + destruct (Hnew Hj) as [Hw|[Hf _]]; [by apply Huniq; [|apply Hold]|].
      rewrite (Htd k) in Hf; [done|by apply Hold].
    + destruct (Hnew Hk) as [Hw|[Hf _]]; [by apply Huniq; [apply Hold|]|].
      rewrite (Htd j) in Hf; [done|by apply Hold].
    + apply Huniq; by apply Hold.
Qed.

Lemma inv_step c c' : inv c -> step c c' -> inv c'.
Proof.
  intros HI Hs. destruct Hs; [by apply inv_caller| |];
    (eapply inv_env; [apply transition_rank|done]).
Qed.

Lemma inv_initial w n : inv (initial w n).
Proof.
  split_and!; simpl; unfold winner; simpl.
  - intros i p [-> _]%lookup_replicate. simpl. lia.
  - intros i [? _]%lookup_replicate. done.
  - intros i j [? _]%lookup_replicate. done.
Qed.

(** However the callers of [beginTeardown] interleave with one another and
    with the other transitions, at most one of them is told it owns the
    teardown, from then on the room is Draining or Closed, and no caller ever
    starts a fourth iteration of the loop. *)
Theorem beginTeardown_once (w : roomState) (n : nat) (c : config) :
  star step (initial w n) c ->
  (forall i j, winner c i -> winner c j -> i = j)
  /\ (forall i, winner c i -> word c = stateDraining \/ word c = stateClosed)
  /\ (forall i k, callers c !! i = Some (Load k) -> k <= 2).
Proof.
  intros Hstar. destruct (star_inv step inv _ _ inv_step (inv_initial w n) Hstar)
    as (Hok & Htd & Huniq).
  split_and!; [done| |].
  - intros i Hi. specialize (Htd i Hi). destruct (word c); auto; discriminate.
  - intros i k Hi. apply (Hok i) in Hi. apply Hi.
Qed.

(** A schedule: who moves next. *)
Inductive action := Caller (i : nat) | Activate | Finish.

Definition act (c : config) (a : action) : config :=
  let 'mkConfig w ps := c in
  match a with
  | Caller i => match ps !! i with
                | Some p => mkConfig (caller_step w p).1 (<[i := (caller_step w p).2]> ps)
                | None => c
                end
  | Activate => mkConfig (activate w).2 ps
  | Finish => mkConfig (finishDraining w).2 ps
  end.

Lemma act_star c c0 a : star step c0 c -> star step c0 (act c a).
Proof.
  intros H. destruct c as [w ps], a as [i| |]; simpl.
  - destruct (ps !! i) eqn:E; [|done]. eapply star_snoc; [done|by constructor].
  - eapply star_snoc; [done|constructor].
  - eapply star_snoc; [done|constructor].
Qed.

Lemma schedule_star c sched : star step c (foldl act c sched).
Proof.
  induction sched as [|a sched IH] using rev_ind; [constructor|].
  rewrite foldl_app. by apply act_star.
Qed.

(** Two callers race an activation: both read Materializing, the room becomes
    Active, the first wins in its second iteration. *)
Definition race : list action :=
  [Caller 0; Caller 1; Activate; Caller 0; Caller 0; Caller 0; Caller 1].

Lemma beginTeardown_once_witness :
  let c := foldl act (initial stateMaterializing 2) race in
  callers c = [Done true; Load 1]
  /\ (word c = stateDraining \/ word c = stateClosed).
Proof.
  split; [reflexivity|].
  apply (proj1 (proj2 (beginTeardown_once stateMaterializing 2 _
           (schedule_star _ race))) 0). reflexivity.
Defined.
End Racing.
