(* ===== verification/Core.v ===== *)
(** * The code the service calls but does not contain

    [YCore] packs what the service uses of go-yjs: the documents and their
    codecs (package crdt), the framing (package protocol) and the presence
    states.  None of it is defined here: every definition of the development
    that reaches it takes it as an argument.  [YLaws], [YQuiet] and [YMerge] state
    the documented behaviour some theorems rely on. *)

From stdpp Require Import base list strings.
From Stdlib Require Import ZArith.
From S2P Require Import Prelude Control.

(** A value found in a shared type: a string, or some other dynamic type. *)
Inductive yvalue := YString (s : string) | YOther (type_name : string).

(** What an image node's [src] attribute holds; [None] is a missing attribute. *)
Abbreviation ysrc := (option yvalue) (only parsing).

Inductive rootKind := RootMap | RootXMLFragment.

(** [protocol.SyncType] of an inspected sync frame. *)
Inductive syncType := SyncMessageStep1 | SyncMessageStep2 | SyncMessageUpdate | SyncMessageOther.

Record messageInfo := mkInfo {
  info_Type : N;
  info_SyncType : syncType;
  info_Body : bytes;
  info_BodyLength : Z;
  info_FrameLength : Z }.

(** The message types the y-protocols layer owns (control.go lines 3-7). *)
Definition MessageSync : N := WireSync.
Definition MessageAwareness : N := WireAwareness.

(** The result of applying an update: the document, the payloads of the update
    events the observer received, and whether the call returned no error. *)
Record applied (D : Type) := mkApplied {
  ap_doc : D;
  ap_events : list bytes;
  ap_ok : bool }.
Arguments mkApplied {D}. Arguments ap_doc {D}. Arguments ap_events {D}. Arguments ap_ok {D}.

Class YCore := {
  Doc : Type;
  NewDoc : string -> Doc;
  ApplyUpdate : Doc -> bytes -> applied Doc;
  ApplyUpdateV2 : Doc -> bytes -> applied Doc;
  EncodeStateAsUpdate : Doc -> option bytes;
  EncodeStateAsUpdateV2 : Doc -> option bytes;
  EncodeStateVectorFromUpdateV2 : bytes -> option bytes;
  GetRoot : rootKind -> string -> Doc -> Doc;
  map_entries : Doc -> string -> list (string * yvalue);
  image_srcs : Doc -> string -> list ysrc;
  Awareness : Type;
  NewAwareness : Doc -> Awareness;
  ClearLocalState : Awareness -> Awareness;
  ApplyAwarenessUpdate : Awareness -> bytes -> Awareness * bool;
  RemoveAwarenessStates : Awareness -> list N -> Awareness;
  EncodeAwarenessUpdate : Awareness -> list N -> bytes;
  GetStates : Z -> Awareness -> list N;
  InspectMessage : bytes -> option messageInfo;
  ReadMessage : bytes -> option (N * bytes);
  WriteMessage : N -> bytes -> bytes;
  EncodeUpdate : bytes -> bytes;
  EncodeAwarenessUpdateMessage : bytes -> bytes;
  DecodeAwarenessMessage : bytes -> option N;
  EncodeSyncStep1 : Doc -> bytes;
  EncodeSyncStep2 : Doc -> bytes -> option bytes }.

(** Documented behaviour of the core.  A document is all it was given, an update that
    still waits for others it depends on included.  [law_clone]: a document seeded from another's
    full encoding accepts it and shows the same state.  [law_same]: two documents
    with the same state accept the same updates and stay equal.  [law_root]: naming a
    root type creates it where it is missing and changes no content. *)
Class YLaws (Y : YCore) := {
  same : Doc -> Doc -> Prop;
  same_refl d : same d d;
  same_sym d d' : same d d' -> same d' d;
  same_trans d1 d2 d3 : same d1 d2 -> same d2 d3 -> same d1 d3;
  law_clone g d b :
    EncodeStateAsUpdateV2 d = Some b ->
    ap_ok (ApplyUpdateV2 (NewDoc g) b) = true /\ same (ap_doc (ApplyUpdateV2 (NewDoc g) b)) d;
  law_same d d' u :
    same d d' ->
    ap_ok (ApplyUpdate d u) = ap_ok (ApplyUpdate d' u)
    /\ same (ap_doc (ApplyUpdate d u)) (ap_doc (ApplyUpdate d' u));
  law_same_encode d d' : same d d' -> EncodeStateAsUpdateV2 d = EncodeStateAsUpdateV2 d';
  law_root k n d : same (GetRoot k n d) d;
  law_same_entries d d' r : same d d' -> map_entries d r = map_entries d' r;
  law_same_srcs d d' r : same d d' -> image_srcs d r = image_srcs d' r }.

(** The observer fires whenever an apply changed the document.  An update whose
    dependencies are missing is kept without an event, so the theorems under this law
    speak of updates whose dependencies the document has. *)
Class YQuiet (Y : YCore) := {
  law_quiet d u : ap_events (ApplyUpdate d u) = [] -> ap_doc (ApplyUpdate d u) = d }.

Section Replay.
Context {Y : YCore}.

(** The document after the updates, in order. *)
Definition replay (d : Doc) (us : list bytes) : Doc :=
  fold_left (fun d u => ap_doc (ApplyUpdate d u)) us d.

Definition acceptable (d : Doc) (u : bytes) : Prop := ap_ok (ApplyUpdate d u) = true.
End Replay.

(** What makes the core a CRDT, with updates that wait for missing ones.  [integrated d]
    is [d] without what waits in it, and [waiting d] is what waits ([law_waiting]).
    [law_accept]: whether an update is accepted is decided by its bytes.  [law_commute],
    [law_idem]: accepted updates commute and may be applied again.  [law_events]: the
    update events of an apply carry what it integrated, whether that came with the update
    or had been waiting for it; what is left waiting is in no event. *)
Class YMerge (Y : YCore) {L : YLaws Y} := {
  integrated : Doc -> Doc;
  waiting : Doc -> list bytes;
  law_accept d d' u : acceptable d u -> acceptable d' u;
  law_commute d u v : acceptable d u -> acceptable d v -> same (replay d [u; v]) (replay d [v; u]);
  law_idem d u : acceptable d u -> same (replay d [u; u]) (replay d [u]);
  law_waiting d : Forall (acceptable d) (waiting d) /\ same (replay (integrated d) (waiting d)) d;
  law_events d u : acceptable d u ->
    Forall (acceptable d) (ap_events (ApplyUpdate d u))
    /\ same (integrated (ap_doc (ApplyUpdate d u))) (replay (integrated d) (ap_events (ApplyUpdate d u))) }.
