(* ===== verification/Limits.v ===== *)
(** * The update-rate limiter (internal/domain/service/limits.go)

    [tokenBucket] and [allow] in IEEE binary64 arithmetic ([SpecFloat] with Go's
    float64 format); times and durations are [int64] nanoseconds. *)

From stdpp Require Import base list.
From Stdlib Require Import ZArith Lia SpecFloat.
From S2P Require Import Prelude.

Local Open Scope Z_scope.

Definition fadd := SFadd 53 1024.
Definition fsub := SFsub 53 1024.
Definition fmul := SFmul 53 1024.
Definition fdiv := SFdiv 53 1024.
(** [float64(n)] of an integer. *)
Definition f64 (n : Z) : spec_float := binary_normalize 53 1024 n 0 false.

Record tokenBucket := mkBucket {
  tb_rate : spec_float;
  tb_burst : spec_float;
  tb_tokens : spec_float;
  tb_last : Z }.

Definition newTokenBucket (ratePerSec burst now : Z) : tokenBucket :=
  let b := f64 burst in
  let b := if SFleb b (f64 0) then f64 ratePerSec else b in
  mkBucket (f64 ratePerSec) b b now.

(** [time.Time.Sub] saturates at the ends of [int64]. *)
Definition time_sub (a b : Z) : Z := Z.max (- 2 ^ 63) (Z.min (2 ^ 63 - 1) (a - b)).

(** [time.Duration.Seconds] *)
Definition seconds (d : Z) : spec_float :=
  fadd (f64 (Z.quot d 1000000000)) (fdiv (f64 (Z.rem d 1000000000)) (f64 1000000000)).

Definition refill (b : tokenBucket) (now : Z) : tokenBucket :=
  let elapsed := seconds (time_sub now (tb_last b)) in
  if SFltb (f64 0) elapsed then
    let t := fadd (tb_tokens b) (fmul elapsed (tb_rate b)) in
    mkBucket (tb_rate b) (tb_burst b) (if SFltb (tb_burst b) t then tb_burst b else t) now
  else b.

Definition allow (b : tokenBucket) (now : Z) : bool * tokenBucket :=
  if SFleb (tb_rate b) (f64 0) then (true, b)
  else
    let b := refill b now in
    if SFleb (f64 1) (tb_tokens b)
    then (true, mkBucket (tb_rate b) (tb_burst b) (fsub (tb_tokens b) (f64 1)) (tb_last b))
    else (false, b).

(** The verdicts on a sequence of messages, given their arrival times. *)
Fixpoint allow_all (b : tokenBucket) (times : list Z) : list bool :=
  match times with
  | [] => []
  | t :: ts => let '(ok, b') := allow b t in ok :: allow_all b' ts
  end.

(** ** Properties *)

Lemma SFltb_irrefl x : SFltb x x = false.
Proof.
  unfold SFltb, SFcompare. destruct x as [s|s| |s m e]; try done; destruct s; try done;
    rewrite Z.compare_refl, Pos.compare_cont_refl; reflexivity.
Qed.

Lemma refill_capped b now :
  SFltb (tb_burst b) (tb_tokens b) = false ->
  SFltb (tb_burst (refill b now)) (tb_tokens (refill b now)) = false.
Proof.
  intros Hb. unfold refill. destruct (SFltb (f64 0) _); simpl; [|done].
  destruct (SFltb (tb_burst b) (fadd _ _)) eqn:E; [apply SFltb_irrefl|done].
Qed.

(** No time passed: nothing is refilled. *)
Lemma refill_frozen b : refill b (tb_last b) = b.
Proof.
  unfold refill, time_sub. rewrite Z.sub_diag.
  by replace (SFltb (f64 0) _) with false by (vm_compute; reflexivity).
Qed.

#[export] Instance spec_float_eq_dec : EqDecision spec_float.
Proof. solve_decision. Defined.

(** Integers up to 2^12 are exact in binary64; checked by evaluation. *)
Definition counts_exactly (k : Z) : bool :=
  bool_decide (fsub (f64 k) (f64 1) = f64 (k - 1))
  && SFleb (f64 1) (f64 k) && negb (SFleb (f64 k) (f64 0)).

Fixpoint all_count_exactly (n : nat) (k : Z) : bool :=
  match n with O => true | S n' => counts_exactly k && all_count_exactly n' (k + 1) end.

Definition exact_limit : Z := 4096.

Lemma all_count_exactly_spec n k j :
  all_count_exactly n k = true -> k <= j < k + Z.of_nat n -> counts_exactly j = true.
Proof.
  revert k. induction n as [|n IH]; intros k H Hj; [lia|].
  simpl in H. apply andb_prop in H as [Hk Hn].
  destruct (decide (j = k)) as [->|]; [done|]. apply (IH (k + 1)); [done|lia].
Qed.

Lemma counts_exactly_upto k : 1 <= k <= exact_limit -> counts_exactly k = true.
Proof.
  intros Hk. apply (all_count_exactly_spec (Z.to_nat exact_limit) 1); [vm_compute; reflexivity|].
  unfold exact_limit in *. lia.
Qed.

Lemma counts_exactly_inv k : counts_exactly k = true ->
  fsub (f64 k) (f64 1) = f64 (k - 1) /\ SFleb (f64 1) (f64 k) = true /\ SFleb (f64 k) (f64 0) = false.
Proof.
  unfold counts_exactly. intros [[H1%bool_decide_eq_true H2]%andb_prop H3]%andb_prop.
  apply negb_true_iff in H3. auto.
Qed.

Lemma allow_frozen r b k now :
  1 <= r <= exact_limit -> 0 <= k <= exact_limit ->
  allow (mkBucket (f64 r) b (f64 k) now) now
  = if 1 <=? k then (true, mkBucket (f64 r) b (f64 (k - 1)) now)
    else (false, mkBucket (f64 r) b (f64 k) now).
Proof.
  intros Hr Hk. unfold allow. cbn [tb_rate tb_last].
  destruct (counts_exactly_inv r (counts_exactly_upto r Hr)) as (_ & _ & ->).
  pose proof (refill_frozen (mkBucket (f64 r) b (f64 k) now)) as Hf.
  cbn [tb_last] in Hf. rewrite Hf. cbn [tb_rate tb_burst tb_tokens tb_last].
  destruct (Z.leb_spec 1 k) as [H1|H1].
  - destruct (counts_exactly_inv k (counts_exactly_upto k ltac:(lia))) as (-> & -> & _). done.
  - assert (k = 0) as -> by lia.
    by replace (SFleb (f64 1) (f64 0)) with false by (vm_compute; reflexivity).
Qed.

Lemma allow_all_frozen r b k now n :
  1 <= r <= exact_limit -> 0 <= k <= exact_limit ->
  allow_all (mkBucket (f64 r) b (f64 k) now) (replicate n now)
  = replicate (Nat.min n (Z.to_nat k)) true ++ replicate (n - Z.to_nat k) false.
Proof.
  intros Hr. revert k. induction n as [|n IH]; intros k Hk; [done|].
  simpl replicate. cbn [allow_all]. rewrite allow_frozen by done.
  destruct (Z.leb_spec 1 k) as [H1|H1].
  - rewrite IH by lia. replace (Z.to_nat k) with (S (Z.to_nat (k - 1))) by lia. done.
  - assert (k = 0) as -> by lia. rewrite IH by lia.
    change (Z.to_nat 0) with 0%nat. rewrite !Nat.min_0_r, !Nat.sub_0_r. done.
Qed.

Fixpoint all_nonpos (n : nat) (k : Z) : bool :=
  match n with O => true | S n' => SFleb (f64 (- k)) (f64 0) && all_nonpos n' (k + 1) end.

Lemma all_nonpos_spec n k j :
  all_nonpos n k = true -> k <= j < k + Z.of_nat n -> SFleb (f64 (- j)) (f64 0) = true.
Proof.
  revert k. induction n as [|n IH]; intros k H Hj; [lia|].
  simpl in H. apply andb_prop in H as [Hk Hn].
  destruct (decide (j = k)) as [->|]; [done|]. apply (IH (k + 1)); [done|lia].
Qed.

Lemma f64_nonpos z : - exact_limit <= z <= 0 -> SFleb (f64 z) (f64 0) = true.
Proof.
  intros Hz. rewrite <- (Z.opp_involutive z).
  apply (all_nonpos_spec (Z.to_nat (exact_limit + 1)) 0); [vm_compute; reflexivity|].
  unfold exact_limit in *. lia.
Qed.

(** The limiter's contract.  A rate of zero or less admits everything and
    changes nothing; otherwise, of any number of messages arriving at the instant
    the bucket was made, exactly the burst is admitted (the rate when no burst is
    configured) and the rest refused; and a refill never raises the tokens above
    the burst.  Rates and bursts range over [-2^12, 2^12], where binary64 counts exactly. *)
Theorem tokenBucket_contract (rate burst now : Z) (n : nat) :
  - exact_limit <= rate <= exact_limit -> - exact_limit <= burst <= exact_limit ->
  allow_all (newTokenBucket rate burst now) (replicate n now)
  = (if rate <=? 0 then replicate n true
     else let depth := Z.to_nat (if burst <=? 0 then rate else burst) in
          replicate (Nat.min n depth) true ++ replicate (n - depth) false)
  /\ (forall b t, SFltb (tb_burst b) (tb_tokens b) = false ->
      SFltb (tb_burst (refill b t)) (tb_tokens (refill b t)) = false).
Proof.
  intros Hr Hb. split; [|apply refill_capped].
  destruct (Z.leb_spec rate 0) as [H0|H0].
  - induction n as [|n IH]; [done|]. simpl replicate. cbn [allow_all].
    unfold allow, newTokenBucket. cbn [tb_rate]. rewrite f64_nonpos by lia.
    cbn [app]. f_equal. exact IH.
  - unfold newTokenBucket. destruct (Z.leb_spec burst 0) as [Hb0|Hb0].
    + rewrite f64_nonpos by lia. apply allow_all_frozen; lia.
    + destruct (counts_exactly_inv burst (counts_exactly_upto burst ltac:(lia))) as (_ & _ & ->).
      apply allow_all_frozen; lia.
Qed.

Lemma tokenBucket_contract_witness :
  allow_all (newTokenBucket 50 2 7) (replicate 4 7) = [true; true; false; false]
  /\ allow_all (newTokenBucket 50 2 7) (replicate 4 7)
     = replicate 2 true ++ replicate 2 false.
Proof.
  split; [vm_compute; reflexivity|].
  apply (tokenBucket_contract 50 2 7 4); unfold exact_limit; lia.
Defined.
