(* ===== verification/Schema.v ===== *)
(** * The bounded-locator schema (internal/domain/service/assets_schema.go)

    [validateLocator] and the two content checks built on it.  A locator is a
    reference: short, not blank, and not an inline [data:] payload. *)

From stdpp Require Import base list strings.
From Stdlib Require Import ZArith NArith Ascii String Lia.
From S2P Require Import Prelude Utf8 Control Core.

Local Open Scope string_scope.

Definition assetsRoot := "files".
Definition memoRoot := "default".
Definition maxLocatorBytes : Z := 2048.

(** ECMAScript WhiteSpace and LineTerminator: the listed runes and category Zs. *)
Definition is_zs (r : N) : bool :=
  ((r =? 32) || (r =? 160) || (r =? 5760) || in_range 8192 8202 r
   || (r =? 8239) || (r =? 8287) || (r =? 12288))%N.

Definition ecma_space (r : N) : bool :=
  ((r =? 9) || (r =? 11) || (r =? 12) || (r =? 65279) || (r =? 10) || (r =? 13)
   || (r =? 8232) || (r =? 8233))%N || is_zs r.

Definition trimECMAScript (s : string) : string := trim_func ecma_space s.

Definition ascii_lower (c : ascii) : ascii :=
  if in_range 65 90 (code c) then ascii_of_N (code c + 32) else c.

(** [strings.HasPrefix(strings.ToLower(s), p)] for an ASCII [p] without the
    letters i and k, the only ASCII letters a non-ASCII rune lower-cases to. *)
Fixpoint has_prefix_fold (p s : string) : bool :=
  match p, s with
  | "", _ => true
  | String a p', String b s' => Ascii.eqb a (ascii_lower b) && has_prefix_fold p' s'
  | _, _ => false
  end.

Inductive locatorError := LocTooLong (n : Z) | LocEmpty | LocInlineData.

Definition validateLocator (v : string) : option locatorError :=
  if (maxLocatorBytes <? blen v)%Z then Some (LocTooLong (blen v))
  else
    let trimmed := trimECMAScript v in
    if String.eqb trimmed "" then Some LocEmpty
    else if has_prefix_fold "data:" trimmed then Some LocInlineData
    else None.

Inductive schemaError :=
| FileNotString (key type_name : string)
| FileBadLocator (key : string) (e : locatorError)
| ImageNotString (i : nat) (type_name : string)
| ImageBadLocator (i : nat) (e : locatorError).

Fixpoint check_files (l : list (string * yvalue)) : option schemaError :=
  match l with
  | [] => None
  | (key, YOther t) :: _ => Some (FileNotString key t)
  | (key, YString v) :: l' =>
      match validateLocator v with
      | Some e => Some (FileBadLocator key e)
      | None => check_files l'
      end
  end.

Fixpoint check_images (i : nat) (l : list (option yvalue)) : option schemaError :=
  match l with
  | [] => None
  | None :: l' => check_images (S i) l'
  | Some (YOther t) :: _ => Some (ImageNotString i t)
  | Some (YString v) :: l' =>
      match validateLocator v with
      | Some e => Some (ImageBadLocator i e)
      | None => check_images (S i) l'
      end
  end.

Section Checks.
Context {Y : YCore}.

Definition validateAssetsRoot (d : Doc) : option schemaError := check_files (map_entries d assetsRoot).
Definition validateMemoImages (d : Doc) : option schemaError := check_images 0 (image_srcs d memoRoot).

(** The shared dispatch of [validateStoredContent] and [Room.validateSchema]. *)
Definition validateStoredContent (content : ContentType) (d : Doc) : option schemaError :=
  if String.eqb content ContentTypeWhiteboard then validateAssetsRoot d
  else if String.eqb content ContentTypeMemo then validateMemoImages d
  else None.

(** convention.go: the roots a document of each type is born with. *)
Definition applyConvention (content : ContentType) (d : Doc) : Doc :=
  if String.eqb content ContentTypeMemo then GetRoot RootXMLFragment "default" d
  else if String.eqb content ContentTypeWhiteboard then
    GetRoot RootMap "appState" (GetRoot RootMap "files" (GetRoot RootMap "elements" d))
  else d.

(** An independent document in the same state; [None] is the error return. *)
Definition cloneDoc (src : Doc) (guid : string) : option Doc :=
  match EncodeStateAsUpdateV2 src with
  | None => None
  | Some state =>
      let r := ApplyUpdateV2 (NewDoc guid) state in
      if ap_ok r then Some (ap_doc r) else None
  end.
End Checks.

(** ** What an accepted locator and an accepted document look like *)

Definition good_locator (v : string) : Prop :=
  (blen v <= maxLocatorBytes)%Z /\ trimECMAScript v <> ""
  /\ has_prefix_fold "data:" (trimECMAScript v) = false.

Definition good_value (v : yvalue) : Prop :=
  match v with YString s => good_locator s | YOther _ => False end.

(** Every locator the document carries is a reference. *)
Definition good_content {Y : YCore} (content : ContentType) (d : Doc) : Prop :=
  (content = ContentTypeWhiteboard -> Forall (fun kv => good_value kv.2) (map_entries d assetsRoot))
  /\ (content = ContentTypeMemo -> Forall (fun src => forall v, src = Some v -> good_value v)
                                         (image_srcs d memoRoot)).

Lemma validateLocator_None v : validateLocator v = None <-> good_locator v.
Proof.
  unfold validateLocator, good_locator. destruct (Z.ltb_spec maxLocatorBytes (blen v)).
  - split; [done|]. lia.
  - destruct (String.eqb_spec (trimECMAScript v) "") as [->|Hne]; [by split; [|intros (_ & ? & _)]|].
    destruct (has_prefix_fold _ _); split; try done; by intros (_ & _ & ?).
Qed.

Lemma check_files_None l : check_files l = None <-> Forall (fun kv => good_value kv.2) l.
Proof.
  induction l as [|[key [v|t]] l IH]; simpl; [done| |].
  - rewrite Forall_cons. simpl. rewrite <- validateLocator_None, <- IH.
    destruct (validateLocator v); naive_solver.
  - rewrite Forall_cons. simpl. naive_solver.
Qed.

Lemma check_images_None i l :
  check_images i l = None <-> Forall (fun src => forall v, src = Some v -> good_value v) l.
Proof.
  revert i. induction l as [|[[v|t]|] l IH]; intros i; simpl; [done|..]; rewrite Forall_cons.
  - rewrite <- (IH (S i)). destruct (validateLocator v) as [e|] eqn:E.
    + split; [done|]. intros [H _]. specialize (H _ eq_refl).
      simpl in H. apply validateLocator_None in H. congruence.
    + split; [|by intros [_ ?]]. intros H. split; [|done].
      intros w [= <-]. by apply validateLocator_None.
  - split; [done|]. intros [H _]. by specialize (H _ eq_refl).
  - rewrite <- (IH (S i)). naive_solver.
Qed.

Lemma validateStoredContent_None {Y : YCore} (content : ContentType) (d : Doc) :
  validateStoredContent content d = None <-> good_content content d.
Proof.
  unfold validateStoredContent, good_content.
  destruct (String.eqb_spec content ContentTypeWhiteboard) as [->|Hw].
  { unfold validateAssetsRoot. rewrite check_files_None. naive_solver. }
  destruct (String.eqb_spec content ContentTypeMemo) as [->|Hm].
  { unfold validateMemoImages. rewrite check_images_None. naive_solver. }
  naive_solver.
Qed.

(** The verdict depends on the state alone. *)
Lemma validate_same {Y : YCore} {L : YLaws Y} content d d' :
  same d d' -> validateStoredContent content d = validateStoredContent content d'.
Proof.
  intros H. unfold validateStoredContent, validateAssetsRoot, validateMemoImages.
  by rewrite (law_same_entries d d' _ H), (law_same_srcs d d' _ H).
Qed.

(** A document passes the cold-load and update check exactly when every
    locator it carries is a reference: each entry of a whiteboard's [files] map,
    and each [src] present on a memo's images, is a string of at most 2048 bytes
    that is not blank and does not start, after ECMAScript trimming and in any
    case, with [data:].  A document of any other type passes unchecked. *)
Theorem validateStoredContent_spec {Y : YCore} (content : ContentType) (d : Doc) :
  validateStoredContent content d = None <-> good_content content d.
Proof. apply validateStoredContent_None. Qed.

(** The byte-order mark and capitals do not hide an inline payload; U+0085 is not
    a blank to ECMAScript. *)
Example validateLocator_bom :
  validateLocator (String "239" (String "187" (String "191" "DaTa:image/png"))) = Some LocInlineData.
Proof. vm_compute. reflexivity. Qed.

Example validateLocator_nel : validateLocator (String "194" (String "133" "")) = None.
Proof. vm_compute. reflexivity. Qed.
