(* ===== verification/RoomState.v ===== *)
(** * The room's state and its surroundings (internal/domain/service/room.go)

    [Room] is the state the run loop owns, [effect] what its handlers do to the
    outside, [Params] the room's configuration and its surroundings.  A
    surrounding (a client connection, a store, the hub, the clock, the order a Go
    map is ranged over) is an arbitrary function of the room's whole history of
    effects, so a statement for all [Params] covers every behaviour of them.

    The fields that a failing [Send] can change through the drop cascade
    ([members], [awareness], [awarenessOwners] and the [trace]) are kept apart
    from the [core], which no broadcast touches. *)

From stdpp Require Import base gmap sets list strings.
From Stdlib Require Import ZArith.
From S2P Require Import Prelude Control Lifecycle Limits Core.

(** ** Configuration *)

Record Limits := mkLimits {
  FlushFailureThreshold : Z;
  MaxDocBytes : Z;
  MaxConnsPerRoom : Z;
  UpdateRatePerSec : Z;
  UpdateBurst : Z }.

(** Durations are [int64] nanoseconds. *)
Record RoomConfig := mkConfig {
  SaveDebounce : Z;
  IdleTimeout : Z;
  SendBuffer : Z;
  cfg_Limits : Limits;
  ContributionWindow : Z;
  BackendTimeout : Z }.

Definition second : Z := 1000000000.
Definition defaultFlushFailureThreshold : Z := 5.
Definition flushRetryMaxShift : Z := 5.
Definition maxFlushRetryBackoff : Z := 30 * second.
Definition defaultMaxDocBytes : Z := Z.shiftl 30 20.
Definition defaultMaxConnsPerRoom : Z := 50.
Definition defaultUpdateRatePerSec : Z := 0.
Definition defaultContributionWindowEvery : Z := 600 * second.
Definition defaultBackendTimeout : Z := 30 * second.
Definition budgetSkipSlack : Z := 1024.

Definition DefaultLimits : Limits :=
  mkLimits defaultFlushFailureThreshold defaultMaxDocBytes defaultMaxConnsPerRoom
           defaultUpdateRatePerSec defaultUpdateRatePerSec.

Definition DefaultRoomConfig : RoomConfig :=
  mkConfig (2 * second) (30 * second) 64 DefaultLimits
           defaultContributionWindowEvery defaultBackendTimeout.

(** ** Frames and effects *)

(** A connection handle; the room only ever calls its [Send] and [CloseAfterDrain]. *)
Abbreviation Conn := nat (only parsing).
Abbreviation connID := Z (only parsing).

(** An outbound frame.  Control messages are kept as data: [frame_bytes] gives
    the bytes [encodeControl] puts on the wire. *)
Inductive wire_frame := WControl (msg : ControlMessage) | WBytes (b : bytes).
#[export] Instance wire_frame_eq_dec : EqDecision wire_frame.
Proof. solve_decision. Defined.

Definition frame_bytes {Y : YCore} (f : wire_frame) : bytes :=
  match f with
  | WControl msg => WriteMessage WireControl (marshal_control msg)
  | WBytes b => b
  end.

(** [json.Marshal] of a [ControlMessage] cannot fail: its fields are strings,
    integers and a boolean.  The code's nil branches are kept all the same. *)
Definition encodeControl (msg : ControlMessage) : option wire_frame := Some (WControl msg).

Inductive metric :=
| RoomOpened | RoomClosed | ConnOpened | ConnClosed
| SnapshotSaved | SnapshotFailed
| DocumentUndurable (consecutive : Z) (since : Z)
| DocumentDurabilityRestored
| DocumentEscalated (undurableFor : Z)
| FanoutPublished | FanoutFailed
| ContributingActors (n : nat).
#[export] Instance metric_eq_dec : EqDecision metric.
Proof. solve_decision. Defined.

Inductive effect :=
| ESend (c : Conn) (f : wire_frame) (ok : bool)
| EClose (c : Conn) (e : SessionEnd)
| EMetric (m : metric)
| EPublish (ephemeral : bool) (payload : bytes) (ok : bool)
| ESaveCheckpoint (snapshot vector : bytes) (ok : bool)
| ESaveMetadata (m : Metadata) (ok : bool)
| EContribution (ids : list N) (ok : bool)
| ECancelCtx | ECancelSub | EReleaseHandle | EEvict | ECloseDone | EReleased.

(** Newest effect first. *)
Abbreviation history := (list effect) (only parsing).

(** ** Surroundings *)

Class Params := {
  p_id : DocumentID;
  p_cfg : RoomConfig;
  env_send : history -> Conn -> wire_frame -> bool;
  env_range : history -> list connID -> list connID;
  env_now : history -> Z;
  env_save_checkpoint : history -> bytes -> bytes -> bool;
  env_save_metadata : history -> Metadata -> bool;
  env_publish : history -> bool -> bytes -> bool;
  env_contribute : history -> list N -> bool }.

(** Ranging over a map visits every key once, in some order. *)
Definition fair_range {P : Params} : Prop := forall h l, Permutation (env_range h l) l.

(** ** The room *)

(** One connection.  The token bucket is the member's own; [barrier] is empty when
    no durability request is outstanding. *)
Record roomMember := mkMember {
  mb_conn : Conn;
  mb_actorID : option N;
  mb_mode : CollaboratorMode;
  mb_pending : bool;
  mb_bucket : tokenBucket;
  mb_awarenessID : N;
  mb_hasAwareness : bool;
  mb_durabilityPoisoned : bool;
  mb_barrier : string }.

Definition with_pending (b : bool) (m : roomMember) : roomMember :=
  mkMember (mb_conn m) (mb_actorID m) (mb_mode m) b (mb_bucket m) (mb_awarenessID m)
           (mb_hasAwareness m) (mb_durabilityPoisoned m) (mb_barrier m).
Definition with_bucket (b : tokenBucket) (m : roomMember) : roomMember :=
  mkMember (mb_conn m) (mb_actorID m) (mb_mode m) (mb_pending m) b (mb_awarenessID m)
           (mb_hasAwareness m) (mb_durabilityPoisoned m) (mb_barrier m).
Definition with_awareness (i : N) (m : roomMember) : roomMember :=
  mkMember (mb_conn m) (mb_actorID m) (mb_mode m) (mb_pending m) (mb_bucket m) i
           true (mb_durabilityPoisoned m) (mb_barrier m).
Definition with_poisoned (m : roomMember) : roomMember :=
  mkMember (mb_conn m) (mb_actorID m) (mb_mode m) (mb_pending m) (mb_bucket m) (mb_awarenessID m)
           (mb_hasAwareness m) true (mb_barrier m).
Definition with_barrier (b : string) (m : roomMember) : roomMember :=
  mkMember (mb_conn m) (mb_actorID m) (mb_mode m) (mb_pending m) (mb_bucket m) (mb_awarenessID m)
           (mb_hasAwareness m) (mb_durabilityPoisoned m) b.

(** A periodic contribution batch being emitted off the loop: which attempt it is
    (the pointer the code compares), its actors and the result it will report. *)
Record contributionFlight := mkFlight {
  fl_id : nat;
  fl_actors : gset N;
  fl_ok : bool }.

(** A transaction origin: the connection an update came from (0 for none), and
    whether it came from another pod. *)
Record updateOrigin := mkOrigin { src : connID; peer : bool }.

Section State.
Context {Y : YCore}.

(** A timer is [Some d] when it was last reset to fire after [d], [None] when it
    is stopped or has fired. *)
Record core := mkCore {
  content : ContentType;
  doc : Doc;
  shadow : option Doc;
  lc : roomState;
  nextID : Z;
  dirty : bool;
  docBytes : Z;
  flushFailures : Z;
  undurableSince : option Z;
  version : Z;
  isMultiUser : option bool;
  contributors : gset N;
  docUpdates : Z;
  flight : option contributionFlight;
  nextFlight : nat;
  saveTimer : option Z;
  idleTimer : option Z;
  doneClosed : bool;
  handleHeld : bool;
  policyID : string;
  ownerRef : string;
  bucketID : string }.

Record Room := mkRoom {
  co : core;
  members : gmap connID roomMember;
  awareness : Awareness;
  awarenessOwners : gmap N connID;
  trace : list effect }.

Definition set_content (v : ContentType) (c : core) : core :=
  mkCore v (doc c) (shadow c) (lc c) (nextID c) (dirty c) (docBytes c) (flushFailures c)
    (undurableSince c) (version c) (isMultiUser c) (contributors c) (docUpdates c) (flight c)
    (nextFlight c) (saveTimer c) (idleTimer c) (doneClosed c) (handleHeld c) (policyID c)
    (ownerRef c) (bucketID c).
Definition set_doc (v : Doc) (c : core) : core :=
  mkCore (content c) v (shadow c) (lc c) (nextID c) (dirty c) (docBytes c) (flushFailures c)
    (undurableSince c) (version c) (isMultiUser c) (contributors c) (docUpdates c) (flight c)
    (nextFlight c) (saveTimer c) (idleTimer c) (doneClosed c) (handleHeld c) (policyID c)
    (ownerRef c) (bucketID c).
Definition set_shadow (v : option Doc) (c : core) : core :=
  mkCore (content c) (doc c) v (lc c) (nextID c) (dirty c) (docBytes c) (flushFailures c)
    (undurableSince c) (version c) (isMultiUser c) (contributors c) (docUpdates c) (flight c)
    (nextFlight c) (saveTimer c) (idleTimer c) (doneClosed c) (handleHeld c) (policyID c)
    (ownerRef c) (bucketID c).
Definition set_lc (v : roomState) (c : core) : core :=
  mkCore (content c) (doc c) (shadow c) v (nextID c) (dirty c) (docBytes c) (flushFailures c)
    (undurableSince c) (version c) (isMultiUser c) (contributors c) (docUpdates c) (flight c)
    (nextFlight c) (saveTimer c) (idleTimer c) (doneClosed c) (handleHeld c) (policyID c)
    (ownerRef c) (bucketID c).
Definition set_nextID (v : Z) (c : core) : core :=
  mkCore (content c) (doc c) (shadow c) (lc c) v (dirty c) (docBytes c) (flushFailures c)
    (undurableSince c) (version c) (isMultiUser c) (contributors c) (docUpdates c) (flight c)
    (nextFlight c) (saveTimer c) (idleTimer c) (doneClosed c) (handleHeld c) (policyID c)
    (ownerRef c) (bucketID c).
Definition set_dirty (v : bool) (c : core) : core :=
  mkCore (content c) (doc c) (shadow c) (lc c) (nextID c) v (docBytes c) (flushFailures c)
    (undurableSince c) (version c) (isMultiUser c) (contributors c) (docUpdates c) (flight c)
    (nextFlight c) (saveTimer c) (idleTimer c) (doneClosed c) (handleHeld c) (policyID c)
    (ownerRef c) (bucketID c).
Definition set_docBytes (v : Z) (c : core) : core :=
  mkCore (content c) (doc c) (shadow c) (lc c) (nextID c) (dirty c) v (flushFailures c)
    (undurableSince c) (version c) (isMultiUser c) (contributors c) (docUpdates c) (flight c)
    (nextFlight c) (saveTimer c) (idleTimer c) (doneClosed c) (handleHeld c) (policyID c)
    (ownerRef c) (bucketID c).
Definition set_flushFailures (v : Z) (c : core) : core :=
  mkCore (content c) (doc c) (shadow c) (lc c) (nextID c) (dirty c) (docBytes c) v
    (undurableSince c) (version c) (isMultiUser c) (contributors c) (docUpdates c) (flight c)
    (nextFlight c) (saveTimer c) (idleTimer c) (doneClosed c) (handleHeld c) (policyID c)
    (ownerRef c) (bucketID c).
Definition set_undurableSince (v : option Z) (c : core) : core :=
  mkCore (content c) (doc c) (shadow c) (lc c) (nextID c) (dirty c) (docBytes c) (flushFailures
    c) v (version c) (isMultiUser c) (contributors c) (docUpdates c) (flight c) (nextFlight c)
    (saveTimer c) (idleTimer c) (doneClosed c) (handleHeld c) (policyID c) (ownerRef c) (bucketID
    c).
Definition set_version (v : Z) (c : core) : core :=
  mkCore (content c) (doc c) (shadow c) (lc c) (nextID c) (dirty c) (docBytes c) (flushFailures
    c) (undurableSince c) v (isMultiUser c) (contributors c) (docUpdates c) (flight c)
    (nextFlight c) (saveTimer c) (idleTimer c) (doneClosed c) (handleHeld c) (policyID c)
    (ownerRef c) (bucketID c).
Definition set_isMultiUser (v : option bool) (c : core) : core :=
  mkCore (content c) (doc c) (shadow c) (lc c) (nextID c) (dirty c) (docBytes c) (flushFailures
    c) (undurableSince c) (version c) v (contributors c) (docUpdates c) (flight c) (nextFlight c)
    (saveTimer c) (idleTimer c) (doneClosed c) (handleHeld c) (policyID c) (ownerRef c) (bucketID
    c).
Definition set_contributors (v : gset N) (c : core) : core :=
  mkCore (content c) (doc c) (shadow c) (lc c) (nextID c) (dirty c) (docBytes c) (flushFailures
    c) (undurableSince c) (version c) (isMultiUser c) v (docUpdates c) (flight c) (nextFlight c)
    (saveTimer c) (idleTimer c) (doneClosed c) (handleHeld c) (policyID c) (ownerRef c) (bucketID
    c).
Definition set_docUpdates (v : Z) (c : core) : core :=
  mkCore (content c) (doc c) (shadow c) (lc c) (nextID c) (dirty c) (docBytes c) (flushFailures
    c) (undurableSince c) (version c) (isMultiUser c) (contributors c) v (flight c) (nextFlight
    c) (saveTimer c) (idleTimer c) (doneClosed c) (handleHeld c) (policyID c) (ownerRef c)
    (bucketID c).
Definition set_flight (v : option contributionFlight) (c : core) : core :=
  mkCore (content c) (doc c) (shadow c) (lc c) (nextID c) (dirty c) (docBytes c) (flushFailures
    c) (undurableSince c) (version c) (isMultiUser c) (contributors c) (docUpdates c) v
    (nextFlight c) (saveTimer c) (idleTimer c) (doneClosed c) (handleHeld c) (policyID c)
    (ownerRef c) (bucketID c).
Definition set_nextFlight (v : nat) (c : core) : core :=
  mkCore (content c) (doc c) (shadow c) (lc c) (nextID c) (dirty c) (docBytes c) (flushFailures
    c) (undurableSince c) (version c) (isMultiUser c) (contributors c) (docUpdates c) (flight c)
    v (saveTimer c) (idleTimer c) (doneClosed c) (handleHeld c) (policyID c) (ownerRef c)
    (bucketID c).
Definition set_saveTimer (v : option Z) (c : core) : core :=
  mkCore (content c) (doc c) (shadow c) (lc c) (nextID c) (dirty c) (docBytes c) (flushFailures
    c) (undurableSince c) (version c) (isMultiUser c) (contributors c) (docUpdates c) (flight c)
    (nextFlight c) v (idleTimer c) (doneClosed c) (handleHeld c) (policyID c) (ownerRef c)
    (bucketID c).
Definition set_idleTimer (v : option Z) (c : core) : core :=
  mkCore (content c) (doc c) (shadow c) (lc c) (nextID c) (dirty c) (docBytes c) (flushFailures
    c) (undurableSince c) (version c) (isMultiUser c) (contributors c) (docUpdates c) (flight c)
    (nextFlight c) (saveTimer c) v (doneClosed c) (handleHeld c) (policyID c) (ownerRef c)
    (bucketID c).
Definition set_doneClosed (v : bool) (c : core) : core :=
  mkCore (content c) (doc c) (shadow c) (lc c) (nextID c) (dirty c) (docBytes c) (flushFailures
    c) (undurableSince c) (version c) (isMultiUser c) (contributors c) (docUpdates c) (flight c)
    (nextFlight c) (saveTimer c) (idleTimer c) v (handleHeld c) (policyID c) (ownerRef c)
    (bucketID c).
Definition set_handleHeld (v : bool) (c : core) : core :=
  mkCore (content c) (doc c) (shadow c) (lc c) (nextID c) (dirty c) (docBytes c) (flushFailures
    c) (undurableSince c) (version c) (isMultiUser c) (contributors c) (docUpdates c) (flight c)
    (nextFlight c) (saveTimer c) (idleTimer c) (doneClosed c) v (policyID c) (ownerRef c)
    (bucketID c).
Definition set_policyID (v : string) (c : core) : core :=
  mkCore (content c) (doc c) (shadow c) (lc c) (nextID c) (dirty c) (docBytes c) (flushFailures
    c) (undurableSince c) (version c) (isMultiUser c) (contributors c) (docUpdates c) (flight c)
    (nextFlight c) (saveTimer c) (idleTimer c) (doneClosed c) (handleHeld c) v (ownerRef c)
    (bucketID c).
Definition set_ownerRef (v : string) (c : core) : core :=
  mkCore (content c) (doc c) (shadow c) (lc c) (nextID c) (dirty c) (docBytes c) (flushFailures
    c) (undurableSince c) (version c) (isMultiUser c) (contributors c) (docUpdates c) (flight c)
    (nextFlight c) (saveTimer c) (idleTimer c) (doneClosed c) (handleHeld c) (policyID c) v
    (bucketID c).
Definition set_bucketID (v : string) (c : core) : core :=
  mkCore (content c) (doc c) (shadow c) (lc c) (nextID c) (dirty c) (docBytes c) (flushFailures
    c) (undurableSince c) (version c) (isMultiUser c) (contributors c) (docUpdates c) (flight c)
    (nextFlight c) (saveTimer c) (idleTimer c) (doneClosed c) (handleHeld c) (policyID c)
    (ownerRef c) v.

Definition upd_core (f : core -> core) (r : Room) : Room :=
  mkRoom (f (co r)) (members r) (awareness r) (awarenessOwners r) (trace r).
Definition set_members (v : gmap connID roomMember) (r : Room) : Room :=
  mkRoom (co r) v (awareness r) (awarenessOwners r) (trace r).
Definition set_awareness (v : Awareness) (r : Room) : Room :=
  mkRoom (co r) (members r) v (awarenessOwners r) (trace r).
Definition set_awarenessOwners (v : gmap N connID) (r : Room) : Room :=
  mkRoom (co r) (members r) (awareness r) v (trace r).
Definition log (e : effect) (r : Room) : Room :=
  mkRoom (co r) (members r) (awareness r) (awarenessOwners r) (e :: trace r).

(** Handlers run on the room's single loop. *)
Definition RM (A : Type) : Type := M Room A.

Definition emit (e : effect) : RM unit := modify (log e).
Definition emit_metric (m : metric) : RM unit := emit (EMetric m).
Definition update_core (f : core -> core) : RM unit := modify (upd_core f).
Definition get_core {A} (f : core -> A) : RM A := gets (fun r => f (co r)).
Definition lookup_member (id : connID) : RM (option roomMember) := gets (fun r => members r !! id).
Definition store_member (id : connID) (m : roomMember) : RM unit :=
  modify (fun r => set_members (<[id := m]> (members r)) r).
Definition delete_member (id : connID) : RM unit :=
  modify (fun r => set_members (delete id (members r)) r).
Definition member_count (r : Room) : nat := size (members r).
End State.

(** What the connection gauge reads after a history: openings minus closings. *)
Definition gauge_of (e : effect) : Z :=
  match e with
  | EMetric ConnOpened => 1
  | EMetric ConnClosed => -1
  | _ => 0
  end%Z.
Definition conn_gauge (h : list effect) : Z := foldr (fun e n => (gauge_of e + n)%Z) 0%Z h.

Lemma conn_gauge_app h k : conn_gauge (h ++ k) = (conn_gauge h + conn_gauge k)%Z.
Proof. induction h as [|e h IH]; simpl; [done|]. rewrite IH. by rewrite Z.add_assoc. Qed.
