(* ===== verification/RoomFanout.v ===== *)
(** * Fan-out and eviction

    Models, from room.go, [sendMember], [broadcast], [broadcastControl],
    [dropMember], [evictAwareness], [forcedAwarenessRemoval], [publishToPeers]
    and [activeMemberCount], from presence.go [disconnect], and awareness_wire.go.

    A send that fails drops the member, which evicts its presence with another
    broadcast, in which further sends may fail: the recursion
    sendMember - dropMember - evictAwareness - broadcast.  It is tied with fuel one
    above the number of members; [broadcast_casc] shows the fuel is never used up,
    and that the whole cascade relates the room before and after by [casc]. *)

From stdpp Require Import base gmap sets list strings.
From Stdlib Require Import ZArith Lia.
From S2P Require Import Prelude Control Lifecycle Limits Core RoomState.

Local Open Scope go_scope.

Section Fanout.
Context {Y : YCore} {P : Params}.

(** ** Awareness framing (awareness_wire.go) *)

Definition encodeAwarenessFrame (body : bytes) : bytes := EncodeAwarenessUpdateMessage body.

(** The number of 7-bit groups; a [uint64] has at most ten. *)
Fixpoint varUintLen_loop (fuel : nat) (v n : Z) : Z :=
  match fuel with
  | O => n
  | S k => if (128 <=? v)%Z then varUintLen_loop k (Z.shiftr v 7) (n + 1)%Z else n
  end.
Definition varUintLen (v : Z) : Z := varUintLen_loop 10 v 1.

Definition awarenessBody (frame : bytes) : option bytes :=
  match InspectMessage frame with
  | None => None
  | Some info =>
      if negb (info_Type info =? MessageAwareness)%N then None
      else if (info_BodyLength info <? 0)%Z then None
      else if negb (info_FrameLength info
                    =? 1 + varUintLen (u64 (info_BodyLength info)) + info_BodyLength info)%Z
           then None
           else Some (info_Body info)
  end.

(** ** Publishing to other pods *)

Definition publishToPeers (frame : bytes) (ephemeral : bool) : RM unit :=
  ok ← gets (fun r => env_publish (trace r) ephemeral frame);
  emit (EPublish ephemeral frame ok);;
  emit_metric (if ok : bool then FanoutPublished else FanoutFailed).

(** ** The cascade *)

Definition ranged_ids (r : Room) : list connID :=
  env_range (trace r) (map fst (map_to_list (members r))).

(** [m.conn.Send]: the connection decides, given everything that happened. *)
Definition conn_send (c : Conn) (frame : wire_frame) : RM bool :=
  ok ← gets (fun r => env_send (trace r) c frame);
  emit (ESend c frame ok);;
  ret ok.

Definition forcedAwarenessRemoval (clientID : N) : RM bytes :=
  modify (fun r => set_awareness (RemoveAwarenessStates (awareness r) [clientID]) r);;
  gets (fun r => encodeAwarenessFrame (EncodeAwarenessUpdate (awareness r) [clientID])).

Definition evictAwareness_with (bc : wire_frame -> connID -> RM unit)
    (id : connID) (m : roomMember) : RM unit :=
  if negb (mb_hasAwareness m) then ret tt
  else
    owner ← gets (fun r => awarenessOwners r !! mb_awarenessID m);
    if bool_decide (owner = Some id) then
      modify (fun r => set_awarenessOwners (delete (mb_awarenessID m) (awarenessOwners r)) r);;
      frame ← forcedAwarenessRemoval (mb_awarenessID m);
      if String.eqb frame "" then ret tt
      else bc (WBytes frame) id;; publishToPeers frame true
    else ret tt.

Definition dropMember_with (bc : wire_frame -> connID -> RM unit) (id : connID) : RM bool :=
  found ← lookup_member id;
  match found with
  | None => ret false
  | Some m =>
      delete_member id;;
      when (negb (mb_pending m)) do emit_metric ConnClosed;;
      evictAwareness_with bc id m;;
      ret true
  end.

Definition sendMember_with (bc : wire_frame -> connID -> RM unit)
    (id : connID) (m : roomMember) (frame : wire_frame) : RM unit :=
  ok ← conn_send (mb_conn m) frame;
  if ok : bool then ret tt else dropMember_with bc id;; ret tt.

Fixpoint broadcast_n (n : nat) (frame : wire_frame) (except : connID) : RM unit :=
  match n with
  | O => stuck
  | S n' =>
      ids ← gets ranged_ids;
      forM ids (fun id =>
        found ← lookup_member id;
        match found with
        | None => ret tt
        | Some m =>
            if (id =? except)%Z || mb_pending m then ret tt
            else sendMember_with (broadcast_n n') id m frame
        end)
  end.

(** One level per member that can still be dropped. *)
Definition cascade_fuel (r : Room) : nat := S (member_count r).

Definition broadcast (frame : wire_frame) (except : connID) : RM unit :=
  fun r => broadcast_n (cascade_fuel r) frame except r.
Definition dropMember (id : connID) : RM bool :=
  fun r => dropMember_with (broadcast_n (cascade_fuel r)) id r.
Definition sendMember (id : connID) (m : roomMember) (frame : wire_frame) : RM unit :=
  fun r => sendMember_with (broadcast_n (cascade_fuel r)) id m frame r.

Definition sendTo (id : connID) (frame : wire_frame) : RM unit :=
  found ← lookup_member id;
  match found with Some m => sendMember id m frame | None => ret tt end.

Definition broadcastControlExcept (msg : ControlMessage) (except : connID) : RM unit :=
  match encodeControl msg with Some frame => broadcast frame except | None => ret tt end.
Definition broadcastControl (msg : ControlMessage) : RM unit := broadcastControlExcept msg 0.

Definition active_members (ms : gmap connID roomMember) : gmap connID roomMember :=
  filter (fun kv => mb_pending kv.2 = false) ms.
Definition active_count (ms : gmap connID roomMember) : Z := Z.of_nat (size (active_members ms)).
Definition activeMemberCount (r : Room) : Z := active_count (members r).

(** A close intent is queued behind the frames already sent. *)
Definition conn_close (c : Conn) (e : SessionEnd) : RM unit := emit (EClose c e).

(** [NewSessionEnd] panics on a code outside the table. *)
Definition session_end (code : SessionEndCode) : RM SessionEnd :=
  match NewSessionEnd code with Some e => ret e | None => panic end.

Definition disconnect (id : connID) (code : SessionEndCode) : RM unit :=
  found ← lookup_member id;
  match found with
  | None => ret tt
  | Some m =>
      e ← session_end code;
      match encodeControl (end_control e) with
      | Some frame => _ ← conn_send (mb_conn m) frame; ret tt
      | None => ret tt
      end;;
      conn_close (mb_conn m) e;;
      dropped ← dropMember id;
      if dropped : bool then
        n ← gets activeMemberCount;
        broadcastControl (msg_user_change n)
      else ret tt
  end.

(** ** What a cascade can do *)

(** The frames a broadcast of [frame] sends: itself, and presence removals. *)
Definition cascade_frame (frame f : wire_frame) : Prop := f = frame \/ exists b, f = WBytes b.

Definition casc_effect (F : wire_frame -> Prop) (e : effect) : Prop :=
  match e with
  | ESend _ f _ => F f
  | EMetric ConnClosed | EMetric FanoutPublished | EMetric FanoutFailed => True
  | EPublish eph _ _ => eph = true
  | _ => False
  end.

(** From [r] to [r']: the core is untouched, members only leave, what was done is
    sends of allowed frames, presence publishes and closing counts, and the
    connection gauge moved by exactly the active members that left. *)
Record casc (F : wire_frame -> Prop) (r r' : Room) : Prop := {
  casc_core : co r' = co r;
  casc_members : members r' ⊆ members r;
  casc_trace : exists new, trace r' = new ++ trace r /\ Forall (casc_effect F) new
                 /\ conn_gauge new = (activeMemberCount r' - activeMemberCount r)%Z }.

#[global] Instance casc_preorder F : PreOrder (casc F).
Proof.
  split.
  - intros r. split; [done|done|]. exists []. split_and!; [done|constructor|]. simpl. lia.
  - intros r1 r2 r3 [Hc1 Hm1 (n1 & Ht1 & Hf1 & Hg1)] [Hc2 Hm2 (n2 & Ht2 & Hf2 & Hg2)].
    split; [congruence|etrans; [exact Hm2|exact Hm1]|]. exists (n2 ++ n1). split_and!.
    + by rewrite Ht2, Ht1, app_assoc.
    + by apply Forall_app.
    + rewrite conn_gauge_app. lia.
Qed.

Lemma casc_mono (F G : wire_frame -> Prop) r r' :
  (forall f, F f -> G f) -> casc F r r' -> casc G r r'.
Proof.
  intros HFG [Hc Hm (new & Ht & Hf & Hg)]. split; [done|done|]. exists new. split_and!; [done| |done].
  eapply Forall_impl; [exact Hf|]. intros [| |[]| | | | | | | | | |]; simpl; auto.
Qed.

Lemma active_count_delete (ms : gmap connID roomMember) id m :
  ms !! id = Some m ->
  active_count (delete id ms) = (active_count ms - if mb_pending m then 0 else 1)%Z.
Proof.
  intros Hm. unfold active_count, active_members. destruct (mb_pending m) eqn:Hp.
  - rewrite map_filter_delete_not; [lia|]. intros v Hv. simplify_eq. simpl. congruence.
  - rewrite map_filter_delete.
    rewrite (size_delete_Some (filter _ ms) id m); [lia|].
    by apply map_lookup_filter_Some.
Qed.

(** Effects that neither change the room's own state nor count connections. *)
Lemma casc_log F e r :
  casc_effect F e -> gauge_of e = 0%Z -> casc F r (log e r).
Proof.
  intros He Hg. split; [done|done|]. exists [e]. split_and!; [done|by constructor|].
  simpl. rewrite Hg. unfold activeMemberCount, log; simpl. lia.
Qed.

Lemma emit_casc F e : casc_effect F e -> gauge_of e = 0%Z -> calm (casc F) (emit e).
Proof. intros He Hg. apply calm_modify. intros r. by apply casc_log. Qed.

#[local] Hint Resolve emit_casc : steps.

Lemma publishToPeers_casc F frame : calm (casc F) (publishToPeers frame true).
Proof. unfold publishToPeers, emit_metric. calm_tac; try case_match; by apply emit_casc. Qed.

Lemma conn_send_casc (F : wire_frame -> Prop) c frame :
  F frame -> calm (casc F) (conn_send c frame).
Proof. intros HF. unfold conn_send. calm_tac; by apply emit_casc. Qed.

(** A member leaving: the map shrinks by it and the gauge follows. *)
Definition after_drop (id : connID) (m : roomMember) (r : Room) : Room :=
  let r1 := set_members (delete id (members r)) r in
  if mb_pending m then r1 else log (EMetric ConnClosed) r1.

Lemma casc_after_drop F id m r : members r !! id = Some m -> casc F r (after_drop id m r).
Proof.
  intros Hm. unfold after_drop.
  assert (Ha := active_count_delete (members r) id m Hm).
  destruct (mb_pending m); split; simpl; try done; try apply delete_subseteq.
  - exists []. split_and!; [done|constructor|]. unfold activeMemberCount; simpl. lia.
  - exists [EMetric ConnClosed]. split_and!; [done|by repeat constructor|].
    unfold activeMemberCount; simpl. lia.
Qed.

Lemma size_after_drop id m r :
  members r !! id = Some m -> member_count r = S (member_count (after_drop id m r)).
Proof.
  intros Hm. unfold member_count, after_drop. rewrite (size_delete_Some _ _ _ Hm).
  by destruct (mb_pending m).
Qed.

Lemma casc_count F r r' : casc F r r' -> member_count r' <= member_count r.
Proof. intros [_ Hm _]. by apply map_subseteq_size. Qed.

(** A broadcast routine that behaves from every room of at most [n] members. *)
Definition bc_ok (n : nat) (bc : wire_frame -> connID -> RM unit) : Prop :=
  forall frame except r, member_count r <= n ->
    wp (bc frame except) (fun _ r' => casc (cascade_frame frame) r r') (fun _ => False) r.

Lemma casc_silent F r r' :
  co r' = co r -> members r' = members r -> trace r' = trace r -> casc F r r'.
Proof.
  intros Hc Hm Ht. split; [done|by rewrite Hm|]. exists []. rewrite Ht.
  split_and!; [done|constructor|]. unfold activeMemberCount. rewrite Hm. simpl. lia.
Qed.

Lemma cascade_bytes b f (F : wire_frame -> Prop) :
  (forall b, F (WBytes b)) -> cascade_frame (WBytes b) f -> F f.
Proof. intros HF [->|[b' ->]]; apply HF. Qed.

Lemma evictAwareness_with_casc n bc (F : wire_frame -> Prop) id m r :
  bc_ok n bc -> (forall b, F (WBytes b)) -> member_count r <= n ->
  wp (evictAwareness_with bc id m) (fun _ r' => casc F r r') (fun _ => False) r.
Proof.
  intros Hbc HF Hn. unfold evictAwareness_with, forcedAwarenessRemoval.
  destruct (mb_hasAwareness m); simpl; [|by wp_run].
  wp_run. case_bool_decide; [|by wp_run]. wp_run.
  destruct (String.eqb _ _); wp_run; [by apply casc_silent|].
  match goal with |- wp _ _ _ ?r2 => assert (H2 : casc F r r2) by by apply casc_silent end.
  eapply wp_mono; [apply Hbc; etrans; [by eapply casc_count|done]| |done].
  intros [] r3 H3. eapply wp_mono; [apply (publishToPeers_casc F)| |done].
  intros [] r4 H4. etrans; [exact H2|]. etrans; [|exact H4].
  eapply casc_mono; [|exact H3]. intros f. by apply cascade_bytes.
Qed.

Lemma dropMember_with_casc n bc (F : wire_frame -> Prop) id r :
  bc_ok n bc -> (forall b, F (WBytes b)) -> member_count r <= S n ->
  wp (dropMember_with bc id)
     (fun b r' => casc F r r' /\ b = bool_decide (is_Some (members r !! id))
                  /\ members r' !! id = None)
     (fun _ => False) r.
Proof.
  intros Hbc HF Hn. unfold dropMember_with, lookup_member, delete_member, emit_metric, emit. wp_run.
  destruct (members r !! id) as [m|] eqn:Hm; [|by wp_run].
  apply wp_bind. apply wp_modify. apply wp_bind.
  assert (Hd : wp (when (negb (mb_pending m)) do modify (log (EMetric ConnClosed)))
                  (fun _ r1 => r1 = after_drop id m r) (fun _ => False)
                  (set_members (delete id (members r)) r)).
  { unfold after_drop. by destruct (mb_pending m). }
  eapply wp_mono; [exact Hd| |done]. intros [] r1 ->.
  pose proof (size_after_drop id m r Hm) as Hsize.
  apply wp_bind. eapply wp_mono; [apply (evictAwareness_with_casc n bc F id m _ Hbc HF); lia| |done].
  intros [] r2 H2. wp_run. split_and!.
  - etrans; [by apply casc_after_drop|exact H2].
  - rewrite bool_decide_true; [done|eauto].
  - apply (lookup_weaken_None _ (members (after_drop id m r))); [|apply H2].
    unfold after_drop. destruct (mb_pending m); apply lookup_delete_eq.
Qed.
Lemma sendMember_with_casc n bc (F : wire_frame -> Prop) id m frame r :
  bc_ok n bc -> (forall b, F (WBytes b)) -> F frame -> member_count r <= S n ->
  wp (sendMember_with bc id m frame) (fun _ r' => casc F r r') (fun _ => False) r.
Proof.
  intros Hbc HF Hf Hn. unfold sendMember_with. apply wp_bind.
  eapply wp_mono; [by apply (conn_send_casc F)| |done]. intros ok r1 H1.
  destruct ok; [by wp_run|]. apply wp_bind.
  pose proof (casc_count _ _ _ H1) as Hc.
  eapply wp_mono; [apply (dropMember_with_casc n bc F id r1 Hbc HF); lia| |done].
  intros b r2 (H2 & _). wp_run. etrans; [exact H1|exact H2].
Qed.

(** The recursion always finishes: with at least one unit of fuel more than there
    are members it returns, and it does what [casc] says. *)
Lemma broadcast_n_casc n frame except r :
  member_count r < n ->
  wp (broadcast_n n frame except) (fun _ r' => casc (cascade_frame frame) r r') (fun _ => False) r.
Proof.
  revert frame except r. induction n as [|n IH]; intros frame except r Hn; [lia|].
  cbn [broadcast_n]. apply wp_bind, wp_gets.
  apply (wp_forM _ _ (fun r' => casc (cascade_frame frame) r r')); [|reflexivity].
  intros id r1 _ H1. apply wp_bind, wp_gets.
  destruct (members r1 !! id) as [m|] eqn:Hm; [|by apply wp_ret].
  destruct (_ || _); [by apply wp_ret|].
  pose proof (casc_count _ _ _ H1) as Hc.
  destruct n as [|n']; [exfalso|].
  { unfold member_count in *. assert (size (members r1) = 0) as H0%map_size_empty_inv by lia.
    rewrite H0 in Hm. by rewrite lookup_empty in Hm. }
  eapply wp_mono; [eapply (sendMember_with_casc n' _ (cascade_frame frame))| |done].
  - intros f e r2 H2. apply IH. lia.
  - intros b. right. eauto.
  - by left.
  - lia.
  - intros [] r2 H2. etrans; [exact H1|exact H2].
Qed.

Lemma bc_ok_n n : bc_ok n (broadcast_n (S n)).
Proof. intros f e r Hr. apply broadcast_n_casc. lia. Qed.

Lemma broadcast_casc frame except : calm (casc (cascade_frame frame)) (broadcast frame except).
Proof.
  intros r. unfold wp. change (broadcast frame except r)
    with (broadcast_n (cascade_fuel r) frame except r).
  apply (broadcast_n_casc (cascade_fuel r) frame except r). unfold cascade_fuel. lia.
Qed.

Lemma dropMember_casc (F : wire_frame -> Prop) id r :
  (forall b, F (WBytes b)) ->
  wp (dropMember id)
     (fun b r' => casc F r r' /\ b = bool_decide (is_Some (members r !! id))
                  /\ members r' !! id = None)
     (fun _ => False) r.
Proof.
  intros HF. unfold wp. change (dropMember id r) with (dropMember_with (broadcast_n (cascade_fuel r)) id r).
  apply (dropMember_with_casc (member_count r) _ F id r (bc_ok_n _) HF). lia.
Qed.

Lemma sendMember_casc (F : wire_frame -> Prop) id m frame :
  (forall b, F (WBytes b)) -> F frame -> calm (casc F) (sendMember id m frame).
Proof.
  intros HF Hf r. unfold wp.
  change (sendMember id m frame r)
    with (sendMember_with (broadcast_n (cascade_fuel r)) id m frame r).
  apply (sendMember_with_casc (member_count r) _ F id m frame r (bc_ok_n _) HF Hf). lia.
Qed.

Lemma sendTo_casc (F : wire_frame -> Prop) id frame :
  (forall b, F (WBytes b)) -> F frame -> calm (casc F) (sendTo id frame).
Proof.
  intros HF Hf. unfold sendTo, lookup_member. calm_tac. by apply sendMember_casc.
Qed.

Lemma broadcastControl_casc msg except :
  calm (casc (cascade_frame (WControl msg))) (broadcastControlExcept msg except).
Proof. apply broadcast_casc. Qed.
End Fanout.
