(* ===== verification/RoomBarrier.v ===== *)
(** * Durability requests and contributions

    Models, from room.go, the durability barrier ([answerBarrier] to
    [validRequestID], [handleDurabilityRequest]) and [recordContribution], and
    from presence.go the contribution window. *)

From stdpp Require Import base gmap sets list strings.
From Stdlib Require Import ZArith NArith Ascii String Lia.
From S2P Require Import Prelude Utf8 Json Control Lifecycle Core RoomState RoomFanout.

Local Open Scope string_scope.
Local Open Scope go_scope.

(** ** Request ids *)

Definition maxRequestIDLen : Z := 64.

Definition valid_id_byte (c : ascii) : bool :=
  let n := code c in
  in_range 97 122 n || in_range 65 90 n || in_range 48 57 n
  || (n =? 45)%N || (n =? 95)%N || (n =? 46)%N.

Fixpoint all_bytes (f : ascii -> bool) (s : string) : bool :=
  match s with "" => true | String c s' => f c && all_bytes f s' end.

Definition validRequestID (id : string) : bool :=
  negb (String.eqb id "") && negb (maxRequestIDLen <? blen id)%Z && all_bytes valid_id_byte id.

(** [encoding/json] matches object keys to fields exactly or after simple case
    folding; besides the ASCII letters only U+017F and U+212A fold onto ASCII. *)
Definition fold_rune (r : N) : N :=
  if in_range 97 122 r then (r - 32)%N
  else if (r =? 383)%N then 83%N
  else if (r =? 8490)%N then 75%N
  else r.

Fixpoint fold_runes (fuel : nat) (s : string) : list N :=
  match fuel, s with
  | S k, String _ _ => let '(r, w) := decode_rune s in fold_rune r :: fold_runes k (Utf8.drop w s)
  | _, _ => []
  end.
Definition fold_name (s : string) : list N := fold_runes (String.length s) s.

Definition key_matches (name key : string) : bool :=
  String.eqb key name || bool_decide (fold_name key = fold_name name).

(** Decoding an object into a struct with one string field: keys in order, the
    last match wins, [null] changes nothing and any other type is an error. *)
Fixpoint decode_string_field (name : string) (kvs : list (string * json)) (acc : string) : option string :=
  match kvs with
  | [] => Some acc
  | (k, v) :: kvs' =>
      if key_matches name k then
        match v with
        | JStr s => decode_string_field name kvs' s
        | JNull => decode_string_field name kvs' acc
        | _ => None
        end
      else decode_string_field name kvs' acc
  end.

Definition unmarshal_string_field (name : string) (payload : bytes) : option string :=
  match parse payload with
  | Some JNull => Some ""
  | Some (JObj kvs) => decode_string_field name kvs ""
  | _ => None
  end.

Definition durabilityRequestID (payload : bytes) : string :=
  match unmarshal_string_field "requestId" payload with
  | None => ""
  | Some id => if validRequestID id then id else ""
  end.

Section Barrier.
Context {Y : YCore} {P : Params}.

Definition answerBarrier (src : connID) (id : string) : RM unit :=
  match encodeControl (msg_persisted id) with
  | Some ctrl => sendTo src ctrl
  | None => ret tt
  end.

Definition failBarrier (src : connID) (id reason : string) : RM unit :=
  match encodeControl (msg_persist_failed id reason) with
  | Some ctrl => sendTo src ctrl
  | None => ret tt
  end.

Definition poisonDurability (src : connID) : RM unit :=
  found ← lookup_member src;
  match found with
  | Some m => if mb_durabilityPoisoned m then ret tt else store_member src (with_poisoned m)
  | None => ret tt
  end.

(** State first, send second: the send may drop the member. *)
Definition take_barrier (id : connID) (m : roomMember) (k : string -> RM unit) : RM unit :=
  if String.eqb (mb_barrier m) "" then ret tt
  else store_member id (with_barrier "" m);; k (mb_barrier m).

Definition failMemberBarrier (src : connID) (reason : string) : RM unit :=
  found ← lookup_member src;
  match found with
  | None => ret tt
  | Some m => take_barrier src m (fun pending => failBarrier src pending reason)
  end.

(** Ranging over the members: an entry deleted before it is reached is skipped. *)
Definition range_members (f : connID -> roomMember -> RM unit) : RM unit :=
  ids ← gets ranged_ids;
  forM ids (fun id =>
    found ← lookup_member id;
    match found with Some m => f id m | None => ret tt end).

Definition resolveBarriers : RM unit :=
  range_members (fun id m => take_barrier id m (answerBarrier id)).

Definition failBarriers (reason : string) : RM unit :=
  range_members (fun id m => take_barrier id m (fun pending => failBarrier id pending reason)).

Definition reason_poisoned :=
  "an earlier update from this session was rejected; resync before requesting durability".
Definition reason_dropped := "a previous update from this session was not accepted".
Definition reason_read_only := "this session is read-only".
Definition reason_outstanding := "a durability request is already outstanding on this session".
Definition reason_no_periodic :=
  "durability requests are unavailable while periodic saving is disabled".
Definition reason_rejected := "the update this request covered was rejected".
Definition reason_not_persisted := "the document could not be persisted".
Definition reason_room_ended := "the room ended before the document could be persisted".

Definition handleDurabilityRequest (src : connID) (payload : bytes) (sessionDropped : bool) : RM bool :=
  let id := durabilityRequestID payload in
  if String.eqb id "" then ret false
  else
    found ← lookup_member src;
    match found with
    | None => ret false
    | Some m =>
        isDirty ← get_core dirty;
        if mb_durabilityPoisoned m then failBarrier src id reason_poisoned;; ret false
        else if sessionDropped then failBarrier src id reason_dropped;; ret false
        else if negb (bool_decide (mb_mode m = ModeCollaborator)) then
          failBarrier src id reason_read_only;; ret false
        else if negb (String.eqb (mb_barrier m) "") then
          failBarrier src id reason_outstanding;; ret false
        else if negb isDirty then answerBarrier src id;; ret false
        else if (SaveDebounce p_cfg <=? 0)%Z then failBarrier src id reason_no_periodic;; ret false
        else store_member src (with_barrier id m);; ret false
    end.

(** ** Contributions *)

Definition contributionEnabled : bool := (0 <? ContributionWindow p_cfg)%Z.

Definition recordContribution (src : connID) : RM unit :=
  found ← lookup_member src;
  match found with
  | None => ret tt
  | Some m =>
      match mb_actorID m with
      | Some a => if contributionEnabled
                  then update_core (fun c => set_contributors ({[a]} ∪ contributors c) c)
                  else ret tt
      | None => ret tt
      end
  end.

Definition detachContributors : RM (gset N) :=
  detached ← get_core contributors;
  update_core (set_contributors ∅);;
  emit_metric (ContributingActors (size detached));;
  ret detached.

Definition mergeContributors (actors : gset N) : RM unit :=
  update_core (fun c => set_contributors (contributors c ∪ actors) c).

(** The bus call; the code passes the set in map order. *)
Definition emitContribution (actors : gset N) : RM bool :=
  ok ← gets (fun r => env_contribute (trace r) (elements actors));
  emit (EContribution (elements actors) ok);;
  ret ok.

Definition flushContribution : RM unit :=
  detached ← detachContributors;
  if bool_decide (detached = ∅) then ret tt
  else
    ok ← emitContribution detached;
    if ok : bool then ret tt else mergeContributors detached.

(** The goroutine's call and its result are decided when it starts; the loop sees
    the result only through [finishContributionFlush] or [settleContributionFlight]. *)
Definition startContributionFlush : RM unit :=
  inflight ← get_core flight;
  match inflight with
  | Some _ => ret tt
  | None =>
      detached ← detachContributors;
      if bool_decide (detached = ∅) then ret tt
      else
        ok ← emitContribution detached;
        update_core (fun c => set_flight (Some (mkFlight (nextFlight c) detached ok))
                                (set_nextFlight (S (nextFlight c)) c))
  end.

Definition finishContributionFlush (done_flight : option contributionFlight) : RM unit :=
  inflight ← get_core flight;
  match done_flight, inflight with
  | Some f, Some g =>
      if (fl_id f =? fl_id g)%nat then
        update_core (set_flight None);;
        if fl_ok g then ret tt else mergeContributors (fl_actors g)
      else ret tt
  | _, _ => ret tt
  end.

Definition settleContributionFlight : RM unit :=
  inflight ← get_core flight;
  match inflight with
  | None => ret tt
  | Some f =>
      (if fl_ok f then ret tt else mergeContributors (fl_actors f));;
      update_core (set_flight None)
  end.

End Barrier.

(** ** Request ids: what is accepted *)

Example request_id_uuid :
  durabilityRequestID (String "{" (quote +:+ "requestId" +:+ quote +:+ ":" +:+ quote
    +:+ "0b4e6a52-1111-4c3d-9e0f-abcdefabcdef" +:+ quote +:+ "}"))
  = "0b4e6a52-1111-4c3d-9e0f-abcdefabcdef".
Proof. vm_compute. reflexivity. Qed.
