(* ===== verification/RoomApply.v ===== *)
(** * The mutation path: observer, size budget, validation shadow, sync dispatch

    Models, from room.go, [onDocUpdate], [applyWouldExceedMaxDocBytes],
    [applyUpdate], the shadow operations, [handleSync], [canMutate],
    [handlePeer] and [applyPeerEphemeral], and sync.go. *)

From stdpp Require Import base gmap sets list strings.
From Stdlib Require Import ZArith String.
From S2P Require Import Prelude Control Lifecycle Core Schema RoomState RoomFanout RoomBarrier.

Local Open Scope string_scope.
Local Open Scope go_scope.

Inductive applyResult := applyOK | applyRejectedTooLarge | applyRejectedSchema | applyCandidateFailed.
#[export] Instance applyResult_eq_dec : EqDecision applyResult.
Proof. solve_decision. Defined.

Record syncOutcome := mkOutcome {
  so_mutating : bool;
  so_applied : bool;
  so_rejectedTooLarge : bool;
  so_rejectedSchema : bool;
  so_rejectedNotWritable : bool }.
Definition no_outcome : syncOutcome := mkOutcome false false false false false.

Definition locator_refusal := "update rejected: file locators must be references, not inline data".

Section Apply.
Context {Y : YCore} {P : Params}.

(** The update of a document nobody wrote to; package initialisation panics if
    it cannot be encoded. *)
Definition canonicalEmptyUpdateV1 : option bytes := EncodeStateAsUpdate (NewDoc "empty-update").

(** ** The observer *)

Definition onDocUpdate (update : bytes) (origin : updateOrigin) : RM unit :=
  update_core (fun c => set_docBytes (docBytes c + blen update)
                          (set_docUpdates (u64 (docUpdates c + 1)) (set_dirty true c)));;
  broadcast (WBytes (EncodeUpdate update)) (src origin);;
  if peer origin then ret tt else publishToPeers update false.

(** [ycrdt.ApplyUpdate(r.doc, ...)]: the live document changes, and the observer
    runs synchronously for every update event. *)
Definition apply_live (update : bytes) (origin : updateOrigin) : RM bool :=
  res ← get_core (fun c => ApplyUpdate (doc c) update);
  update_core (set_doc (ap_doc res));;
  forM (ap_events res) (fun u => onDocUpdate u origin);;
  ret (ap_ok res).

(** ** The validation shadow *)

Definition invariantFailed {A} : RM A := panic.

Definition replaceShadow (fresh : Doc) : RM unit := update_core (set_shadow (Some fresh)).
Definition destroyShadow : RM unit := update_core (set_shadow None).

Definition initShadow (d : Doc) : RM bool :=
  ct ← get_core content;
  if negb (String.eqb ct ContentTypeWhiteboard) && negb (String.eqb ct ContentTypeMemo) then ret true
  else match cloneDoc d p_id with
       | None => ret false
       | Some s => replaceShadow s;; ret true
       end.

Definition rebuildShadow : RM unit :=
  live ← get_core doc;
  match cloneDoc live p_id with
  | None => invariantFailed
  | Some fresh => replaceShadow fresh
  end.

Definition validateSchema (d : Doc) : RM (option schemaError) :=
  ct ← get_core content; ret (validateStoredContent ct d).

(** ** The size budget *)

(** The exact answer: re-encode, rebuild on a scratch document, measure.  A
    failure of the measurement itself answers [false]. *)
Definition exact_exceeds (curr update : bytes) (limit : Z) : bool :=
  let seeded := ApplyUpdateV2 (NewDoc p_id) curr in
  if negb (ap_ok seeded) then false
  else
    let grown := ApplyUpdate (ap_doc seeded) update in
    if negb (ap_ok grown) then false
    else match EncodeStateAsUpdateV2 (ap_doc grown) with
         | None => false
         | Some encoded => (limit <? blen encoded)%Z
         end.

Definition budget_skip (known len limit : Z) : bool :=
  (0 <? known)%Z && (known + 2 * len + budgetSkipSlack <=? limit)%Z.

Definition applyWouldExceedMaxDocBytes (update : bytes) : RM bool :=
  let limit := MaxDocBytes (cfg_Limits p_cfg) in
  known ← get_core docBytes;
  if (limit <=? 0)%Z then ret false
  else if budget_skip known (blen update) limit then ret false
  else
    live ← get_core doc;
    match EncodeStateAsUpdateV2 live with
    | None => ret false
    | Some curr =>
        update_core (set_docBytes (blen curr));;
        ret (exact_exceeds curr update limit)
    end.

(** ** The one chokepoint: budget, then schema on the shadow, then live *)

Definition apply_checked (update : bytes) (origin : updateOrigin) : RM applyResult :=
  mirror ← get_core shadow;
  match mirror with
  | None => _ ← apply_live update origin; ret applyOK
  | Some s =>
      let res := ApplyUpdate s update in
      update_core (set_shadow (Some (ap_doc res)));;
      if negb (ap_ok res) then rebuildShadow;; ret applyCandidateFailed
      else
        bad ← validateSchema (ap_doc res);
        match bad with
        | Some _ => rebuildShadow;; ret applyRejectedSchema
        | None =>
            ok ← apply_live update origin;
            if ok : bool then ret applyOK else invariantFailed
        end
  end.

Definition applyUpdate (update : bytes) (origin : updateOrigin) : RM applyResult :=
  tooLarge ← applyWouldExceedMaxDocBytes update;
  if tooLarge && negb (peer origin) then ret applyRejectedTooLarge
  else apply_checked update origin.

(** ** Sync messages *)

Definition content_bearing (info : messageInfo) : bool :=
  match info_SyncType info with
  | SyncMessageUpdate => true
  | _ => negb (bool_decide (canonicalEmptyUpdateV1 = Some (info_Body info)))
  end.

(** The outcome and the reply; [None] is the error return. *)
Definition dispatchSync (framed : bytes) (source : connID) (can : bool)
    : RM (option (syncOutcome * bytes)) :=
  match InspectMessage framed with
  | None => ret None
  | Some info =>
      if negb (info_Type info =? MessageSync)%N then ret (Some (no_outcome, ""))
      else
        match info_SyncType info with
        | SyncMessageStep1 =>
            live ← get_core doc;
            match EncodeSyncStep2 live (info_Body info) with
            | None => ret None
            | Some step2 => ret (Some (no_outcome, step2))
            end
        | SyncMessageStep2 | SyncMessageUpdate =>
            if negb can then
              ret (Some (mkOutcome true false false false (content_bearing info), ""))
            else
              res ← applyUpdate (info_Body info) (mkOrigin source false);
              match res with
              | applyRejectedTooLarge => ret (Some (mkOutcome true false true false false, ""))
              | applyRejectedSchema => ret (Some (mkOutcome true false false true false, ""))
              | applyCandidateFailed => ret (Some (mkOutcome true false false false false, ""))
              | applyOK => ret (Some (mkOutcome true true false false false, ""))
              end
        | SyncMessageOther => ret (Some (no_outcome, ""))
        end
  end.

Definition canMutate (source : connID) : RM bool :=
  found ← lookup_member source;
  ret (match found with
       | Some m => bool_decide (mb_mode m = ModeCollaborator)
       | None => false
       end).

Definition handleSync (source : connID) (payload : bytes) : RM bool :=
  let framed := WriteMessage MessageSync payload in
  can ← canMutate source;
  wasDirty ← get_core dirty;
  updatesBefore ← get_core docUpdates;
  res ← dispatchSync framed source can;
  match res with
  | None => ret false
  | Some (outcome, reply) =>
      (if String.eqb reply "" then ret tt else sendTo source (WBytes reply));;
      if so_rejectedTooLarge outcome then
        failMemberBarrier source reason_rejected;;
        disconnect source CodeDocumentSizeLimitExceeded;;
        ret false
      else if so_rejectedSchema outcome then
        poisonDurability source;;
        failMemberBarrier source reason_rejected;;
        match encodeControl (msg_update_rejected locator_refusal) with
        | Some ctrl => sendTo source ctrl
        | None => ret tt
        end;;
        disconnect source CodeContentRefused;;
        ret false
      else if so_rejectedNotWritable outcome then
        poisonDurability source;;
        failMemberBarrier source reason_rejected;;
        disconnect source CodeForbidden;;
        ret false
      else
        updatesNow ← get_core docUpdates;
        (if so_applied outcome && negb (updatesNow =? updatesBefore)%Z
         then recordContribution source else ret tt);;
        isDirty ← get_core dirty;
        ret (isDirty && negb wasDirty)
  end.

(** ** Updates from other pods *)

Definition applyPeerEphemeral (frame : bytes) : RM unit :=
  match InspectMessage frame with
  | None => ret tt
  | Some info =>
      if (info_Type info =? WireAwareness)%N then
        match awarenessBody frame with
        | None => ret tt
        | Some body =>
            modify (fun r => set_awareness (ApplyAwarenessUpdate (awareness r) body).1 r);;
            broadcast (WBytes frame) 0
        end
      else if (info_Type info =? WireEphemeral)%N then broadcast (WBytes frame) 0
      else ret tt
  end.

Definition handlePeer (payload : bytes) (ephemeral : bool) : RM bool :=
  if ephemeral then applyPeerEphemeral payload;; ret false
  else
    wasDirty ← get_core dirty;
    _ ← applyUpdate payload (mkOrigin 0 true);
    isDirty ← get_core dirty;
    ret (isDirty && negb wasDirty).
End Apply.
