(* ===== verification/RoomLife.v ===== *)
(** * Persistence, durability and teardown

    Models, from room.go, the timers, [persist], [teardown], [releaseHandle] and
    [releaseIfEmpty], and flush.go. *)

From stdpp Require Import base gmap sets list strings.
From Stdlib Require Import ZArith String.
From S2P Require Import Prelude Control Lifecycle Core RoomState RoomFanout RoomBarrier.
From S2P Require Import RoomApply.

Local Open Scope string_scope.
Local Open Scope go_scope.

Definition retry_notice := "recent edits are not yet saved; retrying".
Definition encode_failed := "snapshot encode failed".

Section Life.
Context {Y : YCore} {P : Params}.

(** ** Timers *)

Definition armSaveTimer : RM unit :=
  if (SaveDebounce p_cfg <=? 0)%Z then ret tt
  else update_core (set_saveTimer (Some (SaveDebounce p_cfg))).

Definition retry_backoff (failures : Z) : Z :=
  let backoff := i64 (Z.shiftl (SaveDebounce p_cfg) (Z.min (failures - 1) flushRetryMaxShift)) in
  if (maxFlushRetryBackoff <? backoff)%Z then maxFlushRetryBackoff else backoff.

Definition armRetryTimer : RM unit :=
  c ← get_core id;
  if negb (dirty c) || (flushFailures c =? 0)%Z || (SaveDebounce p_cfg <=? 0)%Z then ret tt
  else update_core (set_saveTimer (Some (retry_backoff (flushFailures c)))).

Definition armIdleTimer : RM unit :=
  update_core (set_idleTimer (Some (if (IdleTimeout p_cfg <=? 0)%Z then 1%Z else IdleTimeout p_cfg))).

Definition stopIdleTimer : RM unit := update_core (set_idleTimer None).

(** ** Teardown *)

(** [handle.Release] then [Registry.Evict]; both are idempotent. *)
Definition releaseHandle : RM unit :=
  emit EReleaseHandle;; update_core (set_handleHeld false);; emit EEvict.

(** Closing a closed channel panics. *)
Definition closeDone : RM unit :=
  closed ← get_core doneClosed;
  if closed : bool then panic
  else update_core (set_doneClosed true);; emit ECloseDone.

Definition end_member (e : SessionEnd) (id : connID) (m : roomMember) : RM unit :=
  match encodeControl (end_control e) with
  | Some endFrame => _ ← conn_send (mb_conn m) endFrame; ret tt
  | None => ret tt
  end;;
  conn_close (mb_conn m) e;;
  delete_member id;;
  when (negb (mb_pending m)) do emit_metric ConnClosed.

(** A step on the state word, as [Lifecycle] defines it. *)
Definition step_lc (f : roomState -> bool * roomState) : RM bool :=
  w ← get_core lc; update_core (set_lc (f w).2);; ret (f w).1.

Definition teardown (e : SessionEnd) (flush : option (RM unit)) : RM unit :=
  destroyShadow;;
  mine ← step_lc beginTeardown;
  if negb mine then ret tt
  else
    match flush with Some f => f | None => ret tt end;;
    failBarriers reason_room_ended;;
    range_members (end_member e);;
    (if String.eqb (end_code e) CodeDocumentDeleted then ret tt
     else settleContributionFlight;; flushContribution);;
    emit ECancelCtx;;
    emit ECancelSub;;
    releaseHandle;;
    closeDone;;
    emit EReleased;;
    _ ← step_lc finishDraining; ret tt.

(** ** Durability (flush.go) *)

Definition onFlushSucceeded : RM unit :=
  failures ← get_core flushFailures;
  if (failures =? 0)%Z then ret tt
  else
    update_core (fun c => set_undurableSince None (set_flushFailures 0 c));;
    emit_metric DocumentDurabilityRestored.

Definition undurableFor (now : Z) (since : option Z) : Z :=
  match since with None => 0%Z | Some t => Limits.time_sub now t end.

Definition flushThreshold : Z :=
  if (FlushFailureThreshold (cfg_Limits p_cfg) <=? 0)%Z then defaultFlushFailureThreshold
  else FlushFailureThreshold (cfg_Limits p_cfg).

Definition escalateUndurable (undurable : Z) : RM unit :=
  emit_metric (DocumentEscalated undurable);;
  e ← session_end CodeEditsNotSaved;
  teardown e None.

(** Its first half: the failure is counted and dated, the parked requests fail. *)
Definition record_failure : RM Z :=
  now ← gets (fun r => env_now (trace r));
  update_core (fun c =>
    set_undurableSince (match undurableSince c with None => Some now | some => some end)
      (set_flushFailures (flushFailures c + 1) c));;
  undurable ← get_core (fun c => undurableFor now (undurableSince c));
  failBarriers reason_not_persisted;;
  emit_metric SnapshotFailed;;
  failures ← get_core flushFailures;
  emit_metric (DocumentUndurable failures undurable);;
  ret undurable.

Definition onFlushFailed : RM unit :=
  undurable ← record_failure;
  failures ← get_core flushFailures;
  if (failures <? flushThreshold)%Z then
    broadcastControl (msg_save_error retry_notice ReasonNotYetDurable)
  else escalateUndurable undurable.

(** ** Persisting *)

Definition save_checkpoint (snapshot vector : bytes) : RM bool :=
  ok ← gets (fun r => env_save_checkpoint (trace r) snapshot vector);
  emit (ESaveCheckpoint snapshot vector ok);;
  ret ok.

Definition save_metadata (m : Metadata) : RM bool :=
  ok ← gets (fun r => env_save_metadata (trace r) m);
  emit (ESaveMetadata m ok);;
  ret ok.

(** The row the room writes: the fields it owns, no content pointer. *)
Definition room_row (c : core) (newVersion : Z) : Metadata :=
  mkMetadata p_id (content c) newVersion "" false None (policyID c) (bucketID c) (ownerRef c) 0 0.

Definition snapshot_failed : RM unit :=
  emit_metric SnapshotFailed;;
  broadcastControl (msg_save_error encode_failed "").

(** What follows the acceptance of both stores. *)
Definition persist_accepted (newVersion : Z) : RM unit :=
  update_core (fun c => set_dirty false (set_version newVersion c));;
  resolveBarriers;;
  onFlushSucceeded;;
  emit_metric SnapshotSaved;;
  v ← get_core version;
  broadcastControl (msg_saved v).

Definition persist_snapshot (snapshot vector : bytes) : RM unit :=
  saved ← save_checkpoint snapshot vector;
  if negb saved then onFlushFailed
  else
    c ← get_core id;
    let newVersion := i64 (version c + 1) in
    recorded ← save_metadata (room_row c newVersion);
    if negb recorded then onFlushFailed else persist_accepted newVersion.

Definition persist : RM unit :=
  c ← get_core id;
  if negb (dirty c) then ret tt
  else
    match EncodeStateAsUpdateV2 (doc c) with
    | None => snapshot_failed
    | Some snapshot =>
        update_core (set_docBytes (blen snapshot));;
        match EncodeStateVectorFromUpdateV2 snapshot with
        | None => snapshot_failed
        | Some vector => persist_snapshot snapshot vector
        end
    end.

(** ** Idle release *)

Definition releaseIfEmpty : RM bool :=
  n ← gets member_count;
  if negb (n =? 0)%nat then ret false
  else
    persist;;
    c ← get_core id;
    if negb (bool_decide (lc c = stateActive)) then ret true
    else if dirty c && (0 <? flushFailures c)%Z && (0 <? SaveDebounce p_cfg)%Z then
      armRetryTimer;; armIdleTimer;; ret false
    else
      e ← session_end CodeServerShutdown;
      teardown e None;;
      ret true.
End Life.
