(* ===== verification/RoomLoop.v ===== *)
(** * Joining, inbound messages and the run loop

    Models, from room.go, [handleJoin], [handleActivate], [resolveJoinCapability],
    [initialJoinFrames], [handleLeave], [handleMessage], [allowRate],
    [trackAwarenessID], [dispatch] and [run].  One iteration of [run]'s select is
    a [loop_event]; [run_step] adds the deferred recover. *)

From stdpp Require Import base gmap sets list strings.
From Stdlib Require Import ZArith NArith String Lia.
From S2P Require Import Prelude Control Lifecycle Limits Core RoomState RoomFanout RoomBarrier.
From S2P Require Import RoomApply RoomLife.

Local Open Scope string_scope.
Local Open Scope go_scope.

Inductive joinError := ErrRoomFull | errRoomUnavailable.
#[export] Instance joinError_eq_dec : EqDecision joinError.
Proof. solve_decision. Defined.

Inductive joinResult :=
| Joined (id : connID) (frames : list wire_frame)
| Refused (e : joinError).

Inductive command :=
| cmdJoin (conn : Conn) (identity : Identity) (mode : CollaboratorMode) (isMultiUser : option bool)
| cmdActivate (source : connID)
| cmdLeave (source : connID)
| cmdMessage (source : connID) (data : bytes) (sessionDropped : bool)
| cmdClose
| cmdCloseDeleted
| cmdContributionDone (flight : option contributionFlight).

(** What a command's result channel receives. *)
Inductive reply :=
| NoReply
| JoinReply (res : joinResult)
| ActivateReply (err : option joinError)
| ClosedReply.

Definition readOnlyReasonForIdentity (identity : Identity) : string :=
  match actorID identity with
  | None => ReasonNotAuthenticated
  | Some a => if (a =? uuid_nil)%N then ReasonNotAuthenticated else ReasonNoUpdateAccess
  end.

Section Loop.
Context {Y : YCore} {P : Params}.

(** ** Joining *)

Definition has_collaborator (ms : gmap connID roomMember) : bool :=
  existsb (fun kv => bool_decide (mb_mode kv.2 = ModeCollaborator)) (map_to_list ms).

Definition resolveJoinCapability (identity : Identity) (requested : CollaboratorMode)
    (multi : option bool) : RM (CollaboratorMode * string) :=
  match multi with
  | Some decision => update_core (set_isMultiUser (Some decision))
  | None => ret tt
  end;;
  known ← get_core isMultiUser;
  taken ← gets (fun r => has_collaborator (members r));
  ret (if bool_decide (requested = ModeCollaborator) && bool_decide (known = Some false) && taken
       then (ModeViewer, ReasonMultiUserNotAllowed)
       else if bool_decide (requested = ModeViewer)
            then (requested, readOnlyReasonForIdentity identity)
            else (requested, "")).

(** The presence of everyone already here, or nothing. *)
Definition awarenessSnapshot (r : Room) : option wire_frame :=
  match GetStates (env_now (trace r)) (awareness r) with
  | [] => None
  | clients => Some (WBytes (encodeAwarenessFrame (EncodeAwarenessUpdate (awareness r) clients)))
  end.

Definition opt_frame (f : option wire_frame) : list wire_frame :=
  match f with Some x => [x] | None => [] end.

Definition initialJoinFrames (admission : wire_frame) (mode : CollaboratorMode) (reason : string)
    : RM (list wire_frame) :=
  gets (fun r => (
    [admission; WBytes (EncodeSyncStep1 (doc (co r)))]
    ++ opt_frame (awarenessSnapshot r)
    ++ (if bool_decide (mode = ModeViewer) then
          opt_frame (encodeControl (msg_read_only true reason))
          ++ (if String.eqb reason ReasonMultiUserNotAllowed
              then opt_frame (encodeControl (msg_collaborator_mode (mode_string ModeViewer) reason))
              else [])
        else []))%list).

Definition new_member (conn : Conn) (identity : Identity) (mode : CollaboratorMode) (now : Z)
    : roomMember :=
  mkMember conn (actorID identity) mode true
    (newTokenBucket (UpdateRatePerSec (cfg_Limits p_cfg)) (UpdateBurst (cfg_Limits p_cfg)) now)
    0 false false "".

Definition at_capacity (r : Room) : bool :=
  let cap := MaxConnsPerRoom (cfg_Limits p_cfg) in
  (0 <? cap)%Z && (cap <=? Z.of_nat (member_count r))%Z.

Definition handleJoin (conn : Conn) (identity : Identity) (requested : CollaboratorMode)
    (multi : option bool) : RM joinResult :=
  '(mode, reason) ← resolveJoinCapability identity requested multi;
  full ← gets at_capacity;
  if full : bool then ret (Refused ErrRoomFull)
  else
    update_core (fun c => set_nextID (u64 (nextID c + 1)) c);;
    id ← get_core nextID;
    now ← gets (fun r => env_now (trace r));
    match encodeControl (msg_admission
            (if bool_decide (mode = ModeViewer) then AdmissionRead else AdmissionWrite) reason) with
    | None => ret (Refused errRoomUnavailable)
    | Some admission =>
        store_member id (new_member conn identity mode now);;
        frames ← initialJoinFrames admission mode reason;
        ret (Joined id frames)
    end.

Definition announce_count : RM unit :=
  n ← gets activeMemberCount; broadcastControl (msg_user_change n).

Definition handleActivate (id : connID) : RM (option joinError) :=
  found ← lookup_member id;
  match found with
  | None => ret (Some errRoomUnavailable)
  | Some m =>
      if negb (mb_pending m) then ret None
      else
        store_member id (with_pending false m);;
        emit_metric ConnOpened;;
        announce_count;;
        ret None
  end.

Definition handleLeave (id : connID) : RM unit :=
  found ← lookup_member id;
  match found with
  | None => ret tt
  | Some m =>
      _ ← dropMember id;
      if mb_pending m then ret tt else announce_count
  end.

(** ** Inbound messages *)

Definition allowRate (source : connID) : RM bool :=
  found ← lookup_member source;
  match found with
  | None => ret true
  | Some m =>
      now ← gets (fun r => env_now (trace r));
      let '(ok, bucket) := allow (mb_bucket m) now in
      store_member source (with_bucket bucket m);;
      ret ok
  end.

Definition trackAwarenessID (source : connID) (payload : bytes) : RM unit :=
  found ← lookup_member source;
  match found with
  | None => ret tt
  | Some m =>
      if mb_hasAwareness m then ret tt
      else
        match DecodeAwarenessMessage payload with
        | None => ret tt
        | Some clientID =>
            store_member source (with_awareness clientID m);;
            modify (fun r => set_awarenessOwners (<[clientID := source]> (awarenessOwners r)) r)
        end
  end.

Definition relay (frame : bytes) (source : connID) : RM unit :=
  broadcast (WBytes frame) source;; publishToPeers frame true.

Definition handleAwareness (source : connID) (frame : bytes) : RM unit :=
  match awarenessBody frame with
  | None => ret tt
  | Some body =>
      res ← gets (fun r => ApplyAwarenessUpdate (awareness r) body);
      modify (set_awareness res.1);;
      if negb res.2 then ret tt
      else trackAwarenessID source body;; relay frame source
  end.

Definition handleMessage (source : connID) (frame : bytes) (sessionDropped : bool) : RM bool :=
  found ← lookup_member source;
  match found with
  | None => ret false
  | Some _ =>
      let parsed := ReadMessage frame in
      ok ← allowRate source;
      if negb ok then disconnect source CodeUpdateRateExceeded;; ret false
      else
        match parsed with
        | None => ret false
        | Some (msgType, payload) =>
            if (msgType =? WireSync)%N then handleSync source payload
            else if (msgType =? WireAwareness)%N then handleAwareness source frame;; ret false
            else if (msgType =? WireEphemeral)%N then relay frame source;; ret false
            else if (msgType =? WireDurabilityRequest)%N then
              handleDurabilityRequest source payload sessionDropped
            else ret false
        end
  end.

(** ** Commands *)

Definition arm_idle_if_empty : RM unit :=
  n ← gets member_count; if (n =? 0)%nat then armIdleTimer else ret tt.

Definition dispatch (cmd : command) : RM (bool * reply) :=
  match cmd with
  | cmdJoin conn identity mode multi =>
      stopIdleTimer;;
      res ← handleJoin conn identity mode multi;
      arm_idle_if_empty;;
      ret (true, JoinReply res)
  | cmdActivate source => res ← handleActivate source; ret (true, ActivateReply res)
  | cmdLeave source => handleLeave source;; arm_idle_if_empty;; ret (true, NoReply)
  | cmdMessage source data dropped =>
      mutated ← handleMessage source data dropped;
      when mutated do armSaveTimer;;
      arm_idle_if_empty;;
      ret (true, NoReply)
  | cmdCloseDeleted =>
      e ← session_end CodeDocumentDeleted;
      teardown e None;;
      ret (false, ClosedReply)
  | cmdClose =>
      e ← session_end CodeServerShutdown;
      teardown e (Some persist);;
      ret (false, NoReply)
  | cmdContributionDone fl => finishContributionFlush fl;; ret (true, NoReply)
  end.

(** ** The loop *)

Inductive loop_event :=
| LCommand (cmd : command)
| LPeer (data : bytes) (ephemeral : bool)
| LSaveTimer
| LIdleTimer
| LContribTimer.

(** [newOptionalTicker]: whether the timer it returns runs, and its interval. *)
Definition newOptionalTicker (every : Z) : bool * Z :=
  if (every <=? 0)%Z then (false, 3600 * second)%Z else (true, every).

(** A timer case is ready only when its timer is armed; the ticker of the contribution
    window is armed again with the same interval each time it fires. *)
Definition enabled (ev : loop_event) (r : Room) : Prop :=
  match ev with
  | LCommand _ | LPeer _ _ => True
  | LSaveTimer => is_Some (saveTimer (co r))
  | LIdleTimer => is_Some (idleTimer (co r))
  | LContribTimer => (newOptionalTicker (ContributionWindow p_cfg)).1 = true
  end.

(** One turn of the select; the boolean says whether the loop goes on. *)
Definition run_event (ev : loop_event) : RM bool :=
  match ev with
  | LCommand cmd => res ← dispatch cmd; ret res.1
  | LPeer data ephemeral =>
      mutated ← handlePeer data ephemeral;
      when mutated do armSaveTimer;;
      ret true
  | LSaveTimer =>
      update_core (set_saveTimer None);;
      persist;;
      state ← get_core lc;
      if negb (bool_decide (state = stateActive)) then ret false
      else armRetryTimer;; ret true
  | LIdleTimer =>
      update_core (set_idleTimer None);;
      released ← releaseIfEmpty;
      ret (negb released)
  | LContribTimer => startContributionFlush;; ret true
  end.

(** The deferred recover: a panic tears the room down without a flush. *)
Definition recover_teardown : RM unit :=
  e ← session_end CodeEditsNotSaved; teardown e None.

Inductive loop_state := Running (r : Room) | Exited (r : Room) | Crashed.

Definition run_step (ev : loop_event) (r : Room) : loop_state :=
  match run_event ev r with
  | Ret true r' => Running r'
  | Ret false r' => Exited r'
  | Panic r' => match recover_teardown r' with
                | Ret _ r'' => Exited r''
                | _ => Crashed
                end
  | Stuck => Crashed
  end.

(** The rooms a started loop passes through, by events satisfying [A], and after
    how many turns. *)
Inductive reaches (A : loop_event -> Prop) (r0 : Room) : Z -> Room -> Prop :=
| reaches_start : reaches A r0 0 r0
| reaches_step n r ev r' :
    reaches A r0 n r -> A ev -> enabled ev r -> run_step ev r = Running r' ->
    reaches A r0 (n + 1) r'.

Lemma reaches_nonneg A r0 n r : reaches A r0 n r -> (0 <= n)%Z.
Proof. induction 1; lia. Qed.

Definition any_event (ev : loop_event) : Prop := True.
End Loop.
