(* ===== verification/Fixture.v ===== *)
(** * A concrete core and concrete surroundings

    An append-log core that satisfies [YLaws] and [YQuiet], and rooms to run the model on: what
    the examples and the witnesses of the theorems are evaluated with.  A document
    is the concatenation of its updates; an update starting with an exclamation
    mark is refused; a document holding an at sign shows an inline image. *)

From stdpp Require Import base gmap sets list strings.
From Stdlib Require Import ZArith NArith Ascii String.
From S2P Require Import Prelude Utf8 Json Control Lifecycle Limits Core Schema RoomState.
From S2P Require Import RoomFanout RoomBarrier RoomApply RoomLife RoomLoop.

Local Open Scope string_scope.

Fixpoint has_char (c : ascii) (s : string) : bool :=
  match s with "" => false | String d s' => Ascii.eqb c d || has_char c s' end.

Definition log_apply (d u : string) : applied string :=
  match u with
  | "" => mkApplied d [] true
  | String "!" _ => mkApplied d [] false
  | _ => mkApplied (d +:+ u) [u] true
  end.

Definition type_char (t : N) : string := String (ascii_of_N (t + 48)) "".

Definition toy_read (f : bytes) : option (N * bytes) :=
  match f with "" => None | String c b => Some ((N_of_ascii c - 48)%N, b) end.

(** A frame is its type digit and its body; a sync body starts with its kind. *)
Definition toy_inspect (f : bytes) : option messageInfo :=
  match toy_read f with
  | None => None
  | Some (t, b) =>
      match t, b with
      | 0%N, String k u =>
          Some (mkInfo t (match k with "0" => SyncMessageStep1 | "1" => SyncMessageStep2
                          | "2" => SyncMessageUpdate | _ => SyncMessageOther end)%char
                       u (blen u) (blen f))
      | _, _ => Some (mkInfo t SyncMessageOther b (blen b) (blen b + 2))
      end
  end.

#[export] Instance toy : YCore := {|
  Doc := string;
  NewDoc := fun _ => "";
  ApplyUpdate := log_apply;
  ApplyUpdateV2 := fun d u => mkApplied (d +:+ u) (if String.eqb u "" then [] else [u]) true;
  EncodeStateAsUpdate := fun d => Some d;
  EncodeStateAsUpdateV2 := fun d => Some d;
  EncodeStateVectorFromUpdateV2 := fun s => Some (String "v" s);
  GetRoot := fun _ _ d => d;
  map_entries := fun d _ => if has_char "@" d then [("img", YString "data:x")] else [];
  image_srcs := fun d _ => if has_char "@" d then [Some (YString "data:x")] else [];
  Awareness := list N;
  NewAwareness := fun _ => [];
  ClearLocalState := fun a => a;
  ApplyAwarenessUpdate := fun a b =>
    match b with "" => (a, false) | String c _ => (N_of_ascii c :: a, true) end;
  RemoveAwarenessStates := fun a ids => filter (fun i => i ∉ ids) a;
  EncodeAwarenessUpdate := fun _ ids => string_of_list_ascii (map ascii_of_N ids);
  GetStates := fun _ a => a;
  InspectMessage := toy_inspect;
  ReadMessage := toy_read;
  WriteMessage := fun t b => type_char t +:+ b;
  EncodeUpdate := fun u => "02" +:+ u;
  EncodeAwarenessUpdateMessage := fun b => "1" +:+ b;
  DecodeAwarenessMessage := fun b => match b with "" => None | String c _ => Some (N_of_ascii c) end;
  EncodeSyncStep1 := fun d => "00" +:+ d;
  EncodeSyncStep2 := fun d _ => Some ("01" +:+ d) |}.

Lemma log_apply_quiet d u : ap_events (log_apply d u) = [] -> ap_doc (log_apply d u) = d.
Proof. destruct u as [|c u]; [done|]. destruct c as [[] [] [] [] [] [] [] []]; done. Qed.

#[export] Instance toy_laws : YLaws toy.
Proof.
  refine {| same := fun d d' : @Doc toy => d = d' |}; simpl.
  all: try congruence; try done.
  - intros _ d b [= ->]. done.
  - intros d d' u ->. done.
  - by intros d d' _ ->.
  - by intros d d' _ ->.
Defined.

#[export] Instance toy_quiet : YQuiet toy := {| law_quiet := log_apply_quiet |}.

(** Surroundings in which every connection takes what it is sent and the stores
    answer [save], given the history. *)
Definition toy_limits : Limits := mkLimits 2 100 3 0 0.
Definition toy_cfg : RoomConfig := mkConfig (2 * second) (30 * second) 64 toy_limits (600 * second) second.
Definition world (send : Conn -> bool) (save : history -> bool) : Params := {|
  p_id := "doc";
  p_cfg := toy_cfg;
  env_send := fun _ c _ => send c;
  env_range := fun _ l => l;
  env_now := fun h => Z.of_nat (List.length h);
  env_save_checkpoint := fun h _ _ => save h;
  env_save_metadata := fun _ _ => true;
  env_publish := fun _ _ _ => true;
  env_contribute := fun _ _ => true |}.

Definition healthy : Params := world (fun _ => true) (fun _ => true).
Definition outage : Params := world (fun _ => true) (fun _ => false).
(** Connection 2 never takes a frame. *)
Definition stuck_conn : Params := world (fun c => negb (Nat.eqb c 2)) (fun _ => true).

Lemma world_fair send save : @fair_range (world send save).
Proof. intros h l. reflexivity. Qed.

Definition toy_core : core :=
  mkCore ContentTypeMemo "" (Some "") stateActive 0 false 0 0 None 0 None ∅ 0 None 0 None
    (Some (30 * second)%Z) false true "" "" "".
Definition toy_room : Room := mkRoom toy_core ∅ [] ∅ [EMetric RoomOpened].

Definition alice : Identity := mkIdentity (Some 1%N).
Definition join_as (c : Conn) (m : CollaboratorMode) : loop_event :=
  LCommand (cmdJoin c alice m None).
Definition activate_id (i : Z) : loop_event := LCommand (cmdActivate i).
Definition sends (i : Z) (f : bytes) : loop_event := LCommand (cmdMessage i f false).

(** Runs events while the loop goes on. *)
Fixpoint run_events {P : Params} (evs : list loop_event) (r : Room) : loop_state :=
  match evs with
  | [] => Running r
  | ev :: evs' => match run_step ev r with Running r' => run_events evs' r' | s => s end
  end.

(** Every timer event of the list finds its timer armed. *)
Definition enabledb {P : Params} (ev : loop_event) (r : Room) : bool :=
  match ev with
  | LCommand _ | LPeer _ _ => true
  | LSaveTimer => bool_decide (is_Some (saveTimer (co r)))
  | LIdleTimer => bool_decide (is_Some (idleTimer (co r)))
  | LContribTimer => (newOptionalTicker (ContributionWindow p_cfg)).1
  end.

Fixpoint run_trace {P : Params} (evs : list loop_event) (r : Room) : option Room :=
  match evs with
  | [] => Some r
  | ev :: evs' =>
      if enabledb ev r then
        match run_step ev r with Running r' => run_trace evs' r' | _ => None end
      else None
  end.

Lemma enabledb_spec {P : Params} ev r : enabledb ev r = true -> enabled ev r.
Proof.
  destruct ev; simpl; [done|done|by intros ?%bool_decide_eq_true..|done].
Qed.

Lemma run_trace_reaches_from {P : Params} (A : loop_event -> Prop) evs r0 n r r' :
  Forall A evs -> reaches A r0 n r -> run_trace evs r = Some r' -> reaches A r0 (n + Z.of_nat (List.length evs)) r'.
Proof.
  revert n r. induction evs as [|ev evs IH]; intros n r HA Hr H; simpl in *.
  - injection H as <-. by rewrite Z.add_0_r.
  - destruct (enabledb ev r) eqn:He; [|done]. destruct (run_step ev r) as [r1| |] eqn:Hs; [|done..].
    replace (n + _)%Z with (n + 1 + Z.of_nat (List.length evs))%Z by lia.
    apply Forall_cons in HA as [HA1 HA2].
    eapply IH; [done| |exact H]. eapply reaches_step; [exact Hr|done|by apply enabledb_spec|exact Hs].
Qed.

Lemma run_trace_reaches {P : Params} A evs r0 r' :
  Forall A evs -> run_trace evs r0 = Some r' -> reaches A r0 (Z.of_nat (List.length evs)) r'.
Proof. intros HA. apply (run_trace_reaches_from A evs r0 0 r0); [done|constructor]. Qed.

Lemma all_any evs : Forall any_event evs.
Proof. induction evs; by constructor. Qed.

(** A collaborator joins, becomes visible and edits. *)
Definition session : list loop_event :=
  [join_as 1 ModeCollaborator; activate_id 1; sends 1 "02hello"].

Definition request_frame (id : string) : bytes :=
  ("4{" ++ Json.quote ++ "requestId" ++ Json.quote ++ ":" ++ Json.quote ++ id ++ Json.quote ++ "}")%string.

(** A session that asks for its edit to be stored. *)
Definition parked_session : list loop_event := session ++ [sends 1 (request_frame "r1")].

Definition dummy_room : Room := toy_room.
Definition after {P : Params} (evs : list loop_event) : Room :=
  match run_trace evs toy_room with Some r => r | None => dummy_room end.

(** The room after one more event. *)
Definition next {P : Params} (ev : loop_event) (r : Room) : Room :=
  match run_step ev r with Running r' | Exited r' => r' | Crashed => dummy_room end.

(** A plain collaborator on connection 1. *)
Definition first_member (barrier : string) : roomMember :=
  mkMember 1 (Some 1%N) ModeCollaborator false (Limits.newTokenBucket 0 0 1) 0 false false barrier.
