(* ===== verification/RoomRel.v ===== *)
(** * What a handler is made of

    Every handler that neither admits a member, nor saves, nor tears the room down
    is composed of a handful of primitive changes: bookkeeping in the core, a
    logged effect, a change of presence, a send cascade, the update or the
    activation of one member, and the update chokepoint [apply_checked].
    [RoomRel] is the interface a relation between rooms has to meet: that it is a
    preorder and contains those primitives.  The lemmas [*_rel] show, once for all
    such relations, that the handlers stay inside it; each invariant of the room is
    then an instance. *)

From stdpp Require Import base gmap sets list strings.
From Stdlib Require Import ZArith Lia.
From S2P Require Import Prelude Control Lifecycle Core RoomState RoomFanout RoomBarrier.
From S2P Require Import RoomApply RoomLife RoomLoop.

Local Open Scope go_scope.

Section Primitives.
Context {Y : YCore} {P : Params}.

(** What the room writes to the index, apart from the version. *)
Definition row_fields (c : core) : ContentType * (string * string * string) :=
  (content c, (policyID c, bucketID c, ownerRef c)).

Lemma row_fields_content c c' : row_fields c' = row_fields c -> content c' = content c.
Proof. by intros [= ? _ _ _]. Qed.

(** Updates of the core that leave alone everything the invariants speak of, and those
    that leave alone the count of failed saves as well. *)
Definition counting (f : core -> core) : Prop := forall c,
  (row_fields (f c) = row_fields c /\ doc (f c) = doc c /\ shadow (f c) = shadow c
   /\ lc (f c) = lc c /\ dirty (f c) = dirty c)
  /\ (doneClosed (f c) = doneClosed c /\ handleHeld (f c) = handleHeld c
      /\ version (f c) = version c /\ isMultiUser (f c) = isMultiUser c
      /\ nextID (f c) = nextID c).

Definition failures_kept (f : core -> core) : Prop := forall c,
  flushFailures (f c) = flushFailures c /\ undurableSince (f c) = undurableSince c.

Definition bookkeeping (f : core -> core) : Prop := counting f /\ failures_kept f.

Definition is_ack (f : wire_frame) : Prop := exists id, f = WControl (msg_persisted id).

(** Effects other than acknowledgements, saves, published edits, connection counts
    and the steps of a teardown. *)
Definition plain_effect (e : effect) : Prop :=
  match e with
  | ESend _ f _ => ~ is_ack f
  | EMetric ConnOpened | EMetric ConnClosed => False
  | EMetric _ | EClose _ _ | EContribution _ _ => True
  | EPublish ephemeral _ _ => ephemeral = true
  | _ => False
  end.

(** The parts of a member fixed for the life of its session. *)
Definition same_session (m m' : roomMember) : Prop :=
  mb_conn m' = mb_conn m /\ mb_mode m' = mb_mode m /\ mb_actorID m' = mb_actorID m.

(** A member updated in place: poison is kept, a barrier is only parked while the
    room is dirty. *)
Definition member_update (is_dirty : bool) (m m' : roomMember) : Prop :=
  same_session m m' /\ mb_pending m' = mb_pending m
  /\ (mb_durabilityPoisoned m = true -> mb_durabilityPoisoned m' = true)
  /\ (mb_barrier m' = "" \/ mb_barrier m' = mb_barrier m \/ is_dirty = true).

Definition put_member (id : connID) (m : roomMember) (r : Room) : Room :=
  set_members (<[id := m]> (members r)) r.

(** Sending, and what a member keeps. *)
Class SendRel (R : Room -> Room -> Prop) : Prop := {
  rr_preorder :: PreOrder R;
  rr_emit e r : plain_effect e -> R r (log e r);
  rr_casc r r' : casc (fun f => ~ is_ack f) r r' -> R r r';
  rr_member id m m' r :
    members r !! id = Some m -> member_update (dirty (co r)) m m' -> R r (put_member id m' r) }.

(** All that a handler does short of changing the document or saving it. *)
Class RoomRel (R : Room -> Room -> Prop) : Prop := {
  rr_send :: SendRel R;
  rr_core f r : bookkeeping f -> R r (upd_core f r);
  rr_presence a o r : R r (mkRoom (co r) (members r) a o (trace r));
  rr_answer r r' : dirty (co r) = false -> casc (fun _ => True) r r' -> R r r';
  rr_activate id m r :
    members r !! id = Some m -> mb_pending m = true ->
    R r (log (EMetric ConnOpened) (put_member id (with_pending false m) r)) }.

(** And counting the saves that failed. *)
Class CountRel (R : Room -> Room -> Prop) : Prop := {
  cr_room :: RoomRel R;
  cr_count f r : counting f -> R r (upd_core f r) }.

(** And what a save does until a store refuses it. *)
Class SaveRel (R : Room -> Room -> Prop) : Prop := {
  sr_count :: CountRel R;
  sr_checkpoint s v ok r :
    dirty (co r) = true -> EncodeStateAsUpdateV2 (doc (co r)) = Some s ->
    R r (log (ESaveCheckpoint s v ok) r);
  sr_row_refused m r : R r (log (ESaveMetadata m false) r) }.

(** And that a member may change the document, through its one chokepoint. *)
Class HandlerRel (R : Room -> Room -> Prop) : Prop := {
  rr_room :: RoomRel R;
  rr_apply u s : steps R (apply_checked u (mkOrigin s false)) }.

(** And another pod. *)
Class PeerRel (R : Room -> Room -> Prop) : Prop := {
  rr_handler :: HandlerRel R;
  rr_apply_peer u s : steps R (apply_checked u (mkOrigin s true)) }.

(** Whoever sent it. *)
Lemma peer_rel R `{!RoomRel R} : (forall u o, steps R (apply_checked u o)) -> PeerRel R.
Proof. intros H. split; [split; [done|]|]; intros; apply H. Qed.

Lemma apply_checked_rel R `{!PeerRel R} u o : steps R (apply_checked u o).
Proof. destruct o as [s []]; [apply rr_apply_peer|apply rr_apply]. Qed.
End Primitives.

Ltac member_upd := unfold member_update, same_session; repeat split; simpl; auto.
#[export] Hint Extern 1 (counting _) => (intros ?; split_and!; reflexivity) : steps.
#[export] Hint Extern 1 (bookkeeping _) => (split; intros ?; split_and!; reflexivity) : steps.
#[export] Hint Extern 1 (plain_effect _) => exact I : steps.
#[export] Hint Extern 1 (plain_effect _) => reflexivity : steps.

(** Frames that are no acknowledgement. *)
Lemma not_ack_bytes b : ~ is_ack (WBytes b).
Proof. by intros [? ?]. Qed.
Lemma not_ack_kind msg : Kind msg <> ControlPersisted -> ~ is_ack (WControl msg).
Proof. intros Hk [id [= ->]]. by apply Hk. Qed.
#[export] Hint Resolve not_ack_bytes : steps.
#[export] Hint Extern 1 (~ is_ack (WControl _)) => (apply not_ack_kind; vm_compute; discriminate) : steps.

Section Suite.
Context {Y : YCore} {P : Params}.
Context (R : Room -> Room -> Prop) `{!SendRel R}.

Lemma steps_core `{!RoomRel R} f : bookkeeping f -> steps R (update_core f).
Proof. intros Hf. apply steps_modify. intros r. by apply rr_core. Qed.

Lemma steps_emit e : plain_effect e -> steps R (emit e).
Proof. intros He. apply steps_modify. intros r. by apply rr_emit. Qed.

Lemma steps_metric m : plain_effect (EMetric m) -> steps R (emit_metric m).
Proof. apply steps_emit. Qed.

Lemma steps_presence `{!RoomRel R} f :
  (forall r, exists a o, f r = mkRoom (co r) (members r) a o (trace r)) -> steps R (modify f).
Proof. intros Hf. apply steps_modify. intros r. destruct (Hf r) as (a & o & ->). apply rr_presence. Qed.

Lemma steps_get_core {A} (f : core -> A) : steps R (get_core f).
Proof. apply steps_gets. typeclasses eauto. Qed.

Lemma calm_casc {A} (m : RM A) : calm (casc (fun f => ~ is_ack f)) m -> steps R m.
Proof. intros H r. eapply wp_mono; [apply H| |done]. intros a r'. apply rr_casc. Qed.

(** Looking a member up and then acting on what was found. *)
Lemma steps_lookup {A} id (k : option roomMember -> RM A) :
  steps R (k None) ->
  (forall m r, members r !! id = Some m -> wp (k (Some m)) (fun _ r' => R r r') (R r) r) ->
  steps R (bindM (lookup_member id) k).
Proof.
  intros HN HS r. apply wp_bind, wp_gets. destruct (members r !! id) eqn:E; [by apply HS|apply HN].
Qed.

Lemma wp_steps {A} (k : RM A) r : steps R k -> wp k (fun _ r' => R r r') (R r) r.
Proof. intros Hk. apply Hk. Qed.

Lemma wp_after {A} (k : RM A) r r1 :
  R r r1 -> steps R k -> wp k (fun _ r' => R r r') (R r) r1.
Proof. intros H1 Hk. apply (steps_wp R k); [done|]. intros r' H. by etrans. Qed.

Lemma wp_store {A} id m m' (k : RM A) r :
  members r !! id = Some m -> member_update (dirty (co r)) m m' -> steps R k ->
  wp (store_member id m';; k) (fun _ r' => R r r') (R r) r.
Proof.
  intros Hm Hu Hk. apply wp_bind, wp_modify. apply wp_after; [|done]. by apply (rr_member id m m' r).
Qed.
End Suite.

#[export] Hint Resolve rr_apply rr_apply_peer steps_core steps_emit steps_metric steps_get_core : steps.

(** The update chokepoint, for relations that do not look at the document. *)
Section ApplyBy.
Context {Y : YCore} {P : Params}.
Context (R : Room -> Room -> Prop) `{!PreOrder R}.

Definition doc_change (f : core -> core) : Prop := forall c,
  (row_fields (f c) = row_fields c /\ lc (f c) = lc c
   /\ (dirty c = true -> dirty (f c) = true) /\ doneClosed (f c) = doneClosed c)
  /\ (handleHeld (f c) = handleHeld c /\ version (f c) = version c
      /\ isMultiUser (f c) = isMultiUser c /\ nextID (f c) = nextID c).

Definition doc_update (f : core -> core) : Prop := doc_change f /\ failures_kept f.

Context (Hcore : forall f r, doc_update f -> R r (upd_core f r)).
Context (Hemit : forall e r, plain_effect e -> R r (log e r)).
Context (Hpub : forall u ok r, R r (log (EPublish false u ok) r)).
Context (Hcasc : forall r r', casc (fun f => ~ is_ack f) r r' -> R r r').

Lemma by_core f : doc_update f -> steps R (update_core f).
Proof. intros Hf. apply steps_modify. intros r. by apply Hcore. Qed.

Lemma by_emit e : plain_effect e -> steps R (emit e).
Proof. intros He. apply steps_modify. intros r. by apply Hemit. Qed.

Lemma by_publish u : steps R (publishToPeers u false).
Proof.
  unfold publishToPeers, emit_metric. steps_tac; [apply steps_modify; intros; apply Hpub|].
  apply by_emit. by case_match.
Qed.

Hint Resolve by_core by_emit by_publish : steps.
Hint Extern 1 (doc_update _) => (split; intros ?; repeat split; auto) : steps.

Lemma by_onDocUpdate u o : steps R (onDocUpdate u o).
Proof.
  assert (Hb : forall f e, ~ is_ack f -> steps R (broadcast f e)).
  { intros f e Hf r. eapply wp_mono; [apply broadcast_casc| |done]. intros a r' H. apply Hcasc.
    eapply casc_mono; [|exact H]. intros g [->|[b ->]]; [done|apply not_ack_bytes]. }
  unfold onDocUpdate. steps_tac.
Qed.
Hint Resolve by_onDocUpdate : steps.

Lemma apply_checked_by u o : steps R (apply_checked u o).
Proof.
  unfold apply_checked, apply_live, validateSchema, rebuildShadow, replaceShadow, invariantFailed,
    get_core. cbv zeta. steps_tac.
Qed.
End ApplyBy.

Section Sends.
Context {Y : YCore} {P : Params}.
Context (R : Room -> Room -> Prop) `{!SendRel R}.

Lemma publishToPeers_rel f : steps R (publishToPeers f true).
Proof. unfold publishToPeers. steps_tac. apply steps_metric; [done|]. by case_match. Qed.

Lemma broadcast_rel f e : ~ is_ack f -> steps R (broadcast f e).
Proof.
  intros Hf. apply calm_casc; [done|]. intros r.
  eapply wp_mono; [apply broadcast_casc| |done]. intros a r' H.
  eapply casc_mono; [|exact H]. intros g [->|[b ->]]; [done|apply not_ack_bytes].
Qed.

Lemma broadcastControl_rel msg e :
  ~ is_ack (WControl msg) -> steps R (broadcastControlExcept msg e).
Proof. apply broadcast_rel. Qed.

Lemma sendTo_rel id f : ~ is_ack f -> steps R (sendTo id f).
Proof. intros Hf. apply calm_casc; [done|]. apply sendTo_casc; [apply not_ack_bytes|done]. Qed.

Lemma sendMember_rel id m f : ~ is_ack f -> steps R (sendMember id m f).
Proof. intros Hf. apply calm_casc; [done|]. apply sendMember_casc; [apply not_ack_bytes|done]. Qed.

Lemma conn_send_rel c f : ~ is_ack f -> steps R (conn_send c f).
Proof. intros Hf. apply calm_casc; [done|]. by apply conn_send_casc. Qed.

Lemma dropMember_rel id : steps R (dropMember id).
Proof.
  intros r. eapply wp_mono; [apply (dropMember_casc (fun f => ~ is_ack f)), not_ack_bytes| |done].
  intros b r' (H & _). by apply rr_casc.
Qed.

Lemma session_end_rel code : steps R (session_end code).
Proof. unfold session_end. steps_tac. Qed.
End Sends.

#[export] Hint Resolve publishToPeers_rel broadcast_rel broadcastControl_rel sendTo_rel
  sendMember_rel conn_send_rel dropMember_rel session_end_rel : steps.

Section Barriers.
Context {Y : YCore} {P : Params}.
Context (R : Room -> Room -> Prop) `{!SendRel R}.

Lemma end_control_not_ack e : ~ is_ack (WControl (end_control e)).
Proof. by apply not_ack_kind. Qed.
Hint Resolve end_control_not_ack : steps.

Lemma disconnect_rel id code : steps R (disconnect id code).
Proof. unfold disconnect, lookup_member, conn_close. simpl. steps_tac. Qed.

Lemma failBarrier_rel id s why : steps R (failBarrier id s why).
Proof. unfold failBarrier; simpl. steps_tac. Qed.

Lemma poisonDurability_rel id : steps R (poisonDurability id).
Proof.
  apply steps_lookup; [steps_tac|]. intros m r Hm.
  destruct (mb_durabilityPoisoned m) eqn:Hp; [apply wp_ret; reflexivity|].
  apply wp_modify. apply (rr_member id m); [done|].
  member_upd.
Qed.

Lemma take_barrier_rel id m k r :
  members r !! id = Some m -> (forall s, steps R (k s)) ->
  wp (take_barrier id m k) (fun _ r' => R r r') (R r) r.
Proof.
  intros Hm Hk. unfold take_barrier. destruct (String.eqb _ _); [apply wp_ret; reflexivity|].
  apply (wp_store R id m); [done| |apply Hk]. member_upd.
Qed.
Hint Resolve failBarrier_rel : steps.

Lemma failMemberBarrier_rel id why : steps R (failMemberBarrier id why).
Proof.
  apply steps_lookup; [steps_tac|]. intros m r Hm.
  apply take_barrier_rel; [done|]. intros. steps_tac.
Qed.

Lemma range_members_rel f :
  (forall id m r, members r !! id = Some m -> wp (f id m) (fun _ r' => R r r') (R r) r) ->
  steps R (range_members f).
Proof.
  intros Hf. unfold range_members. steps_tac. apply steps_forM; [typeclasses eauto|].
  intros id. apply steps_lookup; [steps_tac|]. intros m r Hm. by apply Hf.
Qed.

Lemma failBarriers_rel why : steps R (failBarriers why).
Proof.
  apply range_members_rel. intros id m r Hm. apply take_barrier_rel; [done|]. intros. steps_tac.
Qed.

End Barriers.

Section Durability.
Context {Y : YCore} {P : Params}.
Context (R : Room -> Room -> Prop) `{!RoomRel R}.
Hint Resolve end_control_not_ack failBarrier_rel : steps.

(** An acknowledgement leaves only a clean room. *)
Lemma answerBarrier_wp id s r :
  dirty (co r) = false -> wp (answerBarrier id s) (fun _ r' => R r r') (R r) r.
Proof.
  intros Hd. eapply wp_mono; [apply (sendTo_casc (fun _ => True)); done| |done].
  intros [] r' H. by apply rr_answer.
Qed.

Lemma handleDurabilityRequest_rel id payload dropped :
  steps R (handleDurabilityRequest id payload dropped).
Proof.
  unfold handleDurabilityRequest. destruct (String.eqb _ _); [steps_tac|].
  apply steps_lookup; [steps_tac|]. intros m r Hm. apply wp_bind, wp_gets.
  destruct (mb_durabilityPoisoned m) eqn:Hp; [apply wp_steps; steps_tac|].
  destruct dropped; [apply wp_steps; steps_tac|].
  destruct (negb (bool_decide _)); [apply wp_steps; steps_tac|].
  destruct (negb (String.eqb _ _)); [apply wp_steps; steps_tac|].
  destruct (dirty (co r)) eqn:Hd; simpl.
  - destruct (_ <=? 0)%Z; [apply wp_steps; steps_tac|].
    apply (wp_store R id m); [done| |steps_tac].
    rewrite Hd. member_upd.
  - apply wp_bind. eapply wp_mono; [by apply answerBarrier_wp| |done]. intros [] r' H. by apply wp_ret.
Qed.

Lemma recordContribution_rel id : steps R (recordContribution id).
Proof. unfold recordContribution, lookup_member. steps_tac. Qed.

Lemma detachContributors_rel : steps R detachContributors.
Proof. unfold detachContributors. steps_tac. Qed.

Lemma mergeContributors_rel a : steps R (mergeContributors a).
Proof. unfold mergeContributors. steps_tac. Qed.

Lemma emitContribution_rel a : steps R (emitContribution a).
Proof. unfold emitContribution. steps_tac. Qed.
Hint Resolve detachContributors_rel mergeContributors_rel emitContribution_rel : steps.

Lemma flushContribution_rel : steps R flushContribution.
Proof. unfold flushContribution. steps_tac. Qed.

Lemma startContributionFlush_rel : steps R startContributionFlush.
Proof. unfold startContributionFlush. steps_tac. Qed.

Lemma finishContributionFlush_rel f : steps R (finishContributionFlush f).
Proof. unfold finishContributionFlush. steps_tac. Qed.

Lemma settleContributionFlight_rel : steps R settleContributionFlight.
Proof. unfold settleContributionFlight. steps_tac. Qed.
End Durability.

#[export] Hint Resolve end_control_not_ack disconnect_rel failBarrier_rel poisonDurability_rel
  failMemberBarrier_rel failBarriers_rel handleDurabilityRequest_rel recordContribution_rel
  detachContributors_rel mergeContributors_rel emitContribution_rel flushContribution_rel
  startContributionFlush_rel finishContributionFlush_rel settleContributionFlight_rel : steps.

Section Handlers.
Context {Y : YCore} {P : Params}.
Context (R : Room -> Room -> Prop) `{!RoomRel R}.

Lemma applyPeerEphemeral_rel f : steps R (applyPeerEphemeral f).
Proof. unfold applyPeerEphemeral. steps_tac. apply (steps_presence R). intros r. eauto. Qed.

Lemma armSaveTimer_rel : steps R armSaveTimer.
Proof. unfold armSaveTimer. steps_tac. Qed.

Lemma armRetryTimer_rel : steps R armRetryTimer.
Proof. unfold armRetryTimer. steps_tac. Qed.

Lemma armIdleTimer_rel : steps R armIdleTimer.
Proof. unfold armIdleTimer. steps_tac. Qed.

Lemma stopIdleTimer_rel : steps R stopIdleTimer.
Proof. unfold stopIdleTimer. steps_tac. Qed.

Lemma snapshot_failed_rel : steps R snapshot_failed.
Proof. unfold snapshot_failed, broadcastControl. steps_tac. Qed.

Lemma announce_count_rel : steps R announce_count.
Proof. unfold announce_count, broadcastControl. steps_tac. Qed.

Hint Resolve announce_count_rel armIdleTimer_rel : steps.

Lemma arm_idle_if_empty_rel : steps R arm_idle_if_empty.
Proof. unfold arm_idle_if_empty. steps_tac. Qed.

Lemma handleActivate_rel id : steps R (handleActivate id).
Proof.
  apply steps_lookup; [steps_tac|]. intros m r Hm.
  destruct (mb_pending m) eqn:Hp; simpl; [|apply wp_ret; reflexivity].
  apply wp_bind, wp_modify, wp_bind, wp_modify.
  apply (wp_after R); [by apply (rr_activate id m)|steps_tac].
Qed.

Lemma handleLeave_rel id : steps R (handleLeave id).
Proof. unfold handleLeave, lookup_member. steps_tac. Qed.

Lemma allowRate_rel id : steps R (allowRate id).
Proof.
  apply steps_lookup; [steps_tac|]. intros m r Hm. apply wp_bind, wp_gets.
  destruct (Limits.allow _ _) as [ok b].
  apply (wp_store R id m); [done|member_upd|steps_tac].
Qed.

Lemma trackAwarenessID_rel id p : steps R (trackAwarenessID id p).
Proof.
  apply steps_lookup; [steps_tac|]. intros m r Hm.
  destruct (mb_hasAwareness m); [apply wp_ret; reflexivity|].
  destruct (DecodeAwarenessMessage p); [|apply wp_ret; reflexivity].
  apply (wp_store R id m); [done|member_upd|].
  apply (steps_presence R). intros. eauto.
Qed.

Lemma relay_rel f s : steps R (relay f s).
Proof. unfold relay. steps_tac. Qed.

Hint Resolve trackAwarenessID_rel relay_rel : steps.

Lemma handleAwareness_rel s f : steps R (handleAwareness s f).
Proof.
  unfold handleAwareness. steps_tac; (apply (steps_presence R)); intros; unfold set_awareness; eauto.
Qed.
End Handlers.

#[export] Hint Resolve applyPeerEphemeral_rel armSaveTimer_rel armRetryTimer_rel armIdleTimer_rel
  stopIdleTimer_rel snapshot_failed_rel announce_count_rel
  arm_idle_if_empty_rel handleActivate_rel handleLeave_rel allowRate_rel trackAwarenessID_rel
  relay_rel handleAwareness_rel : steps.

Section Mutations.
Context {Y : YCore} {P : Params}.
Context (R : Room -> Room -> Prop) `{!HandlerRel R}.

Lemma applyWouldExceed_rel u : steps R (applyWouldExceedMaxDocBytes u).
Proof. unfold applyWouldExceedMaxDocBytes. steps_tac. Qed.
Hint Resolve applyWouldExceed_rel : steps.

Lemma applyUpdate_by o :
  (forall u, steps R (apply_checked u o)) -> forall u, steps R (applyUpdate u o).
Proof. intros H u. unfold applyUpdate. steps_tac. Qed.

Lemma applyUpdate_rel u s : steps R (applyUpdate u (mkOrigin s false)).
Proof. apply applyUpdate_by. intros. apply rr_apply. Qed.
Hint Resolve applyUpdate_rel : steps.

Lemma dispatchSync_rel f s c : steps R (dispatchSync f s c).
Proof. unfold dispatchSync. steps_tac. Qed.

Lemma canMutate_rel s : steps R (canMutate s).
Proof. unfold canMutate, lookup_member. steps_tac. Qed.
Hint Resolve dispatchSync_rel canMutate_rel : steps.

Lemma handleSync_rel s p : steps R (handleSync s p).
Proof. unfold handleSync. cbv zeta. simpl. steps_tac. Qed.

Hint Resolve handleSync_rel : steps.

Lemma handleMessage_rel s f d : steps R (handleMessage s f d).
Proof. unfold handleMessage, lookup_member. cbv zeta. steps_tac. Qed.

Lemma handlePeer_by d (e : bool) :
  (e = false -> forall u, steps R (apply_checked u (mkOrigin 0 true))) -> steps R (handlePeer d e).
Proof.
  intros H. unfold handlePeer. destruct e; [steps_tac|].
  pose proof (applyUpdate_by (mkOrigin 0 true) (H eq_refl)). steps_tac.
Qed.

Lemma handlePeer_rel `{!PeerRel R} d e : steps R (handlePeer d e).
Proof. apply handlePeer_by. intros _ u. apply rr_apply_peer. Qed.
End Mutations.

#[export] Hint Resolve applyUpdate_rel handleSync_rel handlePeer_rel handleMessage_rel : steps.

(** ** Teardowns *)

Section Ending.
Context {Y : YCore} {P : Params}.

(** What a teardown does to the core, and what it logs, beyond what handlers do. *)
Definition ending_update (f : core -> core) : Prop := forall c,
  (row_fields (f c) = row_fields c /\ doc (f c) = doc c /\ dirty (f c) = dirty c /\ version (f c) = version c)
  /\ (flushFailures (f c) = flushFailures c /\ undurableSince (f c) = undurableSince c).
Definition ending_effect (e : effect) : Prop :=
  match e with
  | EClose _ _ | EMetric _ | ECancelCtx | ECancelSub | EReleaseHandle | EEvict | ECloseDone | EReleased => True
  | _ => False
  end.

Class EndRel (R : Room -> Room -> Prop) : Prop := {
  er_room :: RoomRel R;
  er_update f r : ending_update f -> R r (upd_core f r);
  er_log e r : ending_effect e -> R r (log e r);
  er_delete id r : R r (set_members (delete id (members r)) r) }.

Context (R : Room -> Room -> Prop) `{!EndRel R}.
Hint Extern 1 (ending_update _) => (intros ?; split_and!; reflexivity) : steps.
Hint Extern 1 (ending_effect _) => exact I : steps.

Lemma ends_core f : ending_update f -> steps R (update_core f).
Proof. intros Hf. apply steps_modify. intros r. by apply er_update. Qed.

Lemma ends_emit e : ending_effect e -> steps R (emit e).
Proof. intros He. apply steps_modify. intros r. by apply er_log. Qed.
Hint Resolve ends_core ends_emit : steps.

Lemma step_lc_ends f : steps R (step_lc f).
Proof. unfold step_lc. steps_tac. Qed.

Lemma sweep_ends e : steps R (range_members (end_member e)).
Proof.
  apply (range_members_rel R). intros id m r _. apply (wp_steps R).
  unfold end_member, conn_close, delete_member, emit_metric. simpl. steps_tac.
  apply steps_modify. intros r'. apply er_delete.
Qed.
Hint Resolve step_lc_ends sweep_ends : steps.

(** What comes after the flush. *)
Lemma release_ends : steps R (releaseHandle;; closeDone).
Proof. unfold releaseHandle, closeDone. steps_tac. Qed.

Lemma teardown_ends e : steps R (teardown e None).
Proof. unfold teardown, destroyShadow, releaseHandle, closeDone. steps_tac. Qed.

Lemma escalate_ends u : steps R (escalateUndurable u).
Proof. pose proof teardown_ends. unfold escalateUndurable, emit_metric. steps_tac. Qed.
End Ending.

(** ** Conjunctions of relations *)

Section Both.
Context {Y : YCore} {P : Params}.

Definition both (R1 R2 : Room -> Room -> Prop) (r r' : Room) : Prop := R1 r r' /\ R2 r r'.

#[export] Instance both_preorder R1 R2 : PreOrder R1 -> PreOrder R2 -> PreOrder (both R1 R2).
Proof.
  intros P1 P2. split; [intros r; split; reflexivity|].
  intros r1 r2 r3 [H1 H2] [H3 H4]. split; by etrans.
Qed.

Lemma steps_both {A} R1 R2 (m : RM A) : steps R1 m -> steps R2 m -> steps (both R1 R2) m.
Proof. intros H1 H2 r. exact (wp_and _ _ _ _ _ _ (H1 r) (H2 r)). Qed.

#[export] Instance both_send R1 R2 : SendRel R1 -> SendRel R2 -> SendRel (both R1 R2).
Proof.
  intros S1 S2. split.
  - apply both_preorder; apply rr_preorder.
  - intros e r He. split; by apply rr_emit.
  - intros r r' H. split; by apply rr_casc.
  - intros id m m' r Hm Hu. split; by apply (rr_member id m m').
Qed.

#[export] Instance both_room R1 R2 : RoomRel R1 -> RoomRel R2 -> RoomRel (both R1 R2).
Proof.
  intros S1 S2. split.
  - apply both_send; apply rr_send.
  - intros f r Hf. split; by apply rr_core.
  - intros a o r. split; apply rr_presence.
  - intros r r' Hd H. split; by apply rr_answer.
  - intros id m r Hm Hp. split; by apply (rr_activate id m).
Qed.

#[export] Instance both_count R1 R2 : CountRel R1 -> CountRel R2 -> CountRel (both R1 R2).
Proof.
  intros S1 S2. split; [apply both_room; apply cr_room|]. intros f r Hf. split; by apply cr_count.
Qed.

#[export] Instance both_save R1 R2 : SaveRel R1 -> SaveRel R2 -> SaveRel (both R1 R2).
Proof.
  intros S1 S2. split.
  - apply both_count; apply sr_count.
  - intros s v ok r Hd He. split; by apply sr_checkpoint.
  - intros m r. split; apply sr_row_refused.
Qed.

#[export] Instance both_handler R1 R2 : HandlerRel R1 -> HandlerRel R2 -> HandlerRel (both R1 R2).
Proof.
  intros S1 S2. split; [apply both_room; apply rr_room|].
  intros u s. apply steps_both; apply rr_apply.
Qed.

#[export] Instance both_peer R1 R2 : PeerRel R1 -> PeerRel R2 -> PeerRel (both R1 R2).
Proof.
  intros S1 S2. split; [apply both_handler; apply rr_handler|].
  intros u s. apply steps_both; apply rr_apply_peer.
Qed.
End Both.
