(* ===== verification/RoomSafe.v ===== *)
(** * The life of a room, from activation to the closed registry

    [held] is the relation every handler short of join, save and teardown keeps:
    the lifecycle word, the done channel and the registry handle are as they were,
    nobody appeared, and the connection gauge followed the visible members.  With
    it: the sweep that ends every member's session, and what a teardown leaves
    behind ([ended], [torn]); [RoomRun] builds the loop's invariant on them. *)

From stdpp Require Import base gmap sets list strings.
From Stdlib Require Import ZArith Lia.
From S2P Require Import Prelude Control Lifecycle Core RoomState RoomFanout RoomBarrier.
From S2P Require Import RoomApply RoomLife RoomLoop RoomRel.

Local Open Scope go_scope.

Section Held.
Context {Y : YCore} {P : Params}.

(** How far the gauge is from the number of active members. *)
Definition gauge_drift (r : Room) : Z := (conn_gauge (trace r) - activeMemberCount r)%Z.

Record held (r r' : Room) : Prop := {
  held_lc : lc (co r') = lc (co r);
  held_done : doneClosed (co r') = doneClosed (co r);
  held_handle : handleHeld (co r') = handleHeld (co r);
  held_next : nextID (co r') = nextID (co r);
  held_gauge : gauge_drift r' = gauge_drift r;
  held_members : forall id m', members r' !! id = Some m' ->
    exists m, members r !! id = Some m /\ same_session m m';
  held_trace : trace r `suffix_of` trace r' }.

#[export] Instance held_preorder : PreOrder held.
Proof.
  split.
  - intros r. split; try done. intros id m Hm. exists m. by split_and!.
  - intros r1 r2 r3 H1 H2. destruct H1, H2. split; try congruence.
    + intros id m3 H3. edestruct held_members1 as (m2 & Hm2 & S2); [done|].
      edestruct held_members0 as (m1 & Hm1 & S1); [done|]. exists m1.
      split; [done|]. destruct S1 as (? & ? & ?), S2 as (? & ? & ?). by split_and!; etrans.
    + by etrans.
Qed.

Lemma held_count r r' : held r r' -> member_count r' <= member_count r.
Proof.
  intros H. unfold member_count. rewrite <- !(size_dom (D := gset Z)).
  apply subseteq_size. intros id. rewrite !elem_of_dom. intros [m Hm].
  destruct (held_members _ _ H _ _ Hm) as (m' & ? & _). eauto.
Qed.

Lemma held_casc F r r' : casc F r r' -> held r r'.
Proof.
  intros [Hc Hm (new & Ht & _ & Hg)]. split; try (by rewrite Hc).
  - unfold gauge_drift. rewrite Ht, conn_gauge_app. lia.
  - intros id m Hid. exists m. split; [by eapply lookup_weaken|by split_and!].
  - rewrite Ht. by exists new.
Qed.

Lemma held_core f r : doc_change f -> held r (upd_core f r).
Proof.
  intros Hf. destruct (Hf (co r)) as ((_ & ? & _ & ?) & ? & _ & _ & ?).
  split; try done. intros id m Hm. exists m. by split_and!.
Qed.

Lemma held_emit e r : gauge_of e = 0%Z -> held r (log e r).
Proof.
  intros He. split; try done.
  - unfold gauge_drift; simpl. rewrite He. unfold activeMemberCount; simpl. lia.
  - intros id m Hm. exists m. by split_and!.
  - by exists [e].
Qed.

Lemma plain_gauge e : plain_effect e -> gauge_of e = 0%Z.
Proof. destruct e as [| |[]| | | | | | | | | |]; done. Qed.

(** A stored member replaces itself, with the same session and visibility. *)
Lemma active_count_replace (ms : gmap connID roomMember) id m m' :
  ms !! id = Some m ->
  active_count (<[id := m']> ms)
  = (active_count ms + (if mb_pending m then 0 else -1) + (if mb_pending m' then 0 else 1))%Z.
Proof.
  intros Hm.
  assert (H1 := active_count_delete ms id m Hm).
  assert (H2 := active_count_delete (<[id := m']> ms) id m' (lookup_insert_eq _ _ _)).
  rewrite delete_insert_eq in H2. destruct (mb_pending m), (mb_pending m'); lia.
Qed.

Lemma held_put_members id m m' (ms : gmap connID roomMember) :
  ms !! id = Some m -> same_session m m' ->
  forall j mj, <[id := m']> ms !! j = Some mj -> exists m0, ms !! j = Some m0 /\ same_session m0 mj.
Proof.
  intros Hm Hs j mj. rewrite lookup_insert. case_decide as Hd; [intros [= <-]; subst; eauto|].
  intros Hj. exists mj. by split_and!.
Qed.

#[export] Instance held_send : SendRel held.
Proof.
  split.
  - apply held_preorder.
  - intros e r He. by apply held_emit, plain_gauge.
  - apply held_casc.
  - intros id m m' r Hm (Hs & Hp & _). split; try done; [|by apply (held_put_members _ m)].
    unfold gauge_drift, activeMemberCount; simpl. rewrite (active_count_replace _ _ m) by done.
    rewrite Hp. destruct (mb_pending m); lia.
Qed.

Lemma held_counting f r : counting f -> held r (upd_core f r).
Proof.
  intros Hf. apply held_core. intros c. destruct (Hf c) as ((? & _ & _ & ? & ?) & ? & ? & ? & ? & ?).
  split_and!; congruence.
Qed.

#[export] Instance held_rel : RoomRel held.
Proof.
  split.
  - apply held_send.
  - intros f r [Hf _]. by apply held_counting.
  - intros a o r. split; try done. intros id m Hm. exists m. by split_and!.
  - intros r r' _. apply held_casc.
  - intros id m r Hm Hp. split; try done.
    + unfold gauge_drift, activeMemberCount; simpl. rewrite (active_count_replace _ _ m) by done.
      rewrite Hp. simpl. lia.
    + apply (held_put_members _ m); [done|by split_and!].
    + by exists [EMetric ConnOpened].
Qed.

#[export] Instance held_count_rel : CountRel held.
Proof. split; [apply held_rel|intros f r; apply held_counting]. Qed.
#[export] Instance held_save : SaveRel held.
Proof. split; [apply held_count_rel|..]; intros; by apply held_emit. Qed.

#[export] Instance held_handler : PeerRel held.
Proof.
  apply peer_rel; [apply held_rel|]. intros u o.
  apply apply_checked_by; [typeclasses eauto|intros f r [Hf _]; by apply held_core| | |apply held_casc].
  - intros e r He. by apply held_emit, plain_gauge.
  - intros u' ok r. by apply held_emit.
Qed.
End Held.

(** ** What cannot panic *)

Section Quiet.
Context {Y : YCore} {P : Params}.

Definition anything (r r' : Room) : Prop := True.
#[export] Instance anything_preorder : PreOrder anything.
Proof. done. Qed.

(** It returns: no panic, and the model's fuel suffices. *)
Abbreviation quiet := (calm anything).

Lemma quiet_calm {A} R (m : RM A) : steps R m -> quiet m -> calm R m.
Proof.
  intros H1 H2 r. eapply wp_mono; [apply (wp_and _ _ _ _ _ _ (H1 r) (H2 r))| |]; naive_solver.
Qed.

Lemma quiet_of_calm {A} R (m : RM A) : calm R m -> quiet m.
Proof. intros H r. eapply wp_mono; [apply H| |]; done. Qed.

Lemma quiet_modify f : quiet (modify f).
Proof. by apply calm_modify. Qed.
Lemma quiet_gets {A} (f : Room -> A) : quiet (gets f).
Proof. by apply calm_gets. Qed.
Lemma quiet_broadcast f e : quiet (broadcast f e).
Proof. eapply quiet_of_calm, broadcast_casc. Qed.
Lemma quiet_sendTo id f : quiet (sendTo id f).
Proof. by eapply quiet_of_calm, (sendTo_casc (fun _ => True)). Qed.
Lemma quiet_conn_send c f : quiet (conn_send c f).
Proof. by eapply quiet_of_calm, (conn_send_casc (fun _ => True)). Qed.

Hint Resolve quiet_modify quiet_gets quiet_broadcast quiet_sendTo quiet_conn_send : steps.

Lemma quiet_session_end code e : NewSessionEnd code = Some e -> quiet (session_end code).
Proof. intros He. unfold session_end. rewrite He. calm_tac. Qed.

Lemma quiet_take_barrier id m k : (forall s, quiet (k s)) -> quiet (take_barrier id m k).
Proof. intros Hk. unfold take_barrier, store_member. calm_tac. Qed.

Lemma quiet_range_members f : (forall id m, quiet (f id m)) -> quiet (range_members f).
Proof.
  intros Hf. unfold range_members. calm_tac. apply calm_forM; [done|]. intros id.
  unfold lookup_member. calm_tac.
Qed.

Lemma quiet_failBarriers why : quiet (failBarriers why).
Proof.
  apply quiet_range_members. intros. apply quiet_take_barrier. intros. unfold failBarrier; simpl. calm_tac.
Qed.

Lemma quiet_resolveBarriers : quiet resolveBarriers.
Proof.
  apply quiet_range_members. intros. apply quiet_take_barrier. intros. unfold answerBarrier; simpl. calm_tac.
Qed.

Lemma quiet_contributions : quiet settleContributionFlight /\ quiet flushContribution.
Proof.
  unfold settleContributionFlight, flushContribution, detachContributors, emitContribution,
    mergeContributors, update_core, emit_metric, emit, get_core. split; calm_tac.
Qed.
End Quiet.
Abbreviation quiet := (calm anything).

#[export] Hint Resolve quiet_modify quiet_gets quiet_broadcast quiet_sendTo quiet_conn_send
  quiet_failBarriers quiet_resolveBarriers : steps.

(** ** The sweep that ends every member *)

Section Sweep.
Context {Y : YCore} {P : Params}.

(** What one member receives, newest first: its session-end frame, then its
    close, and the gauge counts it out when it was visible. *)
Definition end_block (e : SessionEnd) (v : roomMember * bool) : list effect :=
  (if mb_pending v.1 then [] else [EMetric ConnClosed])
  ++ [EClose (mb_conn v.1) e; ESend (mb_conn v.1) (WControl (end_control e)) v.2].

Definition member_list (r : Room) : list roomMember := map snd (map_to_list (members r)).

(** Every member once, in some order, and nothing else. *)
Record swept (e : SessionEnd) (r r' : Room) : Prop := {
  sw_core : co r' = co r;
  sw_members : members r' = ∅;
  sw_gauge : gauge_drift r' = gauge_drift r;
  sw_trace : exists visited, Permutation (map fst visited) (member_list r)
               /\ trace r' = (flat_map (end_block e) visited ++ trace r)%list }.

Lemma end_member_wp e id m r (Q : Room -> Prop) R :
  (forall ok, Q (mkRoom (co r) (delete id (members r)) (awareness r) (awarenessOwners r)
                   (end_block e (m, ok) ++ trace r))) ->
  wp (end_member e id m) (fun _ => Q) R r.
Proof.
  intros HQ. unfold end_member, conn_send, conn_close, delete_member, emit_metric, emit. simpl.
  wp_run. unfold end_block in HQ. simpl in HQ.
  destruct (mb_pending m); simpl; wp_run; apply HQ.
Qed.

Lemma member_list_delete id m r :
  members r !! id = Some m ->
  Permutation (member_list r) (m :: map snd (map_to_list (delete id (members r)))).
Proof.
  intros Hm. unfold member_list. by rewrite <- (map_to_list_delete (members r) id m Hm).
Qed.

Lemma sweep_loop e l r :
  (forall id, is_Some (members r !! id) -> id ∈ l) ->
  wp (forM l (fun id => found ← lookup_member id;
                match found with Some m => end_member e id m | None => ret tt end))
     (fun _ r' => swept e r r') (fun _ => False) r.
Proof.
  revert r. induction l as [|id l IH]; intros r Hl.
  { apply wp_ret. assert (Hm : members r = ∅).
    { apply map_empty. intros i. destruct (members r !! i) eqn:E; [|done].
      exfalso. eapply not_elem_of_nil, (Hl i). eauto. }
    split; try done. exists []. unfold member_list. by rewrite Hm, map_to_list_empty. }
  apply wp_bind. unfold lookup_member. apply wp_bind, wp_gets.
  destruct (members r !! id) as [m|] eqn:Hm.
  - apply end_member_wp. intros ok. eapply wp_mono; [apply IH| |done].
    + simpl. intros j [mj Hj]. rewrite lookup_delete in Hj. case_decide as Hd; [done|].
      assert (Hin : j ∈ id :: l) by (apply Hl; eauto). apply elem_of_cons in Hin. naive_solver.
    + intros [] r' [Hc Hms Hg (vis & Hp & Ht)]. split; [done|done| |].
      * rewrite Hg. unfold gauge_drift, activeMemberCount; simpl.
        rewrite (active_count_delete _ _ m) by done. unfold end_block; simpl.
        destruct (mb_pending m); simpl; lia.
      * exists (vis ++ [(m, ok)])%list. rewrite map_app, flat_map_app. simpl. split.
        -- rewrite (member_list_delete id m r Hm), Hp. simpl.
           by rewrite Permutation_app_comm.
        -- by rewrite Ht, <- !app_assoc.
  - apply wp_ret. apply IH. intros j Hj. destruct (decide (j = id)) as [->|Hd]; [by destruct Hj; simplify_eq|].
    apply Hl, elem_of_cons in Hj. naive_solver.
Qed.

Lemma in_range_ids r id : fair_range -> is_Some (members r !! id) -> id ∈ ranged_ids r.
Proof.
  intros Hf [m Hm]. unfold ranged_ids. rewrite (Hf _ _).
  apply list_elem_of_fmap. exists (id, m). split; [done|]. by apply elem_of_map_to_list.
Qed.

Lemma sweep_wp e r :
  fair_range -> wp (range_members (end_member e)) (fun _ r' => swept e r r') (fun _ => False) r.
Proof.
  intros Hf. unfold range_members. apply wp_bind, wp_gets. apply sweep_loop.
  intros id Hid. by apply in_range_ids.
Qed.
End Sweep.

(** ** Teardown *)

Section Teardown.
Context {Y : YCore} {P : Params}.

(** Failing the parked requests and telling the members touches no core field. *)
Definition same_core (r r' : Room) : Prop := co r' = co r.
#[export] Instance same_core_send : SendRel same_core.
Proof.
  split; try done.
  - split; [done|]. intros r1 r2 r3. unfold same_core. congruence.
  - intros r r' [Hc _ _]. exact Hc.
Qed.

(** What settling the contribution window can do. *)
Definition contribution_effect (e : effect) : Prop :=
  match e with EContribution _ _ | EMetric (ContributingActors _) => True | _ => False end.

Record contrib_step (r r' : Room) : Prop := {
  cs_lc : lc (co r') = lc (co r);
  cs_done : doneClosed (co r') = doneClosed (co r);
  cs_members : members r' = members r;
  cs_trace : exists new, trace r' = (new ++ trace r)%list /\ Forall contribution_effect new }.

#[export] Instance contrib_preorder : PreOrder contrib_step.
Proof.
  split.
  - intros r. split; try done. exists []. by split; [|constructor].
  - intros r1 r2 r3 [? ? ? (n1 & T1 & F1)] [? ? ? (n2 & T2 & F2)]. split; try congruence.
    exists (n2 ++ n1)%list. rewrite T2, T1, app_assoc. split; [done|]. by apply Forall_app.
Qed.

Lemma contrib_core f : bookkeeping f -> steps contrib_step (update_core f).
Proof.
  intros [Hf _]. apply steps_modify. intros r. destruct (Hf (co r)) as ((_ & _ & _ & ? & _) & ? & _).
  split; try done. exists []. by split; [|constructor].
Qed.

Lemma contrib_emit e : contribution_effect e -> steps contrib_step (emit e).
Proof.
  intros He. apply steps_modify. intros r. split; try done. exists [e]. split; [done|by constructor].
Qed.

Hint Resolve contrib_core contrib_emit : steps.
Hint Extern 1 (contribution_effect _) => exact I : steps.

Lemma contributions_step : steps contrib_step (settleContributionFlight;; flushContribution).
Proof.
  unfold settleContributionFlight, flushContribution, detachContributors, emitContribution,
    mergeContributors, get_core, emit_metric. steps_tac.
Qed.

Lemma contributions_calm : calm contrib_step (settleContributionFlight;; flushContribution).
Proof.
  apply quiet_calm; [apply contributions_step|]. destruct quiet_contributions as [H1 H2].
  apply calm_bind; [typeclasses eauto|exact H1|]. intros _. exact H2.
Qed.

(** The contribution window: the actors of the current one, and the batch in flight. *)
Definition window (c : core) : gset N * option contributionFlight := (contributors c, flight c).

(** The actors still to be reported: those of the window, and those of the batch in
    flight when it failed. *)
Definition owed (w : gset N * option contributionFlight) : gset N :=
  match w.2 with Some f => if fl_ok f then w.1 else w.1 ∪ fl_actors f | None => w.1 end.

(** One report of the actors [a], given the history [h]: the gauge is set to their number,
    and if there is one they are reported in one call; [left] is what stays behind, which
    is nothing unless the call failed. *)
Definition reported (a : gset N) (h tail : history) (left : gset N) : Prop :=
  let gauge := EMetric (ContributingActors (size a)) in
  if bool_decide (a = ∅) then tail = [gauge] /\ left = ∅
  else let ok := env_contribute (gauge :: h) (elements a) in
       tail = [EContribution (elements a) ok; gauge] /\ left = (if ok then ∅ else a).

(** How a teardown leaves the window [w]: the batch in flight is joined, and what is owed
    is reported.  A deletion leaves the window as it is. *)
Definition settled (e : SessionEnd) (w : gset N * option contributionFlight) (h tail : history) (c : core) : Prop :=
  if String.eqb (end_code e) CodeDocumentDeleted then tail = [] /\ window c = w
  else flight c = None /\ reported (owed w) h tail (contributors c).

Lemma settle_exact r :
  wp settleContributionFlight (fun _ r' => trace r' = trace r /\ window (co r') = (owed (window (co r)), None))
     (fun _ => False) r.
Proof.
  unfold settleContributionFlight, mergeContributors, update_core, get_core, window, owed. wp_run.
  destruct (flight (co r)) as [[k actors ok]|] eqn:Hf; simpl; [|wp_run; by rewrite Hf].
  destruct ok; wp_run; done.
Qed.

Lemma flush_exact r :
  wp flushContribution (fun _ r' => exists tail, trace r' = (tail ++ trace r)%list
       /\ flight (co r') = flight (co r) /\ reported (contributors (co r)) (trace r) tail (contributors (co r')))
     (fun _ => False) r.
Proof.
  unfold flushContribution, detachContributors, emitContribution, mergeContributors, update_core,
    emit_metric, emit, get_core, reported. wp_run.
  case_bool_decide as Ha; wp_run; [eexists [_]; by split_and!|]. cbv zeta. simpl.
  match goal with |- context [env_contribute ?h ?l] => destruct (env_contribute h l) eqn:Hok end; wp_run;
    (eexists [_; _]; split_and!; [reflexivity|reflexivity|reflexivity|]; simpl; try done).
  by rewrite union_empty_l_L.
Qed.

Lemma contributions_settle e r :
  wp (if String.eqb (end_code e) CodeDocumentDeleted then ret tt
      else settleContributionFlight;; flushContribution)
     (fun _ r' => exists tail, trace r' = (tail ++ trace r)%list
        /\ settled e (window (co r)) (trace r) tail (co r')) (fun _ => False) r.
Proof.
  unfold settled. destruct (String.eqb _ _); [apply wp_ret; by exists []|].
  apply wp_bind. eapply wp_mono; [apply settle_exact| |done]. intros [] r1 [Ht Hw].
  eapply wp_mono; [apply flush_exact| |done]. intros [] r2 (tail & Ht2 & Hf & Hr). exists tail.
  injection Hw as Hc Hfl. rewrite Hfl in Hf. rewrite Hc, Ht in Hr. by rewrite Ht2, Ht.
Qed.

Lemma settled_effects e w h tail c : settled e w h tail c -> Forall contribution_effect tail.
Proof.
  unfold settled, reported. destruct (String.eqb _ _); [by intros [-> _]; constructor|].
  case_bool_decide; intros [_ [-> _]]; by repeat constructor.
Qed.

(** The last six things a room does, newest first. *)
Definition closing : list effect :=
  [EReleased; ECloseDone; EEvict; EReleaseHandle; ECancelSub; ECancelCtx].

Record ended (r : Room) : Prop := {
  en_lc : lc (co r) = stateClosed;
  en_done : doneClosed (co r) = true;
  en_handle : handleHeld (co r) = false;
  en_members : members r = ∅;
  en_gauge : conn_gauge (trace r) = 0%Z;
  en_trace : exists h, trace r = (closing ++ h)%list }.

Definition drained (r : Room) : Room := upd_core (fun c => set_lc stateDraining (set_shadow None c)) r.

(** The course of a teardown that flushes nothing: the failing of parked requests, one
    end block per member still attached, the contribution window, the closing. *)
Definition torn (e : SessionEnd) (r r' : Room) : Prop :=
  exists r1 visited tail,
    held (drained r) r1
    /\ Permutation (map fst visited) (member_list r1)
    /\ settled e (window (co r)) (flat_map (end_block e) visited ++ trace r1)%list tail (co r')
    /\ trace r' = (closing ++ tail ++ flat_map (end_block e) visited ++ trace r1)%list.

Lemma contribution_gauge l : Forall contribution_effect l -> conn_gauge l = 0%Z.
Proof.
  induction 1 as [|e l He _ IH]; [done|]. simpl. rewrite IH. by destruct e as [| |[]| | | | | | | | | |].
Qed.

Lemma step_lc_wp f r (Q : bool -> Room -> Prop) R :
  Q (f (lc (co r))).1 (upd_core (set_lc (f (lc (co r))).2) r) -> wp (step_lc f) Q R r.
Proof. intros H. unfold step_lc, get_core, update_core. wp_run. exact H. Qed.

(** From the sweep on, nothing can go wrong. *)
Lemma closing_wp e r0 r :
  lc (co r) = stateDraining -> doneClosed (co r) = false -> swept e r0 r -> gauge_drift r0 = 0%Z ->
  wp ((if String.eqb (end_code e) CodeDocumentDeleted then ret tt
       else settleContributionFlight;; flushContribution);;
      emit ECancelCtx;; emit ECancelSub;; releaseHandle;; closeDone;; emit EReleased;;
      _ ← step_lc finishDraining; ret tt)
     (fun _ r' => ended r' /\ exists tail, settled e (window (co r)) (trace r) tail (co r')
                    /\ trace r' = (closing ++ tail ++ trace r)%list)
     (fun _ => False) r.
Proof.
  intros Hlc Hdone Hsw H0. apply wp_bind.
  assert (Hcontrib : calm contrib_step (if String.eqb (end_code e) CodeDocumentDeleted then ret tt
            else settleContributionFlight;; flushContribution)).
  { destruct (String.eqb _ _); [apply calm_ret; typeclasses eauto|apply contributions_calm]. }
  eapply wp_mono; [apply (wp_and _ _ _ _ _ _ (Hcontrib r) (contributions_settle e r))| |naive_solver].
  intros [] r1 [[Hlc1 Hd1 Hm1 _] (tail & Ht & Hset)]. pose proof (settled_effects _ _ _ _ _ Hset) as Hf.
  unfold releaseHandle, closeDone, emit, get_core, update_core. wp_run. simpl.
  rewrite Hd1, Hdone. wp_run. apply step_lc_wp. apply wp_ret. simpl.
  rewrite Hlc1, Hlc. simpl. split; [|exists tail; split; [exact Hset|by rewrite Ht]].
  destruct Hsw as [_ Hms Hg _]. split; simpl; try done.
  - by rewrite Hm1.
  - rewrite Ht, conn_gauge_app, (contribution_gauge tail Hf).
    assert (Hz : gauge_drift r = 0%Z) by congruence.
    unfold gauge_drift, activeMemberCount in Hz. rewrite Hms in Hz. simpl in Hz.
    unfold active_count, active_members in Hz. rewrite map_filter_empty, map_size_empty in Hz. lia.
  - eexists. by unfold closing.
Qed.

(** A teardown of a room that nobody is tearing down ends it. *)
Lemma teardown_wp e flush r :
  fair_range -> tearing_down (lc (co r)) = false -> doneClosed (co r) = false ->
  gauge_drift r = 0%Z ->
  (forall f, flush = Some f -> wp f (fun _ r' => held (drained r) r') (fun _ => False) (drained r)) ->
  wp (teardown e flush) (fun _ r' => ended r' /\ (flush = None -> torn e r r')) (fun _ => False) r.
Proof.
  intros Hfair Hlc Hdone H0 Hflush. unfold teardown, destroyShadow, update_core.
  apply wp_bind, wp_modify, wp_bind, step_lc_wp. simpl. rewrite (beginTeardown_live _ Hlc). simpl.
  change (upd_core (set_lc stateDraining) (upd_core (set_shadow None) r)) with (drained r).
  apply wp_bind.
  assert (H1 : wp (match flush with Some f => f | None => ret tt end)
                  (fun _ r' => held (drained r) r' /\ (flush = None -> r' = drained r)) (fun _ => False) (drained r)).
  { destruct flush as [f|]; [eapply wp_mono; [by apply Hflush|by split|done]|]. apply wp_ret. by split. }
  eapply wp_mono; [exact H1| |done]. intros [] r1 [Hr1 Hno]. apply wp_bind.
  eapply wp_mono; [apply (quiet_calm (both held same_core));
    [apply (failBarriers_rel (both held same_core))|apply quiet_failBarriers]| |done].
  intros [] r2 [Hr2 Hc2]. assert (H2 : held (drained r) r2) by (etrans; [exact Hr1|exact Hr2]).
  apply wp_bind. eapply wp_mono; [by apply sweep_wp| |done]. intros [] r3 Hsw.
  assert (Hz : gauge_drift r2 = 0%Z) by (rewrite (held_gauge _ _ H2); exact H0).
  eapply wp_mono; [eapply closing_wp; [| |exact Hsw|exact Hz]| |done].
  - rewrite (sw_core _ _ _ Hsw). by rewrite (held_lc _ _ H2).
  - rewrite (sw_core _ _ _ Hsw). by rewrite (held_done _ _ H2).
  - intros [] r' [He (tail & Hset & Ht)]. split; [done|]. intros Hn.
    destruct (sw_trace _ _ _ Hsw) as (vis & Hp & Ht3). exists r2, vis, tail.
    rewrite (sw_core _ _ _ Hsw), Hc2, (Hno Hn), Ht3 in Hset.
    split_and!; [done|done|exact Hset|by rewrite Ht, Ht3].
Qed.

(** A second teardown does nothing but drop the shadow it no longer has. *)
Lemma teardown_again e flush r :
  tearing_down (lc (co r)) = true ->
  teardown e flush r = Ret tt (upd_core (set_lc (lc (co r))) (upd_core (set_shadow None) r)).
Proof.
  intros H. unfold teardown, destroyShadow, update_core, step_lc, get_core, modify, gets, bindM, ret.
  simpl. by rewrite (beginTeardown_again _ H).
Qed.
End Teardown.
