(* ===== verification/RoomSave.v ===== *)
(** * The course of a save

    [persist_wp] lists what [persist] can come to, for any relation the handlers
    keep: nothing to do, a snapshot that cannot be encoded or a store that refuses
    (the room serves on), a refusal too many (the room escalates), or acceptance by
    both stores.  Its first use: a save keeps a live room live or ends it. *)

From stdpp Require Import base gmap sets list strings.
From Stdlib Require Import ZArith Lia.
From S2P Require Import Prelude Control Lifecycle Core RoomState RoomFanout RoomBarrier.
From S2P Require Import RoomApply RoomLife RoomLoop RoomRel RoomSafe.

Local Open Scope go_scope.

Section Save.
Context {Y : YCore} {P : Params}.

(** The core after a counted failure at time [now]. *)
Definition failed_core (now : Z) (c : core) : core :=
  set_undurableSince (Some match undurableSince c with None => now | Some t => t end)
    (set_flushFailures (flushFailures c + 1) c).

Lemma record_failure_wp R `{!CountRel R} r :
  wp record_failure
     (fun _ r' => R r r' /\ exists now, co r' = failed_core now (co r)) (fun _ => False) r.
Proof.
  unfold record_failure, get_core, update_core, emit_metric, emit. wp_run.
  set (now := env_now (trace r)).
  match goal with |- wp _ _ _ ?r0 => set (r1 := r0) end.
  assert (H1 : R r r1). { apply cr_count. intros c. by repeat split. }
  assert (C1 : co r1 = failed_core now (co r)).
  { unfold r1, failed_core. simpl. by destruct (undurableSince (co r)). }
  clearbody r1.
  eapply wp_mono; [apply (wp_and _ _ _ _ _ _ (failBarriers_rel R _ r1)
    (quiet_calm same_core _ (failBarriers_rel same_core reason_not_persisted)
       (quiet_failBarriers _) r1))| |].
  - intros [] r2 [H2 C2]. wp_run. split.
    + etrans; [exact H1|]. etrans; [exact H2|]. etrans; by apply rr_emit.
    + exists now. simpl. by rewrite C2.
  - naive_solver.
Qed.

(** The room once both stores have accepted. *)
Definition both_accepted (r : Room) (snapshot vector : bytes) : Room :=
  let v := i64 (version (co r) + 1) in
  log (ESaveMetadata (room_row (co r) v) true)
    (log (ESaveCheckpoint snapshot vector true) (upd_core (set_docBytes (blen snapshot)) r)).

Lemma quiet_snapshot_failed : quiet snapshot_failed.
Proof.
  unfold snapshot_failed, broadcastControl, broadcastControlExcept, emit_metric, emit. simpl. calm_tac.
Qed.

Lemma onFlushFailed_wp R `{!CountRel R} r (Q F : Room -> Prop) :
  (forall r' now, R r r' -> co r' = failed_core now (co r) ->
     (flushFailures (co r') < flushThreshold)%Z -> Q r') ->
  (forall r' u now, R r r' -> co r' = failed_core now (co r) ->
     (flushThreshold <= flushFailures (co r'))%Z ->
     wp (escalateUndurable u) (fun _ => Q) F r') ->
  wp onFlushFailed (fun _ => Q) F r.
Proof.
  intros Hretry Hesc. unfold onFlushFailed. apply wp_bind.
  eapply wp_mono; [apply (record_failure_wp R)| |done]. intros u r1 [H1 [now Hc]].
  apply wp_bind, wp_gets. destruct (_ <? _)%Z eqn:Hlt.
  - unfold broadcastControl, broadcastControlExcept; simpl.
    eapply wp_mono; [apply broadcast_casc| |done]. intros [] r2 H2.
    assert (Hc2 : co r2 = co r1) by apply H2.
    apply (Hretry _ now); [|by rewrite Hc2, Hc|rewrite Hc2; lia].
    etrans; [exact H1|]. apply rr_casc. eapply casc_mono; [|exact H2].
    intros f [->|[b ->]]; auto with steps.
  - apply (Hesc _ _ now); [done..|lia].
Qed.

Lemma snapshot_failed_core : steps same_core snapshot_failed.
Proof.
  unfold snapshot_failed, broadcastControl, broadcastControlExcept; simpl. steps_tac.
Qed.

(** A store refused: the checkpoint, or the row after an accepted checkpoint. *)
Lemma persist_wp R `{!SaveRel R} r (Q F : Room -> Prop) :
  (dirty (co r) = false -> Q r) ->
  (forall r', dirty (co r) = true -> R r r' ->
     (flushFailures (co r') < flushThreshold)%Z \/ flushFailures (co r') = flushFailures (co r) ->
     Q r') ->
  (forall r' u, dirty (co r) = true -> R r r' -> (flushThreshold <= flushFailures (co r'))%Z ->
     wp (escalateUndurable u) (fun _ => Q) F r') ->
  (forall s v, dirty (co r) = true -> EncodeStateAsUpdateV2 (doc (co r)) = Some s ->
     EncodeStateVectorFromUpdateV2 s = Some v ->
     wp (persist_accepted (i64 (version (co r) + 1))) (fun _ => Q) F
        (both_accepted r s v)) ->
  wp persist (fun _ => Q) F r.
Proof.
  intros Hclean Hfail Hesc Hacc. unfold persist, get_core. apply wp_bind, wp_gets. cbv beta.
  destruct (dirty (id (co r))) eqn:Hd; simpl in Hd |- *; [|by apply wp_ret, Hclean].
  assert (Hsf : forall r1, R r r1 -> flushFailures (co r1) = flushFailures (co r) ->
            wp snapshot_failed (fun _ => Q) F r1).
  { intros r1 H1 E1. eapply wp_mono; [apply (wp_and _ _ _ _ _ _
      (quiet_calm R _ (snapshot_failed_rel R) quiet_snapshot_failed r1)
      (snapshot_failed_core r1))| |naive_solver].
    intros [] r2 [H2 C2]. apply Hfail; [done|by etrans|]. right. by rewrite C2. }
  destruct (EncodeStateAsUpdateV2 (doc (co r))) as [s|] eqn:Hs; [|by apply Hsf].
  unfold update_core. apply wp_bind, wp_modify.
  set (r1 := upd_core _ r). assert (H1 : R r r1). { apply rr_core. auto with steps. }
  destruct (EncodeStateVectorFromUpdateV2 s) as [v|] eqn:Hv; [|by apply Hsf].
  unfold persist_snapshot, save_checkpoint, save_metadata, emit, get_core. wp_run.
  assert (Hff : forall r2, R r r2 -> wp onFlushFailed (fun _ => Q) F r2).
  { intros r2 H2. apply (onFlushFailed_wp R); [|].
    - intros r3 now H3 _ Hlt. apply Hfail; [done|by etrans|by left].
    - intros r3 u now H3 _ Hge. apply Hesc; [done|by etrans|done]. }
  destruct (env_save_checkpoint _ _ _).
  - simpl. wp_run. destruct (env_save_metadata _ _).
    + by apply Hacc.
    + apply Hff. etrans; [exact H1|]. etrans; [by apply sr_checkpoint|by apply sr_row_refused].
  - simpl. apply Hff. etrans; [exact H1|]. by apply sr_checkpoint.
Qed.
End Save.

(** ** Settling the parked requests *)

Section Parked.
Context {Y : YCore} {P : Params}.

(** [e] happened between [r] and [r']. *)
Definition happened (e : effect) (r r' : Room) : Prop :=
  exists new, trace r' = (new ++ trace r)%list /\ e ∈ new.

Lemma happened_l e r r1 r' :
  happened e r r1 -> trace r1 `suffix_of` trace r' -> happened e r r'.
Proof.
  intros (n1 & T1 & He) [n2 T2]. exists (n2 ++ n1)%list. rewrite T2, T1, app_assoc.
  split; [done|]. apply elem_of_app. by right.
Qed.

Lemma happened_r e r r1 r' :
  trace r `suffix_of` trace r1 -> happened e r1 r' -> happened e r r'.
Proof.
  intros [n1 T1] (n2 & T2 & He). exists (n2 ++ n1)%list. rewrite T2, T1, app_assoc.
  split; [done|]. apply elem_of_app. by left.
Qed.

Lemma casc_suffix F r r' : casc F r r' -> trace r `suffix_of` trace r'.
Proof. intros [_ _ (new & -> & _)]. by exists new. Qed.

Lemma sendMember_eq id m f r :
  sendMember id m f r
  = (ok ← conn_send (mb_conn m) f;
     if ok : bool then ret tt else dropMember_with (broadcast_n (cascade_fuel r)) id;; ret tt) r.
Proof. reflexivity. Qed.

Lemma sendTo_offers_conn id f m r :
  members r !! id = Some m ->
  wp (sendTo id f) (fun _ r' => exists ok, happened (ESend (mb_conn m) f ok) r r') (fun _ => False) r.
Proof.
  intros Hm. unfold sendTo, lookup_member. apply wp_bind, wp_gets. rewrite Hm.
  unfold wp. rewrite sendMember_eq. fold (wp (S := Room) (A := unit)).
  set (k := bindM _ _). change (wp k (fun _ r' => exists ok, happened (ESend (mb_conn m) f ok) r r')
    (fun _ => False) r). subst k.
  unfold conn_send, emit. wp_run. set (ok := env_send _ _ _).
  assert (Hh : happened (ESend (mb_conn m) f ok) r (log (ESend (mb_conn m) f ok) r)).
  { exists [ESend (mb_conn m) f ok]. split; [done|by left]. }
  destruct ok; wp_run; [eauto|].
  eapply wp_mono; [apply (dropMember_with_casc (member_count r) _ (fun _ => True)); [apply bc_ok_n|done|]| |done].
  { unfold member_count. simpl. lia. }
  intros b r' (Hc & _). wp_run. exists false. eapply happened_l; [exact Hh|by eapply casc_suffix].
Qed.

(** A frame that carries presence only. *)
Definition presence_frame (f : wire_frame) : Prop := exists b, f = WBytes b.

(** A frame sent to a member is offered to its connection once.  Where the connection
    takes it, that is all; where it does not, the member is dropped, and the others hear
    of its presence ending and nothing else. *)
Definition offered (id : connID) (m : roomMember) (f : wire_frame) (r r' : Room) : Prop :=
  if env_send (trace r) (mb_conn m) f
  then r' = log (ESend (mb_conn m) f true) r
  else co r' = co r /\ members r' ⊆ members r /\ members r' !! id = None
       /\ exists new, trace r' = (new ++ ESend (mb_conn m) f false :: trace r)%list
            /\ Forall (casc_effect presence_frame) new.

Lemma sendTo_offered id f m r :
  members r !! id = Some m -> wp (sendTo id f) (fun _ r' => offered id m f r r') (fun _ => False) r.
Proof.
  intros Hm. unfold sendTo, lookup_member. apply wp_bind, wp_gets. rewrite Hm.
  unfold wp. rewrite sendMember_eq. fold (wp (S := Room) (A := unit)).
  set (k := bindM _ _). change (wp k (fun _ r' => offered id m f r r') (fun _ => False) r). subst k.
  unfold conn_send, emit, offered. wp_run. destruct (env_send _ _ _); wp_run; [done|].
  eapply wp_mono; [apply (dropMember_with_casc (member_count r) _ presence_frame);
    [apply bc_ok_n|by eexists|]| |done].
  { unfold member_count. simpl. lia. }
  intros b r' ([Hc Hms (new & Ht & Hf & _)] & _ & Hn). wp_run. split_and!; [done|done|done|by exists new].
Qed.

(** A frame sent to a member is offered to its connection. *)
Lemma sendTo_offers id f m r :
  members r !! id = Some m ->
  wp (sendTo id f)
     (fun _ r' => casc (fun _ => True) r r' /\ exists ok, happened (ESend (mb_conn m) f ok) r r')
     (fun _ => False) r.
Proof.
  intros Hm. eapply wp_mono; [apply (wp_and _ _ _ _ _ _
    (sendTo_casc (fun _ => True) id f (fun _ => I) I r) (sendTo_offers_conn id f m r Hm))| |];
    naive_solver.
Qed.

(** One sweep over the parked requests: [answer b] is what a request [b] gets. *)
Definition parked_answered (answer : string -> wire_frame) (r r' : Room) : Prop :=
  (forall id m, members r' !! id = Some m -> mb_barrier m = "")
  /\ (forall id m, members r !! id = Some m -> mb_barrier m <> "" ->
        members r' !! id = None \/ exists ok, happened (ESend (mb_conn m) (answer (mb_barrier m)) ok) r r')
  /\ (forall id m', members r' !! id = Some m' -> exists m, members r !! id = Some m /\ m' = with_barrier "" m)
  /\ co r' = co r /\ trace r `suffix_of` trace r'.

Definition settle_one (answer : string -> wire_frame) (id : connID) (m : roomMember) : RM unit :=
  take_barrier id m (fun b => sendTo id (answer b)).

Lemma with_barrier_id m : mb_barrier m = "" -> with_barrier "" m = m.
Proof. destruct m; simpl. by intros ->. Qed.

(** From [r], with [l] still to visit. *)
Definition settling answer (r : Room) (l : list connID) (r' : Room) : Prop :=
  (forall id m', members r' !! id = Some m' -> exists m, members r !! id = Some m
      /\ ((id ∈ l /\ m' = m) \/ m' = with_barrier "" m))
  /\ (forall id m, members r !! id = Some m -> mb_barrier m <> "" ->
        members r' !! id = None \/ (id ∈ l /\ members r' !! id = Some m)
        \/ exists ok, happened (ESend (mb_conn m) (answer (mb_barrier m)) ok) r r')
  /\ co r' = co r /\ trace r `suffix_of` trace r'.

Lemma settling_casc answer r l r1 r2 F :
  settling answer r l r1 -> casc F r1 r2 -> settling answer r l r2.
Proof.
  intros (Hm & Hs & Hc & Ht) H2. pose proof (casc_suffix _ _ _ H2) as Hsuf.
  destruct H2 as [Hc2 Hm2 _]. split_and!.
  - intros id m' Hid. apply Hm. by eapply lookup_weaken.
  - intros id m Hid Hb. destruct (Hs id m Hid Hb) as [H|[[Hl H]|[ok H]]].
    + left. by eapply lookup_weaken_None.
    + destruct (members r2 !! id) as [m2|] eqn:E2; [|by left]. right; left. split; [done|].
      assert (members r1 !! id = Some m2) by (by eapply lookup_weaken). congruence.
    + right; right. exists ok. by eapply happened_l.
  - congruence.
  - by etrans.
Qed.

Lemma settle_one_wp answer r id l r1 m :
  members r1 !! id = Some m -> settling answer r (id :: l) r1 ->
  wp (settle_one answer id m) (fun _ => settling answer r l) (fun _ => False) r1.
Proof.
  intros Hm1 HS. pose proof HS as (Hm & Hs & Hc & Ht).
  destruct (Hm id m Hm1) as (m0 & Hm0 & Horig).
  unfold settle_one, take_barrier. destruct (String.eqb_spec (mb_barrier m) "") as [Hb|Hb].
  - apply wp_ret. split_and!; [| |done|done].
    + intros j mj Hj. destruct (Hm j mj Hj) as (m1 & Hm1' & [[Hin ->]| ->]); exists m1; split; auto.
      apply elem_of_cons in Hin as [->|Hin]; [|by left].
      right. simplify_eq. by rewrite with_barrier_id.
    + intros j mj Hj Hbj. destruct (Hs j mj Hj Hbj) as [?|[[Hin E]|?]]; [by left| |by right; right].
      apply elem_of_cons in Hin as [->|Hin]; [|by right; left]. simplify_eq.
  - destruct Horig as [[_ ->]| ->]; [|by simpl in Hb].
    unfold store_member. apply wp_bind, wp_modify.
    match goal with |- wp _ _ _ ?x => set (r2 := x) end.
    eapply wp_mono; [apply (sendTo_offers id _ (with_barrier "" m0)); apply lookup_insert_eq| |done].
    intros [] r3 [H3 [ok Hok]]. simpl in Hok.
    pose proof (casc_suffix _ _ _ H3) as Hsuf. destruct H3 as [Hc3 Hm3 _].
    assert (Hr13 : trace r1 `suffix_of` trace r3) by exact Hsuf.
    split_and!.
    + intros j mj Hj. assert (Hj2 : members r2 !! j = Some mj) by (by eapply lookup_weaken).
      simpl in Hj2. rewrite lookup_insert in Hj2. case_decide as Hd.
      * injection Hj2 as <-. subst j. exists m0. auto.
      * destruct (Hm j mj Hj2) as (mk & Hk & [[Hin ->]| ->]); exists mk; split; auto.
        apply elem_of_cons in Hin as [->|Hin]; [done|by left].
    + intros j mj Hj Hbj. destruct (decide (j = id)) as [->|Hd].
      * right; right. exists ok. simplify_eq. eapply happened_r; [exact Ht|exact Hok].
      * destruct (Hs j mj Hj Hbj) as [E|[[Hin E]|[ok' E]]].
        -- left. eapply lookup_weaken_None; [|exact Hm3]. simpl. by rewrite lookup_insert_ne.
        -- apply elem_of_cons in Hin as [->|Hin]; [done|].
           destruct (members r3 !! j) as [m3|] eqn:E3; [|by left]. right; left. split; [done|].
           assert (Hj2 : members r2 !! j = Some m3) by (by eapply lookup_weaken).
           simpl in Hj2. rewrite lookup_insert_ne in Hj2 by done. congruence.
        -- right; right. exists ok'. by eapply happened_l.
    + by rewrite Hc3.
    + by etrans.
Qed.

Lemma settle_loop answer r l r1 :
  settling answer r l r1 ->
  wp (forM l (fun id => found ← lookup_member id;
                match found with Some m => settle_one answer id m | None => ret tt end))
     (fun _ => settling answer r []) (fun _ => False) r1.
Proof.
  revert r1. induction l as [|id l IH]; intros r1 HS; [by apply wp_ret|].
  apply wp_bind. unfold lookup_member. apply wp_bind, wp_gets.
  destruct (members r1 !! id) as [m|] eqn:Hm1.
  - eapply wp_mono; [by apply settle_one_wp| |done]. intros [] r2. apply IH.
  - apply wp_ret. apply IH. destruct HS as (Hm & Hs & Hc & Ht). split_and!; [| |done|done].
    + intros j mj Hj. destruct (Hm j mj Hj) as (mk & Hk & [[Hin ->]| ->]); exists mk; split; auto.
      apply elem_of_cons in Hin as [->|Hin]; [congruence|by left].
    + intros j mj Hj Hbj. destruct (Hs j mj Hj Hbj) as [?|[[Hin E]|?]]; [by left| |by right; right].
      apply elem_of_cons in Hin as [->|Hin]; [congruence|by right; left].
Qed.

(** After a sweep nobody waits, and whoever waited was answered or is gone. *)
Lemma settle_all answer r :
  fair_range ->
  wp (range_members (settle_one answer)) (fun _ => parked_answered answer r) (fun _ => False) r.
Proof.
  intros Hf. unfold range_members. apply wp_bind, wp_gets.
  eapply wp_mono; [apply (settle_loop answer r)| |done].
  - split_and!; [| |done|done].
    + intros id m Hid. exists m. split; [done|]. left. split; [|done]. apply in_range_ids; eauto.
    + intros id m Hid Hb. right; left. split; [|done]. apply in_range_ids; eauto.
  - intros [] r' (Hm & Hs & Hc & Ht). split_and!; [| | |done|done].
    + intros id m Hid. destruct (Hm id m Hid) as (m0 & _ & [[Hin _]| ->]); [|done].
      by apply elem_of_nil in Hin.
    + intros id m Hid Hb. destruct (Hs id m Hid Hb) as [?|[[Hin _]|?]]; auto. by apply elem_of_nil in Hin.
    + intros id m' Hid. destruct (Hm id m' Hid) as (m0 & Hm0 & [[Hin _]|E]); eauto. by apply elem_of_nil in Hin.
Qed.

Definition ack_frame (b : string) : wire_frame := WControl (msg_persisted b).
Definition nack_frame (why b : string) : wire_frame := WControl (msg_persist_failed b why).

Lemma resolveBarriers_wp r :
  fair_range -> wp resolveBarriers (fun _ => parked_answered ack_frame r) (fun _ => False) r.
Proof. apply settle_all. Qed.

Lemma failBarriers_wp why r :
  fair_range -> wp (failBarriers why) (fun _ => parked_answered (nack_frame why) r) (fun _ => False) r.
Proof. apply settle_all. Qed.
End Parked.

(** ** Acceptance *)

Section Accepted.
Context {Y : YCore} {P : Params}.

Definition marked_saved (v : Z) (r : Room) : Room :=
  upd_core (fun c => set_dirty false (set_version v c)) r.

(** The core after an accepted save. *)
Definition accepted_core (v : Z) (c : core) : core :=
  let c1 := set_dirty false (set_version v c) in
  if (flushFailures c =? 0)%Z then c1 else set_undurableSince None (set_flushFailures 0 c1).

Lemma onFlushSucceeded_core r :
  wp onFlushSucceeded
     (fun _ r' => members r' = members r /\ trace r `suffix_of` trace r'
        /\ co r' = if (flushFailures (co r) =? 0)%Z then co r
                   else set_undurableSince None (set_flushFailures 0 (co r)))
     (fun _ => False) r.
Proof.
  unfold onFlushSucceeded, get_core, update_core, emit_metric, emit. wp_run.
  destruct (_ =? _)%Z; wp_run; split_and!; try done. by exists [EMetric DocumentDurabilityRestored].
Qed.

(** What an accepted save leaves: the core is marked saved, nobody waits, and
    whoever waited has been acknowledged or is gone. *)
Definition save_settled (v : Z) (r r' : Room) : Prop :=
  co r' = accepted_core v (co r)
  /\ (forall id m, members r' !! id = Some m -> mb_barrier m = "")
  /\ (forall id m, members r !! id = Some m -> mb_barrier m <> "" ->
        members r' !! id = None
        \/ exists ok, happened (ESend (mb_conn m) (ack_frame (mb_barrier m)) ok) r r')
  /\ trace r `suffix_of` trace r'.

Lemma persist_accepted_settles v r :
  fair_range -> wp (persist_accepted v) (fun _ => save_settled v r) (fun _ => False) r.
Proof.
  intros Hf. unfold persist_accepted, update_core. apply wp_bind, wp_modify, wp_bind.
  change (upd_core _ r) with (marked_saved v r).
  eapply wp_mono; [by apply resolveBarriers_wp| |done]. intros [] r1 (Hb & Ha & _ & Hc1 & Ht1).
  apply wp_bind. eapply wp_mono; [apply onFlushSucceeded_core| |done].
  intros [] r2 (Hm2 & Ht2 & Hc2). unfold emit_metric, emit, get_core. wp_run.
  eapply wp_mono; [apply broadcast_casc| |done]. intros [] r3 H3.
  pose proof (casc_suffix _ _ _ H3) as Ht3. destruct H3 as [Hc3 Hm3 _]. simpl in *.
  assert (Hend : trace r1 `suffix_of` trace r3).
  { etrans; [exact Ht2|]. etrans; [|exact Ht3]. by exists [EMetric SnapshotSaved]. }
  split_and!.
  - rewrite Hc3, Hc2, Hc1. unfold accepted_core. simpl. by destruct (_ =? _)%Z.
  - intros id m Hid. apply (Hb id). rewrite <- Hm2. by eapply lookup_weaken.
  - intros id m Hid Hp. destruct (Ha id m Hid Hp) as [H|[ok H]].
    + left. eapply lookup_weaken_None; [|exact Hm3]. by rewrite Hm2.
    + right. exists ok. by eapply happened_l.
  - by etrans.
Qed.

Lemma resolveBarriers_rel R `{!RoomRel R} r :
  dirty (co r) = false ->
  wp resolveBarriers (fun _ r' => R r r' /\ co r' = co r) (fun _ => False) r.
Proof.
  intros Hd. unfold resolveBarriers, range_members. apply wp_bind, wp_gets.
  apply (wp_forM _ _ (fun r' => R r r' /\ co r' = co r)); [|split; [reflexivity|done]].
  intros id r1 _ [H1 C1]. unfold lookup_member. apply wp_bind, wp_gets.
  destruct (members r1 !! id) as [m|] eqn:Hm; [|by apply wp_ret].
  unfold take_barrier. destruct (String.eqb _ _); [by apply wp_ret|].
  unfold store_member. apply wp_bind, wp_modify.
  eapply wp_mono; [apply (sendTo_casc (fun _ => True)); done| |done].
  intros [] r2 H2. split; [|by rewrite (casc_core _ _ _ H2)].
  etrans; [exact H1|]. etrans; [apply (rr_member id m (with_barrier "" m)); [done|member_upd]|].
  apply rr_answer; [|exact H2]. simpl. congruence.
Qed.

Lemma onFlushSucceeded_rel R `{!CountRel R} : steps R onFlushSucceeded.
Proof.
  unfold onFlushSucceeded, update_core. steps_tac. apply steps_modify. intros r. apply cr_count. auto with steps.
Qed.

Lemma persist_accepted_rel R `{!CountRel R} v r :
  wp (persist_accepted v) (fun _ r' => R (marked_saved v r) r') (fun _ => False) r.
Proof.
  unfold persist_accepted, update_core. apply wp_bind, wp_modify, wp_bind.
  change (upd_core _ r) with (marked_saved v r).
  eapply wp_mono; [by apply (resolveBarriers_rel R)| |done]. intros [] r1 [H1 _].
  apply (wp_calm R).
  { apply quiet_calm; [apply onFlushSucceeded_rel, _|].
    unfold onFlushSucceeded, get_core, update_core, emit_metric, emit. calm_tac. }
  intros _ r2 H2. unfold emit_metric, emit, get_core. wp_run.
  assert (Hb : forall v', calm R (broadcastControl (msg_saved v'))).
  { intros v'. apply quiet_calm; [|apply quiet_broadcast].
    apply (broadcastControl_rel R). auto with steps. }
  eapply wp_mono; [apply Hb| |done]. intros [] r3 H3.
  etrans; [exact H1|]. etrans; [exact H2|].
  etrans; [|exact H3]. by apply (rr_emit (EMetric SnapshotSaved)).
Qed.
End Accepted.
