(* ===== verification/RoomRun.v ===== *)
(** * The run loop keeps a live room live, or ends it

    [live n] is the invariant of a room after [n] turns of its loop.  Every turn
    keeps it or leaves the room [ended]; a panic anywhere is recovered into a
    teardown that also leaves it [ended]. *)

From stdpp Require Import base gmap sets list strings.
From Stdlib Require Import ZArith Lia.
From S2P Require Import Prelude Control Lifecycle Core RoomState RoomFanout RoomBarrier.
From S2P Require Import RoomApply RoomLife RoomLoop Fixture RoomRel RoomSafe RoomSave.

Local Open Scope go_scope.

Section Run.
Context {Y : YCore} {P : Params}.

Record live (n : Z) (r : Room) : Prop := {
  lv_lc : lc (co r) = stateActive;
  lv_done : doneClosed (co r) = false;
  lv_handle : handleHeld (co r) = true;
  lv_gauge : gauge_drift r = 0%Z;
  lv_cap : (0 < MaxConnsPerRoom (cfg_Limits p_cfg))%Z ->
           (Z.of_nat (member_count r) <= MaxConnsPerRoom (cfg_Limits p_cfg))%Z;
  lv_ids : forall id m, members r !! id = Some m -> (1 <= id <= nextID (co r))%Z;
  lv_next : (0 <= nextID (co r) <= n)%Z }.

Lemma live_held n r r' : live n r -> held r r' -> live n r'.
Proof.
  intros [] H. pose proof (held_count _ _ H).
  destruct H as [Elc Edone Ehandle Enext Egauge Emem _]. split; try congruence.
  - intros Hc. specialize (lv_cap0 Hc). lia.
  - intros id m' Hm'. destruct (Emem id m' Hm') as (m & Hm & _). rewrite Enext. by eapply lv_ids0.
Qed.

Lemma live_mono n n' r : (n <= n')%Z -> live n r -> live n' r.
Proof. intros Hn []. split; try done. lia. Qed.

Lemma live_steps {A} n (m : RM A) r (Q : A -> Room -> Prop) :
  live n r -> steps held m -> (forall a r', live n r' -> Q a r') -> wp m Q (live n) r.
Proof.
  intros Hl Hm HQ. eapply wp_mono; [apply Hm| |].
  - intros a r' H. apply HQ. by eapply live_held.
  - intros r' H. by eapply live_held.
Qed.

Context (Hfair : fair_range).

Lemma live_teardown n e r :
  live n r -> wp (teardown e None) (fun _ r' => ended r' /\ torn e r r') (fun _ => False) r.
Proof.
  intros []. eapply wp_mono; [apply teardown_wp; try done; by rewrite lv_lc0| |done].
  intros [] r' [He Ht]. split; [done|by apply Ht].
Qed.

(** What a teardown does with the contribution window. *)
Lemma torn_contributions e r r' :
  torn e r r' ->
  (end_code e = CodeDocumentDeleted -> window (co r') = window (co r))
  /\ (end_code e <> CodeDocumentDeleted ->
        flight (co r') = None
        /\ (owed (window (co r)) = ∅ -> contributors (co r') = ∅)
        /\ (owed (window (co r)) <> ∅ -> exists ok,
              happened (EContribution (elements (owed (window (co r)))) ok) r r'
              /\ contributors (co r') = if ok then ∅ else owed (window (co r)))).
Proof.
  intros (r1 & visited & tail & Hh & _ & Hset & Ht). unfold settled in Hset. split.
  - intros He. rewrite He in Hset. simpl in Hset. apply Hset.
  - intros He. apply String.eqb_neq in He. rewrite He in Hset. destruct Hset as [Hf Hr]. split; [done|].
    unfold reported in Hr. split.
    + intros Ho. rewrite Ho in *. rewrite bool_decide_true in Hr by done. apply Hr.
    + intros Ho. rewrite bool_decide_false in Hr by done. destruct Hr as [Htail Hl].
      destruct (held_trace _ _ Hh) as [new Hnew]. eexists. split; [|exact Hl].
      exists (closing ++ tail ++ flat_map (end_block e) visited ++ new)%list. split.
      * rewrite Ht, Hnew. simpl. by rewrite <- !app_assoc.
      * rewrite Htail. apply elem_of_app. right. apply elem_of_app. left. by left.
Qed.

Lemma end_edits_not_saved :
  NewSessionEnd CodeEditsNotSaved = Some (mkEnd CodeEditsNotSaved ScopeDocument DispositionTerminal).
Proof. reflexivity. Qed.

Lemma escalate_wp u r (Q : Room -> Prop) :
  wp (teardown (mkEnd CodeEditsNotSaved ScopeDocument DispositionTerminal) None)
     (fun _ => Q) (fun _ => False) (log (EMetric (DocumentEscalated u)) r) ->
  wp (escalateUndurable u) (fun _ => Q) (fun _ => False) r.
Proof.
  intros H. unfold escalateUndurable, emit_metric, emit, session_end. wp_run.
  rewrite end_edits_not_saved. apply wp_bind, wp_ret. exact H.
Qed.

Lemma live_escalate n u r :
  live n r -> wp (escalateUndurable u) (fun _ => ended) (fun _ => False) r.
Proof.
  intros Hl. apply escalate_wp.
  eapply wp_mono; [eapply live_teardown, live_held; [exact Hl|by apply held_emit]| |done].
  by intros [] r' [H _].
Qed.

Lemma held_accepted r s v k : held r (marked_saved k (both_accepted r s v)).
Proof.
  split; try done.
  - intros id m Hm. exists m. by split_and!.
  - simpl. eexists [_; _]. done.
Qed.

(** A save keeps a live room live, unless it was one refusal too many. *)
Lemma live_persist n r :
  live n r -> wp persist (fun _ r' => live n r' \/ ended r') (fun _ => False) r.
Proof.
  intros Hl. apply (persist_wp held).
  - by left.
  - intros r' _ H _. left. by eapply live_held.
  - intros r' u _ H _. eapply wp_mono; [eapply live_escalate, live_held; [exact Hl|exact H]| |done].
    by right.
  - intros s v _ _ _. eapply wp_mono; [apply (persist_accepted_rel held)| |done].
    intros [] r' H. left. eapply live_held; [exact Hl|].
    etrans; [apply held_accepted|exact H].
Qed.

(** The flush of a room that is draining leaves it draining. *)
Lemma draining_persist r :
  lc (co r) = stateDraining -> wp persist (fun _ r' => held r r') (fun _ => False) r.
Proof.
  intros Hl. apply (persist_wp held).
  - intros _. reflexivity.
  - intros r' _ H _. exact H.
  - intros r' u _ H _. apply escalate_wp. unfold wp. rewrite teardown_again.
    + etrans; [exact H|]. etrans; [apply (held_emit (EMetric (DocumentEscalated u))); done|].
      split; try done. intros id m Hm. exists m. by split_and!.
    + simpl. by rewrite (held_lc _ _ H), Hl.
  - intros s v _ _ _. eapply wp_mono; [apply (persist_accepted_rel held)| |done].
    intros [] r' H. etrans; [apply held_accepted|exact H].
Qed.

(** ** Joining *)

Lemma resolve_held identity requested multi :
  steps held (resolveJoinCapability identity requested multi).
Proof.
  unfold resolveJoinCapability. steps_tac. apply steps_modify. intros r.
  split; try done. intros id m Hm. exists m. by split_and!.
Qed.

Lemma live_join_member n r conn identity mode now :
  live n r -> (n + 1 < 2 ^ 64)%Z -> at_capacity r = false ->
  live (n + 1) (put_member (u64 (nextID (co r) + 1)) (new_member conn identity mode now)
                  (upd_core (fun c => set_nextID (u64 (nextID c + 1)) c) r)).
Proof.
  intros [] Hn Hcap. rewrite u64_small by lia.
  assert (Hfresh : members r !! (nextID (co r) + 1)%Z = None).
  { destruct (members r !! _) as [m|] eqn:E; [|done]. apply lv_ids0 in E. lia. }
  split; simpl; try done; rewrite ?u64_small by lia; try lia.
  - rewrite <- lv_gauge0. unfold gauge_drift, activeMemberCount, active_count, active_members. simpl.
    rewrite map_filter_insert_not'; [done|done|]. intros m0 Hm0. congruence.
  - intros Hc. unfold member_count. simpl. rewrite map_size_insert_None by done.
    unfold at_capacity in Hcap. apply andb_false_iff in Hcap. unfold member_count in Hcap.
    destruct Hcap as [Hcap|Hcap]; lia.
  - intros id m. rewrite lookup_insert. case_decide as Hd; [intros _; subst; lia|].
    intros Hm. apply lv_ids0 in Hm. lia.
Qed.

Lemma live_join n r conn identity requested multi :
  live n r -> (n + 1 < 2 ^ 64)%Z ->
  wp (handleJoin conn identity requested multi) (fun _ => live (n + 1)) (live (n + 1)) r.
Proof.
  intros Hl Hn. unfold handleJoin. apply wp_bind.
  eapply wp_mono; [apply (live_steps n _ _ (fun _ r' => live n r')); [done|apply resolve_held|auto]| |].
  2: { intros r'. apply live_mono. lia. }
  intros [mode reason] r1 H1. apply wp_bind, wp_gets.
  destruct (at_capacity r1) eqn:Hcap; [apply wp_ret; apply (live_mono n); [lia|done]|].
  unfold update_core, get_core, store_member, initialJoinFrames. simpl. wp_run. simpl.
  by apply live_join_member.
Qed.

(** ** One turn of the loop *)

(** A handler followed by a fixed answer. *)
Lemma live_then {A B} n r (m : RM A) (f : A -> B) (Q : B -> Room -> Prop) :
  live n r -> steps held m -> (forall a r', live n r' -> Q (f a) r') ->
  wp (bindM m (fun a => ret (f a))) Q (live n) r.
Proof.
  intros Hl Hm HQ. apply wp_bind. apply (live_steps n); [done..|]. intros a r' H. apply wp_ret. auto.
Qed.

Lemma live_dispatch n r cmd :
  live n r -> (n + 1 < 2 ^ 64)%Z ->
  wp (dispatch cmd) (fun res r' => if res.1 then live (n + 1) r' else ended r') (live (n + 1)) r.
Proof.
  intros Hl Hn.
  assert (Hl1 : live (n + 1) r) by (apply (live_mono n); [lia|done]).
  destruct cmd as [conn identity mode multi|source|source|source data dropped| | |fl]; simpl.
  - apply wp_bind, (wp_mono _ (fun _ => live n) _ (live n));
      [apply (live_steps n); [done|apply (stopIdleTimer_rel held)|auto]| |].
    2: { intros r'. apply live_mono. lia. }
    intros [] r1 H1. apply wp_bind. eapply wp_mono; [by apply live_join| |done].
    intros res r2 H2. apply live_then; [done|apply (arm_idle_if_empty_rel held)|done].
  - apply live_then; [done|apply (handleActivate_rel held)|done].
  - apply wp_bind, (live_steps (n + 1)); [done|apply (handleLeave_rel held)|]. intros _ r1 H1.
    apply live_then; [done|apply (arm_idle_if_empty_rel held)|done].
  - apply wp_bind, (live_steps (n + 1)); [done|apply (handleMessage_rel held)|]. intros mutated r1 H1.
    apply wp_bind, (live_steps (n + 1)); [done|steps_tac|]. intros _ r2 H2.
    apply live_then; [done|apply (arm_idle_if_empty_rel held)|done].
  - apply wp_bind, wp_ret, wp_bind. apply (wp_mono _ (fun _ => ended) _ (fun _ => False)); [|intros [] r' H; by apply wp_ret|done].
    eapply wp_mono; [apply teardown_wp; try apply Hl; [done|by rewrite (lv_lc _ _ Hl)|]| |done].
    + intros f [= <-]. by apply draining_persist.
    + by intros [] r' [H _].
  - apply wp_bind, wp_ret, wp_bind.
    eapply wp_mono; [by eapply live_teardown| |done]. intros [] r' [H _]. by apply wp_ret.
  - apply live_then; [done|apply (finishContributionFlush_rel held)|done].
Qed.

Lemma live_release n r :
  live n r -> wp releaseIfEmpty (fun released r' => if released then ended r' else live n r')
                (fun _ => False) r.
Proof.
  intros Hl. unfold releaseIfEmpty. apply wp_bind, wp_gets.
  destruct (negb _); [by apply wp_ret|]. apply wp_bind.
  eapply wp_mono; [by eapply live_persist| |done]. intros [] r1 H1. apply wp_bind, wp_gets. cbv beta.
  destruct H1 as [H1|H1].
  - unfold id. rewrite (lv_lc _ _ H1). simpl. destruct (_ && _).
    + apply (wp_calm held); [apply quiet_calm; [apply (armRetryTimer_rel held)|]|].
      { unfold armRetryTimer, get_core, update_core. calm_tac. }
      intros _ r2 H2. apply wp_bind, wp_modify, wp_ret.
      eapply live_held; [exact H1|]. etrans; [exact H2|]. apply held_core. intros c. by repeat split.
    + apply wp_bind, wp_ret, wp_bind.
      eapply wp_mono; [by eapply live_teardown| |done]. intros [] r2 [H2 _]. by apply wp_ret.
  - unfold id. rewrite (en_lc _ H1). simpl. by apply wp_ret.
Qed.

Lemma live_event n r ev :
  live n r -> (n + 1 < 2 ^ 64)%Z ->
  wp (run_event ev) (fun go r' => if go : bool then live (n + 1) r' else ended r') (live (n + 1)) r.
Proof.
  intros Hl Hn.
  assert (Hl1 : live (n + 1) r) by (apply (live_mono n); [lia|done]).
  assert (Hcore : forall f, bookkeeping f -> live (n + 1) (upd_core f r)).
  { intros f Hf. eapply live_held; [exact Hl1|by apply (rr_core f)]. }
  destruct ev as [cmd|data ephemeral| | |]; simpl.
  - apply wp_bind. eapply wp_mono; [exact (live_dispatch n r cmd Hl Hn)| |done]. intros [[] rep] r' H; apply wp_ret; exact H.
  - apply wp_bind, (live_steps (n + 1)); [done|apply (handlePeer_rel held)|]. intros mutated r1 H1.
    apply live_then; [done|steps_tac|done].
  - apply wp_bind, wp_modify, wp_bind.
    eapply wp_mono; [apply (live_persist (n + 1)), Hcore; auto with steps| |done].
    intros [] r1 H1. apply wp_bind, wp_gets. cbv beta.
    destruct H1 as [H1|H1]; [rewrite (lv_lc _ _ H1)|rewrite (en_lc _ H1)]; simpl; [|by apply wp_ret].
    apply live_then; [done|apply (armRetryTimer_rel held)|done].
  - apply wp_bind, wp_modify, wp_bind.
    eapply wp_mono; [apply (live_release (n + 1)), Hcore; auto with steps| |done].
    intros released r1 H1. apply wp_ret. by destruct released.
  - apply live_then; [done|apply (startContributionFlush_rel held)|done].
Qed.

(** What one turn can come to. *)
Lemma live_run_step n r ev :
  live n r -> (n + 1 < 2 ^ 64)%Z ->
  match run_step ev r with
  | Running r' => live (n + 1) r'
  | Exited r' => ended r'
  | Crashed => False
  end.
Proof.
  intros Hl Hn. pose proof (live_event n r ev Hl Hn) as H. unfold run_step. unfold wp in H.
  destruct (run_event ev r) as [[] r'|r'|]; [done..| |done].
  unfold recover_teardown, session_end. rewrite end_edits_not_saved. unfold bindM, ret.
  pose proof (live_teardown (n + 1) (mkEnd CodeEditsNotSaved ScopeDocument DispositionTerminal) r' H) as H2.
  unfold wp in H2. destruct (teardown _ _ r'); [by destruct H2|done..].
Qed.

Lemma reaches_live A r0 n r :
  live 0 r0 -> reaches A r0 n r -> (n < 2 ^ 64)%Z -> live n r.
Proof.
  intros H0. induction 1 as [|n r ev r' Hr IH _ _ Hs]; intros Hn; [done|].
  pose proof (live_run_step n r ev (IH ltac:(lia)) Hn) as H. by rewrite Hs in H.
Qed.

(** A room as [newRoom] hands it to its loop. *)
Record opened (r : Room) : Prop := {
  op_lc : lc (co r) = stateActive;
  op_done : doneClosed (co r) = false;
  op_handle : handleHeld (co r) = true;
  op_members : members r = ∅;
  op_next : nextID (co r) = 0%Z;
  op_gauge : conn_gauge (trace r) = 0%Z }.

Lemma opened_live r : opened r -> live 0 r.
Proof.
  intros []. split; try done.
  - unfold gauge_drift, activeMemberCount, active_count, active_members.
    rewrite op_members0, op_gauge0, map_filter_empty, map_size_empty. done.
  - intros Hc. unfold member_count. rewrite op_members0, map_size_empty. lia.
  - intros id m. rewrite op_members0, lookup_empty. done.
  - lia.
Qed.
End Run.

(** ** Properties *)

Section Properties.
Context {Y : YCore} {P : Params}.

(** C6: every room its loop passes through is in service: Active, its registry
    handle held, the connection gauge equal to the visible members, the membership
    within the cap.  The next turn, whatever it is and whatever the connections,
    the stores and the other pods do, goes on in such a room or leaves the room
    ended; no panic escapes and the fan-out recursion always finishes. *)
Theorem room_loop_safe (A : loop_event -> Prop) (r0 r : Room) (n : Z) (ev : loop_event) :
  fair_range -> opened r0 -> reaches A r0 n r -> (n + 1 < 2 ^ 64)%Z ->
  live n r
  /\ match run_step ev r with
     | Running r' => live (n + 1) r'
     | Exited r' => ended r'
     | Crashed => False
     end.
Proof.
  intros Hf Ho Hr Hn.
  assert (Hl : live n r) by (eapply reaches_live; [done|by apply opened_live|done|lia]).
  split; [done|by apply live_run_step].
Qed.

End Properties.

Lemma toy_opened : opened toy_room.
Proof. by split. Qed.

Definition full_house : list loop_event :=
  [join_as 1 ModeCollaborator; join_as 2 ModeCollaborator; join_as 3 ModeViewer;
   activate_id 1; activate_id 2; activate_id 3; sends 1 "02hi"; join_as 4 ModeViewer].

(** Connection 2 takes nothing: the update drops it, then the room shuts down. *)
Lemma room_loop_safe_witness :
  (match run_step (P := stuck_conn) (LCommand cmdClose) (@after stuck_conn full_house) with
   | Exited r => (dirty (co r), version (co r)) = (false, 1%Z)
   | _ => False
   end)
  /\ member_count (@after stuck_conn full_house) = 3
  /\ match run_step (P := stuck_conn) (LCommand cmdClose) (@after stuck_conn full_house) with
     | Running r' => live (P := stuck_conn) (8 + 1) r'
     | Exited r' => ended r'
     | Crashed => False
     end.
Proof.
  split; [vm_compute; reflexivity|]. split; [vm_compute; reflexivity|].
  apply (@room_loop_safe toy stuck_conn any_event toy_room (@after stuck_conn full_house) 8 (LCommand cmdClose)).
  - apply world_fair.
  - apply toy_opened.
  - apply (run_trace_reaches (P := stuck_conn) any_event full_house); [apply all_any|vm_compute; reflexivity].
  - done.
Defined.

