(* ===== verification/RoomTurn.v ===== *)
(** * Invariants of the run loop, by the primitives

    [TurnRel] extends the handlers' interface by the two changes only the loop
    makes: a save, and an admission.  A relation that meets it
    is kept by every turn that leaves the room serving ([turn_rel]); the
    reachability principle [reaches_rel] follows. *)

From stdpp Require Import base gmap sets list strings.
From Stdlib Require Import ZArith Lia.
From S2P Require Import Prelude Control Lifecycle Core RoomState RoomFanout RoomBarrier.
From S2P Require Import RoomApply RoomLife RoomLoop RoomRel RoomSafe RoomSave RoomRun.

Local Open Scope go_scope.

Section Turns.
Context {Y : YCore} {P : Params}.

(** What admission guarantees: room for one more, a fresh id, and no second
    collaborator in a single-user document. *)
Definition admissible (id : connID) (mode : CollaboratorMode) (r : Room) : Prop :=
  at_capacity r = false /\ members r !! id = None
  /\ (mode = ModeCollaborator -> isMultiUser (co r) = Some false -> has_collaborator (members r) = false).

Definition admitted (id : connID) (conn : Conn) (identity : Identity) (mode : CollaboratorMode)
    (now : Z) (r : Room) : Room :=
  put_member id (new_member conn identity mode now) (upd_core (set_nextID id) r).

Definition multi_of (ev : loop_event) : option bool :=
  match ev with LCommand (cmdJoin _ _ _ multi) => multi | _ => None end.

(** A multi-user decision some event of [A] brings. *)
Definition decision (A : loop_event -> Prop) (b : bool) : Prop := exists ev, A ev /\ multi_of ev = Some b.

(** [A]: the events the loop is given. *)
Class TurnRel (A : loop_event -> Prop) (R : Room -> Room -> Prop) : Prop := {
  tu_handler :: HandlerRel R;
  tu_peer u s : (exists data, A (LPeer data false)) -> steps R (apply_checked u (mkOrigin s true));
  tu_persist n r :
    fair_range -> live n r -> wp persist (fun _ r' => R r r' \/ ended r') (fun _ => False) r;
  tu_multi b r : decision A b -> R r (upd_core (set_isMultiUser (Some b)) r);
  tu_join id conn identity mode now r :
    admissible id mode r -> R r (admitted id conn identity mode now r) }.

(** A relation that the parts of a save keep is kept by the save, and it is enough that
    the marking of a save stays inside it. *)
Lemma save_turn R `{!SaveRel R} :
  (forall s v r, dirty (co r) = true -> EncodeStateAsUpdateV2 (doc (co r)) = Some s ->
     EncodeStateVectorFromUpdateV2 s = Some v ->
     wp (persist_accepted (i64 (version (co r) + 1))) (fun _ => R r) (fun _ => False) (both_accepted r s v)) ->
  forall n r, fair_range -> live n r ->
    wp persist (fun _ r' => R r r' \/ ended r') (fun _ => False) r.
Proof.
  intros Hsaved n r Hf Hl. apply (persist_wp (both R held)).
  - intros _. left. reflexivity.
  - intros r' _ [H _] _. by left.
  - intros r' u _ [_ H2] _.
    eapply wp_mono; [apply (live_escalate Hf n), (live_held n r); [exact Hl|exact H2]| |done]. by right.
  - intros s v Hd Hs Hv. eapply wp_mono; [by apply Hsaved| |done]. by left.
Qed.

Lemma saved_by R `{!CountRel R} s v r :
  R r (marked_saved (i64 (version (co r) + 1)) (both_accepted r s v)) ->
  wp (persist_accepted (i64 (version (co r) + 1))) (fun _ => R r) (fun _ => False) (both_accepted r s v).
Proof.
  intros H. eapply wp_mono; [apply (persist_accepted_rel R)| |done].
  intros [] r' H'. etrans; [exact H|exact H'].
Qed.

Definition decides (allowed : bool -> Prop) (ev : loop_event) : Prop :=
  forall b, multi_of ev = Some b -> allowed b.

Context (Hfair : fair_range) (Ev : loop_event -> Prop) (R : Room -> Room -> Prop) `{!TurnRel Ev R}.

#[local] Instance turn_handler : HandlerRel R := tu_handler (A := Ev).
#[local] Instance turn_room : RoomRel R := rr_room.
#[local] Instance turn_preorder : PreOrder R := rr_preorder.

Lemma persist_turn n r :
  live n r -> wp persist (fun _ r' => (live n r' /\ R r r') \/ ended r') (fun _ => False) r.
Proof.
  intros Hl. eapply wp_mono; [apply (wp_and _ _ _ _ _ _ (tu_persist (A := Ev) n r Hfair Hl)
    (live_persist Hfair n r Hl))| |naive_solver].
  intros [] r' [[H1|H1] [H2|H2]]; auto.
Qed.

(** A handler followed by anything that keeps the room serving or ends it. *)
Lemma turn_bind {A B} n r0 r (m : RM A) (k : A -> RM B) (go : B -> bool) :
  R r0 r -> live n r -> steps R m -> steps held m ->
  (forall a r', R r0 r' -> live n r' ->
     wp (k a) (fun b r'' => go b = true -> R r0 r'') (fun _ => True) r') ->
  wp (bindM m k) (fun b r'' => go b = true -> R r0 r'') (fun _ => True) r.
Proof.
  intros H0 Hl H1 H2 Hk. apply wp_bind.
  eapply wp_mono; [apply (steps_both R held); [exact H1|exact H2]| |done].
  intros a r' [Ha Hb]. apply Hk; [by etrans|by eapply live_held].
Qed.

Lemma turn_last {A} r0 r (m : RM A) (go : A -> bool) :
  R r0 r -> steps R m -> wp m (fun b r'' => go b = true -> R r0 r'') (fun _ => True) r.
Proof.
  intros H0 H1. eapply wp_mono; [apply H1| |done]. intros a r' H _. by etrans.
Qed.

Lemma resolve_admissible identity requested multi r :
  (forall b, multi = Some b -> decision Ev b) ->
  wp (resolveJoinCapability identity requested multi)
     (fun res r' => R r r' /\ members r' = members r /\ nextID (co r') = nextID (co r)
        /\ (res.1 = ModeCollaborator -> isMultiUser (co r') = Some false ->
             has_collaborator (members r') = false))
     (fun _ => False) r.
Proof.
  intros Ha. unfold resolveJoinCapability, get_core, update_core.
  assert (Hgo : forall r1, R r r1 -> members r1 = members r -> nextID (co r1) = nextID (co r) ->
    wp (known ← gets (fun r => isMultiUser (co r));
        taken ← gets (fun r => has_collaborator (members r));
        ret (if bool_decide (requested = ModeCollaborator) && bool_decide (known = Some false) && taken
             then (ModeViewer, ReasonMultiUserNotAllowed)
             else if bool_decide (requested = ModeViewer)
                  then (requested, readOnlyReasonForIdentity identity) else (requested, "")))
       (fun res r' => R r r' /\ members r' = members r /\ nextID (co r') = nextID (co r)
          /\ (res.1 = ModeCollaborator -> isMultiUser (co r') = Some false ->
               has_collaborator (members r') = false)) (fun _ => False) r1).
  { intros r1 H1 Hm Hn. wp_run. split_and!; [done..|]. destruct requested; simpl; [done|].
    destruct (has_collaborator (members r1)); [|done]. case_bool_decide; [done|]. simpl. congruence. }
  apply wp_bind. destruct multi as [b|].
  - apply wp_modify, Hgo; [|done..]. by apply (tu_multi (A := Ev)), Ha.
  - apply wp_ret, Hgo; [reflexivity|done..].
Qed.

Lemma join_turn n r conn identity requested multi :
  live n r -> (n + 1 < 2 ^ 64)%Z -> (forall b, multi = Some b -> decision Ev b) ->
  wp (handleJoin conn identity requested multi) (fun _ => R r) (fun _ => True) r.
Proof.
  intros Hl Hn Ha. unfold handleJoin. apply wp_bind.
  eapply wp_mono; [by apply resolve_admissible| |done].
  intros [mode reason] r1 (H1 & Hm & Hid & Hs). simpl in Hs. apply wp_bind, wp_gets.
  destruct (at_capacity r1) eqn:Hcap; [by apply wp_ret|].
  unfold update_core, get_core, store_member, initialJoinFrames. simpl. wp_run.
  etrans; [exact H1|]. simpl.
  apply (tu_join (A := Ev) (u64 (nextID (co r1) + 1)) conn identity mode _ r1).
  split_and!; [done| |done]. rewrite Hid, Hm. pose proof (lv_next _ _ Hl). rewrite u64_small by lia.
  destruct (members r !! _) as [m|] eqn:E; [|done]. apply (lv_ids _ _ Hl) in E. lia.
Qed.

(** ** Turns *)

(** Every turn that goes on stays inside [R]. *)
Definition turn_ok {A} (go : A -> bool) (m : RM A) (r : Room) : Prop :=
  wp m (fun a r' => go a = true -> R r r') (fun _ => True) r.

Lemma turn_ok_steps {A} (go : A -> bool) (m : RM A) r : steps R m -> turn_ok go m r.
Proof. intros H. eapply wp_mono; [apply H| |done]. auto. Qed.

Lemma turn_stops {A} n e r (k : unit -> RM A) (go : A -> bool) :
  live n r -> (forall r', wp (k tt) (fun a _ => go a = false) (fun _ => True) r') ->
  turn_ok go (bindM (teardown e None) k) r.
Proof.
  intros Hl Hk. apply wp_bind. eapply wp_mono; [by apply (live_teardown Hfair n)| |done].
  intros [] r' _. eapply wp_mono; [apply Hk| |done]. intros a r'' ->. done.
Qed.

Lemma dispatch_turn n cmd r :
  live n r -> (n + 1 < 2 ^ 64)%Z -> Ev (LCommand cmd) ->
  turn_ok fst (dispatch cmd) r.
Proof.
  intros Hl Hn Ha. destruct cmd as [conn identity mode multi|source|source|source data dropped| | |fl].
  - simpl. apply wp_bind.
    eapply wp_mono; [apply (steps_both R held); [apply (stopIdleTimer_rel R)|apply (stopIdleTimer_rel held)]| |done].
    intros [] r1 [H1 H2]. apply wp_bind.
    eapply wp_mono; [apply (join_turn n); [by eapply live_held|done|intros b ->; by eexists (LCommand _)]| |done].
    intros res r2 H3. apply wp_bind. eapply wp_mono; [apply (arm_idle_if_empty_rel R)| |done].
    intros [] r3 H4. apply wp_ret. intros _. etrans; [exact H1|]. etrans; [exact H3|exact H4].
  - apply turn_ok_steps. simpl. steps_tac.
  - apply turn_ok_steps. simpl. steps_tac.
  - apply turn_ok_steps. simpl. steps_tac.
  - apply wp_bind, wp_ret, wp_bind.
    apply (wp_mono _ (fun _ _ => True) _ (fun _ => True)); [|by intros; apply wp_ret|done].
    eapply wp_mono; [apply (teardown_wp _ (Some persist) r Hfair); try apply Hl; [by rewrite (lv_lc _ _ Hl)|]|done..].
    intros f [= <-]. by apply draining_persist.
  - apply wp_bind, wp_ret. apply (turn_stops n); [done|]. intros r'. by apply wp_ret.
  - apply turn_ok_steps. simpl. steps_tac.
Qed.

Lemma release_turn n r : live n r -> turn_ok negb releaseIfEmpty r.
Proof.
  intros Hl. unfold turn_ok, releaseIfEmpty. apply wp_bind, wp_gets.
  destruct (negb _); [apply wp_ret; intros _; reflexivity|]. apply wp_bind.
  eapply wp_mono; [by apply (persist_turn n)| |done]. intros [] r1 H1. apply wp_bind, wp_gets. cbv beta.
  destruct H1 as [[L1 H1]|H1].
  - unfold id. rewrite (lv_lc _ _ L1). simpl. destruct (_ && _).
    + apply turn_last; [exact H1|]. steps_tac.
    + apply wp_bind, wp_ret, wp_bind.
      eapply wp_mono; [by apply (live_teardown Hfair n)| |done]. intros [] r2 _. by apply wp_ret.
  - unfold id. rewrite (en_lc _ H1). simpl. by apply wp_ret.
Qed.

Lemma event_turn n ev r :
  live n r -> (n + 1 < 2 ^ 64)%Z -> Ev ev -> turn_ok id (run_event ev) r.
Proof.
  intros Hl Hn Ha.
  assert (Hcore : forall f, bookkeeping f -> live n (upd_core f r) /\ R r (upd_core f r)).
  { intros f Hf. split; [eapply live_held; [exact Hl|]|]; by apply rr_core. }
  destruct ev as [cmd|data ephemeral| | |].
  - apply wp_bind. eapply wp_mono; [by apply (dispatch_turn n)| |done].
    intros [go rep] r' H. by apply wp_ret.
  - apply turn_ok_steps. simpl. pose proof (handlePeer_by R data ephemeral) as Hp.
    assert (Hp' : steps R (handlePeer data ephemeral)).
    { apply Hp. intros -> u. apply (tu_peer (A := Ev)). eauto. }
    steps_tac.
  - destruct (Hcore (set_saveTimer None)) as [Hl1 HR1]; [auto with steps|].
    apply wp_bind, wp_modify, wp_bind. eapply wp_mono; [by apply (persist_turn n)| |done].
    intros [] r1 H1. apply wp_bind, wp_gets. cbv beta. destruct H1 as [[L1 H1]|H1].
    + rewrite (lv_lc _ _ L1). simpl. apply turn_last; [by etrans|]. steps_tac.
    + rewrite (en_lc _ H1). simpl. by apply wp_ret.
  - destruct (Hcore (set_idleTimer None)) as [Hl1 HR1]; [auto with steps|].
    apply wp_bind, wp_modify, wp_bind. eapply wp_mono; [by apply (release_turn n)| |done].
    intros released r1 H1. apply wp_ret. intros Hgo. etrans; [exact HR1|]. by apply H1.
  - apply turn_ok_steps. simpl. steps_tac.
Qed.

Lemma turn_rel n ev r r' :
  live n r -> (n + 1 < 2 ^ 64)%Z -> Ev ev -> run_step ev r = Running r' -> R r r'.
Proof.
  intros Hl Hn Ha Hs. pose proof (event_turn n ev r Hl Hn Ha) as H. unfold turn_ok, wp in H.
  unfold run_step in Hs. destruct (run_event ev r) as [[] r1|r1|]; [|done| |done].
  - injection Hs as <-. by apply H.
  - by destruct (recover_teardown r1).
Qed.

(** Reachability: the rooms a loop passes through are all related to the first. *)
Lemma reaches_rel r0 n r :
  live 0 r0 -> reaches Ev r0 n r -> (n < 2 ^ 64)%Z -> R r0 r.
Proof.
  intros H0. induction 1 as [|n r ev r' Hr IH Hev _ Hs]; intros Hn; [reflexivity|].
  etrans; [apply IH; lia|]. eapply turn_rel; [|exact Hn|exact Hev|exact Hs].
  eapply reaches_live; [exact Hfair|exact H0|exact Hr|lia].
Qed.
End Turns.
