(* ===== verification/RoomSchema.v ===== *)
(** * The live document never leaves the schema

    The room keeps a validation shadow beside the document.  [guarded]: the shadow
    shows the same state and the document satisfies the bounded-locator schema.
    The update chokepoint keeps it: an update is applied to the live document only
    after the shadow has accepted it and still satisfies the schema. *)

From stdpp Require Import base gmap sets list strings.
From Stdlib Require Import ZArith Lia.
From S2P Require Import Prelude Control Lifecycle Core Schema RoomState RoomFanout RoomBarrier.
From S2P Require Import RoomApply RoomLife RoomLoop Fixture RoomRel RoomSafe RoomSave RoomRun.
From S2P Require Import RoomTurn.

Local Open Scope go_scope.

Section Kept.
Context {Y : YCore} {P : Params}.

(** A property of the core is kept. *)
Definition kept (I : core -> Prop) (r r' : Room) : Prop := I (co r) -> I (co r').

Class CoreInv (I : core -> Prop) : Prop := {
  ci_book f c : counting f -> I c -> I (f c);
  ci_saved v c : I c -> I (set_dirty false (set_version v c));
  ci_bytes n c : I c -> I (set_docBytes n c);
  ci_join i c : I c -> I (set_nextID i c) }.

#[export] Instance kept_preorder I : PreOrder (kept I).
Proof. split; [by intros r H|]. intros r1 r2 r3 H1 H2 H. by apply H2, H1. Qed.

#[export] Instance kept_send I : SendRel (kept I).
Proof.
  split.
  - apply kept_preorder.
  - by intros e r _ H.
  - intros r r' [Hc _ _]. unfold kept. by rewrite Hc.
  - by intros id m m' r _ _ H.
Qed.

#[export] Instance kept_room I : CoreInv I -> RoomRel (kept I).
Proof.
  intros HI. split.
  - apply kept_send.
  - intros f r [Hf _] H. by apply ci_book.
  - by intros a o r H.
  - intros r r' _ [Hc _ _]. unfold kept. by rewrite Hc.
  - by intros id m r _ _ H.
Qed.

#[export] Instance kept_save I : CoreInv I -> SaveRel (kept I).
Proof.
  intros HI. split; [split; [by apply kept_room|intros f r Hf H; by apply ci_book]|..].
  - by intros s v ok r _ _ H.
  - by intros m r H.
Qed.

(** What remains to show for such an invariant: updates and decisions. *)
Lemma kept_turn I (A : loop_event -> Prop) :
  CoreInv I -> (forall u o, steps (kept I) (apply_checked u o)) ->
  (forall b c, decision A b -> I c -> I (set_isMultiUser (Some b) c)) ->
  TurnRel A (kept I).
Proof.
  intros HI Hu Hm. split.
  - split; [by apply kept_room|done].
  - done.
  - apply (save_turn (kept I)). intros s v r _ _ _. apply (saved_by (kept I)). intros H.
    unfold marked_saved, both_accepted. simpl. by apply ci_saved, ci_bytes.
  - intros b r Hb H. by apply Hm.
  - intros id conn identity mode now r _ H. simpl. by apply ci_join.
Qed.
End Kept.

Section Guard.
Context {Y : YCore} {P : Params} {L : YLaws Y}.
(** The core can encode every document it holds. *)
Context (Henc : forall d, is_Some (EncodeStateAsUpdateV2 d)).

Definition guarded (c : core) : Prop :=
  exists s, shadow c = Some s /\ same s (doc c) /\ validateStoredContent (content c) (doc c) = None.

#[export] Instance guarded_inv : CoreInv guarded.
Proof.
  split; try done.
  intros f c Hf. destruct (Hf c) as ((Hc%row_fields_content & Hd & Hs & _) & _). unfold guarded.
  by rewrite Hc, Hd, Hs.
Qed.

(** The documents are left alone. *)
Definition same_docs (r r' : Room) : Prop :=
  content (co r') = content (co r) /\ doc (co r') = doc (co r) /\ shadow (co r') = shadow (co r).

#[export] Instance same_docs_preorder : PreOrder same_docs.
Proof.
  split; [done|]. intros r1 r2 r3 (? & ? & ?) (? & ? & ?). unfold same_docs. split_and!; congruence.
Qed.

Lemma onDocUpdate_docs u o : calm same_docs (onDocUpdate u o).
Proof.
  apply quiet_calm.
  2: { unfold onDocUpdate, publishToPeers, emit_metric, emit, update_core. calm_tac. }
  assert (Hb : forall f e, steps same_docs (broadcast f e)).
  { intros f e r. eapply wp_mono; [apply broadcast_casc| |done]. intros [] r' [Hc _ _].
    unfold same_docs. by rewrite Hc. }
  assert (He : forall e, steps same_docs (emit e)) by (intros e; by apply steps_modify).
  unfold onDocUpdate, publishToPeers, emit_metric, update_core. steps_tac; by apply steps_modify.
Qed.

Lemma apply_live_docs u o r :
  wp (apply_live u o)
     (fun ok r' => ok = ap_ok (ApplyUpdate (doc (co r)) u) /\ content (co r') = content (co r)
        /\ shadow (co r') = shadow (co r) /\ doc (co r') = ap_doc (ApplyUpdate (doc (co r)) u))
     (fun _ => False) r.
Proof.
  unfold apply_live, get_core, update_core. apply wp_bind, wp_gets, wp_bind, wp_modify. cbv beta.
  apply wp_bind. eapply wp_mono; [apply (calm_forM same_docs); intros; apply onDocUpdate_docs| |done].
  intros [] r' (? & ? & ?). apply wp_ret. by split_and!.
Qed.

(** A rebuilt shadow shows the live document. *)
Lemma rebuildShadow_wp r (Q F : Room -> Prop) :
  (forall s, same s (doc (co r)) -> Q (upd_core (set_shadow (Some s)) r)) ->
  wp rebuildShadow (fun _ => Q) F r.
Proof.
  intros HQ. unfold rebuildShadow, replaceShadow, get_core, update_core. apply wp_bind, wp_gets.
  unfold cloneDoc. destruct (Henc (doc (co r))) as [b Hb]. rewrite Hb.
  destruct (law_clone p_id _ _ Hb) as [-> Hs]. apply wp_modify. by apply HQ.
Qed.

(** The chokepoint on a guarded room: it never panics, and refuses or applies. *)
Lemma apply_checked_guarded u o r :
  guarded (co r) ->
  wp (apply_checked u o)
     (fun res r' => guarded (co r')
        /\ (res = applyOK \/ doc (co r') = doc (co r))
        /\ (res = applyOK -> doc (co r') = ap_doc (ApplyUpdate (doc (co r)) u)))
     (fun _ => False) r.
Proof.
  intros (s & Hsh & Hsame & Hval). unfold apply_checked, get_core, update_core, validateSchema.
  apply wp_bind, wp_gets. rewrite Hsh. cbv zeta. apply wp_bind, wp_modify.
  set (r1 := upd_core _ r).
  assert (Hre : forall s' res, res <> applyOK -> same s' (doc (co r)) ->
      guarded (co (upd_core (set_shadow (Some s')) r1))
      /\ (res = applyOK \/ doc (co (upd_core (set_shadow (Some s')) r1)) = doc (co r))
      /\ (res = applyOK -> doc (co (upd_core (set_shadow (Some s')) r1)) = ap_doc (ApplyUpdate (doc (co r)) u))).
  { intros s' res Hres Hs'. split_and!; [by exists s'|by right|done]. }
  destruct (ap_ok (ApplyUpdate s u)) eqn:Hok; simpl.
  2: { apply wp_bind, rebuildShadow_wp. intros s' Hs'. apply wp_ret. by apply Hre. }
  apply wp_bind. unfold get_core. apply wp_bind, wp_gets, wp_ret.
  destruct (validateStoredContent (content (co r1)) (ap_doc (ApplyUpdate s u))) eqn:Hv.
  { apply wp_bind, rebuildShadow_wp. intros s' Hs'. apply wp_ret. by apply Hre. }
  destruct (law_same s (doc (co r)) u Hsame) as [Hoks Hdocs].
  apply wp_bind. eapply wp_mono; [apply apply_live_docs| |done].
  intros ok r2 (Hok2 & Hc2 & Hs2 & Hd2). simpl in *.
  rewrite <- Hoks, Hok in Hok2. subst ok. apply wp_ret. split_and!; [|by left|done].
  exists (ap_doc (ApplyUpdate s u)). rewrite Hs2, Hc2, Hd2. split_and!; [done|done|].
  rewrite <- (validate_same _ _ _ Hdocs). exact Hv.
Qed.

#[export] Instance guarded_turn A : TurnRel A (kept guarded).
Proof.
  apply kept_turn; [typeclasses eauto| |done].
  intros u o r. eapply wp_mono; [apply (wp_given held (guarded (co r)))| |].
  - apply apply_checked_rel. typeclasses eauto.
  - intros Hg. by apply apply_checked_guarded.
  - intros a r' H Hg. by apply H.
  - intros r' H Hg. destruct (H Hg).
Qed.
End Guard.

(** ** The property *)

Section Property.
Context {Y : YCore} {P : Params} {L : YLaws Y}.

(** A room as [newRoom] publishes it: its document passed the load check and its
    shadow was cloned from it. *)
Definition screened (r : Room) : Prop :=
  exists s, shadow (co r) = Some s /\ same s (doc (co r)) /\ good_content (content (co r)) (doc (co r)).

Lemma screened_guarded r : screened r <-> guarded (co r).
Proof.
  unfold screened, guarded. split; intros (s & H1 & H2 & H3); exists s; split_and!; try done;
    by apply validateStoredContent_None.
Qed.

(** C4: whatever members and other pods send, the live document of a room in
    service satisfies the bounded-locator schema and its validation shadow shows
    the same state, so a refused update has left neither behind. *)
Theorem live_document_in_schema (r0 r : Room) (n : Z) :
  fair_range -> (forall d, is_Some (EncodeStateAsUpdateV2 d)) ->
  opened r0 -> screened r0 -> reaches any_event r0 n r -> (n < 2 ^ 64)%Z ->
  screened r.
Proof.
  intros Hf Henc Ho Hs Hr Hn. apply screened_guarded.
  apply (reaches_rel Hf any_event (kept guarded) (TurnRel0 := guarded_turn Henc _) r0 n r);
    [by apply opened_live|done..|by apply screened_guarded].
Qed.
End Property.

Definition hostile : list loop_event :=
  session ++ [join_as 2 ModeCollaborator; activate_id 2; sends 2 "02@inline"; LPeer "@peer" false].

Lemma live_document_in_schema_witness :
  let r := @after healthy hostile in
  (doc (co r), member_count r) = ("hello"%string, 1) /\ screened r.
Proof.
  split; [vm_compute; reflexivity|].
  apply (@live_document_in_schema toy healthy toy_laws toy_room _ 7).
  - apply world_fair.
  - intros d. by exists d.
  - by split.
  - exists ""%string. split_and!; [done|done|]. by split; [|intros _; constructor].
  - apply (run_trace_reaches (P := healthy) any_event hostile); [apply all_any|vm_compute; reflexivity].
  - done.
Defined.
