(* ===== verification/RoomInv.v ===== *)
(** * Further invariants of a room in service

    Instances of [TurnRel]: a parked durability request waits only on a dirty room,
    a single-user document has at most one collaborator, and the version counts the
    accepted saves. *)

From stdpp Require Import base gmap sets list strings.
From Stdlib Require Import ZArith Lia.
From S2P Require Import Prelude Control Lifecycle Limits Core RoomState RoomFanout RoomBarrier.
From S2P Require Import RoomApply RoomLife RoomLoop Fixture RoomRel RoomSafe RoomSave RoomRun.
From S2P Require Import RoomTurn.

Local Open Scope go_scope.

(** ** Parked requests *)

Section Parked.
Context {Y : YCore} {P : Params}.

Definition parked_dirty (r : Room) : Prop :=
  forall id m, members r !! id = Some m -> mb_barrier m <> "" -> dirty (co r) = true.

(** The dirty flag is not cleared behind a parked request's back. *)
Definition waits (r r' : Room) : Prop :=
  (dirty (co r) = true -> dirty (co r') = true)
  /\ forall id m', members r' !! id = Some m' -> mb_barrier m' <> "" ->
       (exists m, members r !! id = Some m /\ mb_barrier m <> "") \/ dirty (co r') = true.

#[export] Instance waits_preorder : PreOrder waits.
Proof.
  split.
  - intros r. split; [done|]. intros id m Hm Hb. left. eauto.
  - intros r1 r2 r3 [D1 H1] [D2 H2]. split; [auto|]. intros id m Hm Hb.
    destruct (H2 id m Hm Hb) as [(m2 & Hm2 & Hb2)|]; [|by right].
    destruct (H1 id m2 Hm2 Hb2) as [?|?]; auto.
Qed.

Lemma waits_core f r : (dirty (co r) = true -> dirty (f (co r)) = true) -> waits r (upd_core f r).
Proof. intros H. split; [done|]. intros id m Hm Hb. left. eauto. Qed.

Lemma waits_casc F r r' : casc F r r' -> waits r r'.
Proof.
  intros [Hc Hm _]. split; [by rewrite Hc|]. intros id m Hid Hb. left. exists m. split; [|done].
  by eapply lookup_weaken.
Qed.

Lemma waits_trivial r r' : co r' = co r -> members r' = members r -> waits r r'.
Proof. intros Hc Hm. split; [by rewrite Hc|]. intros id m. rewrite Hm. left. eauto. Qed.

Lemma waits_put id m m' r :
  members r !! id = Some m ->
  (mb_barrier m' = "" \/ mb_barrier m' = mb_barrier m \/ dirty (co r) = true) ->
  waits r (put_member id m' r).
Proof.
  intros Hm Hu. split; [done|]. intros j mj. simpl. rewrite lookup_insert. case_decide as Hd.
  - intros [= <-] Hb. subst j. destruct Hu as [?|[E|?]]; [done| |by right].
    left. exists m. split; [done|]. congruence.
  - intros Hj Hb. left. eauto.
Qed.

#[export] Instance waits_send : SendRel waits.
Proof.
  split.
  - apply waits_preorder.
  - intros e r _. by apply waits_trivial.
  - apply waits_casc.
  - intros id m m' r Hm (_ & _ & _ & Hb). by apply (waits_put id m).
Qed.

Lemma waits_counting f r : counting f -> waits r (upd_core f r).
Proof. intros Hf. apply waits_core. by destruct (Hf (co r)) as ((_ & _ & _ & _ & ->) & _). Qed.

#[export] Instance waits_room : RoomRel waits.
Proof.
  split.
  - apply waits_send.
  - intros f r [Hf _]. by apply waits_counting.
  - intros a o r. by apply waits_trivial.
  - intros r r' _. apply waits_casc.
  - intros id m r Hm _. etrans; [apply (waits_put id m (with_pending false m)); [done|by right; left]|].
    by apply waits_trivial.
Qed.

#[export] Instance waits_save : SaveRel waits.
Proof. split; [split; [apply waits_room|intros f r; apply waits_counting]|..]; intros; by apply waits_trivial. Qed.

#[export] Instance waits_handler : PeerRel waits.
Proof.
  apply peer_rel; [apply waits_room|]. intros u o. apply apply_checked_by; [typeclasses eauto| | | |apply waits_casc].
  - intros f r Hf. apply waits_core. by destruct (proj1 Hf (co r)) as ((_ & _ & ? & _) & _).
  - intros e r _. by apply waits_trivial.
  - intros u' ok r. by apply waits_trivial.
Qed.

(** The invariant as a relation; an accepted save settles before it returns. *)
Definition keeps_parked (r r' : Room) : Prop := parked_dirty r -> parked_dirty r'.

Lemma waits_parked r r' : waits r r' -> keeps_parked r r'.
Proof.
  intros [Hd Hw] H id m Hm Hb. destruct (Hw id m Hm Hb) as [(m0 & Hm0 & Hb0)|]; [|done].
  by eapply Hd, H.
Qed.

#[export] Instance keeps_parked_send : SendRel keeps_parked.
Proof.
  split.
  - split; [by intros r H|]. intros r1 r2 r3 H1 H2 H. by apply H2, H1.
  - intros e r He. by apply waits_parked, rr_emit.
  - intros r r' H. by apply waits_parked, rr_casc.
  - intros id m m' r Hm Hu. by apply waits_parked, (rr_member id m).
Qed.

#[export] Instance keeps_parked_room : RoomRel keeps_parked.
Proof.
  split.
  - apply keeps_parked_send.
  - intros f r Hf. by apply waits_parked, rr_core.
  - intros a o r. apply waits_parked, rr_presence.
  - intros r r' Hd H. by apply waits_parked, rr_answer.
  - intros id m r Hm Hp. by apply waits_parked, (rr_activate id m).
Qed.

#[export] Instance keeps_parked_save : SaveRel keeps_parked.
Proof.
  split; [split; [apply keeps_parked_room|]|..]; intros; apply waits_parked;
    [by apply cr_count|by apply sr_checkpoint|apply sr_row_refused].
Qed.

#[export] Instance keeps_parked_handler : PeerRel keeps_parked.
Proof.
  apply peer_rel; [apply keeps_parked_room|]. intros u o r.
  eapply wp_mono; [apply (apply_checked_rel waits)| |]; intros; by apply waits_parked.
Qed.

#[export] Instance keeps_parked_turn : fair_range -> TurnRel any_event keeps_parked.
Proof.
  intros Hfair. split.
  - apply keeps_parked_handler.
  - intros u s _. apply rr_apply_peer.
  - apply (save_turn keeps_parked). intros s v r _ _ _. eapply wp_mono; [by apply persist_accepted_settles| |done].
    intros [] r' (_ & Hb & _) _ id m Hm Hne. by destruct Hne; apply (Hb id m).
  - intros b r _. by apply waits_parked, waits_core.
  - intros id conn identity mode now r _ H j m. unfold admitted. simpl. rewrite lookup_insert.
    case_decide; [by intros [= <-]|]. apply H.
Qed.
End Parked.

(** ** Single-user documents *)

Section Single.
Context {Y : YCore} {P : Params}.

Definition collaborators (r : Room) : gmap connID roomMember :=
  filter (fun kv => mb_mode kv.2 = ModeCollaborator) (members r).

(** Everyone in [r'] was in [r], with the same mode. *)
Definition modes_kept (r r' : Room) : Prop :=
  isMultiUser (co r') = isMultiUser (co r)
  /\ forall id m', members r' !! id = Some m' ->
       exists m, members r !! id = Some m /\ mb_mode m' = mb_mode m.

#[export] Instance modes_preorder : PreOrder modes_kept.
Proof.
  split.
  - intros r. split; [done|]. eauto.
  - intros r1 r2 r3 [D1 H1] [D2 H2]. split; [congruence|]. intros id m Hm.
    destruct (H2 id m Hm) as (m2 & Hm2 & E2). destruct (H1 id m2 Hm2) as (m1 & Hm1 & E1).
    exists m1. split; [done|congruence].
Qed.

Lemma modes_trivial r r' :
  isMultiUser (co r') = isMultiUser (co r) -> members r' = members r -> modes_kept r r'.
Proof. intros Hc Hm. split; [done|]. intros id m. rewrite Hm. eauto. Qed.

Lemma modes_casc F r r' : casc F r r' -> modes_kept r r'.
Proof.
  intros [Hc Hm _]. split; [by rewrite Hc|]. intros id m Hid. exists m. split; [|done].
  by eapply lookup_weaken.
Qed.

Lemma modes_put id m m' r :
  members r !! id = Some m -> mb_mode m' = mb_mode m -> modes_kept r (put_member id m' r).
Proof.
  intros Hm He. split; [done|]. intros j mj. simpl. rewrite lookup_insert. case_decide as Hd.
  - intros [= <-]. subst j. eauto.
  - intros Hj. eauto.
Qed.

#[export] Instance modes_send : SendRel modes_kept.
Proof.
  split.
  - apply modes_preorder.
  - intros e r _. by apply modes_trivial.
  - apply modes_casc.
  - intros id m m' r Hm ((_ & He & _) & _). by apply (modes_put id m).
Qed.

#[export] Instance modes_handler : PeerRel modes_kept.
Proof.
  apply peer_rel.
  - split.
    + apply modes_send.
    + intros f r [Hf _]. apply modes_trivial; [|done]. by destruct (Hf (co r)) as (_ & _ & _ & _ & ? & _).
    + intros a o r. by apply modes_trivial.
    + intros r r' _. apply modes_casc.
    + intros id m r Hm _. etrans; [by apply (modes_put id m (with_pending false m))|].
      by apply modes_trivial.
  - intros u o. apply apply_checked_by; [typeclasses eauto| | | |apply modes_casc].
    + intros f r Hf. apply modes_trivial; [|done]. by destruct (proj1 Hf (co r)) as (_ & _ & _ & ? & _).
    + intros e r _. by apply modes_trivial.
    + intros u' ok r. by apply modes_trivial.
Qed.

#[export] Instance modes_save : SaveRel modes_kept.
Proof.
  split; [split; [apply rr_room|]|intros; by apply modes_trivial..].
  intros f r Hf. apply modes_trivial; [|done]. by destruct (Hf (co r)) as (_ & _ & _ & _ & ? & _).
Qed.

(** The single-user regime: the decision is known, and one collaborator at most. *)
Definition one_editor (r : Room) : Prop :=
  isMultiUser (co r) = Some false
  /\ forall i j m m', members r !! i = Some m -> members r !! j = Some m' ->
       mb_mode m = ModeCollaborator -> mb_mode m' = ModeCollaborator -> i = j.

Definition keeps_single (r r' : Room) : Prop := one_editor r -> one_editor r'.

Lemma modes_single r r' : modes_kept r r' -> keeps_single r r'.
Proof.
  intros [Hm H] [Hs Hu]. split; [congruence|]. intros i j m m' Hi Hj Ei Ej.
  destruct (H i m Hi) as (mi & Hmi & E1). destruct (H j m' Hj) as (mj & Hmj & E2).
  apply (Hu i j mi mj); congruence.
Qed.

#[export] Instance keeps_single_handler : PeerRel keeps_single.
Proof.
  apply peer_rel; [split; [split|..]|].
  - split; [by intros r H|]. intros r1 r2 r3 H1 H2 H. by apply H2, H1.
  - intros e r He. by apply modes_single, rr_emit.
  - intros r r' H. by apply modes_single, rr_casc.
  - intros id m m' r Hm Hu. by apply modes_single, (rr_member id m).
  - intros f r Hf. by apply modes_single, rr_core.
  - intros a o r. apply modes_single, rr_presence.
  - intros r r' Hd H. by apply modes_single, rr_answer.
  - intros id m r Hm Hp. by apply modes_single, (rr_activate id m).
  - intros u o r. eapply wp_mono; [apply (apply_checked_rel modes_kept)| |]; intros; by apply modes_single.
Qed.

#[export] Instance keeps_single_save : SaveRel keeps_single.
Proof.
  split; [split; [apply rr_room|]|..]; intros; apply modes_single;
    [by apply cr_count|by apply sr_checkpoint|apply sr_row_refused].
Qed.

Lemma has_collaborator_false ms id m :
  has_collaborator ms = false -> ms !! id = Some m -> mb_mode m = ModeCollaborator -> False.
Proof.
  intros Hf Hm He. unfold has_collaborator in Hf.
  assert (Ht : existsb (fun kv => bool_decide (mb_mode kv.2 = ModeCollaborator)) (map_to_list ms) = true).
  { apply existsb_exists. exists (id, m). split; [|by apply bool_decide_eq_true].
    apply list_elem_of_In. by apply elem_of_map_to_list. }
  congruence.
Qed.

#[export] Instance keeps_single_turn : TurnRel (decides (fun b => b = false)) keeps_single.
Proof.
  split.
  - apply keeps_single_handler.
  - intros u s _. apply rr_apply_peer.
  - apply (save_turn keeps_single). intros s v r _ _ _. apply (saved_by keeps_single). apply modes_single. by apply modes_trivial.
  - intros b r (ev & Hev & Hb) [Hs Hu]. rewrite (Hev b Hb). split; [done|exact Hu].
  - intros id conn identity mode now r (_ & Hfresh & Had) [Hs Hu]. split; [done|].
    assert (Hnew : forall j m, members r !! j = Some m -> mb_mode m = ModeCollaborator ->
              mode = ModeCollaborator -> False).
    { intros j m Hj Hm E. by eapply has_collaborator_false; [apply Had|..]. }
    intros i j m m'. unfold admitted. simpl. rewrite !lookup_insert.
    repeat case_decide; subst; [done|..].
    + intros [= <-] Hj Ei Ej. simpl in Ei. by destruct (Hnew _ _ Hj Ej Ei).
    + intros Hi [= <-] Ei Ej. simpl in Ej. by destruct (Hnew _ _ Hi Ei Ej).
    + apply Hu.
Qed.
End Single.

(** ** Properties *)

Section Properties.
Context {Y : YCore} {P : Params}.

Lemma opened_parked r : opened r -> parked_dirty r.
Proof. intros Ho id m. rewrite (op_members _ Ho), lookup_empty. done. Qed.

(** C16: in service, a durability request stays parked only while there is
    something to save: whoever waits, waits for a save that is still due. *)
Theorem parked_requests_wait_on_dirt (r0 r : Room) (n : Z) (id : connID) (m : roomMember) :
  fair_range -> opened r0 -> reaches any_event r0 n r -> (n < 2 ^ 64)%Z ->
  members r !! id = Some m -> mb_barrier m <> "" -> dirty (co r) = true.
Proof.
  intros Hf Ho Hr Hn.
  apply (reaches_rel Hf any_event keeps_parked (TurnRel0 := keeps_parked_turn Hf) r0 n r);
    [by apply opened_live|done..|by apply opened_parked].
Qed.

(** Where every join of a single-user document says so, there is never more
    than one member who may edit. *)
Theorem single_user_has_one_editor (r0 r : Room) (n : Z) (i j : connID) (m m' : roomMember) :
  fair_range -> opened r0 -> isMultiUser (co r0) = Some false ->
  reaches (decides (fun b => b = false)) r0 n r -> (n < 2 ^ 64)%Z ->
  members r !! i = Some m -> members r !! j = Some m' ->
  mb_mode m = ModeCollaborator -> mb_mode m' = ModeCollaborator -> i = j.
Proof.
  intros Hf Ho Hs Hr Hn.
  assert (H : one_editor r).
  { apply (reaches_rel Hf (decides (fun b => b = false)) keeps_single (TurnRel0 := keeps_single_turn)
             r0 n r); [by apply opened_live|done..|].
    split; [done|]. intros i0 j0 m0 m0'. rewrite (op_members _ Ho), lookup_empty. done. }
  intros Hi Hj Ei Ej. by apply (proj2 H i j m m').
Qed.
End Properties.

Lemma parked_requests_wait_on_dirt_witness :
  members (@after healthy parked_session) !! 1%Z = Some (first_member "r1")
  /\ dirty (co (@after healthy parked_session)) = true.
Proof.
  assert (Hm : members (@after healthy parked_session) !! 1%Z = Some (first_member "r1"))
    by (vm_compute; reflexivity).
  split; [exact Hm|].
  apply (@parked_requests_wait_on_dirt toy healthy toy_room (@after healthy parked_session) 4 1
           (first_member "r1")).
  - apply world_fair.
  - apply toy_opened.
  - apply (run_trace_reaches (P := healthy) any_event parked_session); [apply all_any|vm_compute; reflexivity].
  - done.
  - exact Hm.
  - done.
Defined.

Definition single_room : Room := upd_core (set_isMultiUser (Some false)) toy_room.
Definition two_editors : list loop_event :=
  [LCommand (cmdJoin 1 alice ModeCollaborator (Some false)); join_as 2 ModeCollaborator].
Definition single_after : Room :=
  match run_trace (P := healthy) two_editors single_room with Some r => r | None => single_room end.

Lemma single_user_has_one_editor_witness :
  map_to_list (mb_mode <$> members single_after) = [(2%Z, ModeViewer); (1%Z, ModeCollaborator)]
  /\ forall j m', members single_after !! j = Some m' -> mb_mode m' = ModeCollaborator -> 1%Z = j.
Proof.
  split; [vm_compute; reflexivity|]. intros j m' Hj Ej.
  apply (@single_user_has_one_editor toy healthy single_room single_after 2 1 j
           (mkMember 1 (Some 1%N) ModeCollaborator true (Limits.newTokenBucket 0 0 1) 0 false false "") m').
  - apply world_fair.
  - by split.
  - done.
  - apply (run_trace_reaches (P := healthy) (decides (fun b => b = false)) two_editors);
      [repeat constructor; intros b [= <-]; done|vm_compute; reflexivity].
  - done.
  - vm_compute. reflexivity.
  - exact Hj.
  - done.
  - exact Ej.
Defined.
