(* ===== verification/RoomDurable.v ===== *)
(** * Durability: what a saved copy, a clean room and an acknowledgement mean

    Every turn of the loop, seen through the document, the dirty flag and the
    copies the stores accepted, is a turn of a small abstract machine: an edit (or
    nothing), or a save of exactly the document the room has at that moment.  From
    this refinement: a clean room's document is the last accepted copy, and an
    acknowledgement is only sent by a room whose edits are stored. *)

From stdpp Require Import base gmap sets list strings.
From Stdlib Require Import ZArith Lia.
From S2P Require Import Prelude Control Lifecycle Core RoomState RoomFanout RoomBarrier.
From S2P Require Import RoomApply RoomLife RoomLoop Fixture RoomRel RoomSafe RoomSave RoomRun.

Local Open Scope go_scope.

Section Traced.
Context {Y : YCore} {P : Params}.

Definition is_ack_effect (e : effect) : Prop := exists c id ok, e = ESend c (WControl (msg_persisted id)) ok.
Definition saved_row (e : effect) : Prop := exists m, e = ESaveMetadata m true.
Definition is_checkpoint (e : effect) : Prop := exists s v ok, e = ESaveCheckpoint s v ok.

(** The cores are related by [K], no row was accepted, acknowledgements were only
    sent if the room was clean to begin with, and checkpoints were only offered if
    it is dirty in the end. *)
Record traced (K : core -> core -> Prop) (r r' : Room) : Prop := {
  tr_core : K (co r) (co r');
  tr_trace : exists new, trace r' = (new ++ trace r)%list /\ Forall (fun e => ~ saved_row e) new
               /\ (Exists is_ack_effect new -> dirty (co r) = false)
               /\ (Exists is_checkpoint new -> dirty (co r') = true) }.

Class CoreRel (K : core -> core -> Prop) : Prop := {
  ck_pre :: PreOrder K;
  ck_dirty c c' : K c c' -> dirty c = true -> dirty c' = true;
  ck_same c c' :
    doc c' = doc c -> dirty c' = dirty c -> version c' = version c -> row_fields c' = row_fields c ->
    K c c' }.

Context (K : core -> core -> Prop) `{!CoreRel K}.

#[export] Instance traced_preorder : PreOrder (traced K).
Proof.
  split.
  - intros r. split; [reflexivity|]. exists [].
    split_and!; [done|constructor|intros H; by apply Exists_nil in H..].
  - intros r1 r2 r3 [K1 (n1 & T1 & F1 & A1 & C1)] [K2 (n2 & T2 & F2 & A2 & C2)].
    split; [by etrans|]. exists (n2 ++ n1)%list. rewrite T2, T1, app_assoc. split_and!; [done| | |].
    + by apply Forall_app.
    + intros [H|H]%Exists_app; [|by apply A1]. apply A2 in H.
      destruct (dirty (co r1)) eqn:E; [|done]. apply (ck_dirty _ _ K1) in E. congruence.
    + intros [H|H]%Exists_app; [by apply C2|]. by eapply ck_dirty, C1.
Qed.

(** Nothing was logged. *)
Lemma traced_silent r r' : K (co r) (co r') -> trace r' = trace r -> traced K r r'.
Proof.
  intros HK Ht. split; [done|]. exists []. rewrite Ht.
  split_and!; [done|constructor|intros H; by apply Exists_nil in H..].
Qed.

Lemma traced_log e r :
  ~ saved_row e -> ~ is_ack_effect e -> (is_checkpoint e -> dirty (co r) = true) -> traced K r (log e r).
Proof.
  intros H1 H2 H3. split; [reflexivity|]. exists [e]. split_and!; [done|by repeat constructor|..].
  - intros H. apply Exists_cons in H as [H|H]; [done|by apply Exists_nil in H].
  - intros H. apply Exists_cons in H as [H|H]; [by apply H3|by apply Exists_nil in H].
Qed.

Lemma plain_not_saved e : plain_effect e -> ~ saved_row e /\ ~ is_ack_effect e /\ ~ is_checkpoint e.
Proof.
  intros He. split_and!.
  - by intros [m ->].
  - intros (c & id & ok & ->). apply He. by exists id.
  - by intros (s & v & ok & ->).
Qed.

Lemma casc_effect_not_saved F e : casc_effect F e -> ~ saved_row e /\ ~ is_checkpoint e.
Proof. intros He. split; [by intros [m ->]|by intros (s & v & ok & ->)]. Qed.

Lemma traced_core f r :
  K (co r) (f (co r)) -> traced K r (upd_core f r).
Proof.
  intros H. by apply traced_silent.
Qed.

Lemma traced_casc F r r' :
  casc F r r' -> ((forall f, F f -> ~ is_ack f) \/ dirty (co r) = false) -> traced K r r'.
Proof.
  intros [Hc _ (new & Ht & Hf & _)] HF. split; [rewrite Hc; reflexivity|]. exists new. split_and!; [done| | |].
  - eapply Forall_impl; [exact Hf|]. intros e. apply casc_effect_not_saved.
  - intros Hx. destruct HF as [HF|Hd]; [|done]. exfalso.
    apply Exists_exists in Hx as (e & Hin & (c & id & ok & ->)).
    rewrite Forall_forall in Hf. specialize (Hf _ Hin). simpl in Hf. apply (HF _ Hf). by exists id.
  - intros Hx. exfalso. apply Exists_exists in Hx as (e & Hin & He). rewrite Forall_forall in Hf.
    by destruct (casc_effect_not_saved _ _ (Hf _ Hin)).
Qed.

#[export] Instance traced_send : SendRel (traced K).
Proof.
  split.
  - apply traced_preorder.
  - intros e r He. apply plain_not_saved in He as (? & ? & ?). by apply traced_log.
  - intros r r' H. eapply traced_casc; [exact H|by left].
  - intros id m m' r _ _. by apply traced_silent.
Qed.

Lemma traced_counting f r : counting f -> traced K r (upd_core f r).
Proof.
  intros Hf. apply traced_core. destruct (Hf (co r)) as ((? & ? & _ & _ & ?) & _ & _ & ? & _). by apply ck_same.
Qed.

#[export] Instance traced_rel : RoomRel (traced K).
Proof.
  split.
  - apply traced_send.
  - intros f r [Hf _]. by apply traced_counting.
  - intros a o r. by apply traced_silent.
  - intros r r' Hd H. eapply traced_casc; [exact H|by right].
  - intros id m r _ _. destruct (traced_log (EMetric ConnOpened) r) as [Hk Ht]; [| | |by split].
    + by intros [? ?].
    + by intros (? & ? & ? & ?).
    + by intros (? & ? & ? & ?).
Qed.

#[export] Instance traced_save : SaveRel (traced K).
Proof.
  split; [split; [apply traced_rel|intros f r; apply traced_counting]|..].
  - intros s v ok r Hd _. apply traced_log; [by intros [? ?]|by intros (? & ? & ? & ?)|done].
  - intros m r. apply traced_log; [by intros [? ?]|by intros (? & ? & ? & ?)|by intros (? & ? & ? & ?)].
Qed.

Lemma steps_traced_core f :
  (forall c, K c (f c)) -> steps (traced K) (update_core f).
Proof. intros Hf. apply steps_modify. intros r. by apply traced_core. Qed.
End Traced.

Section Machine.
Context {Y : YCore} {P : Params}.

(** Nothing happened to the document. *)
Definition frozen_core (c c' : core) : Prop :=
  doc c' = doc c /\ dirty c' = dirty c /\ version c' = version c /\ row_fields c' = row_fields c.
(** Whatever happened to the document shows in the dirty flag. *)
Definition edited_core (c c' : core) : Prop :=
  (version c' = version c /\ row_fields c' = row_fields c)
  /\ (dirty c' = false -> dirty c = false /\ doc c' = doc c).
(** The dirty flag is never cleared. *)
Definition dirtier_core (c c' : core) : Prop :=
  (version c' = version c /\ row_fields c' = row_fields c) /\ (dirty c = true -> dirty c' = true).

#[export] Instance frozen_core_rel : CoreRel frozen_core.
Proof.
  unfold frozen_core. split.
  - split; [by repeat split|]. intros c1 c2 c3 (? & ? & ? & ?) (? & ? & ? & ?). split_and!; congruence.
  - intros c c' (_ & -> & _). done.
  - done.
Qed.

#[export] Instance edited_core_rel : CoreRel edited_core.
Proof.
  unfold edited_core. split.
  - split; [by repeat split|]. intros c1 c2 c3 [[V1 R1] H1] [[V2 R2] H2].
    split; [split; congruence|]. intros H3. destruct (H2 H3) as [H4 ?]. destruct (H1 H4). split; congruence.
  - intros c c' [_ H] Hd. destruct (dirty c') eqn:E; [done|]. destruct (H eq_refl). congruence.
  - intros c c' Hd He Hv Hw. split; [done|]. split; congruence.
Qed.

#[export] Instance dirtier_core_rel : CoreRel dirtier_core.
Proof.
  unfold dirtier_core. split.
  - split; [by repeat split|]. intros c1 c2 c3 [[V1 R1] H1] [[V2 R2] H2].
    split; [split; congruence|auto].
  - intros c c' [_ H]. done.
  - intros c c' Hd He Hv Hw. split; [done|]. congruence.
Qed.

Definition frozen := traced frozen_core.
Definition edited := traced edited_core.
#[export] Instance frozen_rel : RoomRel frozen := traced_rel frozen_core.
#[export] Instance edited_rel : RoomRel edited := traced_rel edited_core.
#[export] Instance frozen_save : SaveRel frozen := traced_save frozen_core.

Lemma traced_mono (K K' : core -> core -> Prop) r r' :
  (forall c c', K c c' -> K' c c') -> traced K r r' -> traced K' r r'.
Proof. intros H [H1 H2]. split; auto. Qed.

Lemma frozen_edited r r' : frozen r r' -> edited r r'.
Proof.
  apply traced_mono. intros c c' (? & ? & ? & ?). split; [done|]. intros. split; congruence.
Qed.

(** ** Updates *)

Lemma dirtier_update f r : doc_update f -> traced dirtier_core r (upd_core f r).
Proof.
  intros Hf. apply traced_core. destruct (proj1 Hf (co r)) as ((? & _ & ? & _) & _ & ? & _). by split_and!.
Qed.

Lemma onDocUpdate_dirties u o :
  steps (traced dirtier_core) (onDocUpdate u o)
  /\ forall r, wp (onDocUpdate u o) (fun _ r' => dirty (co r') = true) (fun _ => False) r.
Proof.
  split.
  - apply by_onDocUpdate; [typeclasses eauto|apply dirtier_update| | |].
    + intros e r. apply rr_emit.
    + intros u' ok r. apply (traced_log dirtier_core); [by intros [? ?]|by intros (? & ? & ? & ?)..].
    + intros r r'. apply rr_casc.
  - intros r. unfold onDocUpdate, update_core. apply wp_bind, wp_modify, wp_bind.
    eapply wp_mono; [apply broadcast_casc| |done]. intros [] r1 H1.
    assert (Hd : dirty (co r1) = true) by (by rewrite (casc_core _ _ _ H1)).
    destruct (peer o); [by apply wp_ret|]. unfold publishToPeers, emit_metric, emit. by wp_run.
Qed.

Context {Q : YQuiet Y}.

(** The observer reports every change, so a change always dirties the room. *)
Lemma apply_live_edited u o : steps edited (apply_live u o).
Proof.
  intros r. unfold apply_live, get_core, update_core. apply wp_bind, wp_gets, wp_bind, wp_modify. cbv beta.
  set (r1 := upd_core _ r).
  destruct (ap_events (ApplyUpdate (doc (co r)) u)) as [|u0 us] eqn:He.
  - apply wp_ret. apply frozen_edited. apply traced_core.
    split_and!; simpl; [by apply law_quiet|done..].
  - assert (H1 : traced dirtier_core r r1). { by apply traced_core. }
    destruct (onDocUpdate_dirties u0 o) as [Hs Hd]. simpl. apply wp_bind, wp_bind.
    eapply wp_mono; [apply (wp_and _ _ _ _ _ _ (Hs r1) (Hd r1))| |naive_solver].
    intros [] r2 [H2 D2].
    assert (H3 : forall r3, traced dirtier_core r2 r3 -> edited r r3).
    { intros r3 H3. assert (H13 : traced dirtier_core r r3) by (etrans; [exact H1|]; by etrans).
      destruct H13 as [[Hv _] Ht]. split; [|done]. split; [done|]. intros Hc.
      apply H3 in D2. simpl in *. congruence. }
    eapply wp_mono; [apply (steps_forM (traced dirtier_core)); intros; apply onDocUpdate_dirties| |].
    + intros [] r3 Hr3. apply wp_ret. auto.
    + auto.
Qed.

Lemma edited_shadow v : steps edited (update_core (set_shadow v)).
Proof. apply steps_traced_core. by split. Qed.

#[export] Instance edited_handler : PeerRel edited.
Proof.
  apply peer_rel; [apply edited_rel|]. intros u o.
  unfold apply_checked, validateSchema, rebuildShadow, replaceShadow, invariantFailed, get_core.
  cbv zeta.
  pose proof apply_live_edited. pose proof edited_shadow. steps_tac.
Qed.

(** ** Turns of the loop *)

(** Both stores accepted the document the room has. *)
Definition accepted (r r' : Room) : Prop :=
  dirty (co r) = true
  /\ exists s v, EncodeStateAsUpdateV2 (doc (co r)) = Some s
       /\ EncodeStateVectorFromUpdateV2 s = Some v
       /\ r' = marked_saved (i64 (version (co r) + 1)) (both_accepted r s v).

(** An edit or nothing, or a save between two stretches of nothing. *)
Definition turn (r r' : Room) : Prop :=
  edited r r' \/ exists ra rb, frozen r ra /\ accepted ra rb /\ frozen rb r'.

Lemma turn_frozen_l r r1 r' : frozen r r1 -> turn r1 r' -> turn r r'.
Proof.
  intros H [H1|(ra & rb & Ha & Hs & Hb)].
  - left. etrans; [by apply frozen_edited|done].
  - right. exists ra, rb. split_and!; [by etrans|done..].
Qed.

Lemma turn_frozen_r r r1 r' : turn r r1 -> frozen r1 r' -> turn r r'.
Proof.
  intros [H1|(ra & rb & Ha & Hs & Hb)] H.
  - left. etrans; [done|by apply frozen_edited].
  - right. exists ra, rb. split_and!; [done..|by etrans].
Qed.

Lemma turn_of_frozen r r' : frozen r r' -> turn r r'.
Proof. left. by apply frozen_edited. Qed.

(** [m] is a turn, from wherever it starts. *)
Definition turns {A} (m : RM A) : Prop := forall r, wp m (fun _ => turn r) (turn r) r.

Lemma turns_frozen {A} (m : RM A) : steps frozen m -> turns m.
Proof. intros H r. eapply wp_mono; [apply H| |]; intros; by apply turn_of_frozen. Qed.

Lemma turns_edited {A} (m : RM A) : steps edited m -> turns m.
Proof. intros H r. eapply wp_mono; [apply H| |]; intros; by left. Qed.

Lemma turns_bind_l {A B} (m : RM A) (k : A -> RM B) :
  steps frozen m -> (forall a, turns (k a)) -> turns (bindM m k).
Proof.
  intros Hm Hk r. apply wp_bind. eapply wp_mono; [apply Hm| |].
  - intros a r1 H1. eapply wp_mono; [apply Hk| |]; cbv beta; intros; exact (turn_frozen_l _ _ _ H1 H).
  - intros r1 H1. by apply turn_of_frozen.
Qed.

Lemma turns_bind_r {A B} (m : RM A) (k : A -> RM B) :
  turns m -> (forall a, steps frozen (k a)) -> turns (bindM m k).
Proof.
  intros Hm Hk r. apply wp_bind. eapply wp_mono; [apply Hm| |done].
  intros a r1 H1. eapply wp_mono; [apply Hk| |]; cbv beta; intros; exact (turn_frozen_r _ _ _ H1 H).
Qed.

Lemma frozen_core_step f :
  (forall c, doc (f c) = doc c /\ dirty (f c) = dirty c /\ version (f c) = version c
             /\ row_fields (f c) = row_fields c) ->
  steps frozen (update_core f).
Proof. intros Hf. apply (steps_traced_core frozen_core). exact Hf. Qed.

Lemma frozen_emit e : ~ saved_row e -> ~ is_ack_effect e -> ~ is_checkpoint e -> steps frozen (emit e).
Proof. intros H1 H2 H3. apply steps_modify. intros r. by apply (traced_log frozen_core). Qed.

(** Changes of the members alone. *)
Lemma frozen_members (f : Room -> Room) :
  (forall r, co (f r) = co r /\ trace (f r) = trace r) -> steps frozen (modify f).
Proof.
  intros Hf. apply steps_modify. intros r. destruct (Hf r) as [Hc Ht].
  apply (traced_silent frozen_core); [rewrite Hc; reflexivity|done].
Qed.

Hint Extern 1 (~ saved_row _) => (intros [? ?]; discriminate) : steps.
Hint Extern 1 (~ is_ack_effect _) => (intros (? & ? & ? & ?); discriminate) : steps.
Hint Extern 1 (~ is_checkpoint _) => (intros (? & ? & ? & ?); discriminate) : steps.
Hint Resolve frozen_emit : steps.
Ltac frozen_tac := steps_tac; try (apply frozen_core_step; intros; by split_and!);
  try (apply frozen_members; intros; by split).

#[local] Instance frozen_end : EndRel frozen.
Proof.
  split; [typeclasses eauto|..].
  - intros f r Hf. apply (traced_core frozen_core). destruct (Hf (co r)) as [(? & ? & ? & ?) _]. by split_and!.
  - intros e r He. apply (traced_log frozen_core); [intros [? ->]|intros (? & ? & ? & ->)..]; done.
  - intros id r. by apply (traced_silent frozen_core).
Qed.

Hint Resolve step_lc_ends sweep_ends teardown_ends : steps.

Lemma teardown_turns e flush :
  (forall f, flush = Some f -> turns f) -> turns (teardown e flush).
Proof.
  intros Hf. unfold teardown, destroyShadow. apply turns_bind_l; [frozen_tac|]. intros [].
  apply turns_bind_l; [frozen_tac|]. intros mine. destruct (negb mine); [apply turns_frozen; steps_tac|].
  apply turns_bind_r.
  - destruct flush as [f|]; [by apply Hf|]. apply turns_frozen. steps_tac.
  - intros []. unfold releaseHandle, closeDone. frozen_tac.
Qed.

(** A save is a turn: it stores the document the room has, or changes nothing. *)
Lemma persist_turns : turns persist.
Proof.
  intros r. apply (persist_wp frozen r (turn r) (turn r)).
  - intros _. apply turn_of_frozen. reflexivity.
  - intros r' _ H _. by apply turn_of_frozen.
  - intros r' u _ H _. eapply wp_mono; [apply (escalate_ends frozen)| |]; cbv beta; intros;
      apply turn_of_frozen; by etrans.
  - intros s v Hd Hs Hv. eapply wp_mono; [apply (persist_accepted_rel frozen)| |done].
    intros [] r' H. right. exists r, (marked_saved (i64 (version (co r) + 1)) (both_accepted r s v)).
    split_and!; [reflexivity| |done]. split; [done|]. by exists s, v.
Qed.

Lemma join_frozen conn identity requested multi :
  steps frozen (handleJoin conn identity requested multi).
Proof.
  unfold handleJoin, resolveJoinCapability, initialJoinFrames, store_member. simpl. frozen_tac.
Qed.

Lemma dispatch_turns cmd : turns (dispatch cmd).
Proof.
  destruct cmd; simpl.
  - apply turns_frozen. pose proof join_frozen. frozen_tac.
  - apply turns_frozen. frozen_tac.
  - apply turns_frozen. frozen_tac.
  - apply turns_edited. steps_tac.
  - apply turns_bind_l; [steps_tac|]. intros e. apply turns_bind_r; [|intros; steps_tac].
    apply teardown_turns. intros f [= <-]. apply persist_turns.
  - apply turns_bind_l; [steps_tac|]. intros e. apply turns_bind_r; [|intros; steps_tac].
    by apply teardown_turns.
  - apply turns_frozen. frozen_tac.
Qed.

Lemma run_event_turns ev : turns (run_event ev).
Proof.
  destruct ev as [cmd|data ephemeral| | |]; simpl.
  - apply turns_bind_r; [apply dispatch_turns|]. intros. steps_tac.
  - apply turns_edited. steps_tac.
  - apply turns_bind_l; [frozen_tac|]. intros _. apply turns_bind_r; [apply persist_turns|].
    intros. frozen_tac.
  - apply turns_bind_l; [frozen_tac|]. intros _. apply turns_bind_r; [|intros; frozen_tac].
    unfold releaseIfEmpty. apply turns_bind_l; [frozen_tac|]. intros n.
    destruct (negb _); [apply turns_frozen; frozen_tac|]. apply turns_bind_r; [apply persist_turns|].
    intros _. frozen_tac.
  - apply turns_frozen. frozen_tac.
Qed.

Lemma run_step_turn ev r :
  match run_step ev r with Running r' | Exited r' => turn r r' | Crashed => True end.
Proof.
  pose proof (run_event_turns ev r) as H. unfold wp in H. unfold run_step.
  destruct (run_event ev r) as [[] r'|r'|]; [done..| |done].
  assert (Hrec : steps frozen recover_teardown).
  { unfold recover_teardown. frozen_tac. }
  specialize (Hrec r'). unfold wp in Hrec. destruct (recover_teardown r'); [|done..].
  by eapply turn_frozen_r.
Qed.

Lemma turn_row_fields r r' : turn r r' -> row_fields (co r') = row_fields (co r).
Proof.
  intros [[[[_ H] _] _]|(ra & rb & [(_ & _ & _ & Ha) _] & (_ & s & v & _ & _ & ->) & [(_ & _ & _ & Hb) _])].
  - done.
  - by rewrite Hb, <- Ha.
Qed.

(** ** The copy in the stores *)

(** The snapshot of the last save both stores accepted. *)
Fixpoint last_saved (h : list effect) : option bytes :=
  match h with
  | [] => None
  | ESaveMetadata _ true :: h' =>
      match h' with ESaveCheckpoint s _ true :: _ => Some s | _ => last_saved h' end
  | _ :: h' => last_saved h'
  end.

Lemma last_saved_app new h :
  Forall (fun e => ~ saved_row e) new -> last_saved (new ++ h) = last_saved h.
Proof.
  induction 1 as [|e new He _ IH]; [done|]. simpl. destruct e; try exact IH.
  destruct ok; [|exact IH]. exfalso. apply He. by eexists.
Qed.

(** A clean room holds what the stores hold: the last accepted snapshot, or,
    before any save, the document it was opened with. *)
Definition durable (d0 : Doc) (r : Room) : Prop :=
  dirty (co r) = false ->
  match last_saved (trace r) with
  | None => doc (co r) = d0
  | Some s => EncodeStateAsUpdateV2 (doc (co r)) = Some s
  end.

Lemma durable_edited d0 r r' : edited r r' -> durable d0 r -> durable d0 r'.
Proof.
  intros [[_ Hk] (new & Ht & Hf & _)] H Hd. destruct (Hk Hd) as [Hd0 Hdoc].
  rewrite Ht, last_saved_app, Hdoc by done. by apply H.
Qed.

Lemma durable_turn d0 r r' : turn r r' -> durable d0 r -> durable d0 r'.
Proof.
  intros [H|(ra & rb & _ & (_ & s & v & Hs & _ & ->) & Hb)] H0.
  - by eapply durable_edited.
  - eapply durable_edited; [by apply frozen_edited|]. intros _. simpl. exact Hs.
Qed.

Lemma reaches_durable A d0 r0 n r : durable d0 r0 -> reaches A r0 n r -> durable d0 r.
Proof.
  intros H0. induction 1 as [|n r ev r' _ IH _ _ Hs]; [done|].
  pose proof (run_step_turn ev r) as H. rewrite Hs in H. by eapply durable_turn.
Qed.

(** The newest checkpoint offered to the store, and whether it was accepted. *)
Fixpoint last_checkpoint (h : list effect) : option (bytes * bool) :=
  match h with
  | [] => None
  | ESaveCheckpoint s _ ok :: _ => Some (s, ok)
  | _ :: h' => last_checkpoint h'
  end.

Lemma last_checkpoint_app new h :
  ~ Exists is_checkpoint new -> last_checkpoint (new ++ h) = last_checkpoint h.
Proof.
  induction new as [|e new IH]; [done|]. intros Hn. rewrite Exists_cons in Hn. simpl.
  destruct e; try (apply IH; tauto). exfalso. apply Hn. left. by repeat eexists.
Qed.

(** The newest checkpoint of a clean room was accepted and is its document. *)
Definition synced (d0 : Doc) (r : Room) : Prop :=
  dirty (co r) = false ->
  match last_checkpoint (trace r) with
  | None => doc (co r) = d0
  | Some (s, ok) => ok = true /\ EncodeStateAsUpdateV2 (doc (co r)) = Some s
  end.

Lemma synced_edited d0 r r' : edited r r' -> synced d0 r -> synced d0 r'.
Proof.
  intros [[_ Hk] (new & Ht & _ & _ & Hc)] H Hd. destruct (Hk Hd) as [Hd0 Hdoc].
  rewrite Ht, last_checkpoint_app, Hdoc; [by apply H|]. intros Hx. apply Hc in Hx. congruence.
Qed.

Lemma synced_turn d0 r r' : turn r r' -> synced d0 r -> synced d0 r'.
Proof.
  intros [H|(ra & rb & _ & (_ & s & v & Hs & _ & ->) & Hb)] H0; [by eapply synced_edited|].
  eapply synced_edited; [by apply frozen_edited|]. intros _. by simpl.
Qed.

(** A turn that leaves the room clean leaves the document as it was. *)
Lemma turn_clean_doc r r' : turn r r' -> dirty (co r') = false -> doc (co r') = doc (co r).
Proof.
  intros [[[_ Hk] _]|(ra & rb & [(Ha & _) _] & (_ & s & v & _ & _ & ->) & [(Hb & _) _])] Hd.
  - by apply Hk.
  - by rewrite Hb, <- Ha.
Qed.

(** An acknowledgement in a turn: everything was stored when the turn began, or
    the turn saved it. *)
Lemma turn_ack r r' c id ok :
  turn r r' -> happened (ESend c (ack_frame id) ok) r r' ->
  dirty (co r) = false \/ (dirty (co r') = false /\ last_saved (trace r') = EncodeStateAsUpdateV2 (doc (co r'))).
Proof.
  assert (Hack : forall new, ESend c (ack_frame id) ok ∈ new -> Exists is_ack_effect new).
  { intros new Hin. apply Exists_exists. exists (ESend c (ack_frame id) ok). split; [done|]. by exists c, id, ok. }
  intros [[_ (new & Ht & _ & Ha)]|(ra & rb & Hfa & (_ & s & v & Hs & _ & ->) & Hfb)] (new' & Ht' & Hin).
  - left. apply Ha, Hack. rewrite Ht in Ht'. by apply app_inv_tail in Ht' as ->.
  - right. destruct Hfb as [(Hdoc & Hdirty & _) (newb & Htb & Hfb & _)].
    split; [by rewrite Hdirty|]. rewrite Htb, last_saved_app, Hdoc by done. simpl. by rewrite Hs.
Qed.
End Machine.

(** ** Properties *)

Section Properties.
Context {Y : YCore} {P : Params} {Q : YQuiet Y}.

(** A room as [newRoom] opens it from a stored document. *)
Definition opened_clean (r : Room) : Prop := dirty (co r) = false /\ last_saved (trace r) = None.

(** The stores hold the room's document: the last accepted snapshot encodes it, or
    nothing was saved and it is still the document the room was opened with. *)
Definition stored (d0 : Doc) (r : Room) : Prop :=
  match last_saved (trace r) with
  | None => doc (co r) = d0
  | Some s => EncodeStateAsUpdateV2 (doc (co r)) = Some s
  end.


End Properties.

Lemma toy_opened_clean : opened_clean toy_room.
Proof. by split. Qed.


Definition acked_room : Room := @after healthy (parked_session ++ [LSaveTimer]).

