(* ===== verification/RoomNew.v ===== *)
(** * Materializing a room (room.go: [newRoom] and the restore)

    What the metadata store, the checkpoint store, the document registry and the
    hub answer is an argument.  [newRoom] either fails, with what it had taken
    given back, or hands out a room ready to serve. *)

From stdpp Require Import base gmap sets list strings.
From Stdlib Require Import ZArith String Lia.
From S2P Require Import Prelude Control Lifecycle Core Schema RoomState RoomFanout RoomBarrier.
From S2P Require Import RoomApply RoomLife RoomLoop Fixture RoomRel RoomSafe RoomSave RoomRun.
From S2P Require Import RoomTurn RoomSchema RoomInv RoomDurable.

Local Open Scope go_scope.

(** The checkpoint: found, never written, or unreadable. *)
Inductive checkpoint_answer := CheckpointFound (update : bytes) | CheckpointMissing | CheckpointFailed.

Inductive openError :=
| MetadataFailed | StoredStateFailed | StoredStateInvalid | StoredSchema (e : schemaError)
| ErrShuttingDown | AcquireFailed | ShadowFailed | SubscribeFailed.

Section New.
Context {Y : YCore} {P : Params}.

(** [registry.Acquire]: another room's live document, a fresh one through the open
    function, or a refusal. *)
Inductive registry_answer := Cached (d : Doc) | Opens | RegistryClosed | RegistryFailed.

(** [restoreInto]: the document and, when something was restored, its stored size. *)
Definition restoreInto (d : Doc) (ckpt : checkpoint_answer) : openError + (Doc * Z) :=
  match ckpt with
  | CheckpointMissing => inr (d, 0%Z)
  | CheckpointFailed => inl StoredStateFailed
  | CheckpointFound update =>
      let res := ApplyUpdateV2 d update in
      if ap_ok res then inr (ap_doc res, blen update) else inl StoredStateInvalid
  end.

(** The open function given to [Acquire]. *)
Definition open_document (content : ContentType) (found : bool) (ckpt : checkpoint_answer)
    : openError + (Doc * Z) :=
  match (if found then restoreInto (NewDoc p_id) ckpt else inr (NewDoc p_id, 0%Z)) with
  | inl e => inl e
  | inr (d, n) =>
      let d' := applyConvention content d in
      match validateStoredContent content d' with
      | Some e => inl (StoredSchema e)
      | None => inr (d', n)
      end
  end.

(** [loadMetadata]: the room adopts the row it finds. *)
Definition adopt_row (m : Metadata) (c : core) : core :=
  set_content (if String.eqb (m_ContentType m) "" then content c else m_ContentType m)
    (set_isMultiUser (m_IsMultiUser m) (set_bucketID (m_StorageBucketID m)
      (set_ownerRef (m_OwnerRef m) (set_policyID (m_AuthorizationPolicyID m)
        (set_version (m_Version m) c))))).

Definition loadMetadata (row : load_answer) (c : core) : openError + (bool * core) :=
  match row with
  | LoadFailed => inl MetadataFailed
  | NotFound => inr (false, c)
  | Loaded m => inr (true, adopt_row m c)
  end.

(** The struct literal, before there is a document. *)
Definition blank_core (ct : ContentType) : core :=
  mkCore ct (NewDoc p_id) None stateMaterializing 0 false 0 0 None 0 None ∅ 0 None 0 None None
    false false "" "" "".

(** [measureLiveDoc] *)
Definition measureLiveDoc (c : core) : core :=
  match EncodeStateAsUpdateV2 (doc c) with Some b => set_docBytes (blen b) c | None => c end.

Definition newServerAwareness (d : Doc) : Awareness := ClearLocalState (NewAwareness d).

(** Once the document is there. *)
Definition wire_room (d : Doc) (fresh : bool) (subscribed : bool) (c : core)
    : list effect * (openError + Room) :=
  let r := mkRoom (set_handleHeld true (set_doc d c)) ∅ (newServerAwareness d) ∅ [] in
  match initShadow d r with
  | Ret true r1 =>
      let r2 := if fresh then r1 else upd_core measureLiveDoc r1 in
      if subscribed then ([], inr (upd_core (fun c => set_lc (activate (lc c)).2 c) r2))
      else match (destroyShadow;; releaseHandle) r2 with
           | Ret _ r3 => (ECancelCtx :: trace r3, inl SubscribeFailed)
           | _ => ([], inl SubscribeFailed)
           end
  | Ret false r1 =>
      match releaseHandle (log ECancelCtx r1) with
      | Ret _ r2 => (trace r2, inl ShadowFailed)
      | _ => ([], inl ShadowFailed)
      end
  | _ => ([], inl ShadowFailed)
  end.

(** The effects on the surroundings, newest first, and the room or the failure. *)
Definition newRoom (ct : ContentType) (row : load_answer) (reg : registry_answer)
    (ckpt : checkpoint_answer) (subscribed : bool) : list effect * (openError + Room) :=
  match loadMetadata row (blank_core ct) with
  | inl e => ([ECancelCtx], inl e)
  | inr (found, c) =>
      match reg with
      | RegistryClosed => ([ECancelCtx], inl ErrShuttingDown)
      | RegistryFailed => ([ECancelCtx], inl AcquireFailed)
      | Cached d => wire_room d false subscribed c
      | Opens =>
          match open_document (content c) found ckpt with
          | inl e => ([ECancelCtx], inl e)
          | inr (d, n) => wire_room d true subscribed (set_docBytes n c)
          end
      end
  end.

(** ** What it hands out *)

Lemma measured c : exists n, measureLiveDoc c = set_docBytes n c.
Proof.
  unfold measureLiveDoc. destruct (EncodeStateAsUpdateV2 (doc c)) as [b|]; [by exists (blen b)|].
  exists (docBytes c). by destruct c.
Qed.

(** The room [wire_room] hands out. *)
Lemma wire_room_result d fresh subscribed c effs r :
  wire_room d fresh subscribed c = (effs, inr r) -> lc c = stateMaterializing ->
  exists n mirror,
    effs = []
    /\ r = mkRoom (set_lc stateActive (set_docBytes n (set_shadow mirror (set_handleHeld true (set_doc d c)))))
            ∅ (newServerAwareness d) ∅ []
    /\ (content c = ContentTypeWhiteboard \/ content c = ContentTypeMemo ->
          mirror = cloneDoc d p_id /\ is_Some mirror)
    /\ (fresh = true -> n = docBytes c).
Proof.
  intros Hw Hlc. unfold wire_room, initShadow, get_core, bindM, gets in Hw. simpl in Hw.
  set (c1 := set_handleHeld true (set_doc d c)) in *.
  assert (Hfin : forall mirror,
    (if subscribed then ([], inr (upd_core (fun c => set_lc (activate (lc c)).2 c)
        (let r1 := mkRoom (set_shadow mirror c1) ∅ (newServerAwareness d) ∅ [] in
         if fresh then r1 else upd_core measureLiveDoc r1)))
     else match (destroyShadow;; releaseHandle)
            (let r1 := mkRoom (set_shadow mirror c1) ∅ (newServerAwareness d) ∅ [] in
             if fresh then r1 else upd_core measureLiveDoc r1) with
          | Ret _ r3 => (ECancelCtx :: trace r3, inl SubscribeFailed)
          | _ => ([], inl SubscribeFailed) end) = (effs, inr r) ->
    exists n, effs = []
      /\ r = mkRoom (set_lc stateActive (set_docBytes n (set_shadow mirror c1))) ∅ (newServerAwareness d) ∅ []
      /\ (fresh = true -> n = docBytes c)).
  { intros mirror H. destruct subscribed; [|by destruct (destroyShadow;; releaseHandle)].
    injection H as <- <-. destruct fresh.
    - exists (docBytes c). split_and!; [done| |done]. unfold upd_core. simpl. rewrite Hlc. by destruct c.
    - destruct (measured (set_shadow mirror c1)) as [n Hn]. exists n. split_and!; [done| |done].
      unfold upd_core. cbn [co members awareness awarenessOwners trace]. rewrite Hn. simpl. by rewrite Hlc. }
  destruct (negb _ && negb _) eqn:Hct.
  - destruct (Hfin (shadow c)) as (n & -> & -> & Hn); [by destruct c|].
    exists n, (shadow c). split_and!; [done..| |done]. intros Hor. exfalso.
    apply andb_true_iff in Hct as [H1%negb_true_iff H2%negb_true_iff].
    apply String.eqb_neq in H1, H2. naive_solver.
  - destruct (cloneDoc d p_id) as [s|] eqn:Hcl; simpl in Hw; [|done].
    destruct (Hfin (Some s) Hw) as (n & -> & -> & Hn). exists n, (Some s). by split_and!.
Qed.

(** The document the open function publishes. *)
Definition restored (found : bool) (ckpt : checkpoint_answer) (d : Doc) : Prop :=
  match found, ckpt with
  | true, CheckpointFound u => ap_ok (ApplyUpdateV2 (NewDoc p_id) u) = true
                               /\ d = ap_doc (ApplyUpdateV2 (NewDoc p_id) u)
  | true, CheckpointFailed => False
  | _, _ => d = NewDoc p_id
  end.

Lemma open_document_ok content found ckpt d n :
  open_document content found ckpt = inr (d, n) ->
  validateStoredContent content d = None
  /\ exists d0, restored found ckpt d0 /\ d = applyConvention content d0.
Proof.
  unfold open_document, restoreInto, restored. intros H.
  assert (Hgo : forall d0 n0, match validateStoredContent content (applyConvention content d0) with
            | Some e => inl (StoredSchema e) | None => inr (applyConvention content d0, n0) end = inr (d, n) ->
          validateStoredContent content d = None /\ d = applyConvention content d0).
  { intros d0 n0 H0. destruct (validateStoredContent content (applyConvention content d0)) eqn:E; [done|].
    by injection H0 as <- _. }
  destruct found; [destruct ckpt|].
  - destruct (ap_ok _) eqn:Hok; [|done]. apply Hgo in H as [? ?]. eauto.
  - apply Hgo in H as [? ?]. eauto.
  - done.
  - apply Hgo in H as [? ?]. eauto.
Qed.

(** The core a row gives, and the type that wins. *)
Definition row_core (ct : ContentType) (row : load_answer) : core :=
  match row with Loaded m => adopt_row m (blank_core ct) | _ => blank_core ct end.

Lemma newRoom_result ct row reg ckpt sub effs r :
  newRoom ct row reg ckpt sub = (effs, inr r) ->
  exists d n mirror,
    effs = []
    /\ r = mkRoom (set_lc stateActive (set_docBytes n (set_shadow mirror
              (set_handleHeld true (set_doc d (row_core ct row)))))) ∅ (newServerAwareness d) ∅ []
    /\ (content (row_core ct row) = ContentTypeWhiteboard \/ content (row_core ct row) = ContentTypeMemo ->
          mirror = cloneDoc d p_id /\ is_Some mirror)
    /\ match reg with
       | Cached d' => d = d'
       | Opens => validateStoredContent (content (row_core ct row)) d = None
           /\ exists d0, restored (match row with Loaded _ => true | _ => false end) ckpt d0
                /\ d = applyConvention (content (row_core ct row)) d0
       | _ => False
       end.
Proof.
  unfold newRoom, row_core. intros H.
  assert (Hgo : forall found c, lc c = stateMaterializing ->
    match reg with
    | RegistryClosed => ([ECancelCtx], inl ErrShuttingDown)
    | RegistryFailed => ([ECancelCtx], inl AcquireFailed)
    | Cached d => wire_room d false sub c
    | Opens => match open_document (content c) found ckpt with
               | inl e => ([ECancelCtx], inl e)
               | inr (d, n) => wire_room d true sub (set_docBytes n c) end
    end = (effs, inr r) ->
    exists d n mirror, effs = []
      /\ r = mkRoom (set_lc stateActive (set_docBytes n (set_shadow mirror (set_handleHeld true (set_doc d c)))))
               ∅ (newServerAwareness d) ∅ []
      /\ (content c = ContentTypeWhiteboard \/ content c = ContentTypeMemo -> mirror = cloneDoc d p_id /\ is_Some mirror)
      /\ match reg with
         | Cached d' => d = d'
         | Opens => validateStoredContent (content c) d = None
             /\ exists d0, restored found ckpt d0 /\ d = applyConvention (content c) d0
         | _ => False end).
  { intros found c Hlc Hr. destruct reg as [d'| | |]; [| |done..].
    - apply wire_room_result in Hr as (n & mirror & ? & -> & ? & _); [|done].
      exists d', n, mirror. by split_and!.
    - destruct (open_document (content c) found ckpt) as [e|[d n]] eqn:Ho; [done|].
      apply open_document_ok in Ho as [Hv Hd].
      apply wire_room_result in Hr as (n' & mirror & ? & -> & ? & _); [|done].
      exists d, n', mirror. by split_and!. }
  destruct row as [m| |]; simpl in H; [..|done].
  - by apply (Hgo true (adopt_row m (blank_core ct))).
  - by apply (Hgo false (blank_core ct)).
Qed.

(** The room handed out is as the loop expects it. *)
Lemma newRoom_opened ct row reg ckpt sub effs r :
  newRoom ct row reg ckpt sub = (effs, inr r) ->
  opened r /\ opened_clean r /\ trace r = [].
Proof.
  intros H. apply newRoom_result in H as (d & n & mirror & _ & -> & _ & _).
  by split_and!; [destruct row|destruct row|].
Qed.

Lemma newRoom_screened {L : YLaws Y} ct row reg ckpt sub effs r :
  newRoom ct row reg ckpt sub = (effs, inr r) ->
  content (co r) = ContentTypeWhiteboard \/ content (co r) = ContentTypeMemo ->
  (forall d, reg = Cached d -> good_content (content (co r)) d) -> screened r.
Proof.
  intros H. apply newRoom_result in H as (d & n & mirror & _ & -> & Hm & Hreg). simpl.
  intros Hct Hcached. destruct (Hm Hct) as [-> [s Hs]]. exists s. simpl. split_and!; [done| |].
  - unfold cloneDoc in Hs. destruct (EncodeStateAsUpdateV2 d) as [b|] eqn:Hb; [|done].
    destruct (law_clone p_id d b Hb) as [Hok Hsame]. rewrite Hok in Hs. by injection Hs as <-.
  - destruct reg as [d'| | |]; [|by apply validateStoredContent_None, Hreg|done..]. subst d. by apply Hcached.
Qed.

(** How a room that obtained the document fails, and what it gives back. *)
Lemma wire_room_fails d fresh subscribed c effs e :
  wire_room d fresh subscribed c = (effs, inl e) ->
  e = ShadowFailed /\ effs = [EEvict; EReleaseHandle; ECancelCtx]
  \/ e = SubscribeFailed /\ effs = [ECancelCtx; EEvict; EReleaseHandle].
Proof.
  unfold wire_room, initShadow, get_core, bindM, gets. simpl.
  destruct (negb _ && negb _); simpl.
  - destruct subscribed; [done|]. destruct fresh; intros [= <- <-]; by right.
  - destruct (cloneDoc d p_id); simpl.
    + destruct subscribed; [done|]. destruct fresh; intros [= <- <-]; by right.
    + intros [= <- <-]. by left.
Qed.

(** Stored state the code must not open over: unreadable, not applicable, or outside
    the schema of its content type. *)
Inductive lost (content : ContentType) : checkpoint_answer -> openError -> Prop :=
| lost_unread : lost content CheckpointFailed StoredStateFailed
| lost_invalid u :
    ap_ok (ApplyUpdateV2 (NewDoc p_id) u) = false -> lost content (CheckpointFound u) StoredStateInvalid
| lost_schema ckpt d e :
    restored true ckpt d -> validateStoredContent content (applyConvention content d) = Some e ->
    lost content ckpt (StoredSchema e).

Lemma open_document_cases content ckpt :
  (exists e, lost content ckpt e /\ open_document content true ckpt = inl e)
  \/ (exists d n, restored true ckpt d /\ good_content content (applyConvention content d)
       /\ open_document content true ckpt = inr (applyConvention content d, n)).
Proof.
  assert (Hgo : forall d n, restored true ckpt d ->
    open_document content true ckpt =
      match validateStoredContent content (applyConvention content d) with
      | Some e => inl (StoredSchema e) | None => inr (applyConvention content d, n) end ->
    (exists e, lost content ckpt e /\ open_document content true ckpt = inl e)
    \/ (exists d n, restored true ckpt d /\ good_content content (applyConvention content d)
         /\ open_document content true ckpt = inr (applyConvention content d, n))).
  { intros d n Hr Ho. rewrite Ho. destruct (validateStoredContent _ _) as [e|] eqn:Hv.
    - left. exists (StoredSchema e). split; [by eapply lost_schema|done].
    - right. exists d, n. by rewrite <- validateStoredContent_None. }
  destruct ckpt as [u| |].
  - destruct (ap_ok (ApplyUpdateV2 (NewDoc p_id) u)) eqn:Hok.
    + apply (Hgo (ap_doc (ApplyUpdateV2 (NewDoc p_id) u)) (blen u)); [done|].
      unfold open_document, restoreInto. by rewrite Hok.
    + left. exists StoredStateInvalid. split; [by constructor|]. unfold open_document, restoreInto. by rewrite Hok.
  - by apply (Hgo (NewDoc p_id) 0%Z).
  - left. exists StoredStateFailed. split; [constructor|done].
Qed.

(** What state is lost does not depend on how it is looked at. *)
Lemma lost_opens content ckpt e : lost content ckpt e -> open_document content true ckpt = inl e.
Proof.
  unfold open_document, restoreInto. intros [|u Hok|ck d e' Hr Hv]; [done|by rewrite Hok|].
  destruct ck as [u| |]; simpl in Hr; [|subst d; by rewrite Hv|done].
  destruct Hr as [-> ->]. by rewrite Hv.
Qed.
End New.

(** ** Properties *)

Section Properties.
Context {Y : YCore} {P : Params} {L : YLaws Y}.

(** C24: a materialized room is ready to serve: Active, empty, clean, with everything its
    index row says: the version, the authorization policy, the owner, the storage bucket,
    the licence, and the stored content type, which wins over the handshake's.  A freshly
    opened document is exactly what the checkpoint store holds, or empty where it holds
    nothing, and satisfies the locator schema; a memo or whiteboard room starts with a
    shadow in lockstep with a document that satisfies it. *)
Theorem newRoom_ready (ct : ContentType) (row : load_answer) (reg : registry_answer)
    (ckpt : checkpoint_answer) (sub : bool) (effs : list effect) (r : Room) :
  newRoom ct row reg ckpt sub = (effs, inr r) ->
  opened r /\ opened_clean r
  /\ (forall m, row = Loaded m ->
        version (co r) = m_Version m /\ policyID (co r) = m_AuthorizationPolicyID m
        /\ ownerRef (co r) = m_OwnerRef m /\ bucketID (co r) = m_StorageBucketID m
        /\ isMultiUser (co r) = m_IsMultiUser m
        /\ content (co r) = (if String.eqb (m_ContentType m) "" then ct else m_ContentType m))
  /\ (reg = Opens -> good_content (content (co r)) (doc (co r))
        /\ exists d0, restored (match row with Loaded _ => true | _ => false end) ckpt d0
             /\ doc (co r) = applyConvention (content (co r)) d0)
  /\ (content (co r) = ContentTypeWhiteboard \/ content (co r) = ContentTypeMemo ->
        (forall d, reg = Cached d -> good_content (content (co r)) d) -> screened r).
Proof.
  intros H. pose proof (newRoom_opened _ _ _ _ _ _ _ H) as (Ho & Hc & _).
  pose proof (newRoom_screened _ _ _ _ _ _ _ H) as Hs.
  apply newRoom_result in H as (d & n & mirror & _ & -> & Hm & Hreg). split_and!; [done..| | |done]; simpl.
  - intros m ->. simpl. by split_and!.
  - intros ->. destruct Hreg as [Hv Hr]. split; [by apply validateStoredContent_None|exact Hr].
Qed.

(** C25: stored state is never opened over.  With a row in the index, the content type it
    names deciding: a checkpoint that cannot be read, that does not apply, or whose
    document the schema refuses fails the materialization with that reason, before
    anything was obtained; a room that does open a document opens exactly what is stored,
    within the schema.  A room that fails once it holds a document, one another room had
    open or one it has just opened, for want of its shadow or of its subscription,
    releases it and then evicts it, once each, and cancels its context; no other failure
    has anything to give back.  An index that does not answer fails the materialization
    too: only one that answers that there is no row makes an empty document. *)
Theorem newRoom_never_opens_over_lost_state (ct : ContentType) (m : Metadata) (reg : registry_answer)
    (ckpt : checkpoint_answer) (sub : bool) (effs : list effect) (res : openError + Room) :
  newRoom ct (Loaded m) reg ckpt sub = (effs, res) ->
  let stored := if String.eqb (m_ContentType m) "" then ct else m_ContentType m in
  let holds := (exists d, reg = Cached d) \/ reg = Opens /\ forall e, ~ lost stored ckpt e in
  (forall e, reg = Opens -> lost stored ckpt e -> effs = [ECancelCtx] /\ res = inl e)
  /\ (forall r, reg = Opens -> res = inr r -> (forall e, ~ lost stored ckpt e)
        /\ exists d, restored true ckpt d /\ doc (co r) = applyConvention stored d
             /\ good_content stored (doc (co r)))
  /\ (forall e, res = inl e -> holds ->
        e = ShadowFailed /\ effs = [EEvict; EReleaseHandle; ECancelCtx]
        \/ e = SubscribeFailed /\ effs = [ECancelCtx; EEvict; EReleaseHandle])
  /\ (forall e, res = inl e -> ~ holds -> effs = [ECancelCtx])
  /\ newRoom ct LoadFailed reg ckpt sub = ([ECancelCtx], inl MetadataFailed).
Proof.
  intros H stored holds.
  assert (E : newRoom ct (Loaded m) reg ckpt sub =
    match reg with
    | RegistryClosed => ([ECancelCtx], inl ErrShuttingDown) | RegistryFailed => ([ECancelCtx], inl AcquireFailed)
    | Cached d => wire_room d false sub (adopt_row m (blank_core ct))
    | Opens => match open_document stored true ckpt with
               | inl e => ([ECancelCtx], inl e)
               | inr (d, n) => wire_room d true sub (set_docBytes n (adopt_row m (blank_core ct))) end
    end) by done.
  rewrite H in E. split_and!; [| | | |done].
  - intros e -> Hl. rewrite (lost_opens _ _ _ Hl) in E. by injection E.
  - intros r -> ->. split.
    + intros e Hl. rewrite (lost_opens _ _ _ Hl) in E. done.
    + apply newRoom_result in H as (d & n & mirror & _ & -> & _ & Hv & d0 & Hr & Hd). exists d0.
      split_and!; [done|done|]. by apply validateStoredContent_None in Hv.
  - intros e -> [[d ->]|[-> Hno]]; [by eapply wire_room_fails|].
    destruct (open_document_cases stored ckpt) as [(e' & Hl & _)|(d & n & _ & _ & Ho)]; [by destruct (Hno e')|].
    rewrite Ho in E. by eapply wire_room_fails.
  - intros e -> Hno. destruct reg as [d| | |]; [destruct Hno; left; eauto| |by injection E|by injection E].
    destruct (open_document_cases stored ckpt) as [(e' & Hl & Ho)|(d & n & _ & Hg & Ho)].
    + rewrite Ho in E. by injection E.
    + destruct Hno. right. split; [done|]. intros e' Hl. rewrite (lost_opens _ _ _ Hl) in Ho. done.
Qed.
End Properties.

Definition toy_row : Metadata :=
  mkMetadata "doc" ContentTypeWhiteboard 7 "ptr" false (Some false) "pol" "bucket" "owner" 0 0.

Definition reopened : Room :=
  match (@newRoom toy healthy ContentTypeMemo (Loaded toy_row) Opens (CheckpointFound "hello") true).2 with
  | inr r => r
  | inl _ => toy_room
  end.

Lemma newRoom_ready_witness :
  (content (co reopened), doc (co reopened), version (co reopened)) = (ContentTypeWhiteboard, "hello"%string, 7%Z)
  /\ opened reopened /\ screened reopened.
Proof.
  split; [vm_compute; reflexivity|].
  destruct (@newRoom_ready toy healthy toy_laws ContentTypeMemo (Loaded toy_row) Opens
    (CheckpointFound "hello") true [] reopened) as (H1 & _ & _ & _ & H2).
  - reflexivity.
  - split; [exact H1|]. apply H2; [left; reflexivity|done].
Defined.

(** A stored document whose image the schema refuses, and a subscription that fails on
    a document just opened. *)
Definition refused_open : list effect * (openError + Room) :=
  @newRoom toy healthy ContentTypeMemo (Loaded toy_row) Opens (CheckpointFound "a@b") true.
Definition unsubscribed : list effect * (openError + Room) :=
  @newRoom toy healthy ContentTypeMemo (Loaded toy_row) Opens (CheckpointFound "hello") false.

Lemma newRoom_never_opens_over_lost_state_witness :
  (refused_open.1 = [ECancelCtx] /\ refused_open.2 = inl (StoredSchema (FileBadLocator "img" LocInlineData)))
  /\ EReleaseHandle ∈ unsubscribed.1 /\ EEvict ∈ unsubscribed.1.
Proof.
  split.
  - apply (@newRoom_never_opens_over_lost_state toy healthy ContentTypeMemo toy_row Opens
      (CheckpointFound "a@b") true refused_open.1 refused_open.2 eq_refl); [reflexivity|].
    apply (lost_schema (Y := toy) (P := healthy) _ _ "a@b"%string); [split|]; vm_compute; reflexivity.
  - destruct (@newRoom_never_opens_over_lost_state toy healthy ContentTypeMemo toy_row Opens
      (CheckpointFound "hello") false unsubscribed.1 unsubscribed.2 eq_refl) as (_ & _ & H & _ & _).
    assert (Hs : unsubscribed.2 = inl SubscribeFailed) by (vm_compute; reflexivity).
    destruct (H SubscribeFailed Hs) as [[E _]|[_ E]]; [|discriminate|rewrite E; split; set_solver].
    right. split; [reflexivity|]. intros e Hl.
    apply (lost_opens (Y := toy) (P := healthy)) in Hl. vm_compute in Hl. discriminate.
Defined.
