(* ===== verification/RoomFlush.v ===== *)
(** * The durability of a room's edits

    The state machine in the header of flush.go, and the room as an implementation of
    it.  What moves the machine is what the stores answer to the room's saves, read off
    its history ([verdicts]); every other thing the room does leaves it where it is
    ([unsaved]), and a save moves it by exactly one answer ([persist_flushes]).
    [durability_machine] puts the turns of the loop together. *)

From stdpp Require Import base gmap sets list strings.
From Stdlib Require Import ZArith Lia.
From S2P Require Import Prelude Control Lifecycle Limits Core RoomState RoomFanout RoomBarrier.
From S2P Require Import RoomApply RoomLife RoomLoop Fixture RoomRel RoomSafe RoomSave RoomRun.
From S2P Require Import RoomTurn RoomNew.

Local Open Scope go_scope.

(** ** The machine *)

(** [Undurable n since]: [n] saves in a row have been refused, the first at [since], and
    the room serves on.  The fourth state, escalated, is the end of the room. *)
Inductive durability := Clean | Dirty | Undurable (n since : Z).

(** What the two stores make of a save. *)
Inductive verdict := Accepted | Refused.
#[export] Instance verdict_eq_dec : EqDecision verdict.
Proof. solve_decision. Defined.

Section Machine.
Context {Y : YCore} {P : Params}.

(** [None]: the document changed. *)
Inductive durability_step : option verdict -> durability -> durability -> Prop :=
| step_edited : durability_step None Clean Dirty
| step_saved s : s <> Clean -> durability_step (Some Accepted) s Clean
| step_refused since :
    (1 < flushThreshold)%Z -> durability_step (Some Refused) Dirty (Undurable 1 since)
| step_refused_again n since :
    (n + 1 < flushThreshold)%Z -> durability_step (Some Refused) (Undurable n since) (Undurable (n + 1) since).

(** From one state to another, by these verdicts. *)
Inductive course : list verdict -> durability -> durability -> Prop :=
| course_here s : course [] s s
| course_edit vs s1 s2 s3 : durability_step None s1 s2 -> course vs s2 s3 -> course vs s1 s3
| course_verdict v vs s1 s2 s3 : durability_step (Some v) s1 s2 -> course vs s2 s3 -> course (v :: vs) s1 s3.

Lemma course_app vs ws s1 s2 s3 : course vs s1 s2 -> course ws s2 s3 -> course (vs ++ ws) s1 s3.
Proof.
  induction 1; simpl; [done| |]; intros; [eapply course_edit|eapply course_verdict]; eauto.
Qed.

Lemma course_one v s s' : durability_step (Some v) s s' -> course [v] s s'.
Proof. intros H. eapply course_verdict; [exact H|apply course_here]. Qed.

(** The refusals since the last acceptance. *)
Definition refusals (from : Z) (vs : list verdict) : Z :=
  fold_left (fun n v => match v with Accepted => 0 | Refused => n + 1 end)%Z vs from.
Definition failed (s : durability) : Z := match s with Undurable n _ => n | _ => 0%Z end.

Lemma course_refusals vs s s' : course vs s s' -> failed s' = refusals (failed s) vs.
Proof.
  induction 1 as [|vs s1 s2 s3 H _ IH|v vs s1 s2 s3 H _ IH]; [done|..]; rewrite IH;
    inversion H; by subst.
Qed.

Lemma flushThreshold_pos : (0 < flushThreshold)%Z.
Proof. unfold flushThreshold, defaultFlushFailureThreshold. case_match; lia. Qed.

Lemma course_below vs s s' :
  course vs s s' -> (failed s < flushThreshold)%Z -> (failed s' < flushThreshold)%Z.
Proof.
  pose proof flushThreshold_pos.
  induction 1 as [|vs s1 s2 s3 H1 _ IH|v vs s1 s2 s3 H1 _ IH]; [done|..];
    intros Hs; apply IH; inversion H1; subst; simpl in *; lia.
Qed.

(** ** What the room shows of it *)

Definition verdict_of (e : effect) : option verdict :=
  match e with
  | ESaveCheckpoint _ _ false | ESaveMetadata _ false => Some Refused
  | ESaveMetadata _ true => Some Accepted
  | _ => None
  end.

(** Oldest first. *)
Definition verdicts (h : list effect) : list verdict := rev (omap verdict_of h).

Lemma verdicts_app h k : verdicts (h ++ k) = verdicts k ++ verdicts h.
Proof. unfold verdicts. by rewrite omap_app, rev_app_distr. Qed.

Definition durability_of (c : core) : durability :=
  if (flushFailures c =? 0)%Z then (if dirty c then Dirty else Clean)
  else Undurable (flushFailures c) (default 0%Z (undurableSince c)).

(** An undurable room has unsaved edits and a date, any other room no date. *)
Record consistent (c : core) : Prop := {
  co_count : (0 <= flushFailures c)%Z;
  co_dirty : (0 < flushFailures c)%Z -> dirty c = true;
  co_since : is_Some (undurableSince c) <-> (0 < flushFailures c)%Z }.

Lemma durability_clean c : consistent c -> durability_of c = Clean <-> dirty c = false.
Proof.
  intros []. unfold durability_of. destruct (Z.eqb_spec (flushFailures c) 0); [by destruct (dirty c)|].
  split; [done|]. rewrite co_dirty0 by lia. done.
Qed.

Lemma failed_core_step now c :
  consistent c -> dirty c = true -> (flushFailures c + 1 < flushThreshold)%Z ->
  consistent (failed_core now c)
  /\ durability_step (Some Refused) (durability_of c) (durability_of (failed_core now c)).
Proof.
  intros [H0 Hd Hs] Hc Hlt. split.
  - split; simpl; [lia|done|]. split; [lia|by eexists].
  - unfold durability_of. simpl. rewrite (proj2 (Z.eqb_neq (flushFailures c + 1) 0)) by lia.
    destruct (Z.eqb_spec (flushFailures c) 0) as [E|E].
    + rewrite Hc, E in *. by apply step_refused.
    + destruct (undurableSince c) as [t|]; [by apply step_refused_again|].
      destruct (proj2 Hs ltac:(lia)) as [? ?]. done.
Qed.

Lemma accepted_core_step v c :
  consistent c -> dirty c = true ->
  consistent (accepted_core v c)
  /\ durability_step (Some Accepted) (durability_of c) (durability_of (accepted_core v c)).
Proof.
  intros [H0 Hd Hs] Hc.
  assert (Hn : durability_of c <> Clean) by (unfold durability_of; rewrite Hc; by case_match).
  assert (Ha : flushFailures (accepted_core v c) = 0%Z /\ undurableSince (accepted_core v c) = None
               /\ dirty (accepted_core v c) = false).
  { unfold accepted_core. destruct (Z.eqb_spec (flushFailures c) 0) as [E|E]; [|done]. simpl. split_and!; [done| |done].
    destruct (undurableSince c); [|done]. pose proof (proj1 Hs ltac:(eauto)). lia. }
  destruct Ha as (A1 & A2 & A3). split.
  - split; rewrite ?A1, ?A2; [lia|lia|]. split; [by intros [? ?]|lia].
  - unfold durability_of at 2. rewrite A1, A3. by apply step_saved.
Qed.
End Machine.

(** ** What a save leaves alone *)

Section Flushing.
Context {Y : YCore} {P : Params}.

(** No store answered. *)
Definition unanswered (r r' : Room) : Prop :=
  exists new, trace r' = (new ++ trace r)%list /\ omap verdict_of new = [].

#[export] Instance unanswered_preorder : PreOrder unanswered.
Proof.
  split; [by exists []|]. intros r1 r2 r3 (n1 & T1 & V1) (n2 & T2 & V2). exists (n2 ++ n1)%list.
  by rewrite T2, T1, app_assoc, omap_app, V1, V2.
Qed.

Lemma unanswered_still r r' : trace r' = trace r -> unanswered r r'.
Proof. intros H. by exists []. Qed.

Lemma unanswered_log e r : verdict_of e = None -> unanswered r (log e r).
Proof. intros H. exists [e]. split; [done|]. simpl. by rewrite H. Qed.

Lemma plain_unanswered e r : plain_effect e -> unanswered r (log e r).
Proof. intros He. apply unanswered_log. by destruct e. Qed.

Lemma casc_unanswered F r r' : casc F r r' -> unanswered r r'.
Proof.
  intros [_ _ (new & Ht & Hf & _)]. exists new. split; [done|]. clear Ht.
  induction Hf as [|e new He _ IH]; [done|]. simpl. by destruct e as [| | | | | | | | | | | |].
Qed.

#[export] Instance unanswered_count : CountRel unanswered.
Proof.
  split; [split; [split|..]|]; intros; try (by apply unanswered_still).
  - apply unanswered_preorder.
  - by apply plain_unanswered.
  - by eapply casc_unanswered.
  - by eapply casc_unanswered.
  - by eexists [_].
Qed.

(** Everything but a save: no store answers, the failures stay counted as they are, and
    the room does not become clean. *)
Record unsaved (r r' : Room) : Prop := {
  us_trace : unanswered r r';
  us_failures : flushFailures (co r') = flushFailures (co r) /\ undurableSince (co r') = undurableSince (co r);
  us_dirty : dirty (co r) = true -> dirty (co r') = true }.

#[export] Instance unsaved_preorder : PreOrder unsaved.
Proof.
  split; [done|]. intros r1 r2 r3 [T1 [F1 S1] D1] [T2 [F2 S2] D2]. split; [by etrans| |auto]. split; congruence.
Qed.

Lemma unsaved_core f r :
  failures_kept f -> (dirty (co r) = true -> dirty (f (co r)) = true) -> unsaved r (upd_core f r).
Proof. intros Hf Hd. split; [by apply unanswered_still|apply Hf|done]. Qed.

Lemma unsaved_same r r' : unanswered r r' -> co r' = co r -> unsaved r r'.
Proof. intros Hu Hc. split; rewrite ?Hc; auto. Qed.

#[export] Instance unsaved_room : RoomRel unsaved.
Proof.
  split; [split|..]; intros; try (by apply unsaved_same; [apply unanswered_still|]).
  - apply unsaved_preorder.
  - apply unsaved_same; [by apply plain_unanswered|done].
  - apply unsaved_same; [by eapply casc_unanswered|by eapply casc_core].
  - match goal with H : bookkeeping f |- _ => destruct H as [Hb Hf] end. apply unsaved_core; [done|].
    by destruct (Hb (co r)) as ((_ & _ & _ & _ & ->) & _).
  - apply unsaved_same; [by eapply casc_unanswered|by eapply casc_core].
  - apply unsaved_same; [by eexists [_]|done].
Qed.

#[export] Instance unsaved_handler : PeerRel unsaved.
Proof.
  apply peer_rel; [apply unsaved_room|]. intros u o. apply apply_checked_by; [typeclasses eauto|..].
  - intros f r [Hc Hf]. apply unsaved_core; [done|]. by destruct (Hc (co r)) as ((_ & _ & ? & _) & _).
  - intros e r He. by apply rr_emit.
  - intros u' ok r. apply unsaved_same; [by apply unanswered_log|done].
  - intros r r' Hc. by apply rr_casc.
Qed.

(** ** The room and the machine *)

(** [r'] is where the machine goes from [r] by what the stores answered in between. *)
Definition flushing (r r' : Room) : Prop :=
  consistent (co r) -> consistent (co r')
    /\ exists new, trace r' = (new ++ trace r)%list
         /\ course (verdicts new) (durability_of (co r)) (durability_of (co r')).

#[export] Instance flushing_preorder : PreOrder flushing.
Proof.
  split.
  - intros r Hc. split; [done|]. exists []. split; [done|apply course_here].
  - intros r1 r2 r3 H1 H2 C1. destruct (H1 C1) as (C2 & n1 & T1 & S1). destruct (H2 C2) as (C3 & n2 & T2 & S2).
    split; [done|]. exists (n2 ++ n1)%list. split; [by rewrite T2, T1, app_assoc|].
    rewrite verdicts_app. by eapply course_app.
Qed.

Lemma unsaved_flushing r r' : unsaved r r' -> flushing r r'.
Proof.
  intros [(new & Ht & Hv) [Hf Hs] Hd] [H0 Hu Hd']. split.
  - split; rewrite ?Hf, ?Hs; auto.
  - exists new. split; [done|]. unfold verdicts. rewrite Hv. unfold durability_of. rewrite Hf, Hs.
    case_match; [|apply course_here]. destruct (dirty (co r)).
    + rewrite Hd by done. apply course_here.
    + destruct (dirty (co r')); [|apply course_here]. eapply course_edit; [apply step_edited|apply course_here].
Qed.

#[export] Instance flushing_handler : PeerRel flushing.
Proof.
  apply peer_rel; [split; [split|..]|]; intros.
  - apply flushing_preorder.
  - by apply unsaved_flushing, rr_emit.
  - by apply unsaved_flushing, rr_casc.
  - by eapply unsaved_flushing, rr_member.
  - by apply unsaved_flushing, rr_core.
  - by apply unsaved_flushing, rr_presence.
  - by apply unsaved_flushing, rr_answer.
  - by apply unsaved_flushing, rr_activate.
  - intros r. eapply wp_mono; [apply (apply_checked_rel unsaved)| |]; intros; by apply unsaved_flushing.
Qed.
End Flushing.

(** ** A save *)

Section Saving.
Context {Y : YCore} {P : Params}.
Context (Hfair : fair_range).

#[local] Instance unanswered_end : EndRel unanswered.
Proof.
  split; [typeclasses eauto|..]; intros; try by apply unanswered_still.
  apply unanswered_log. by destruct e.
Qed.

(** The room came to its end by the one refusal too many. *)
Definition escalated (r r' : Room) : Prop :=
  ended r' /\ (flushThreshold <= flushFailures (co r) + 1)%Z
  /\ exists new, trace r' = (new ++ trace r)%list /\ verdicts new = [Refused].

(** [r1] is [r] after the stores refused its save, before that is counted. *)
Definition just_refused (r r1 : Room) : Prop :=
  (exists n, co r1 = set_docBytes n (co r))
  /\ exists new, trace r1 = (new ++ trace r)%list /\ verdicts new = [Refused].

Lemma refused_unanswered r r1 r2 :
  just_refused r r1 -> unanswered r1 r2 ->
  exists new, trace r2 = (new ++ trace r)%list /\ verdicts new = [Refused].
Proof.
  intros [_ (n1 & T1 & V1)] (n2 & T2 & V2). exists (n2 ++ n1)%list. rewrite T2, T1, app_assoc. split; [done|].
  rewrite verdicts_app, V1. unfold verdicts. by rewrite V2.
Qed.

Lemma refused_flushes n r r1 :
  live n r -> dirty (co r) = true -> just_refused r r1 -> held r r1 ->
  wp onFlushFailed (fun _ r' => both flushing held r r' \/ escalated r r') (fun _ => False) r1.
Proof.
  intros Hl Hd Hr Hh1. pose proof Hr as [[k Hk] _]. apply (onFlushFailed_wp (both unanswered held)).
  - intros r' now [Hu Hh] Hc Hlt. left. split; [|by etrans]. intros Hcons. rewrite Hc, Hk in *. simpl in Hlt.
    destruct (failed_core_step now (co r) Hcons Hd Hlt) as [[] Hstep]. split; [by split|].
    destruct (refused_unanswered _ _ _ Hr Hu) as (new & Ht & Hv). exists new. split; [done|].
    rewrite Hv. by apply course_one.
  - intros r' u now [Hu Hh] Hc Hge. eapply wp_mono; [apply (wp_and _ _ _ _ _ _
      (live_escalate Hfair n u r' ltac:(eapply live_held; [exact Hl|by etrans])) (escalate_ends unanswered u r'))| |naive_solver].
    intros [] r2 [He Hu2]. right. split_and!; [done| |].
    + rewrite Hc, Hk in Hge. simpl in Hge. lia.
    + apply (refused_unanswered r r1); [done|]. by etrans.
Qed.

Lemma accepted_flushes r s v :
  dirty (co r) = true ->
  wp (persist_accepted (i64 (version (co r) + 1))) (fun _ => both flushing held r) (fun _ => False)
    (both_accepted r s v).
Proof.
  intros Hd. eapply wp_mono; [apply (wp_and _ _ _ _ _ _
    (persist_accepted_rel (both unanswered held) (i64 (version (co r) + 1)) (both_accepted r s v))
    (persist_accepted_settles (i64 (version (co r) + 1)) (both_accepted r s v) Hfair))| |naive_solver].
  intros [] r' [[(new & Ht & Hv) Hh] (Hc & _)]. split; [|etrans; [apply held_accepted|exact Hh]]. intros Hcons.
  destruct (accepted_core_step (i64 (version (co r) + 1)) (co r) Hcons Hd) as [[A1 A2 A3] Hstep].
  assert (Hsame : flushFailures (co r') = flushFailures (accepted_core (i64 (version (co r) + 1)) (co r))
    /\ undurableSince (co r') = undurableSince (accepted_core (i64 (version (co r) + 1)) (co r))
    /\ dirty (co r') = dirty (accepted_core (i64 (version (co r) + 1)) (co r))).
  { rewrite Hc. unfold accepted_core. simpl. by case_match. }
  destruct Hsame as (E1 & E2 & E3). split; [split; rewrite ?E1, ?E2, ?E3; done|].
  exists (new ++ [ESaveMetadata (room_row (co r) (i64 (version (co r) + 1))) true; ESaveCheckpoint s v true])%list.
  split; [rewrite Ht; simpl; by rewrite <- app_assoc|]. rewrite verdicts_app. unfold verdicts at 2. rewrite Hv. simpl.
  unfold verdicts. simpl. apply course_one. unfold durability_of in Hstep |- *. by rewrite E1, E2, E3.
Qed.

(** A save moves the machine by one answer, or not at all where there is nothing to
    save or nothing that can be encoded. *)
Lemma persist_flushes n r :
  live n r -> wp persist (fun _ r' => both flushing held r r' \/ escalated r r') (fun _ => False) r.
Proof.
  intros Hl. unfold persist, get_core. apply wp_bind, wp_gets. cbv beta. unfold id.
  destruct (dirty (co r)) eqn:Hd; simpl; [|apply wp_ret; left; reflexivity].
  assert (Hsf : forall r1, both flushing held r r1 ->
            wp snapshot_failed (fun _ r' => both flushing held r r' \/ escalated r r') (fun _ => False) r1).
  { intros r1 H1. eapply wp_mono; [apply (quiet_calm (both flushing held) _
      (snapshot_failed_rel _) quiet_snapshot_failed r1)| |done].
    intros [] r2 H2. left. by etrans. }
  destruct (EncodeStateAsUpdateV2 (doc (co r))) as [s|] eqn:Hs; [|apply Hsf; reflexivity].
  unfold update_core. apply wp_bind, wp_modify. set (r1 := upd_core _ r).
  assert (H1 : both flushing held r r1) by (apply rr_core; auto with steps).
  destruct (EncodeStateVectorFromUpdateV2 s) as [v|] eqn:Hv; [|by apply Hsf].
  unfold persist_snapshot, save_checkpoint, save_metadata, emit, get_core. wp_run.
  destruct (env_save_checkpoint _ _ _); simpl.
  - wp_run. destruct (env_save_metadata _ _).
    + eapply wp_mono; [exact (accepted_flushes r s v Hd)| |done]. by left.
    + apply (refused_flushes n); [done..| |].
      * split; [by eexists|]. by eexists [_; _].
      * etrans; [apply H1|]. etrans; [|by apply held_emit]. by apply held_emit.
  - apply (refused_flushes n); [done..| |].
    + split; [by eexists|]. by eexists [_].
    + etrans; [apply H1|]. by apply held_emit.
Qed.

#[export] Instance flushing_turn : TurnRel any_event flushing.
Proof.
  split.
  - apply rr_handler.
  - intros u s _. apply rr_apply_peer.
  - intros n r _ Hl. eapply wp_mono; [by apply (persist_flushes n)| |done]. intros [] r' [[H _]|[H _]]; auto.
  - intros b r _. by apply unsaved_flushing, unsaved_core.
  - intros id conn identity mode now r _. apply unsaved_flushing.
    split; [by apply unanswered_still|done|done].
Qed.
End Saving.

(** ** The property *)

Section Property.
Context {Y : YCore} {P : Params}.

(** Where the loop stands between two turns. *)
Definition at_durability (r : Room) : Prop :=
  consistent (co r) /\ course (verdicts (trace r)) Clean (durability_of (co r)).

Lemma newRoom_at ct row reg ckpt sub effs r :
  newRoom ct row reg ckpt sub = (effs, inr r) -> at_durability r.
Proof.
  intros (d & n & mirror & _ & -> & _)%newRoom_result. unfold at_durability, durability_of. simpl.
  destruct row; (split; [split; [done|done|]|apply course_here]); (split; [by intros [? ?]|done]).
Qed.

Lemma reached_at (n : Z) (r0 r : Room) :
  fair_range -> opened r0 -> at_durability r0 -> reaches any_event r0 n r -> (n < 2 ^ 64)%Z -> at_durability r.
Proof.
  intros Hf Ho [Hc0 Hs0] Hr Hn.
  assert (H : flushing r0 r).
  { apply (reaches_rel Hf any_event flushing (TurnRel0 := flushing_turn Hf) r0 n r); [by apply opened_live|done..]. }
  destruct (H Hc0) as (Hc & new & Ht & Hs). split; [done|]. rewrite Ht, verdicts_app. by eapply course_app.
Qed.

Lemma quiet_armRetryTimer : quiet armRetryTimer.
Proof. unfold armRetryTimer, get_core, update_core. calm_tac. Qed.

(** The save timer's turn ends the room only by the refusal that is one too many. *)
Lemma save_timer_exits n r r' :
  fair_range -> live n r -> run_step LSaveTimer r = Exited r' -> escalated r r'.
Proof.
  intros Hf Hl Hs.
  assert (H : wp (run_event LSaveTimer) (fun go r' => go = false -> escalated r r') (fun _ => False) r).
  { simpl. unfold update_core, get_core. apply wp_bind, wp_modify, wp_bind. set (r1 := upd_core _ r).
    assert (Hh : held r r1) by (apply rr_core; auto with steps).
    eapply wp_mono; [apply (persist_flushes Hf n r1); by eapply live_held| |done].
    intros [] r2 [[_ H2]|(H2 & H3 & H4)]; apply wp_bind, wp_gets; cbv beta.
    - rewrite (held_lc _ _ H2). simpl. rewrite (lv_lc _ _ Hl). simpl.
      apply wp_bind. eapply wp_mono; [apply quiet_armRetryTimer| |done]. intros [] r3 _. by apply wp_ret.
    - rewrite (en_lc _ H2). simpl. apply wp_ret. intros _. by split_and!. }
  unfold wp in H. unfold run_step in Hs. destruct (run_event LSaveTimer r) as [[] r1|r1|]; [done| |done..].
  injection Hs as <-. by apply H.
Qed.

(** C13: the room implements the state machine of flush.go.  In every room the loop of a
    newly opened document comes to, the durability state is the one the machine is in
    after exactly the answers the stores gave, oldest first: clean where there is
    nothing to save; otherwise undurable by the number of refusals since the last
    acceptance, dated from the first of them, which is below the threshold while the room
    serves; and when the turn of the save timer ends a room, it is by a last refusal
    that reaches the threshold. *)
Theorem durability_machine (ct : ContentType) (row : load_answer) (reg : registry_answer)
    (ckpt : checkpoint_answer) (sub : bool) (effs : list effect) (r0 r : Room) (n : Z) :
  fair_range -> newRoom ct row reg ckpt sub = (effs, inr r0) ->
  reaches any_event r0 n r -> (n < 2 ^ 64)%Z ->
  course (verdicts (trace r)) Clean (durability_of (co r))
  /\ (durability_of (co r) = Clean <-> dirty (co r) = false)
  /\ flushFailures (co r) = refusals 0 (verdicts (trace r))
  /\ (flushFailures (co r) < flushThreshold)%Z
  /\ forall r', run_step LSaveTimer r = Exited r' ->
       ended r' /\ verdicts (trace r') = (verdicts (trace r) ++ [Refused])%list
       /\ refusals 0 (verdicts (trace r')) = flushThreshold.
Proof.
  intros Hf Hnew Hr Hn. pose proof (newRoom_opened _ _ _ _ _ _ _ Hnew) as (Ho & _).
  destruct (reached_at n r0 r Hf Ho (newRoom_at _ _ _ _ _ _ _ Hnew) Hr Hn) as [Hc Hs].
  assert (Hff : failed (durability_of (co r)) = flushFailures (co r)).
  { unfold durability_of. destruct (Z.eqb_spec (flushFailures (co r)) 0); [|done]. by case_match. }
  pose proof (course_refusals _ _ _ Hs) as Href. pose proof flushThreshold_pos.
  pose proof (course_below _ _ _ Hs ltac:(simpl; lia)) as Hlt. rewrite Hff in Href, Hlt.
  split_and!; [done|by apply durability_clean|done|done|].
  intros r' Hx. apply (save_timer_exits n) in Hx as (He & Hge & new & Ht & Hv); [|done|].
  - assert (Hvs : verdicts (trace r') = (verdicts (trace r) ++ [Refused])%list) by (by rewrite Ht, verdicts_app, Hv).
    split_and!; [done|done|]. rewrite Hvs. unfold refusals. rewrite fold_left_app. simpl.
    change (refusals 0 (verdicts (trace r)) + 1 = flushThreshold)%Z. simpl in Href. lia.
  - by eapply reaches_live; [|apply opened_live| |].
Qed.
End Property.

(** ** A store that refuses *)

(** A whiteboard is opened and edited, and the stores refuse the first save; the second
    refusal is one too many. *)
Definition opened_in_outage : Room :=
  match (@newRoom toy outage ContentTypeMemo (Loaded toy_row) Opens (CheckpointFound "hello") true).2 with
  | inr r => r
  | inl _ => toy_room
  end.
Definition undurable_room : Room :=
  match run_trace (P := outage) (session ++ [LSaveTimer]) opened_in_outage with Some r => r | None => toy_room end.

Lemma ran_in_outage : run_trace (P := outage) (session ++ [LSaveTimer]) opened_in_outage = Some undurable_room.
Proof.
  unfold undurable_room.
  assert (H : bool_decide (run_trace (P := outage) (session ++ [LSaveTimer]) opened_in_outage = None) = false)
    by (vm_compute; reflexivity).
  destruct (run_trace _ _); [done|]. by apply bool_decide_eq_false in H.
Qed.

Definition is_exited {Y : YCore} (s : loop_state) : bool := match s with Exited _ => true | _ => false end.

Lemma durability_machine_witness :
  flushFailures (co undurable_room) = 1%Z
  /\ course (P := outage) [Refused] Clean (durability_of (co undurable_room))
  /\ exists r', run_step (P := outage) LSaveTimer undurable_room = Exited r' /\ ended r'
       /\ refusals 0 (verdicts (trace r')) = flushThreshold (P := outage).
Proof.
  destruct (@durability_machine toy outage ContentTypeMemo (Loaded toy_row) Opens (CheckpointFound "hello") true []
    opened_in_outage undurable_room 4) as (H1 & _ & _ & _ & H2).
  - apply world_fair.
  - vm_compute. reflexivity.
  - apply (run_trace_reaches (P := outage) any_event (session ++ [LSaveTimer])%list);
      [apply all_any|exact ran_in_outage].
  - done.
  - split; [vm_compute; reflexivity|]. split; [exact H1|].
    assert (E : is_exited (run_step (P := outage) LSaveTimer undurable_room) = true) by (vm_compute; reflexivity).
    destruct (run_step (P := outage) LSaveTimer undurable_room) as [r'|r'|]; [done| |done].
    exists r'. destruct (H2 r' eq_refl) as (? & _ & ?). done.
Defined.
