(* ===== verification/RoomSpec.v ===== *)
(** * What single operations do

    The functional behaviour of the room's operations, branch by branch: who may
    edit, what a durability request is answered, what a failed save comes to, what
    the size budget guarantees, who receives a broadcast. *)

From stdpp Require Import base gmap sets list strings.
From Stdlib Require Import ZArith Lia.
From S2P Require Import Prelude Control Lifecycle Limits Core Schema RoomState RoomFanout.
From S2P Require Import RoomBarrier RoomApply RoomLife RoomLoop Fixture RoomRel RoomSafe.
From S2P Require Import RoomSave RoomRun RoomTurn RoomSchema RoomInv RoomDurable.

Local Open Scope go_scope.

(** ** Read-only sessions *)

Section ReadOnly.
Context {Y : YCore} {P : Params}.

Lemma steps_held_casc {A} (m : RM A) : calm (casc (fun _ => True)) m -> steps held m.
Proof. intros H r. eapply wp_mono; [apply H| |done]. intros a r'. apply held_casc. Qed.

Lemma dispatchSync_read_only f s : steps frozen (dispatchSync f s false).
Proof. unfold dispatchSync. cbn [negb]. steps_tac. Qed.

Definition not_editor (src : connID) (r : Room) : Prop :=
  forall m, members r !! src = Some m -> mb_mode m <> ModeCollaborator.

(** Nothing happened to the document, and the turn arms no save. *)
Definition untouched (r : Room) (b : bool) (r' : Room) : Prop := frozen r r' /\ b = false.

Lemma untouched_then {A} (m : RM A) (k : A -> RM bool) r0 r :
  steps frozen m -> frozen r0 r ->
  (forall a r', frozen r0 r' -> wp (k a) (untouched r0) (frozen r0) r') ->
  wp (bindM m k) (untouched r0) (frozen r0) r.
Proof.
  intros Hm H0 Hk. apply wp_bind. eapply wp_mono; [apply Hm| |].
  - intros a r' H. apply Hk. by etrans.
  - intros r' H. by etrans.
Qed.

Ltac untouched_tac :=
  repeat (apply untouched_then; [simpl; solve [steps_tac]|assumption|intros ? ? ?]);
  try (by apply wp_ret).

Lemma handleSync_read_only src p r :
  not_editor src r -> wp (handleSync src p) (untouched r) (frozen r) r.
Proof.
  intros Hro. unfold handleSync, canMutate, lookup_member, get_core. cbv zeta.
  apply wp_bind, wp_bind, wp_gets, wp_ret.
  assert (Hcan : match members r !! src with
                 | Some m => bool_decide (mb_mode m = ModeCollaborator) | None => false end = false).
  { destruct (members r !! src) as [m|] eqn:Hm; [|done]. apply bool_decide_eq_false. by apply Hro. }
  rewrite Hcan. apply wp_bind, wp_gets, wp_bind, wp_gets, wp_bind. cbv beta.
  eapply wp_mono; [apply dispatchSync_read_only| |done].
  intros [[outcome reply]|] r1 H1; [|by apply wp_ret].
  apply untouched_then; [|done|intros _ r2 H2].
  { apply (steps_if frozen); [apply (steps_ret frozen)|]. apply (sendTo_rel frozen). auto with steps. }
  apply wp_if; intros _; [untouched_tac|].
  apply wp_if; intros _; [untouched_tac|].
  apply wp_if; intros _; [untouched_tac|].
  apply wp_bind, wp_gets. apply untouched_then; [|done|intros _ r3 H3].
  { apply (steps_if frozen); [apply (recordContribution_rel frozen)|apply (steps_ret frozen)]. }
  apply wp_bind, wp_gets, wp_ret. split; [done|]. destruct H3 as [(_ & -> & _) _]. by destruct (dirty (co r)).
Qed.

Lemma not_editor_modes src r r' : modes_kept r r' -> not_editor src r -> not_editor src r'.
Proof. intros [_ H] Hn m' Hm'. destruct (H src m' Hm') as (m & Hm & ->). by apply Hn. Qed.

Lemma durability_mutates_nothing src payload dropped r :
  wp (handleDurabilityRequest src payload dropped) (fun b _ => b = false) (fun _ => True) r.
Proof.
  assert (Hb : forall (m : RM unit) r0, steps held m ->
            wp (m;; ret false) (fun b _ => b = false) (fun _ => True) r0).
  { intros m r0 Hm. apply wp_bind. eapply wp_mono; [apply Hm| |done]. intros. by apply wp_ret. }
  assert (Ha : forall id s, steps held (answerBarrier id s)).
  { intros id s. apply steps_held_casc, sendTo_casc; done. }
  unfold handleDurabilityRequest, lookup_member, get_core. destruct (String.eqb _ _); [by apply wp_ret|].
  apply wp_bind, wp_gets. destruct (members r !! src) as [m|]; [|by apply wp_ret].
  apply wp_bind, wp_gets.
  do 4 (apply wp_if; intros _; [apply Hb, (failBarrier_rel held)|]).
  apply wp_if; intros _; [apply Hb, Ha|]. apply wp_if; intros _; [apply Hb, (failBarrier_rel held)|].
  unfold store_member. apply wp_bind, wp_modify. by apply wp_ret.
Qed.

Lemma handleMessage_read_only src f dropped r :
  not_editor src r -> wp (handleMessage src f dropped) (untouched r) (frozen r) r.
Proof.
  intros Hro. unfold handleMessage, lookup_member. cbv zeta. apply wp_bind, wp_gets.
  destruct (members r !! src); [|by apply wp_ret].
  apply wp_bind. eapply wp_mono; [apply (steps_both frozen modes_kept);
    [apply (allowRate_rel frozen)|apply (allowRate_rel modes_kept)]| |by intros r' [? _]].
  intros ok r1 [H1 Hk]. apply (not_editor_modes src r r1 Hk) in Hro.
  destruct ok; simpl; [|untouched_tac].
  destruct (ReadMessage f) as [[t payload]|]; [|by apply wp_ret].
  apply wp_if; intros _.
  { eapply wp_mono; [by apply handleSync_read_only| |].
    - intros b r' [H ->]. split; [by etrans|done].
    - intros r' H. by etrans. }
  apply wp_if; intros _; [untouched_tac|]. apply wp_if; intros _; [untouched_tac|].
  apply wp_if; intros _; [|by apply wp_ret].
  eapply wp_mono; [apply (wp_and _ _ _ _ _ _ (handleDurabilityRequest_rel frozen src payload dropped r1)
    (durability_mutates_nothing src payload dropped r1))| |by intros r' [H _]; etrans].
  intros b r' [H ->]. split; [by etrans|done].
Qed.
End ReadOnly.

(** ** Durability requests *)

Section Requests.
Context {Y : YCore} {P : Params}.

(** The answer a valid request [id] of member [m] calls for. *)
Inductive verdict := Answer (f : wire_frame) | Park.

Definition request_verdict (is_dirty dropped : bool) (m : roomMember) (id : string) : verdict :=
  let nack why := Answer (WControl (msg_persist_failed id why)) in
  if mb_durabilityPoisoned m then nack reason_poisoned
  else if dropped then nack reason_dropped
  else match mb_mode m with
       | ModeViewer => nack reason_read_only
       | ModeCollaborator =>
           if String.eqb (mb_barrier m) "" then
             if is_dirty then
               if (0 <? SaveDebounce p_cfg)%Z then Park else nack reason_no_periodic
             else Answer (WControl (msg_persisted id))
           else nack reason_outstanding
       end.

(** One answer offered to the connection, once, and nothing else but what its refusal
    brings about ([offered]); or the request parked, and nothing else. *)
Definition carried_out (src : connID) (m : roomMember) (id : string) (v : verdict) (r r' : Room) : Prop :=
  match v with
  | Park => r' = put_member src (with_barrier id m) r
  | Answer f => offered src m f r r'
  end.

Lemma answered_wp src m f r :
  members r !! src = Some m ->
  wp (sendTo src f;; ret false) (fun b r' => b = false /\ offered src m f r r') (fun _ => False) r.
Proof.
  intros Hm. apply wp_bind. eapply wp_mono; [by apply sendTo_offered| |done].
  intros [] r' Ho. by apply wp_ret.
Qed.

(** An answer to a durability request: an acknowledgement or a refusal of one. *)
Definition answer_effect (e : effect) : bool :=
  match e with
  | ESend _ (WControl msg) _ =>
      bool_decide (Kind msg = ControlPersisted) || bool_decide (Kind msg = ControlPersistFailed)
  | _ => false
  end.
Definition answers (l : list effect) : nat := List.length (List.filter answer_effect l).

Lemma answers_app l1 l2 : answers (l1 ++ l2)%list = answers l1 + answers l2.
Proof. unfold answers. by rewrite List.filter_app, length_app. Qed.

Lemma no_answers l : Forall (casc_effect presence_frame) l -> answers l = 0.
Proof.
  induction 1 as [|e l He _ IH]; [done|]. unfold answers in *. simpl.
  destruct e as [c f ok| | | | | | | | | | | |]; simpl; try done. by destruct He as [b ->].
Qed.

Lemma offered_answers id m f r r' :
  (forall ok, answer_effect (ESend (mb_conn m) f ok) = true) -> offered id m f r r' ->
  exists new, trace r' = (new ++ trace r)%list /\ answers new = 1
    /\ (exists ok, ESend (mb_conn m) f ok ∈ new) /\ co r' = co r.
Proof.
  intros Hf. unfold offered. destruct (env_send _ _ _).
  - intros ->. exists [ESend (mb_conn m) f true]. unfold answers. cbn [List.filter]. rewrite Hf.
    split_and!; [done|done|exists true; by left|done].
  - intros (Hc & _ & _ & new & Ht & Hn). exists (new ++ [ESend (mb_conn m) f false])%list.
    rewrite answers_app, (no_answers new Hn), Ht, <- app_assoc. unfold answers. cbn [List.filter]. rewrite Hf.
    split_and!; [done|done|exists false; set_solver|done].
Qed.

Lemma verdict_answers is_dirty dropped m id f c ok :
  request_verdict is_dirty dropped m id = Answer f -> answer_effect (ESend c f ok) = true.
Proof.
  unfold request_verdict. intros H. repeat case_match; simplify_eq; vm_compute; reflexivity.
Qed.

Lemma verdict_persisted is_dirty dropped m id :
  request_verdict is_dirty dropped m id = Answer (WControl (msg_persisted id)) -> is_dirty = false.
Proof. unfold request_verdict. intros H. repeat case_match; simplify_eq; done. Qed.

Lemma request_wp src m payload dropped r :
  durabilityRequestID payload <> "" -> members r !! src = Some m ->
  wp (handleDurabilityRequest src payload dropped)
     (fun b r' => b = false
        /\ carried_out src m (durabilityRequestID payload)
             (request_verdict (dirty (co r)) dropped m (durabilityRequestID payload)) r r')
     (fun _ => False) r.
Proof.
  intros Hid Hm. unfold handleDurabilityRequest, lookup_member, get_core.
  destruct (String.eqb_spec (durabilityRequestID payload) "") as [|_]; [done|].
  apply wp_bind, wp_gets. rewrite Hm. apply wp_bind, wp_gets. unfold request_verdict.
  destruct (mb_durabilityPoisoned m); [by apply answered_wp|].
  destruct dropped; [by apply answered_wp|].
  destruct (mb_mode m); simpl; [by apply answered_wp|].
  destruct (String.eqb _ ""); simpl; [|by apply answered_wp].
  destruct (dirty (co r)); simpl; [|by apply answered_wp].
  destruct (Z.leb_spec (SaveDebounce p_cfg) 0), (Z.ltb_spec 0 (SaveDebounce p_cfg)); try lia.
  - by apply answered_wp.
  - unfold store_member. apply wp_bind, wp_modify. by apply wp_ret.
Qed.

(** ** A failed save *)

(** The room after a refused save that did not exhaust the threshold: it serves on
    with its document and its dirty flag, one failure more, and every parked
    request has been failed. *)
Definition save_refused (r r' : Room) : Prop :=
  doc (co r') = doc (co r) /\ dirty (co r') = dirty (co r)
  /\ flushFailures (co r') = (flushFailures (co r) + 1)%Z
  /\ (forall id m, members r' !! id = Some m -> mb_barrier m = "")
  /\ (forall id m, members r !! id = Some m -> mb_barrier m <> "" ->
        members r' !! id = None
        \/ exists ok, happened (ESend (mb_conn m) (nack_frame reason_not_persisted (mb_barrier m)) ok) r r').

Lemma record_failure_settles r :
  fair_range ->
  wp record_failure (fun _ r' => save_refused r r' /\ held r r') (fun _ => False) r.
Proof.
  intros Hf.
  assert (H : wp record_failure (fun _ r' => save_refused r r') (fun _ => False) r).
  { unfold record_failure, get_core, update_core, emit_metric, emit. wp_run.
    eapply wp_mono; [by apply failBarriers_wp| |done]. intros [] r1 (Hb & Ha & _ & Hc & Ht). wp_run.
    unfold save_refused. simpl. rewrite Hc. simpl. split_and!; [done..|exact Hb|].
    intros id m Hid Hne. destruct (Ha id m Hid Hne) as [|[ok Hok]]; [by left|right].
    exists ok. destruct Hok as (new & Hnew & Hin). eexists (_ :: _ :: new). split; [simpl; by rewrite Hnew|].
    by do 2 right. }
  eapply wp_mono; [apply (wp_and _ _ _ _ _ _ H (record_failure_wp held r))| |naive_solver].
  intros u r' [H1 [H2 _]]. done.
Qed.

Lemma refused_casc r r1 r2 F : save_refused r r1 -> casc F r1 r2 -> save_refused r r2.
Proof.
  intros (H1 & H2 & H3 & H4 & H5) Hc. pose proof (casc_suffix _ _ _ Hc) as Hsuf.
  destruct Hc as [Hc Hm _]. unfold save_refused. rewrite Hc. split_and!; try done.
  - intros id m Hid. apply (H4 id). by eapply lookup_weaken.
  - intros id m Hid Hne. destruct (H5 id m Hid Hne) as [Hn|[ok Hok]].
    + left. by eapply lookup_weaken_None.
    + right. exists ok. by eapply happened_l.
Qed.

Lemma flush_failed_wp n r :
  fair_range -> live n r ->
  wp onFlushFailed
     (fun _ r' =>
        if (flushFailures (co r) + 1 <? flushThreshold)%Z then save_refused r r' /\ live n r'
        else ended r' /\ exists r1, save_refused r r1
               /\ torn (mkEnd CodeEditsNotSaved ScopeDocument DispositionTerminal) r1 r')
     (fun _ => False) r.
Proof.
  intros Hf Hl. unfold onFlushFailed. apply wp_bind.
  eapply wp_mono; [by apply record_failure_settles| |done]. intros u r1 [Hr1 Hh].
  apply wp_bind, wp_gets. assert (Hfail : flushFailures (co r1) = (flushFailures (co r) + 1)%Z) by apply Hr1.
  rewrite Hfail. assert (Hl1 : live n r1) by (by eapply live_held).
  destruct (_ <? _)%Z.
  - eapply wp_mono; [apply broadcast_casc| |done]. intros [] r2 Hc. split.
    + by eapply refused_casc.
    + eapply live_held; [exact Hl1|by eapply held_casc].
  - apply escalate_wp.
    assert (Hl2 : live n (log (EMetric (DocumentEscalated u)) r1)).
    { eapply live_held; [exact Hl1|]. by apply held_emit. }
    eapply wp_mono; [by apply (live_teardown Hf n)| |done]. intros [] r2 [He Ht]. split; [done|].
    exists (log (EMetric (DocumentEscalated u)) r1). split; [|done].
    destruct Hr1 as (H1 & H2 & H3 & H4 & H5). split_and!; try done.
    intros id m Hid Hne. destruct (H5 id m Hid Hne) as [|[ok (new & Hn & Hin)]]; [by left|right].
    exists ok. eexists (_ :: new). split; [simpl; by rewrite Hn|by right].
Qed.
End Requests.

(** ** The size budget *)

Section Budget.
Context {Y : YCore} {P : Params} {L : YLaws Y}.
Context (Henc : forall d, is_Some (EncodeStateAsUpdateV2 d)).

(** The encoded size of a document. *)
Definition encoded_size (d : Doc) : Z :=
  match EncodeStateAsUpdateV2 d with Some b => blen b | None => 0%Z end.

(** The scratch copy answers for the live document. *)
Lemma exact_exceeds_spec d curr u limit :
  EncodeStateAsUpdateV2 d = Some curr ->
  exact_exceeds curr u limit
  = ap_ok (ApplyUpdate d u) && (limit <? encoded_size (ap_doc (ApplyUpdate d u)))%Z.
Proof.
  intros Hd. unfold exact_exceeds. destruct (law_clone p_id _ _ Hd) as [-> Hs]. simpl.
  destruct (law_same _ _ u Hs) as [-> Hs']. destruct (ap_ok (ApplyUpdate d u)); [simpl|done].
  unfold encoded_size. rewrite (law_same_encode _ _ Hs').
  destruct (Henc (ap_doc (ApplyUpdate d u))) as [b ->]. done.
Qed.

(** Deciding never touches the document. *)
Lemma would_exceed_wp u r :
  wp (applyWouldExceedMaxDocBytes u)
     (fun b r' => co r' = co r \/ exists n, co r' = set_docBytes n (co r))
     (fun _ => False) r.
Proof.
  unfold applyWouldExceedMaxDocBytes, get_core, update_core. cbv zeta. apply wp_bind, wp_gets.
  apply wp_if; intros _; [by apply wp_ret; left|]. apply wp_if; intros _; [by apply wp_ret; left|].
  apply wp_bind, wp_gets. destruct (EncodeStateAsUpdateV2 _) as [b|]; [|by apply wp_ret; left].
  apply wp_bind, wp_modify, wp_ret. right. by exists (blen b).
Qed.

Lemma would_exceed_exact u r :
  let limit := MaxDocBytes (cfg_Limits p_cfg) in
  (0 < limit)%Z -> budget_skip (docBytes (co r)) (blen u) limit = false ->
  wp (applyWouldExceedMaxDocBytes u)
     (fun b _ => b = ap_ok (ApplyUpdate (doc (co r)) u)
                     && (limit <? encoded_size (ap_doc (ApplyUpdate (doc (co r)) u)))%Z)
     (fun _ => False) r.
Proof.
  intros limit Hl Hsk. unfold applyWouldExceedMaxDocBytes, get_core, update_core. cbv zeta.
  fold limit. apply wp_bind, wp_gets. rewrite Hsk.
  destruct (Z.leb_spec limit 0); [lia|]. apply wp_bind, wp_gets. cbv beta.
  destruct (EncodeStateAsUpdateV2 (doc (co r))) as [curr|] eqn:Hc.
  - apply wp_bind, wp_modify, wp_ret. by apply exact_exceeds_spec.
  - destruct (Henc (doc (co r))). congruence.
Qed.

(** A guarded room stays guarded, and what a local update comes to. *)
Lemma applyUpdate_guarded u o r :
  guarded (co r) ->
  wp (applyUpdate u o)
     (fun res r' => guarded (co r')
        /\ (res <> applyOK -> doc (co r') = doc (co r))
        /\ (res = applyOK -> doc (co r') = ap_doc (ApplyUpdate (doc (co r)) u)))
     (fun _ => False) r.
Proof.
  intros Hg. unfold applyUpdate. apply wp_bind. eapply wp_mono; [apply would_exceed_wp| |done].
  intros too r1 Hr1.
  assert (Hd : doc (co r1) = doc (co r)) by (by destruct Hr1 as [->|[n ->]]).
  assert (Hg1 : guarded (co r1)) by (by destruct Hr1 as [->|[n ->]]).
  destruct (too && negb (peer o)); [by apply wp_ret|].
  eapply wp_mono; [by apply apply_checked_guarded| |done].
  intros res r2 (H1 & H2 & H3). rewrite Hd in *. split_and!; [done| |done]. naive_solver.
Qed.

Lemma rebuild_returns r : wp rebuildShadow (fun _ _ => True) (fun _ => True) r.
Proof.
  unfold rebuildShadow, invariantFailed, get_core. apply wp_bind, wp_gets.
  destruct (cloneDoc _ _); [|by apply wp_panic]. by apply wp_modify.
Qed.

Lemma apply_checked_not_large u o r :
  wp (apply_checked u o) (fun res _ => res <> applyRejectedTooLarge) (fun _ => True) r.
Proof.
  unfold apply_checked, get_core, update_core, validateSchema, invariantFailed. cbv zeta.
  apply wp_bind, wp_gets. destruct (shadow (co r)) as [s|].
  - apply wp_bind, wp_modify. destruct (negb _).
    + apply wp_bind. eapply wp_mono; [apply rebuild_returns| |done]. intros. by apply wp_ret.
    + apply wp_bind. unfold get_core. apply wp_bind, wp_gets, wp_ret.
      destruct (validateStoredContent _ _).
      * apply wp_bind. eapply wp_mono; [apply rebuild_returns| |done]. intros. by apply wp_ret.
      * apply wp_bind. eapply wp_mono; [apply apply_live_docs| |done].
        intros [] r' _; [by apply wp_ret|by apply wp_panic].
  - apply wp_bind. eapply wp_mono; [apply apply_live_docs| |done]. intros. by apply wp_ret.
Qed.

Lemma budget_holds u o r :
  let limit := MaxDocBytes (cfg_Limits p_cfg) in
  guarded (co r) -> (0 < limit)%Z -> peer o = false ->
  budget_skip (docBytes (co r)) (blen u) limit = false ->
  wp (applyUpdate u o)
     (fun res r' =>
        (res = applyRejectedTooLarge <->
           ap_ok (ApplyUpdate (doc (co r)) u) = true
           /\ (limit < encoded_size (ap_doc (ApplyUpdate (doc (co r)) u)))%Z)
        /\ (res = applyOK -> ap_ok (ApplyUpdate (doc (co r)) u) = true ->
            (encoded_size (doc (co r')) <= limit)%Z))
     (fun _ => False) r.
Proof.
  intros limit Hg Hl Hp Hsk.
  apply (wp_mono _ (fun res r' =>
     (res = applyOK -> doc (co r') = ap_doc (ApplyUpdate (doc (co r)) u))
     /\ (res = applyRejectedTooLarge <-> ap_ok (ApplyUpdate (doc (co r)) u)
            && (limit <? encoded_size (ap_doc (ApplyUpdate (doc (co r)) u)))%Z = true)) _ (fun _ => False)); [| |done].
  - unfold applyUpdate. apply wp_bind.
    eapply wp_mono; [apply (wp_and _ _ _ _ _ _ (would_exceed_wp u r) (would_exceed_exact u r Hl Hsk))| |naive_solver].
    intros too r1 [Hr1 Htoo]. fold limit in Htoo. rewrite <- Htoo, Hp. simpl.
    assert (Hd : doc (co r1) = doc (co r)) by (by destruct Hr1 as [->|[n ->]]).
    assert (Hg1 : guarded (co r1)) by (by destruct Hr1 as [->|[n ->]]).
    destruct too; simpl; [by apply wp_ret|].
    eapply wp_mono; [apply (wp_and _ _ _ _ _ _ (apply_checked_guarded Henc u o r1 Hg1)
      (apply_checked_not_large u o r1))| |naive_solver].
    intros res r2 [(_ & _ & H3) Hnl]. rewrite Hd in H3. split; [done|]. by split.
  - intros res r' [H1 H2]. split; [rewrite H2, andb_true_iff, Z.ltb_lt; done|].
    intros -> Hok. rewrite (H1 eq_refl).
    destruct (Z.le_gt_cases (encoded_size (ap_doc (ApplyUpdate (doc (co r)) u))) limit) as [|Hgt]; [done|].
    exfalso. assert (Hbad : applyOK = applyRejectedTooLarge); [|discriminate].
    apply H2. by rewrite Hok, (proj2 (Z.ltb_lt _ _) Hgt).
Qed.
End Budget.

(** ** Properties *)

Section Properties.
Context {Y : YCore} {P : Params}.

(** C10: a read-only session cannot edit: whatever frame it sends, the turn leaves
    the document, its dirty flag and its version as they were, and nothing is
    saved on its behalf. *)
Theorem read_only_session_cannot_edit (r r' : Room) (src : connID) (m : roomMember)
    (frame : bytes) (dropped : bool) :
  members r !! src = Some m -> mb_mode m = ModeViewer ->
  run_step (LCommand (cmdMessage src frame dropped)) r = Running r' ->
  doc (co r') = doc (co r) /\ dirty (co r') = dirty (co r) /\ version (co r') = version (co r)
  /\ row_fields (co r') = row_fields (co r) /\ last_saved (trace r') = last_saved (trace r).
Proof.
  intros Hm Hro Hs.
  assert (Hne : not_editor src r) by (intros m' Hm'; congruence).
  assert (H : wp (run_event (LCommand (cmdMessage src frame dropped)))
                (fun _ r' => frozen r r') (fun _ => True) r).
  { simpl. apply wp_bind, wp_bind. eapply wp_mono; [by apply handleMessage_read_only| |done].
    intros b r1 [H1 ->]. apply wp_bind, wp_ret, wp_bind.
    eapply wp_mono; [apply (arm_idle_if_empty_rel frozen)| |done]. intros [] r2 H2.
    apply wp_ret, wp_ret. by etrans. }
  unfold wp in H. unfold run_step in Hs.
  destruct (run_event _ r) as [[] r1|r1|]; [|done| |done].
  - injection Hs as <-. destruct H as [(H1 & H2 & H3 & H4) (new & Ht & Hf & _)].
    split_and!; [done..|]. rewrite Ht. by apply last_saved_app.
  - by destruct (recover_teardown r1).
Qed.

(** C12: every well-formed durability request from a member gets exactly one of two
    outcomes, by the first rule that applies.  Either one answer, offered to its
    connection: it is the only acknowledgement or refusal the turn sends anyone, the
    room's core is untouched, where the connection takes it nothing else happens at all,
    and where it does not the member is dropped and the others hear of its presence
    ending.  Or the request is parked on the member, and nothing is sent.  It is parked
    only for an editor of a dirty room with periodic saving and no request outstanding,
    and acknowledged at once only in a clean room. *)
Theorem durability_request_outcome (r : Room) (src : connID) (m : roomMember)
    (payload : bytes) (dropped : bool) :
  durabilityRequestID payload <> "" -> members r !! src = Some m ->
  exists r' new, handleDurabilityRequest src payload dropped r = Ret false r'
    /\ trace r' = (new ++ trace r)%list /\ co r' = co r
    /\ match request_verdict (dirty (co r)) dropped m (durabilityRequestID payload) with
       | Park => r' = put_member src (with_barrier (durabilityRequestID payload) m) r /\ new = []
                 /\ dirty (co r) = true /\ mb_mode m = ModeCollaborator /\ mb_barrier m = ""
       | Answer f =>
           answers new = 1 /\ (exists ok, ESend (mb_conn m) f ok ∈ new)
           /\ offered src m f r r'
           /\ (f = WControl (msg_persisted (durabilityRequestID payload)) -> dirty (co r) = false)
       end.
Proof.
  intros Hid Hm. pose proof (request_wp src m payload dropped r Hid Hm) as H. unfold wp in H.
  destruct (handleDurabilityRequest src payload dropped r) as [b r'|r'|]; [|done..].
  destruct H as [-> H]. exists r'. unfold carried_out in H.
  destruct (request_verdict _ _ _ _) as [f|] eqn:Hv.
  - destruct (offered_answers src m f r r') as (new & Ht & Ha & He & Hc); [|done|].
    { intros ok. by eapply verdict_answers. }
    exists new. split_and!; [done..|]. intros ->. by eapply verdict_persisted.
  - subst r'. exists []. split_and!; [done..| | |]; revert Hv; unfold request_verdict;
      repeat case_match; try done; by destruct (String.eqb_spec (mb_barrier m) "").
Qed.

(** A refused save is never silent.  Below the failure threshold the room
    serves on with its document still dirty, one more failure counted and every
    parked request failed; the refusal that reaches the threshold ends the room for
    everyone with [edits-not-saved]. *)
Theorem refused_save_retries_or_ends (n : Z) (r : Room) :
  fair_range -> live n r ->
  exists r', onFlushFailed r = Ret tt r'
    /\ ((flushFailures (co r) + 1 < flushThreshold)%Z -> save_refused r r' /\ live n r')
    /\ ((flushThreshold <= flushFailures (co r) + 1)%Z ->
          ended r' /\ exists r1, save_refused r r1
            /\ torn (mkEnd CodeEditsNotSaved ScopeDocument DispositionTerminal) r1 r').
Proof.
  intros Hf Hl. pose proof (flush_failed_wp n r Hf Hl) as H. unfold wp in H.
  destruct (onFlushFailed r) as [[] r'|r'|]; [|done..]. exists r'. split; [done|].
  destruct (Z.ltb_spec (flushFailures (co r) + 1) flushThreshold); split; intros; try lia; done.
Qed.

(** A save both stores accept clears the dirty flag, counts one version up,
    resets the failure count, and acknowledges every parked request of a member who
    is still there; nobody is left waiting. *)
Theorem accepted_save_acknowledges (r : Room) (s v : bytes) :
  fair_range -> dirty (co r) = true ->
  EncodeStateAsUpdateV2 (doc (co r)) = Some s -> EncodeStateVectorFromUpdateV2 s = Some v ->
  (forall h, env_save_checkpoint h s v = true) -> (forall h m, env_save_metadata h m = true) ->
  exists r', persist r = Ret tt r'
    /\ (dirty (co r') = false /\ version (co r') = i64 (version (co r) + 1)
        /\ flushFailures (co r') = 0%Z /\ doc (co r') = doc (co r))
    /\ (forall id m, members r' !! id = Some m -> mb_barrier m = "")
    /\ (forall id m, members r !! id = Some m -> mb_barrier m <> "" ->
          members r' !! id = None
          \/ exists ok, happened (ESend (mb_conn m) (WControl (msg_persisted (mb_barrier m))) ok) r r').
Proof.
  intros Hf Hd Hs Hv Hck Hmd.
  assert (H : wp persist (fun _ r' => save_settled (i64 (version (co r) + 1)) (both_accepted r s v) r')
                (fun _ => False) r).
  { unfold persist, get_core. apply wp_bind, wp_gets. cbv beta. unfold id. rewrite Hd. simpl. rewrite Hs.
    unfold update_core. apply wp_bind, wp_modify. rewrite Hv.
    unfold persist_snapshot, save_checkpoint, save_metadata, emit, get_core. wp_run. rewrite Hck. simpl. wp_run.
    rewrite Hmd. simpl. by apply persist_accepted_settles. }
  unfold wp in H. destruct (persist r) as [[] r'|r'|]; [|done..]. exists r'. split; [done|].
  destruct H as (Hc & Hb & Ha & Ht). split_and!; try (rewrite Hc; unfold accepted_core; simpl;
    destruct (Z.eqb_spec (flushFailures (co r)) 0); done); [exact Hb|].
  intros id m Hid Hne. destruct (Ha id m Hid Hne) as [|[ok Hok]]; [by left|right].
  exists ok. eapply happened_r; [|exact Hok]. simpl. by eexists [_; _].
Qed.
End Properties.

Section SizeBudget.
Context {Y : YCore} {P : Params} {L : YLaws Y}.

(** C28: the size budget is exact where it is measured: a member's update that is
    not skipped by the cheap bound is refused for size exactly when the document it
    would make encodes to more than the limit; a refused update, for whatever
    reason, leaves the document alone, and an applied one leaves it within the
    limit. *)
Theorem size_budget_exact (u : bytes) (o : updateOrigin) (r : Room) :
  let limit := MaxDocBytes (cfg_Limits p_cfg) in
  let grown := ApplyUpdate (doc (co r)) u in
  (forall d, is_Some (EncodeStateAsUpdateV2 d)) ->
  screened r -> (0 < limit)%Z -> peer o = false ->
  budget_skip (docBytes (co r)) (blen u) limit = false ->
  exists res r', applyUpdate u o r = Ret res r'
    /\ (res = applyRejectedTooLarge <->
          ap_ok grown = true /\ (limit < encoded_size (ap_doc grown))%Z)
    /\ (res <> applyOK -> doc (co r') = doc (co r))
    /\ (res = applyOK -> doc (co r') = ap_doc grown
          /\ (ap_ok grown = true -> (encoded_size (doc (co r')) <= limit)%Z)).
Proof.
  intros limit grown Henc Hsc Hl Hp Hsk. apply screened_guarded in Hsc.
  pose proof (wp_and _ _ _ _ _ _ (budget_holds Henc u o r Hsc Hl Hp Hsk)
                (applyUpdate_guarded Henc u o r Hsc)) as H.
  unfold wp in H. destruct (applyUpdate u o r) as [res r'|r'|]; [|naive_solver..].
  exists res, r'. naive_solver.
Qed.
End SizeBudget.

(** ** Witnesses *)

Lemma after_reaches {P : Params} evs :
  bool_decide (is_Some (run_trace evs toy_room)) = true ->
  reaches any_event toy_room (Z.of_nat (List.length evs)) (after evs).
Proof.
  intros H. apply bool_decide_eq_true in H as [r Hr]. unfold after. rewrite Hr.
  apply run_trace_reaches; [apply all_any|exact Hr].
Qed.

Definition with_viewer : list loop_event := session ++ [join_as 2 ModeViewer; activate_id 2].

Definition viewer_room : Room := @after healthy with_viewer.
Definition viewer_member : roomMember :=
  mkMember 2 (Some 1%N) ModeViewer false (newTokenBucket 0 0 5) 0 false false "".

Lemma read_only_session_cannot_edit_witness :
  (doc (co viewer_room), member_count (@next healthy (sends 2 "02evil") viewer_room)) = ("hello"%string, 1)
  /\ doc (co (@next healthy (sends 2 "02evil") viewer_room)) = doc (co viewer_room).
Proof.
  split; [vm_compute; reflexivity|].
  apply (@read_only_session_cannot_edit toy healthy viewer_room (@next healthy (sends 2 "02evil") viewer_room)
           2 viewer_member "02evil" false).
  - vm_compute. reflexivity.
  - reflexivity.
  - vm_compute. reflexivity.
Defined.

Definition payload_r1 : bytes := String.substring 1 100 (request_frame "r1").

(** The same request from an editor of a dirty room, and repeated by a session that
    lost a frame. *)
Lemma durability_request_outcome_witness :
  (request_verdict (P := healthy) true false (first_member "") "r1" = Park
   /\ exists r', handleDurabilityRequest (P := healthy) 1 payload_r1 false (@after healthy session) = Ret false r'
        /\ trace r' = trace (@after healthy session))
  /\ exists r' new, handleDurabilityRequest (P := healthy) 1 payload_r1 true (@after healthy session) = Ret false r'
       /\ trace r' = (new ++ trace (@after healthy session))%list /\ answers new = 1.
Proof.
  split; [split; [reflexivity|]|].
  - destruct (@durability_request_outcome toy healthy (@after healthy session) 1 (first_member "") payload_r1 false)
      as (r' & new & H1 & H2 & _ & H3); [vm_compute; discriminate|vm_compute; reflexivity|].
    exists r'. split; [exact H1|].
    assert (Hv : request_verdict (P := healthy) (dirty (co (@after healthy session))) false (first_member "")
      (durabilityRequestID payload_r1) = Park) by (vm_compute; reflexivity).
    rewrite Hv in H3. destruct H3 as (_ & -> & _). exact H2.
  - destruct (@durability_request_outcome toy healthy (@after healthy session) 1 (first_member "") payload_r1 true)
      as (r' & new & H1 & H2 & _ & H3); [vm_compute; discriminate|vm_compute; reflexivity|].
    exists r', new. split; [exact H1|]. split; [exact H2|].
    assert (Hv : request_verdict (P := healthy) (dirty (co (@after healthy session))) true (first_member "")
      (durabilityRequestID payload_r1)
      = Answer (WControl (msg_persist_failed (durabilityRequestID payload_r1) reason_dropped)))
      by (vm_compute; reflexivity).
    rewrite Hv in H3. exact (proj1 H3).
Defined.

Lemma refused_save_retries_or_ends_witness :
  (flushThreshold (P := outage) <= flushFailures (co (@after outage (session ++ [LSaveTimer]))) + 1)%Z
  /\ exists r', onFlushFailed (P := outage) (@after outage (session ++ [LSaveTimer])) = Ret tt r' /\ ended r'.
Proof.
  assert (Ht : (flushThreshold (P := outage) <= flushFailures (co (@after outage (session ++ [LSaveTimer]))) + 1)%Z)
    by (vm_compute; discriminate).
  split; [exact Ht|].
  destruct (@refused_save_retries_or_ends toy outage 4 (@after outage (session ++ [LSaveTimer])))
    as (r' & H1 & _ & H2).
  - apply world_fair.
  - apply (reaches_live (P := outage) (world_fair _ _) any_event toy_room); [apply opened_live, toy_opened| |done].
    apply (after_reaches (P := outage) (session ++ [LSaveTimer])). vm_compute. reflexivity.
  - exists r'. split; [exact H1|]. by apply H2.
Defined.

Lemma accepted_save_acknowledges_witness :
  exists r', persist (P := healthy) (@after healthy parked_session) = Ret tt r'
    /\ dirty (co r') = false /\ version (co r') = 1%Z.
Proof.
  destruct (@accepted_save_acknowledges toy healthy (@after healthy parked_session) "hello" "vhello")
    as (r' & H1 & (H2 & H3 & _) & _).
  - apply world_fair.
  - vm_compute. reflexivity.
  - vm_compute. reflexivity.
  - reflexivity.
  - reflexivity.
  - reflexivity.
  - exists r'. split; [exact H1|]. split; [exact H2|]. rewrite H3. vm_compute. reflexivity.
Defined.

(** The document and the update together are ten bytes over the limit of 100. *)
Definition long_update : bytes := String.concat "" (repeat "0123456789" 11).

Lemma size_budget_exact_witness :
  exists r', applyUpdate (P := healthy) long_update (mkOrigin 1 false) toy_room
             = Ret applyRejectedTooLarge r' /\ doc (co r') = doc (co toy_room).
Proof.
  destruct (@size_budget_exact toy healthy toy_laws long_update (mkOrigin 1 false) toy_room)
    as (res & r' & H1 & H2 & H3 & _).
  - intros d. by exists d.
  - exists ""%string. split_and!; [done|done|]. by split; [|intros _; constructor].
  - done.
  - done.
  - vm_compute. reflexivity.
  - assert (res = applyRejectedTooLarge) as -> by (apply H2; vm_compute; done).
    exists r'. split; [exact H1|]. by apply H3.
Defined.
