(* ===== verification/RoomFlow.v ===== *)
(** * Delivery, admission, contributions and retries

    What a broadcast delivers when nothing fails, that updates from other pods are
    never published again, what a join is answered, that contribution accounting
    loses nobody, and the pace of save retries. *)

From stdpp Require Import base gmap sets list strings.
From Stdlib Require Import ZArith Lia.
From S2P Require Import Prelude Control Lifecycle Limits Core RoomState RoomFanout RoomBarrier.
From S2P Require Import RoomApply RoomLife RoomLoop Fixture RoomRel RoomSafe RoomSave RoomRun.
From S2P Require Import RoomTurn RoomDurable.

Local Open Scope go_scope.

(** ** Delivery *)

Section Delivery.
Context {Y : YCore} {P : Params}.

(** Whom a broadcast addresses: visible members other than the origin. *)
Definition addressed (except : connID) (id : connID) (m : roomMember) : bool :=
  negb (id =? except)%Z && negb (mb_pending m).

Definition addressees (except : connID) (r : Room) (ids : list connID) : list roomMember :=
  omap (fun id => match members r !! id with
                  | Some m => if addressed except id m then Some m else None
                  | None => None end) ids.

(** Sends that all succeeded, newest first. *)
Definition delivered (f : wire_frame) (ms : list roomMember) : list effect :=
  rev (map (fun m => ESend (mb_conn m) f true) ms).

Context (Hsend : forall h c f, env_send h c f = true).

Lemma delivery_loop n f except ids r :
  wp (forM ids (fun id =>
        found ← lookup_member id;
        match found with
        | None => ret tt
        | Some m => if (id =? except)%Z || mb_pending m then ret tt
                    else sendMember_with (broadcast_n n) id m f
        end))
     (fun _ r' => r' = mkRoom (co r) (members r) (awareness r) (awarenessOwners r)
                         (delivered f (addressees except r ids) ++ trace r))
     (fun _ => False) r.
Proof.
  revert r. induction ids as [|id ids IH]; intros r; simpl.
  { apply wp_ret. by destruct r. }
  apply wp_bind. unfold lookup_member. apply wp_bind, wp_gets.
  unfold addressees. simpl. destruct (members r !! id) as [m|] eqn:Hm; simpl.
  - unfold addressed. destruct (id =? except)%Z; simpl; [by apply wp_ret, IH|].
    destruct (mb_pending m); simpl; [by apply wp_ret, IH|].
    unfold sendMember_with, conn_send, emit. wp_run. rewrite Hsend. wp_run.
    eapply wp_mono; [apply IH| |done]. intros [] r' ->. simpl.
    unfold delivered, addressees. simpl. by rewrite <- app_assoc.
  - by apply wp_ret, IH.
Qed.

Lemma delivery_wp f except r :
  broadcast f except r
  = Ret tt (mkRoom (co r) (members r) (awareness r) (awarenessOwners r)
              (delivered f (addressees except r (ranged_ids r)) ++ trace r)).
Proof.
  assert (H : wp (broadcast f except)
    (fun _ r' => r' = mkRoom (co r) (members r) (awareness r) (awarenessOwners r)
                   (delivered f (addressees except r (ranged_ids r)) ++ trace r)) (fun _ => False) r).
  { change (wp (broadcast_n (S (member_count r)) f except)
      (fun _ r' => r' = mkRoom (co r) (members r) (awareness r) (awarenessOwners r)
                   (delivered f (addressees except r (ranged_ids r)) ++ trace r)) (fun _ => False) r).
    cbn [broadcast_n]. apply wp_bind, wp_gets. apply delivery_loop. }
  unfold wp in H. by destruct (broadcast f except r) as [[] r'|r'|]; [rewrite H|..].
Qed.

Lemma addressees_list except r (l : list (connID * roomMember)) :
  Forall (fun kv => members r !! kv.1 = Some kv.2) l ->
  addressees except r (map fst l)
  = map snd (List.filter (fun kv => addressed except kv.1 kv.2) l).
Proof.
  unfold addressees. induction 1 as [|[k m] l Hk _ IH]; simpl; [done|]. simpl in Hk. rewrite Hk.
  destruct (addressed except k m); simpl; [by rewrite <- IH|exact IH].
Qed.

Lemma addressees_all except r :
  fair_range ->
  Permutation (addressees except r (ranged_ids r))
    (map snd (List.filter (fun kv => addressed except kv.1 kv.2) (map_to_list (members r)))).
Proof.
  intros Hf. unfold ranged_ids.
  rewrite <- (addressees_list except r (map_to_list (members r))); [apply omap_Permutation, Hf|].
  apply Forall_forall. intros [k m] Hin. by apply elem_of_map_to_list in Hin.
Qed.
End Delivery.

(** ** No fan-out loop *)

Section NoEcho.
Context {Y : YCore} {P : Params}.

(** A document update handed to the other pods. *)
Definition is_publish (e : effect) : Prop := exists p ok, e = EPublish false p ok.

Definition unpublished (r r' : Room) : Prop :=
  exists new, trace r' = (new ++ trace r)%list /\ Forall (fun e => ~ is_publish e) new.

#[export] Instance unpublished_preorder : PreOrder unpublished.
Proof.
  split; [intros r; by exists []|].
  intros r1 r2 r3 (n1 & T1 & F1) (n2 & T2 & F2). exists (n2 ++ n1)%list.
  rewrite T2, T1, app_assoc. split; [done|by apply Forall_app].
Qed.

Lemma unpublished_core f : steps unpublished (update_core f).
Proof. apply steps_modify. intros r. by exists []. Qed.

Lemma unpublished_broadcast f e : steps unpublished (broadcast f e).
Proof.
  intros r. eapply wp_mono; [apply broadcast_casc| |done]. intros [] r' [_ _ (new & Ht & Hf & _)].
  exists new. split; [done|]. eapply Forall_impl; [exact Hf|]. intros x Hx (p & ok & ->). done.
Qed.
Hint Resolve unpublished_core unpublished_broadcast : steps.

Lemma onDocUpdate_peer u s : steps unpublished (onDocUpdate u (mkOrigin s true)).
Proof. unfold onDocUpdate. simpl. steps_tac. Qed.
Hint Resolve onDocUpdate_peer : steps.

Lemma applyUpdate_peer u s : steps unpublished (applyUpdate u (mkOrigin s true)).
Proof.
  unfold applyUpdate, applyWouldExceedMaxDocBytes, apply_checked, apply_live, validateSchema,
    rebuildShadow, replaceShadow, invariantFailed, get_core. cbv zeta. steps_tac.
Qed.

Lemma peer_event_unpublished data ephemeral : steps unpublished (run_event (LPeer data ephemeral)).
Proof.
  pose proof applyUpdate_peer.
  assert (Hp : forall f, steps unpublished (applyPeerEphemeral f)).
  { intros f. unfold applyPeerEphemeral. steps_tac. apply steps_modify. intros r. by exists []. }
  simpl. unfold handlePeer, armSaveTimer, get_core. steps_tac.
Qed.
End NoEcho.

(** ** Admission *)

Section Admission.
Context {Y : YCore} {P : Params}.

(** The mode a join ends up with, and the reason a viewer is given. *)
Definition granted (r : Room) (identity : Identity) (requested : CollaboratorMode) (multi : option bool)
    : CollaboratorMode * string :=
  let known := match multi with Some d => Some d | None => isMultiUser (co r) end in
  match requested with
  | ModeViewer => (ModeViewer, readOnlyReasonForIdentity identity)
  | ModeCollaborator =>
      if bool_decide (known = Some false) && has_collaborator (members r)
      then (ModeViewer, ReasonMultiUserNotAllowed) else (ModeCollaborator, "")
  end.

Definition decided (r : Room) (multi : option bool) : Room :=
  match multi with Some d => upd_core (set_isMultiUser (Some d)) r | None => r end.

Lemma resolve_granted identity requested multi r :
  resolveJoinCapability identity requested multi r
  = Ret (granted r identity requested multi) (decided r multi).
Proof.
  unfold resolveJoinCapability, granted, get_core, update_core, bindM, gets, modify, ret.
  destruct multi as [d|]; simpl; destruct requested; simpl; try done;
    by destruct (bool_decide _), (has_collaborator _).
Qed.

(** The frames a joiner reads first. *)
Definition welcome (r : Room) (mode : CollaboratorMode) (reason : string) : list wire_frame :=
  ([WControl (msg_admission (match mode with ModeViewer => AdmissionRead | _ => AdmissionWrite end) reason);
    WBytes (EncodeSyncStep1 (doc (co r)))]
   ++ opt_frame (awarenessSnapshot r)
   ++ match mode with
      | ModeViewer =>
          WControl (msg_read_only true reason)
          :: (if String.eqb reason ReasonMultiUserNotAllowed
              then [WControl (msg_collaborator_mode "viewer" reason)] else [])
      | ModeCollaborator => []
      end)%list.

Lemma join_result conn identity requested multi r :
  handleJoin conn identity requested multi r
  = if at_capacity r then Ret (Refused ErrRoomFull) (decided r multi)
    else
      let id := u64 (nextID (co r) + 1) in
      let '(mode, reason) := granted r identity requested multi in
      let r' := admitted id conn identity mode (env_now (trace r)) (decided r multi) in
      Ret (Joined id (welcome r' mode reason)) r'.
Proof.
  unfold handleJoin, bindM. rewrite resolve_granted.
  destruct (granted r identity requested multi) as [mode reason]. unfold gets.
  assert (Hc : at_capacity (decided r multi) = at_capacity r) by by destruct multi.
  rewrite Hc. destruct (at_capacity r); [done|]. simpl.
  unfold initialJoinFrames, admitted, welcome, put_member, gets, ret, awarenessSnapshot.
  by destruct multi, mode.
Qed.
End Admission.

(** ** Contributions *)

Section Contributions.
Context {Y : YCore} {P : Params}.

(** The actors the bus has accepted. *)
Fixpoint reported (h : list effect) : gset N :=
  match h with
  | [] => ∅
  | EContribution ids true :: h' => list_to_set ids ∪ reported h'
  | _ :: h' => reported h'
  end.

Definition in_flight (c : core) : gset N :=
  match flight c with Some f => fl_actors f | None => ∅ end.

(** Everyone the room still owes a report, or has reported. *)
Definition accounted (r : Room) : gset N :=
  contributors (co r) ∪ in_flight (co r) ∪ reported (trace r).

(** An attempt that succeeded has been reported. *)
Definition flight_ok (r : Room) : Prop :=
  match flight (co r) with
  | Some f => fl_ok f = true -> fl_actors f ⊆ reported (trace r)
  | None => True
  end.

Definition conserves (r r' : Room) : Prop := flight_ok r' /\ accounted r ⊆ accounted r'.

Lemma reported_report A ok h :
  reported (EContribution (elements A) ok :: h) = (if ok then A else ∅) ∪ reported h.
Proof. destruct ok; simpl; [|set_solver]. by rewrite list_to_set_elements_L. Qed.

Ltac contrib_run :=
  unfold detachContributors, emitContribution, mergeContributors, get_core, update_core, emit_metric, emit;
  wp_run; simpl.
Ltac contrib_solve :=
  unfold conserves, flight_ok, accounted, in_flight in *; simpl in *; set_solver.

Lemma flushContribution_conserves r :
  flight_ok r -> wp flushContribution (fun _ => conserves r) (fun _ => False) r.
Proof.
  intros Hf. unfold flushContribution. contrib_run. case_bool_decide as He; [wp_run; contrib_solve|].
  wp_run. destruct (env_contribute _ _) eqn:Ho; wp_run;
    unfold conserves, flight_ok, accounted, in_flight in *; rewrite ?reported_report; simpl;
    rewrite ?list_to_set_elements_L; destruct (flight (co r)); set_solver.
Qed.

Lemma startContributionFlush_conserves r :
  flight_ok r -> wp startContributionFlush (fun _ => conserves r) (fun _ => False) r.
Proof.
  intros Hf. unfold startContributionFlush, get_core. wp_run.
  destruct (flight (co r)) as [f|] eqn:Hfl; [wp_run; split; [done|set_solver]|].
  contrib_run. case_bool_decide as He; [wp_run; unfold conserves, flight_ok, accounted, in_flight in *; simpl; rewrite Hfl in *; set_solver|].
  wp_run. unfold conserves, flight_ok, accounted, in_flight in *. simpl. rewrite Hfl.
  destruct (env_contribute _ _); simpl; rewrite ?list_to_set_elements_L; set_solver.
Qed.

Lemma finish_conserves fl r :
  flight_ok r -> wp (finishContributionFlush fl) (fun _ => conserves r) (fun _ => False) r.
Proof.
  intros Hf. unfold finishContributionFlush, get_core. wp_run.
  destruct fl as [f|]; [|wp_run; by split; [done|set_solver]].
  destruct (flight (co r)) as [g|] eqn:Hfl; [|wp_run; by split; [done|set_solver]].
  destruct (_ =? _)%nat; [|wp_run; by split; [done|set_solver]].
  contrib_run. unfold conserves, flight_ok, accounted, in_flight in *. rewrite Hfl in *.
  destruct (fl_ok g); contrib_run; set_solver.
Qed.

Lemma settle_conserves r :
  flight_ok r -> wp settleContributionFlight (fun _ => conserves r) (fun _ => False) r.
Proof.
  intros Hf. unfold settleContributionFlight, get_core. wp_run.
  destruct (flight (co r)) as [g|] eqn:Hfl; [|wp_run; by split; [done|set_solver]].
  unfold conserves, flight_ok, accounted, in_flight in *. rewrite Hfl in *.
  destruct (fl_ok g); contrib_run; set_solver.
Qed.

(** The operations of the contribution window. *)
Inductive window_op := WFlush | WStart | WFinish (f : option contributionFlight) | WSettle.
Definition window (op : window_op) : RM unit :=
  match op with
  | WFlush => flushContribution
  | WStart => startContributionFlush
  | WFinish f => finishContributionFlush f
  | WSettle => settleContributionFlight
  end.
End Contributions.

(** ** Retries *)

Section Retries.
Context {P : Params}.

Lemma backoff_value k :
  (0 < SaveDebounce p_cfg < 2 ^ 58)%Z -> (1 <= k)%Z ->
  retry_backoff k
  = Z.min (SaveDebounce p_cfg * 2 ^ Z.min (k - 1) flushRetryMaxShift) maxFlushRetryBackoff.
Proof.
  intros Hd Hk. unfold retry_backoff. rewrite Z.shiftl_mul_pow2 by (unfold flushRetryMaxShift; lia).
  assert (H2 : (1 <= 2 ^ Z.min (k - 1) flushRetryMaxShift <= 2 ^ 5)%Z).
  { split; [apply (Z.pow_le_mono_r 2 0)|apply Z.pow_le_mono_r]; unfold flushRetryMaxShift; lia. }
  rewrite i64_small by nia. destruct (Z.ltb_spec maxFlushRetryBackoff
    (SaveDebounce p_cfg * 2 ^ Z.min (k - 1) flushRetryMaxShift)); lia.
Qed.
End Retries.

(** ** Properties *)

Section Properties.
Context {Y : YCore} {P : Params}.

(** C37: a broadcast always finishes, however many of its sends fail and set off
    further broadcasts, and the cascade it sets off only sends the frame and
    presence removals, publishes presence, and lets members go: the room's own
    state is untouched and the connection gauge follows the members that left. *)
Theorem fan_out_terminates (f : wire_frame) (except : connID) (r : Room) :
  exists r', broadcast f except r = Ret tt r' /\ casc (cascade_frame f) r r'
    /\ (forall id m, members r' !! id = Some m -> members r !! id = Some m).
Proof.
  pose proof (broadcast_casc f except r) as H. unfold wp in H.
  destruct (broadcast f except r) as [[] r'|r'|]; [|done..]. exists r'. split_and!; [done..|].
  intros id m Hid. eapply lookup_weaken; [exact Hid|apply H].
Qed.

(** C36: while connections take what they are sent, a broadcast offers its frame
    exactly once to every visible member other than its origin, to nobody else, and
    changes nothing. *)
Theorem broadcast_delivers (f : wire_frame) (except : connID) (r : Room) :
  fair_range -> (forall h c g, env_send h c g = true) ->
  exists ms r', broadcast f except r = Ret tt r'
    /\ Permutation ms
         (map snd (List.filter (fun kv => addressed except kv.1 kv.2) (map_to_list (members r))))
    /\ trace r' = (rev (map (fun m => ESend (mb_conn m) f true) ms) ++ trace r)%list
    /\ co r' = co r /\ members r' = members r.
Proof.
  intros Hf Hs. eexists _, _. split; [by apply delivery_wp|]. split; [by apply addressees_all|done].
Qed.

(** What another pod published is applied and broadcast here but never
    published again, so fan-out between pods cannot loop. *)
Theorem peer_updates_not_republished (r r' : Room) (data : bytes) (ephemeral : bool) :
  run_step (LPeer data ephemeral) r = Running r' ->
  exists new, trace r' = (new ++ trace r)%list
    /\ Forall (fun e => forall p ok, e <> EPublish false p ok) new.
Proof.
  intros Hs. pose proof (peer_event_unpublished data ephemeral r) as H. unfold wp in H.
  unfold run_step in Hs. destruct (run_event _ r) as [[] r1|r1|]; [|done| |done].
  - injection Hs as <-. destruct H as (new & Ht & Hf). exists new. split; [done|].
    eapply Forall_impl; [exact Hf|]. intros e He p ok ->. apply He. by exists p, ok.
  - by destruct (recover_teardown r1).
Qed.

(** What a join is answered.  A full room refuses and admits nobody.
    Otherwise the joiner gets a fresh id, starts out invisible and with no request
    pending, and reads first the admission with its mode, then the document's sync
    step, the presence snapshot if there is any, and, if read-only, the reason why.
    A collaborator becomes a viewer exactly when the document is single-user and
    has an editor already. *)
Theorem join_admission (conn : Conn) (identity : Identity) (requested : CollaboratorMode)
    (multi : option bool) (r : Room) :
  handleJoin conn identity requested multi r
  = (if at_capacity r then Ret (Refused ErrRoomFull) (decided r multi)
     else
       let id := u64 (nextID (co r) + 1) in
       let '(mode, reason) := granted r identity requested multi in
       let r' := admitted id conn identity mode (env_now (trace r)) (decided r multi) in
       Ret (Joined id (welcome r' mode reason)) r')
  /\ (requested = ModeCollaborator ->
        (granted r identity requested multi).1 = ModeViewer <->
        isMultiUser (co (decided r multi)) = Some false /\ has_collaborator (members r) = true).
Proof.
  split; [apply join_result|]. intros ->. unfold granted, decided.
  destruct multi as [d|]; simpl; case_bool_decide; destruct (has_collaborator _); simpl; naive_solver.
Qed.

(** No contributor is forgotten: across every operation of the contribution
    window, everyone who was waiting to be reported, or was being reported, or had
    been reported, still is one of these. *)
Theorem contributions_conserved (op : window_op) (r : Room) :
  flight_ok r ->
  exists r', window op r = Ret tt r' /\ flight_ok r' /\ accounted r ⊆ accounted r'.
Proof.
  intros Hf.
  assert (H : wp (window op) (fun _ => conserves r) (fun _ => False) r).
  { destruct op; simpl; [by apply flushContribution_conserves|by apply startContributionFlush_conserves
      |by apply finish_conserves|by apply settle_conserves]. }
  unfold wp in H. destruct (window op r) as [[] r'|r'|]; [|done..]. exists r'. split; [done|exact H].
Qed.
End Properties.

(** The retry delay starts at the save debounce, never shrinks as failures
    accumulate, and never exceeds thirty seconds; no debounce below 2^58 ns (nine
    years) overflows. *)
Theorem retry_backoff_bounded {P : Params} (k k' : Z) :
  (0 < SaveDebounce p_cfg < 2 ^ 58)%Z -> (1 <= k <= k')%Z ->
  (0 < retry_backoff k <= maxFlushRetryBackoff)%Z
  /\ retry_backoff 1 = Z.min (SaveDebounce p_cfg) maxFlushRetryBackoff
  /\ (retry_backoff k <= retry_backoff k')%Z.
Proof.
  intros Hd Hk. rewrite !backoff_value by lia.
  assert (Hmono : (2 ^ Z.min (k - 1) flushRetryMaxShift <= 2 ^ Z.min (k' - 1) flushRetryMaxShift)%Z).
  { apply Z.pow_le_mono_r; lia. }
  assert (Hpos : (0 < 2 ^ Z.min (k - 1) flushRetryMaxShift)%Z).
  { apply Z.pow_pos_nonneg; unfold flushRetryMaxShift; lia. }
  split_and!.
  - unfold maxFlushRetryBackoff, second. nia.
  - lia.
  - reflexivity || (change (Z.min (1 - 1) flushRetryMaxShift) with 0%Z; f_equal; lia).
  - nia.
Qed.

(** ** Witnesses *)

Lemma broadcast_delivers_witness :
  member_count (@after healthy full_house) = 3
  /\ exists ms r', broadcast (P := healthy) (WBytes "x") 1 (@after healthy full_house) = Ret tt r'
       /\ trace r' = (rev (map (fun m => ESend (mb_conn m) (WBytes "x") true) ms)
                      ++ trace (@after healthy full_house))%list.
Proof.
  split; [vm_compute; reflexivity|].
  destruct (@broadcast_delivers toy healthy (WBytes "x") 1 (@after healthy full_house)
              (world_fair _ _) (fun _ _ _ => eq_refl)) as (ms & r' & H1 & _ & H2 & _).
  exists ms, r'. exact (conj H1 H2).
Defined.

Lemma peer_updates_not_republished_witness :
  doc (co (@next healthy (LPeer "remote" false) (@after healthy session))) = "helloremote"%string
  /\ exists new, trace (@next healthy (LPeer "remote" false) (@after healthy session))
                 = (new ++ trace (@after healthy session))%list
       /\ Forall (fun e => forall p ok, e <> EPublish false p ok) new.
Proof.
  split; [vm_compute; reflexivity|].
  apply (@peer_updates_not_republished toy healthy (@after healthy session) _ "remote" false).
  vm_compute. reflexivity.
Defined.

Lemma contributions_conserved_witness :
  contributors (co (@after healthy session)) = {[1%N]}
  /\ exists r', window (P := healthy) WStart (@after healthy session) = Ret tt r'
       /\ accounted (@after healthy session) ⊆ accounted r'.
Proof.
  split; [vm_compute; reflexivity|].
  destruct (@contributions_conserved toy healthy WStart (@after healthy session)) as (r' & H1 & _ & H2).
  - vm_compute. exact I.
  - exists r'. exact (conj H1 H2).
Defined.

Lemma retry_backoff_bounded_witness :
  map (retry_backoff (P := healthy)) [1; 2; 5; 9]%Z
    = map (fun s => s * second)%Z [2; 4; 30; 30]%Z
  /\ (retry_backoff (P := healthy) 2 <= retry_backoff (P := healthy) 5)%Z.
Proof.
  split; [reflexivity|]. apply (@retry_backoff_bounded healthy 2 5); [by split|lia].
Defined.
