(* ===== verification/RoomEdits.v ===== *)
(** * The edits a room makes and publishes

    With a core that merges ([YMerge]), a turn that no other pod's update caused changes
    what is integrated in the document by exactly the updates it published ([tracked]), so
    it adds to the document those and what it leaves waiting for missing updates, which it
    tells no pod of ([tracked_adds]).  A peer's update is taken whole where the screen lets
    it through. *)

From stdpp Require Import base gmap sets list strings.
From Stdlib Require Import ZArith Lia Permutation.
From S2P Require Import Prelude Control Lifecycle Core Schema RoomState RoomFanout RoomBarrier.
From S2P Require Import RoomApply RoomLife RoomLoop RoomRel RoomSafe RoomSave RoomRun.
From S2P Require Import RoomTurn RoomSchema RoomDurable RoomSpec RoomFlow.

Local Open Scope go_scope.

(** ** Replaying updates *)

Section Replays.
Context {Y : YCore} {L : YLaws Y} {Mg : YMerge Y}.

#[export] Instance same_equivalence : Equivalence (@same Y L).
Proof.
  split; [exact same_refl|intros d d'; apply same_sym|intros d1 d2 d3; apply same_trans].
Qed.

#[export] Instance replay_proper us : Proper (same ==> same) (fun d => replay d us).
Proof.
  induction us as [|u us IH]; intros d d' H; [exact H|]. simpl. apply IH. by apply law_same.
Qed.

Lemma replay_app d us vs : replay d (us ++ vs) = replay (replay d us) vs.
Proof. apply fold_left_app. Qed.

Lemma accepted_any d d' us : Forall (acceptable d) us -> Forall (acceptable d') us.
Proof. intros H. eapply Forall_impl; [exact H|]. intros u. apply law_accept. Qed.

Lemma replay_perm d us vs : Permutation us vs -> Forall (acceptable d) us -> same (replay d us) (replay d vs).
Proof.
  intros Hp. revert d. induction Hp as [|u us vs _ IH|u v us|us vs ws H1 IH1 H2 IH2]; intros d Hu.
  - reflexivity.
  - apply Forall_cons in Hu as [_ Hu]. simpl. apply IH. by apply (accepted_any d).
  - apply Forall_cons in Hu as [Hv Hu]. apply Forall_cons in Hu as [Hu _].
    change (v :: u :: us)%list with ([v; u] ++ us)%list. change (u :: v :: us)%list with ([u; v] ++ us)%list.
    rewrite !replay_app. apply replay_proper. by apply law_commute.
  - etrans; [by apply IH1|]. apply IH2. by rewrite <- H1.
Qed.

(** An update replayed before adds nothing. *)
Lemma replay_again d us u : u ∈ us -> Forall (acceptable d) us -> same (replay d (us ++ [u])) (replay d us).
Proof.
  intros Hin Hus. apply list_elem_of_split in Hin as (l1 & l2 & ->).
  assert (Hp : (l1 ++ u :: l2 ≡ₚ (l1 ++ l2) ++ [u])%list) by solve_Permutation.
  assert (Hus' : Forall (acceptable d) ((l1 ++ l2) ++ [u])) by (by rewrite <- Hp).
  assert (Hu : acceptable (replay d (l1 ++ l2)) u).
  { apply (law_accept d). apply Forall_app in Hus' as [_ H]. by inversion H. }
  etrans; [apply (replay_perm d _ (((l1 ++ l2) ++ [u]) ++ [u])); [by rewrite Hp|]|].
  { apply Forall_app. split; [done|]. apply Forall_app in Hus' as [_ H]. exact H. }
  etrans; [|symmetry; apply (replay_perm d _ _ Hp Hus)].
  rewrite <- app_assoc, !(replay_app d (l1 ++ l2)). by apply law_idem.
Qed.

Lemma replay_absorbs d us vs :
  vs ⊆ us -> Forall (acceptable d) us -> same (replay d (us ++ vs)) (replay d us).
Proof.
  intros Hsub Hus. induction vs as [|v vs IH] using rev_ind; [by rewrite app_nil_r|].
  rewrite app_assoc. rewrite replay_app. etrans; [apply replay_proper, IH; set_solver|].
  change (same (replay (replay d us) [v]) (replay d us)). rewrite <- replay_app.
  apply replay_again; [set_solver|done].
Qed.

(** The same updates, in any order and however often. *)
Lemma replay_set d us vs :
  (forall u, u ∈ us <-> u ∈ vs) -> Forall (acceptable d) us -> same (replay d us) (replay d vs).
Proof.
  intros Heq Hus.
  assert (Hvs : Forall (acceptable d) vs).
  { rewrite Forall_forall in *. intros u Hu. by apply Hus, Heq. }
  etrans; [symmetry; apply (replay_absorbs d us vs); [intros u; apply Heq|done]|].
  etrans; [apply (replay_perm d _ (vs ++ us)); [solve_Permutation|by apply Forall_app]|].
  apply replay_absorbs; [intros u; apply Heq|done].
Qed.

(** A document that grew by [vs], of which [us] is what was integrated, grew by [us] and
    what it is left waiting with. *)
Lemma replay_integrated d d' us vs :
  Forall (acceptable d) us -> Forall (acceptable d) vs ->
  same (integrated d') (replay (integrated d) us) -> same d' (replay d vs) ->
  same d' (replay d (us ++ waiting d')).
Proof.
  intros Hu Hv Hi Hd. destruct (law_waiting d) as [Hw Hs]. destruct (law_waiting d') as [Hw' Hs'].
  apply (accepted_any _ (integrated d)) in Hu, Hv, Hw, Hw'. set (a := integrated d) in *.
  assert (Hgrown : same d' (replay a (waiting d ++ vs))).
  { etrans; [exact Hd|]. rewrite replay_app. apply replay_proper. by symmetry. }
  transitivity (replay a (us ++ waiting d' ++ waiting d)).
  - rewrite app_assoc, !replay_app. transitivity (replay d' (waiting d)).
    + etrans; [exact Hgrown|]. symmetry. etrans; [apply replay_proper, Hgrown|]. rewrite <- replay_app.
      apply replay_absorbs; [set_solver|by apply Forall_app].
    + apply replay_proper. etrans; [symmetry; exact Hs'|]. by apply replay_proper.
  - etrans; [apply (replay_perm a _ (waiting d ++ us ++ waiting d')); [solve_Permutation|]|].
    { by rewrite !Forall_app. }
    rewrite replay_app. by apply replay_proper.
Qed.
End Replays.

(** ** What a turn publishes *)

Section Published.
Context {Y : YCore} {P : Params}.

(** The document updates a history handed to the hub, newest first. *)
Definition published_of (e : effect) : option bytes :=
  match e with EPublish false u _ => Some u | _ => None end.
Definition updates_out (h : list effect) : list bytes := omap published_of h.

Lemma updates_out_app h k : updates_out (h ++ k) = (updates_out h ++ updates_out k)%list.
Proof. apply omap_app. Qed.

Lemma casc_published F r r' :
  casc F r r' -> exists new, trace r' = (new ++ trace r)%list /\ updates_out new = [].
Proof.
  intros [_ _ (new & Ht & Hf & _)]. exists new. split; [done|]. clear Ht.
  induction Hf as [|e new He _ IH]; [done|]. simpl. by destruct e as [| |[]|[]| | | | | | | | |].
Qed.

(** [m] publishes exactly [us], newest first. *)
Definition publishes (us : list bytes) (r r' : Room) : Prop :=
  exists new, trace r' = (new ++ trace r)%list /\ updates_out new = us.

Lemma publishes_nothing r r' : trace r' = trace r -> publishes [] r r'.
Proof. intros H. by exists []. Qed.

Lemma publishes_trans us vs r1 r2 r3 :
  publishes us r1 r2 -> publishes vs r2 r3 -> publishes (vs ++ us) r1 r3.
Proof.
  intros (n1 & T1 & <-) (n2 & T2 & <-). exists (n2 ++ n1)%list.
  by rewrite T2, T1, app_assoc, updates_out_app.
Qed.

Lemma publishToPeers_publishes u r :
  wp (publishToPeers u false) (fun _ => publishes [u] r) (fun _ => False) r.
Proof.
  unfold publishToPeers, emit_metric, emit. wp_run. set (ok := env_publish _ _ _).
  exists [EMetric (if ok then FanoutPublished else FanoutFailed); EPublish false u ok].
  split; [done|]. by destruct ok.
Qed.

(** The observer publishes a member's update and no other. *)
Lemma onDocUpdate_publishes u o r :
  wp (onDocUpdate u o) (fun _ => publishes (if peer o then [] else [u]) r) (fun _ => False) r.
Proof.
  unfold onDocUpdate, update_core. apply wp_bind, wp_modify, wp_bind.
  match goal with |- wp _ _ _ ?x => set (r1 := x) end.
  eapply wp_mono; [apply broadcast_casc| |done]. intros [] r2 H2.
  assert (H12 : publishes [] r r2) by exact (casc_published _ _ _ H2).
  destruct (peer o); [by apply wp_ret|].
  eapply wp_mono; [apply publishToPeers_publishes| |done]. intros [] r3 H3.
  exact (publishes_trans _ _ _ _ _ H12 H3).
Qed.

Lemma observers_publish us o r :
  wp (forM us (fun u => onDocUpdate u o))
     (fun _ => publishes (if peer o then [] else rev us) r) (fun _ => False) r.
Proof.
  revert r. induction us as [|u us IH]; intros r.
  - apply wp_ret. destruct (peer o); by apply publishes_nothing.
  - apply wp_bind. eapply wp_mono; [apply onDocUpdate_publishes| |done]. intros [] r1 H1.
    eapply wp_mono; [apply IH| |done]. intros [] r2 H2.
    pose proof (publishes_trans _ _ _ _ _ H1 H2) as H. by destruct (peer o).
Qed.

Lemma apply_live_publishes u o r :
  wp (apply_live u o)
     (fun _ => publishes (if peer o then [] else rev (ap_events (ApplyUpdate (doc (co r)) u))) r)
     (fun _ => False) r.
Proof.
  unfold apply_live, get_core, update_core. apply wp_bind, wp_gets, wp_bind, wp_modify, wp_bind. cbv beta.
  eapply wp_mono; [apply observers_publish| |done]. intros [] r' H. apply wp_ret. exact H.
Qed.

Lemma rebuildShadow_publishes r :
  wp rebuildShadow (fun _ r' => trace r' = trace r) (fun _ => True) r.
Proof.
  unfold rebuildShadow, replaceShadow, get_core, update_core, invariantFailed. apply wp_bind, wp_gets.
  destruct (cloneDoc _ _); [by apply wp_modify|by apply wp_panic].
Qed.

(** The chokepoint publishes the events of a member's update it lets through. *)
Lemma apply_checked_publishes u o r :
  wp (apply_checked u o)
     (fun res => publishes (if bool_decide (res = applyOK) && negb (peer o)
                            then rev (ap_events (ApplyUpdate (doc (co r)) u)) else []) r)
     (fun _ => True) r.
Proof.
  assert (Hlive : forall r1 (k : bool -> RM applyResult), doc (co r1) = doc (co r) -> trace r1 = trace r ->
    (forall ok r2, wp (k ok) (fun res r3 => res = applyOK /\ r3 = r2) (fun _ => True) r2) ->
    wp (ok ← apply_live u o; k ok)
       (fun res => publishes (if bool_decide (res = applyOK) && negb (peer o)
                              then rev (ap_events (ApplyUpdate (doc (co r)) u)) else []) r)
       (fun _ => True) r1).
  { intros r1 k Hd Ht Hk. apply wp_bind. eapply wp_mono; [apply apply_live_publishes| |done].
    intros ok r2 (new & Ht2 & Hp). eapply wp_mono; [apply Hk| |done]. intros res r3 [-> ->].
    exists new. rewrite Ht2, Ht, Hp, Hd. split; [done|]. by destruct (peer o). }
  unfold apply_checked, get_core, update_core, validateSchema. apply wp_bind, wp_gets.
  destruct (shadow (co r)) as [s|]; [|apply Hlive; [done..|intros; by apply wp_ret]].
  cbv zeta. apply wp_bind, wp_modify. set (r1 := upd_core _ r).
  assert (Hre : forall res, res <> applyOK -> wp (rebuildShadow;; ret res)
    (fun res => publishes (if bool_decide (res = applyOK) && negb (peer o)
                           then rev (ap_events (ApplyUpdate (doc (co r)) u)) else []) r) (fun _ => True) r1).
  { intros res Hres. apply wp_bind. eapply wp_mono; [apply rebuildShadow_publishes| |done].
    intros [] r2 Ht. apply wp_ret. rewrite bool_decide_eq_false_2 by done. by apply publishes_nothing. }
  destruct (negb (ap_ok (ApplyUpdate s u))); [by apply Hre|]. apply wp_bind. unfold get_core. apply wp_bind, wp_gets, wp_ret.
  destruct (validateStoredContent _ _); [by apply Hre|]. apply Hlive; [done..|].
  intros [] r2; [by apply wp_ret|by apply wp_panic].
Qed.
End Published.

(** ** A turn replays what it published *)

Section Tracked.
Context {Y : YCore} {P : Params} {L : YLaws Y} {Mg : YMerge Y}.
Context (Henc : forall d, is_Some (EncodeStateAsUpdateV2 d)).

(** From a document in schema: it stays in schema, it only grows, and what was published
    is what it integrated. *)
Definition tracked (r r' : Room) : Prop :=
  guarded (co r) ->
  guarded (co r') /\ exists us vs, publishes us r r'
    /\ Forall (acceptable (doc (co r))) us /\ Forall (acceptable (doc (co r))) vs
    /\ same (integrated (doc (co r'))) (replay (integrated (doc (co r))) us)
    /\ same (doc (co r')) (replay (doc (co r)) vs).

#[export] Instance tracked_preorder : PreOrder tracked.
Proof.
  split.
  - intros r Hg. split; [done|]. exists [], []. by split_and!; [apply publishes_nothing|constructor..| |].
  - intros r1 r2 r3 H1 H2 Hg. destruct (H1 Hg) as (Hg2 & us & vs & P1 & A1 & B1 & I1 & D1).
    destruct (H2 Hg2) as (Hg3 & us' & vs' & P2 & A2 & B2 & I2 & D2). split; [done|].
    apply (accepted_any _ (doc (co r1))) in A2, B2.
    exists (us' ++ us)%list, (vs ++ vs')%list. split_and!; [by eapply publishes_trans|by apply Forall_app..| |].
    + etrans; [exact I2|]. etrans; [apply (replay_proper us'), I1|]. rewrite <- replay_app.
      apply replay_perm; [solve_Permutation|]. apply (accepted_any (doc (co r1))). by apply Forall_app.
    + etrans; [exact D2|]. rewrite replay_app. by apply replay_proper.
Qed.

(** What a turn adds to the document. *)
Lemma tracked_adds r r' :
  tracked r r' -> guarded (co r) -> exists us, publishes us r r'
    /\ Forall (acceptable (doc (co r))) (us ++ waiting (doc (co r')))
    /\ same (doc (co r')) (replay (doc (co r)) (us ++ waiting (doc (co r')))).
Proof.
  intros H Hg. destruct (H Hg) as (_ & us & vs & P1 & A1 & B1 & I1 & D1). exists us. split_and!; [done| |].
  - apply Forall_app. split; [done|]. apply (accepted_any (doc (co r'))), law_waiting.
  - by apply (replay_integrated _ _ us vs).
Qed.

(** Nothing happened to the documents. *)
Lemma tracked_still r r' :
  kept guarded r r' -> doc (co r') = doc (co r) -> publishes [] r r' -> tracked r r'.
Proof. intros Hk Hd Hp Hg. split; [by apply Hk|]. exists [], []. rewrite Hd. by split_and!. Qed.

Lemma tracked_silent r r' :
  kept guarded r r' -> doc (co r') = doc (co r) -> trace r' = trace r -> tracked r r'.
Proof. intros ? ? ?. apply tracked_still; [done..|]. by apply publishes_nothing. Qed.

Lemma tracked_log e r : published_of e = None -> tracked r (log e r).
Proof. intros He. apply tracked_still; [by intros H|done|]. exists [e]. split; [done|]. simpl. by rewrite He. Qed.

#[export] Instance tracked_send : SendRel tracked.
Proof.
  split.
  - apply tracked_preorder.
  - intros e r He. apply tracked_log. destruct e; try done. simpl in *. by subst ephemeral.
  - intros r r' Hc. apply tracked_still; [by apply rr_casc|by rewrite (casc_core _ _ _ Hc)|].
    exact (casc_published _ _ _ Hc).
  - intros id m m' r Hm Hu. apply tracked_silent; [by intros H|done..].
Qed.

#[export] Instance tracked_room : RoomRel tracked.
Proof.
  split.
  - apply tracked_send.
  - intros f r Hf. apply tracked_silent; [by apply rr_core|by destruct (proj1 Hf (co r)) as ((_ & ? & _) & _)|done].
  - intros a o r. apply tracked_silent; [by intros H|done..].
  - intros r r' _ Hc. apply tracked_still; [intros Hg; by rewrite (casc_core _ _ _ Hc)
      |by rewrite (casc_core _ _ _ Hc)|exact (casc_published _ _ _ Hc)].
  - intros id m r Hm Hp. apply tracked_still; [by intros H|done|by exists [EMetric ConnOpened]].
Qed.

#[export] Instance tracked_save : SaveRel tracked.
Proof.
  split; [split; [apply tracked_room|]|intros; by apply tracked_log..].
  intros f r Hf. apply tracked_silent; [by apply cr_count|by destruct (Hf (co r)) as ((_ & ? & _) & _)|done].
Qed.

(** What the screen lets into a room in schema. *)
Definition screens (r : Room) (u : bytes) : bool :=
  let res := ApplyUpdate (doc (co r)) u in
  ap_ok res && match validateStoredContent (content (co r)) (ap_doc res) with None => true | Some _ => false end.

Lemma rebuild_verdict res r (ok : bool) :
  (res = applyOK <-> ok = true) ->
  wp (rebuildShadow;; ret res) (fun res' _ => res' = applyOK <-> ok = true) (fun _ => True) r.
Proof.
  intros H. apply wp_bind. eapply wp_mono; [apply rebuild_returns| |done]. intros [] r1 _. by apply wp_ret.
Qed.

(** The chokepoint's verdict. *)
Lemma apply_checked_verdict u o r :
  guarded (co r) ->
  wp (apply_checked u o) (fun res _ => res = applyOK <-> screens r u = true) (fun _ => True) r.
Proof.
  intros (s & Hsh & Hsame & _). unfold apply_checked, get_core, update_core, validateSchema, screens.
  apply wp_bind, wp_gets. rewrite Hsh. cbv zeta. apply wp_bind, wp_modify.
  destruct (law_same s (doc (co r)) u Hsame) as [<- Hdocs].
  destruct (ap_ok (ApplyUpdate s u)) eqn:Hok; simpl; [|by apply rebuild_verdict].
  apply wp_bind. unfold get_core. apply wp_bind, wp_gets, wp_ret. simpl.
  rewrite <- (validate_same _ _ _ Hdocs). destruct (validateStoredContent _ _); [by apply rebuild_verdict|].
  apply wp_bind. eapply wp_mono; [apply apply_live_docs| |done].
  intros [] r2 _; [by apply wp_ret|by apply wp_panic].
Qed.

(** What an update that came past the size check did to a room in schema. *)
Definition checked (u : bytes) (o : updateOrigin) (r r' : Room) (res : applyResult) : Prop :=
  guarded (co r')
  /\ (res = applyOK <-> screens r u = true)
  /\ doc (co r') = (if screens r u then ap_doc (ApplyUpdate (doc (co r)) u) else doc (co r))
  /\ publishes (if screens r u && negb (peer o) then rev (ap_events (ApplyUpdate (doc (co r)) u)) else []) r r'.

Lemma apply_checked_wp u o r :
  guarded (co r) -> wp (apply_checked u o) (fun res r' => checked u o r r' res) (fun _ => False) r.
Proof.
  intros Hg.
  eapply wp_mono; [exact (wp_and _ _ _ _ _ _ (wp_and _ _ _ _ _ _ (apply_checked_guarded Henc u o r Hg)
    (apply_checked_publishes u o r)) (apply_checked_verdict u o r Hg))| |by intros r' [[[] _] _]].
  intros res r' [[(H1 & H2 & H3) H4] H5]. split; [done|]. split; [done|]. split.
  - destruct (screens r u) eqn:E; [by apply H3, H5|]. destruct H2 as [->|H2]; [|done].
    discriminate (proj1 H5 eq_refl).
  - replace (bool_decide (res = applyOK)) with (screens r u) in H4; [done|].
    case_bool_decide as Hr; [by apply H5|]. apply not_true_is_false. intros E. by apply Hr, H5.
Qed.

Lemma screens_accepted r u : screens r u = true -> acceptable (doc (co r)) u.
Proof. unfold screens, acceptable. by intros [? _]%andb_true_iff. Qed.

(** A member's update, refused or applied. *)
Lemma checked_tracked u s r r' res : checked u (mkOrigin s false) r r' res -> tracked r r'.
Proof.
  intros (H1 & _ & H3 & H4) _. split; [done|]. rewrite andb_true_r in H4.
  destruct (screens r u) eqn:E; [|exists [], []; rewrite H3; by split_and!].
  pose proof (screens_accepted _ _ E) as Hu. destruct (law_events _ _ Hu) as [Ha Hs].
  exists (rev (ap_events (ApplyUpdate (doc (co r)) u))), [u]. split_and!; [exact H4| | | |].
  - by rewrite <- Permutation_rev.
  - by apply Forall_singleton.
  - rewrite H3. etrans; [exact Hs|]. apply replay_perm; [apply Permutation_rev|].
    by apply (accepted_any (doc (co r))).
  - by rewrite H3.
Qed.

#[export] Instance tracked_handler : HandlerRel tracked.
Proof.
  split; [apply tracked_room|]. intros u s r.
  pose proof (apply_checked_rel held u (mkOrigin s false)) as Hsteps.
  eapply wp_mono; [apply (wp_given held (guarded (co r)) _ _ _ _ Hsteps (apply_checked_wp u (mkOrigin s false) r))| |].
  - intros res r' H Hg. by apply (checked_tracked u s r r' res (H Hg)).
  - intros r' H Hg. destruct (H Hg).
Qed.
(** Every event but an update of another pod. *)
Definition not_peer (ev : loop_event) : Prop := forall data, ev <> LPeer data false.

#[export] Instance tracked_turn : TurnRel not_peer tracked.
Proof.
  split.
  - apply tracked_handler.
  - intros u s [data H]. destruct (H data eq_refl).
  - apply (save_turn tracked). intros s v r _ _ _. apply (saved_by tracked). apply tracked_still; [by intros H|done|].
    by eexists [_; _].
  - intros b r _. apply tracked_silent; [by intros H|done..].
  - intros id conn identity mode now r _. apply tracked_silent; [by intros H|done..].
Qed.

Lemma member_turn n ev r r' :
  fair_range -> live n r -> (n + 1 < 2 ^ 64)%Z -> not_peer ev -> run_step ev r = Running r' -> tracked r r'.
Proof. intros Hf. apply (turn_rel Hf not_peer tracked). Qed.

(** A room in schema takes another pod's update or refuses it, and passes it on to no
    pod. *)
Definition takes (u : bytes) (r r' : Room) : Prop :=
  guarded (co r')
  /\ doc (co r') = (if screens r u then ap_doc (ApplyUpdate (doc (co r)) u) else doc (co r))
  /\ publishes [] r r'.

Lemma would_exceed_silent u r :
  wp (applyWouldExceedMaxDocBytes u)
     (fun _ r' => trace r' = trace r /\ exists n, co r' = co r \/ co r' = set_docBytes n (co r)) (fun _ => False) r.
Proof.
  unfold applyWouldExceedMaxDocBytes, get_core, update_core. cbv zeta. apply wp_bind, wp_gets.
  apply wp_if; intros _; [by apply wp_ret; split; [|exists 0%Z; left]|].
  apply wp_if; intros _; [by apply wp_ret; split; [|exists 0%Z; left]|].
  apply wp_bind, wp_gets. destruct (EncodeStateAsUpdateV2 _) as [b|]; [|by apply wp_ret; split; [|exists 0%Z; left]].
  apply wp_bind, wp_modify, wp_ret. split; [done|]. exists (blen b). by right.
Qed.

Lemma applyUpdate_takes u s r :
  guarded (co r) -> wp (applyUpdate u (mkOrigin s true)) (fun _ => takes u r) (fun _ => False) r.
Proof.
  intros Hg. unfold applyUpdate. apply wp_bind.
  eapply wp_mono; [apply would_exceed_silent| |done]. intros too r1 (Ht & n & Hr1).
  simpl. rewrite andb_false_r.
  assert (Hg1 : guarded (co r1)) by (by destruct Hr1 as [->| ->]).
  assert (Hs : screens r1 u = screens r u) by (unfold screens; by destruct Hr1 as [->| ->]).
  assert (Hd : doc (co r1) = doc (co r)) by (by destruct Hr1 as [->| ->]).
  eapply wp_mono; [by apply apply_checked_wp| |done].
  intros res r2 (H1 & _ & H3 & (new & T2 & P2)). rewrite Hs, Hd in H3. split_and!; [done|done|].
  exists new. rewrite T2, Ht. split; [done|]. by rewrite andb_false_r in P2.
Qed.

Lemma takes_after u r r1 r2 : takes u r r1 -> co r2 = co r1 \/ (exists t, co r2 = set_saveTimer t (co r1)) ->
  trace r2 = trace r1 -> takes u r r2.
Proof.
  intros (H1 & H2 & new & T & Hp) Hco Ht.
  split_and!; [by destruct Hco as [->|[t ->]]|by destruct Hco as [->|[t ->]]|].
  exists new. by rewrite Ht, T.
Qed.

Lemma peer_turn u r r' : guarded (co r) -> run_step (LPeer u false) r = Running r' -> takes u r r'.
Proof.
  intros Hg Hs.
  assert (H : wp (run_event (LPeer u false)) (fun go r1 => takes u r r1) (fun _ => False) r).
  { simpl. unfold get_core. apply wp_bind, wp_bind, wp_gets, wp_bind.
    eapply wp_mono; [by apply applyUpdate_takes| |done]. intros res r1 H1. apply wp_bind, wp_gets, wp_ret.
    apply wp_bind. destruct (_ && _); simpl; [|by apply wp_ret, wp_ret].
    unfold armSaveTimer. apply wp_if; intros _; [by apply wp_ret, wp_ret|].
    apply wp_modify, wp_ret. apply (takes_after u r r1); [done|right; by eexists|done]. }
  unfold wp in H. unfold run_step in Hs. destruct (run_event _ r) as [[] r1|r1|]; [|done..].
  by injection Hs as <-.
Qed.
#[local] Instance dirtier_peer : PeerRel (traced dirtier_core).
Proof.
  apply peer_rel; [typeclasses eauto|]. intros u o.
  apply apply_checked_by; [typeclasses eauto|apply dirtier_update|intros; by apply rr_emit| |intros; by apply rr_casc].
  intros v ok r. apply (traced_log dirtier_core); [by intros [? ?]|by intros (? & ? & ? & ?)..].
Qed.

(** Presence leaves the document alone. *)
Lemma presence_turn u r r' : run_step (LPeer u true) r = Running r' -> tracked r r' /\ doc (co r') = doc (co r).
Proof.
  intros Hs.
  assert (H : forall R `{!RoomRel R}, steps R (run_event (LPeer u true))).
  { intros R HR. pose proof (applyPeerEphemeral_rel R). pose proof (armSaveTimer_rel R).
    simpl. unfold handlePeer. steps_tac. }
  pose proof (H tracked _ r) as H1. pose proof (H frozen _ r) as H2. unfold wp in H1, H2. unfold run_step in Hs.
  destruct (run_event _ r) as [[] r1|r1|]; [|done| |done].
  - injection Hs as <-. split; [exact H1|apply H2].
  - by destruct (recover_teardown r1).
Qed.

(** The loop goes on after what another pod sent, and passes nothing on. *)
Lemma peer_turn_runs u (e : bool) r :
  guarded (co r) ->
  exists r', run_step (LPeer u e) r = Running r' /\ publishes [] r r'
    /\ row_fields (co r') = row_fields (co r).
Proof.
  intros Hg.
  assert (H : wp (run_event (LPeer u e)) (fun go _ => go = true) (fun _ => False) r).
  { simpl. apply wp_bind. apply (wp_mono _ (fun _ _ => True) _ (fun _ => False)); [|intros b r1 _|done].
    - assert (Hb : forall r1, wp (broadcast (WBytes u) 0) (fun _ _ => True) (fun _ => False) r1).
      { intros r1. by eapply wp_mono; [apply broadcast_casc| |]. }
      unfold handlePeer, applyPeerEphemeral, get_core. destruct e.
      + apply wp_bind. apply (wp_mono _ (fun _ _ => True) _ (fun _ => False)); [|intros; by apply wp_ret|done].
        destruct (InspectMessage u); [|by apply wp_ret]. apply wp_if; intros _.
        * destruct (awarenessBody u); [|by apply wp_ret]. by apply wp_bind, wp_modify.
        * by apply wp_if; intros _; [|apply wp_ret].
      + apply wp_bind, wp_gets, wp_bind. eapply wp_mono; [by apply applyUpdate_takes| |done].
        intros. by apply wp_bind, wp_gets, wp_ret.
    - apply wp_bind. destruct b; simpl; [|by apply wp_ret, wp_ret].
      unfold armSaveTimer. apply wp_if; intros _; [by apply wp_ret, wp_ret|]. by apply wp_modify, wp_ret. }
  pose proof (peer_event_unpublished u e r) as Hp. 
  assert (Hr : steps (traced dirtier_core) (run_event (LPeer u e))).
  { pose proof (armSaveTimer_rel (traced dirtier_core)). simpl. steps_tac. }
  specialize (Hr r). unfold wp in H, Hp, Hr. unfold run_step in *. destruct (run_event _ r) as [[] r1|r1|]; [|done..].
  exists r1. split; [done|]. split; [|apply Hr].
  destruct Hp as (new & Hn & Hf). exists new. split; [done|]. clear -Hf.
  induction Hf as [|x l Hx _ IH]; [done|]. destruct x as [| | |[] payload ok| | | | | | | | |]; try exact IH.
  destruct Hx. by exists payload, ok.
Qed.
End Tracked.
