(* ===== verification/Manager.v ===== *)
(** * Admission: the manager and the sessions (manager.go; room.go's command queue)

    [enqueueWithReason] and [Forward]: what becomes of a command handed to a room.
    [authorizeSession] and [requireDocument]: what a join must pass first.
    [mgr]: the registry shared by joins, deletions, releases and shutdown.  Every
    section of the code under [Manager.mu] is one event, and so is each call that moves
    the rooms gauge, made after the unlock; between two events of one goroutine any events
    of the others may come. *)

From stdpp Require Import base gmap sets list strings.
From Stdlib Require Import ZArith NArith String Lia.
From S2P Require Import Prelude Control Lifecycle Core RoomState RoomFanout RoomBarrier.
From S2P Require Import RoomApply RoomLife RoomLoop Fixture RoomSpec.

Local Open Scope string_scope.

(** ** The command queue *)

Inductive enqueueOutcome := enqueueAdmitted | enqueueRefusedInactive | enqueueRefusedBackpressure.
#[export] Instance enqueueOutcome_eq_dec : EqDecision enqueueOutcome.
Proof. solve_decision. Defined.

(** The first, non-blocking select, and what ended the blocking one. *)
Inductive attempt := SlotFree | DoneClosed | QueueFull.
Inductive wake := WokeSlot | WokeDone | WokeTimeout (lc_then : roomState).

Definition classifyRefusal (lc_now : roomState) : enqueueOutcome :=
  if bool_decide (lc_now = stateActive) then enqueueRefusedBackpressure else enqueueRefusedInactive.

Definition enqueueWithReason (lc_now : roomState) (first : attempt) (later : wake) : enqueueOutcome :=
  if negb (bool_decide (lc_now = stateActive)) then enqueueRefusedInactive
  else match first with
       | SlotFree => enqueueAdmitted
       | DoneClosed => enqueueRefusedInactive
       | QueueFull =>
           match later with
           | WokeSlot => enqueueAdmitted
           | WokeDone => enqueueRefusedInactive
           | WokeTimeout lc_then => classifyRefusal lc_then
           end
       end.

Definition enqueueCtx (lc_now : roomState) (first : attempt) (later : wake) : bool :=
  bool_decide (enqueueWithReason lc_now first later = enqueueAdmitted).

(** ** Sessions *)

Definition maxHeartbeatFrameBytes : Z := 256.

Record Session := mkSession { se_id : connID; se_conn : option Conn; se_dropped : bool }.

(** What a session does to the room and to its own connection. *)
Inductive session_effect :=
| Queued (cmd : command)
| Echoed (c : Conn) (frame : bytes)
| Told (c : Conn) (f : wire_frame)
| Closed (c : Conn) (e : SessionEnd).

Section Sessions.
Context {Y : YCore}.

Definition is_heartbeat (frame : bytes) : bool :=
  match ReadMessage frame with Some (t, _) => (t =? WireHeartbeat)%N | None => false end.

(** The announcement of a refused frame, straight to the session's connection. *)
Definition announce_refusal (s : Session) : list session_effect :=
  match se_conn s, NewSessionEnd CodeUpdateNotAccepted with
  | Some c, Some e =>
      (match encodeControl (end_control e) with Some f => [Told c f] | None => [] end ++ [Closed c e])%list
  | _, _ => []
  end.

(** [Session.Forward]; [outcome] is what the queue answers. *)
Definition Forward (s : Session) (frame : bytes) (outcome : enqueueOutcome) : Session * list session_effect :=
  if is_heartbeat frame then
    (s, match se_conn s with
        | Some c => if (blen frame <=? maxHeartbeatFrameBytes)%Z then [Echoed c frame] else []
        | None => []
        end)
  else
    match outcome with
    | enqueueAdmitted => (s, [Queued (cmdMessage (se_id s) frame (se_dropped s))])
    | enqueueRefusedInactive => (mkSession (se_id s) (se_conn s) true, [])
    | enqueueRefusedBackpressure =>
        (mkSession (se_id s) (se_conn s) true, if se_dropped s then [] else announce_refusal s)
    end.

(** [Session.Activate]: the room's answer, its end, or the caller's deadline. *)
Inductive completion (A : Type) := Answered (a : A) | RoomGone | DeadlinePassed.
Arguments Answered {A}. Arguments RoomGone {A}. Arguments DeadlinePassed {A}.

Inductive activateError := ActivateUnavailable | ActivateDeadline | ActivateRefused (e : joinError).
Definition Activate (queued deadline_passed : bool) (res : completion (option joinError)) : option activateError :=
  if negb queued then Some (if deadline_passed then ActivateDeadline else ActivateUnavailable)
  else match res with
       | Answered None => None
       | Answered (Some e) => Some (ActivateRefused e)
       | RoomGone => Some ActivateUnavailable
       | DeadlinePassed => Some ActivateDeadline
       end.

(** [Session.Leave] *)
Definition Leave (s : Session) (queued : bool) : list session_effect :=
  if queued then [Queued (cmdLeave (se_id s))] else [].

(** [Manager.SendBuffer]: the depth of a connection's outbound queue. *)
Definition manager_SendBuffer (cfg : RoomConfig) : Z :=
  if (SendBuffer cfg <=? 0)%Z then SendBuffer DefaultRoomConfig else SendBuffer cfg.

(** A session's frames one after another, with the queue's answers. *)
Fixpoint forward_all (s : Session) (fs : list (bytes * enqueueOutcome)) : Session * list session_effect :=
  match fs with
  | [] => (s, [])
  | (f, o) :: fs' =>
      let '(s1, e1) := Forward s f o in
      let '(s2, e2) := forward_all s1 fs' in (s2, (e1 ++ e2)%list)
  end.
End Sessions.

(** ** What a join must pass *)

Inductive joinFailure :=
| AuthFailed | ErrForbidden | ErrDocumentUnknown | MetadataUnavailable
| ManagerShuttingDown | RoomUnavailable | RoomFull | MaterializeFailed.
#[export] Instance joinFailure_eq_dec : EqDecision joinFailure.
Proof. solve_decision. Defined.

(** [AuthZ.Evaluate] answers a decision or an error ([None]). *)
Definition authorizeSession (evaluate : Privilege -> option AuthDecision) : joinFailure + CollaboratorMode :=
  match evaluate PrivilegeRead with
  | None => inl AuthFailed
  | Some read =>
      if negb (Allowed read) then inl ErrForbidden
      else match evaluate PrivilegeUpdateContent with
           | None => inl AuthFailed
           | Some write => inr (if Allowed write then ModeCollaborator else ModeViewer)
           end
  end.

Definition requireDocument (row : load_answer) : joinFailure + Metadata :=
  match row with
  | NotFound => inl ErrDocumentUnknown
  | LoadFailed => inl MetadataUnavailable
  | Loaded m => if negb (m_Migrated m) then inl ErrForbidden else inr m
  end.

(** ** The registry *)

Definition deleteTombstoneTTL : Z := 300 * second.

(** A room the manager made: being registered, serving, tearing down, over ([done] is
    closed, [onReleased] still to run), gone. *)
Inductive phase := Built | Serving | Ending | Over | Gone.
#[export] Instance phase_eq_dec : EqDecision phase.
Proof. solve_decision. Defined.

(** The shared materialization of one document: [fl_epoch] is its leader's.  [FOpen]: the
    room is registered, its opening not yet reported and its loop not yet started. *)
Inductive flight_pc :=
| FLook | FBuild | FRegister (room : nat) | FOpen (room : nat) | FDone (res : joinFailure + nat).
Record shared := mkShared { fl_epoch : Z; fl_pc : flight_pc }.

(** Where a join is: past the tombstone check, past the existence read, waiting for
    the shared materialization, holding its result, or done.  A join whose room ends
    before answering acquires again, with the epoch it has ([EvRetry]). *)
Inductive join_pc :=
| JEpoch (doc : DocumentID) (epoch : Z)
| JRow (doc : DocumentID) (epoch : Z)
| JWait (doc : DocumentID) (epoch : Z)
| JGot (doc : DocumentID) (epoch : Z) (room : nat)
| JAcquired (doc : DocumentID) (epoch : Z) (room : nat)
| JFailed (e : joinFailure).

(** [opening] and [leaving]: the rooms whose [metrics.RoomOpened] or [metrics.RoomClosed]
    is still to be called, which the code does after it has released the lock. *)
Record mgr := mkMgr {
  rooms : gmap DocumentID nat;
  tombstones : gmap DocumentID Z;
  closed : bool;
  deleteEpoch : Z;
  made : gmap nat (DocumentID * phase);
  nextRoom : nat;
  flights : gmap DocumentID shared;
  joins : gmap nat join_pc;
  roomsGauge : Z;
  nudged : list nat;
  opening : gset nat;
  leaving : gset nat }.

Definition NewManager : mgr := mkMgr ∅ ∅ false 0 ∅ 0 ∅ ∅ 0 [] ∅ ∅.

Inductive event :=
| EvBegin (j : nat) (doc : DocumentID) (now : Z)
| EvRow (j : nat) (row : load_answer)
| EvEnter (j : nat)
| EvLook (doc : DocumentID)
| EvBuilt (doc : DocumentID) (ok : bool)
| EvRegister (doc : DocumentID)
| EvOpened (doc : DocumentID)
| EvShare (doc : DocumentID)
| EvCheck (j : nat)
| EvRetry (j : nat)
| EvDelete (doc : DocumentID) (now : Z)
| EvExpire (doc : DocumentID) (expires : Z)
| EvTeardown (room : nat)
| EvOver (room : nat)
| EvReleased (room : nat)
| EvCountedOut (room : nat)
| EvClose.

Definition set_join (j : nat) (pc : join_pc) (s : mgr) : mgr :=
  mkMgr (rooms s) (tombstones s) (closed s) (deleteEpoch s) (made s) (nextRoom s) (flights s)
    (<[j := pc]> (joins s)) (roomsGauge s) (nudged s) (opening s) (leaving s).
Definition set_flight (doc : DocumentID) (f : option shared) (s : mgr) : mgr :=
  mkMgr (rooms s) (tombstones s) (closed s) (deleteEpoch s) (made s) (nextRoom s)
    (partial_alter (fun _ => f) doc (flights s)) (joins s) (roomsGauge s) (nudged s) (opening s) (leaving s).
Definition set_tombs (t : gmap DocumentID Z) (s : mgr) : mgr :=
  mkMgr (rooms s) t (closed s) (deleteEpoch s) (made s) (nextRoom s) (flights s) (joins s)
    (roomsGauge s) (nudged s) (opening s) (leaving s).
Definition set_phase (r : nat) (doc : DocumentID) (p : phase) (s : mgr) : mgr :=
  mkMgr (rooms s) (tombstones s) (closed s) (deleteEpoch s) (<[r := (doc, p)]> (made s)) (nextRoom s)
    (flights s) (joins s) (roomsGauge s) (nudged s) (opening s) (leaving s).
Definition set_rooms (m : gmap DocumentID nat) (s : mgr) : mgr :=
  mkMgr m (tombstones s) (closed s) (deleteEpoch s) (made s) (nextRoom s) (flights s) (joins s)
    (roomsGauge s) (nudged s) (opening s) (leaving s).
Definition set_counts (g : Z) (o l : gset nat) (s : mgr) : mgr :=
  mkMgr (rooms s) (tombstones s) (closed s) (deleteEpoch s) (made s) (nextRoom s) (flights s) (joins s)
    g (nudged s) o l.

(** The tombstone check of [Join] and its capture of the epoch. *)
Definition begin_join (j : nat) (doc : DocumentID) (now : Z) (s : mgr) : mgr :=
  match tombstones s !! doc with
  | Some expires =>
      if (now <? expires)%Z then set_join j (JFailed ErrForbidden) s
      else set_join j (JEpoch doc (deleteEpoch s)) (set_tombs (delete doc (tombstones s)) s)
  | None => set_join j (JEpoch doc (deleteEpoch s)) s
  end.

(** The registration of a freshly materialized room. *)
Definition register (doc : DocumentID) (epoch : Z) (r : nat) (s : mgr) : mgr :=
  if negb (deleteEpoch s =? epoch)%Z then
    set_flight doc (Some (mkShared epoch (FDone (inl RoomUnavailable)))) (set_phase r doc Ending s)
  else if closed s then
    set_flight doc (Some (mkShared epoch (FDone (inl ManagerShuttingDown)))) (set_phase r doc Ending s)
  else
    set_flight doc (Some (mkShared epoch (FOpen r)))
      (set_phase r doc Serving
        (set_counts (roomsGauge s) ({[r]} ∪ opening s) (leaving s) (set_rooms (<[doc := r]> (rooms s)) s))).

(** After the unlock: [metrics.RoomOpened], then [startRoom]. *)
Definition opened (doc : DocumentID) (epoch : Z) (r : nat) (s : mgr) : mgr :=
  set_flight doc (Some (mkShared epoch (FDone (inr r))))
    (set_counts (roomsGauge s + 1) (opening s ∖ {[r]}) (leaving s) s).

(** [sf.Do] returns to everyone who waited. *)
Definition share_one (doc : DocumentID) (res : joinFailure + nat) (pc : join_pc) : join_pc :=
  match pc with
  | JWait d e => if String.eqb d doc then match res with inl f => JFailed f | inr r => JGot d e r end else pc
  | _ => pc
  end.
Definition share (doc : DocumentID) (res : joinFailure + nat) (s : mgr) : mgr :=
  mkMgr (rooms s) (tombstones s) (closed s) (deleteEpoch s) (made s) (nextRoom s)
    (delete doc (flights s)) (share_one doc res <$> joins s) (roomsGauge s) (nudged s) (opening s) (leaving s).

(** [Manager.remove], up to its unlock, and the [metrics.RoomClosed] after it. *)
Definition remove (doc : DocumentID) (r : nat) (s : mgr) : mgr :=
  if bool_decide (rooms s !! doc = Some r)
  then set_counts (roomsGauge s) (opening s) ({[r]} ∪ leaving s) (set_rooms (delete doc (rooms s)) s)
  else s.
Definition counted_out (r : nat) (s : mgr) : mgr :=
  set_counts (roomsGauge s - 1) (opening s) (leaving s ∖ {[r]}) s.

Definition step (ev : event) (s : mgr) : option mgr :=
  match ev with
  | EvBegin j doc now =>
      match joins s !! j with Some _ => None | None => Some (begin_join j doc now s) end
  | EvRow j row =>
      match joins s !! j with
      | Some (JEpoch doc e) =>
          Some (set_join j (match requireDocument row with inl f => JFailed f | inr _ => JRow doc e end) s)
      | _ => None
      end
  | EvEnter j =>
      match joins s !! j with
      | Some (JRow doc e) =>
          let s1 := set_join j (JWait doc e) s in
          Some (match flights s !! doc with
                | Some _ => s1
                | None => set_flight doc (Some (mkShared e FLook)) s1
                end)
      | _ => None
      end
  | EvLook doc =>
      match flights s !! doc with
      | Some (mkShared e FLook) =>
          Some (set_flight doc (Some (mkShared e
            (match rooms s !! doc with
             | Some r => FDone (inr r)
             | None => if closed s then FDone (inl ManagerShuttingDown) else FBuild
             end))) s)
      | _ => None
      end
  | EvBuilt doc ok =>
      match flights s !! doc with
      | Some (mkShared e FBuild) =>
          Some (if ok : bool then
                  set_flight doc (Some (mkShared e (FRegister (nextRoom s))))
                    (mkMgr (rooms s) (tombstones s) (closed s) (deleteEpoch s)
                       (<[nextRoom s := (doc, Built)]> (made s)) (S (nextRoom s)) (flights s) (joins s)
                       (roomsGauge s) (nudged s) (opening s) (leaving s))
                else set_flight doc (Some (mkShared e (FDone (inl MaterializeFailed)))) s)
      | _ => None
      end
  | EvRegister doc =>
      match flights s !! doc with
      | Some (mkShared e (FRegister r)) => Some (register doc e r s)
      | _ => None
      end
  | EvOpened doc =>
      match flights s !! doc with
      | Some (mkShared e (FOpen r)) => Some (opened doc e r s)
      | _ => None
      end
  | EvShare doc =>
      match flights s !! doc with
      | Some (mkShared _ (FDone res)) => Some (share doc res s)
      | _ => None
      end
  | EvCheck j =>
      match joins s !! j with
      | Some (JGot doc e r) =>
          Some (if negb (deleteEpoch s =? e)%Z then
                  let s1 := set_join j (JFailed RoomUnavailable) s in
                  mkMgr (rooms s1) (tombstones s1) (closed s1) (deleteEpoch s1) (made s1) (nextRoom s1)
                    (flights s1) (joins s1) (roomsGauge s1) (r :: nudged s1) (opening s1) (leaving s1)
                else set_join j (JAcquired doc e r) s)
      | _ => None
      end
  | EvRetry j =>
      match joins s !! j with
      | Some (JAcquired doc e _) => Some (set_join j (JRow doc e) s)
      | _ => None
      end
  | EvDelete doc now =>
      Some (mkMgr (rooms s) (<[doc := (now + deleteTombstoneTTL)%Z]> (tombstones s)) (closed s)
              (u64 (deleteEpoch s + 1)) (made s) (nextRoom s) (flights s) (joins s) (roomsGauge s) (nudged s) (opening s) (leaving s))
  | EvExpire doc expires =>
      Some (if bool_decide (tombstones s !! doc = Some expires)
            then set_tombs (delete doc (tombstones s)) s else s)
  | EvTeardown r =>
      match made s !! r with
      | Some (doc, Serving) =>
          if bool_decide (r ∈ opening s) then None else Some (set_phase r doc Ending s)
      | _ => None
      end
  | EvOver r =>
      match made s !! r with
      | Some (doc, Ending) => Some (set_phase r doc Over s)
      | _ => None
      end
  | EvReleased r =>
      match made s !! r with
      | Some (doc, Over) => Some (set_phase r doc Gone (remove doc r s))
      | _ => None
      end
  | EvCountedOut r => if bool_decide (r ∈ leaving s) then Some (counted_out r s) else None
  | EvClose =>
      Some (mkMgr (rooms s) (tombstones s) true (deleteEpoch s) (made s) (nextRoom s) (flights s)
              (joins s) (roomsGauge s) (nudged s) (opening s) (leaving s))
  end.

Fixpoint run (evs : list event) (s : mgr) : option mgr :=
  match evs with
  | [] => Some s
  | ev :: evs' => match step ev s with Some s' => run evs' s' | None => None end
  end.

(** [Manager.RoomCount] *)
Definition RoomCount (s : mgr) : nat := size (rooms s).

(** ** Refused frames *)

Section Refusals.
Context {Y : YCore}.

Definition announces (e : session_effect) : bool := match e with Closed _ _ => true | _ => false end.
Definition announcements (l : list session_effect) : nat := List.length (List.filter announces l).

Lemma forward_poisoned s f o :
  se_dropped s = true ->
  se_dropped (Forward s f o).1 = true /\ announcements (Forward s f o).2 = 0
  /\ forall cmd, Queued cmd ∈ (Forward s f o).2 -> cmd = cmdMessage (se_id s) f true.
Proof.
  intros Hd. unfold Forward. destruct (is_heartbeat f); simpl.
  - destruct (se_conn s); [destruct (_ <=? _)%Z|]; simpl; (split_and!; [done..|]); set_solver.
  - destruct o; simpl; rewrite ?Hd; split_and!; try done; intros cmd Hin; [|set_solver..].
    apply list_elem_of_singleton in Hin. by injection Hin as ->.
Qed.

Lemma forward_all_poisoned s fs :
  se_dropped s = true ->
  announcements (forward_all s fs).2 = 0
  /\ forall cmd, Queued cmd ∈ (forward_all s fs).2 -> exists f, cmd = cmdMessage (se_id s) f true.
Proof.
  revert s. induction fs as [|[f o] fs IH]; intros s Hd; simpl; [split; [done|set_solver]|].
  destruct (forward_poisoned s f o Hd) as (H1 & H2 & H3).
  assert (Hid : se_id (Forward s f o).1 = se_id s).
  { unfold Forward. destruct (is_heartbeat f); [done|by destruct o]. }
  destruct (Forward s f o) as [s1 e1]. simpl in *. destruct (IH s1 H1) as [H4 H5].
  destruct (forward_all s1 fs) as [s2 e2]. simpl in *. split.
  - unfold announcements in *. rewrite List.filter_app, length_app. lia.
  - intros cmd [Hin|Hin]%elem_of_app; [exists f; by apply H3|]. rewrite <- Hid. by apply H5.
Qed.

Lemma forward_announcements s f o :
  announcements (Forward s f o).2 <= 1
  /\ (announcements (Forward s f o).2 = 1 -> o = enqueueRefusedBackpressure /\ se_dropped (Forward s f o).1 = true).
Proof.
  unfold Forward. destruct (is_heartbeat f); simpl.
  - destruct (se_conn s); [destruct (_ <=? _)%Z|]; simpl; unfold announcements; simpl; split; try done; lia.
  - destruct o; simpl; unfold announcements; simpl; [split; [lia|done]..|].
    destruct (se_dropped s); simpl; [split; [lia|done]|].
    unfold announce_refusal. destruct (se_conn s); simpl; (split; [lia|done]).
Qed.

Lemma forward_all_announcements s fs : announcements (forward_all s fs).2 <= 1.
Proof.
  revert s. induction fs as [|[f o] fs IH]; intros s; simpl; [by unfold announcements; simpl; lia|].
  destruct (forward_announcements s f o) as [H1 H2]. destruct (Forward s f o) as [s1 e1]. simpl in *.
  pose proof (IH s1) as H3. pose proof (forward_all_poisoned s1 fs) as H4.
  destruct (forward_all s1 fs) as [s2 e2]. simpl in *.
  unfold announcements in *. rewrite List.filter_app, length_app.
  destruct (decide (List.length (List.filter announces e1) = 1)) as [E|]; [|lia].
  destruct (H4 (proj2 (H2 E))) as [H5 _]. lia.
Qed.

End Refusals.

(** ** Admission and deletion *)

Definition is_delete (ev : event) : bool := match ev with EvDelete _ _ => true | _ => false end.
Definition deletes (evs : list event) : Z := Z.of_nat (List.length (List.filter is_delete evs)).

Lemma step_epoch ev s s' :
  step ev s = Some s' ->
  deleteEpoch s' = if is_delete ev then u64 (deleteEpoch s + 1) else deleteEpoch s.
Proof.
  destruct ev; simpl; intros H; repeat case_match; simplify_eq/=; try done.
  - unfold begin_join. by repeat case_match.
  - unfold register. by repeat case_match.
  - unfold remove. by case_bool_decide.
Qed.

Lemma u64_add a b : u64 (u64 a + b) = u64 (a + b).
Proof. unfold u64. by rewrite Zplus_mod_idemp_l. Qed.

Lemma run_epoch evs s s' :
  run evs s = Some s' -> deleteEpoch s = u64 (deleteEpoch s) ->
  deleteEpoch s' = u64 (deleteEpoch s + deletes evs).
Proof.
  revert s. induction evs as [|ev evs IH]; intros s H Hr; simpl in H.
  - injection H as <-. unfold deletes. simpl. by rewrite Z.add_0_r.
  - destruct (step ev s) as [s1|] eqn:Hs; [|done]. apply step_epoch in Hs.
    rewrite (IH s1 H).
    + rewrite Hs. unfold deletes. simpl. destruct (is_delete ev); simpl; [|done].
      rewrite u64_add. f_equal. lia.
    + rewrite Hs. destruct (is_delete ev); [|done]. unfold u64. by rewrite Zmod_mod.
Qed.

Lemma run_app a b s : run (a ++ b) s = match run a s with Some s1 => run b s1 | None => None end.
Proof. revert s. induction a as [|ev a IH]; intros s; simpl; [done|]. by destruct (step ev s). Qed.

(** The document and the epoch a join carries. *)
Definition carried (pc : join_pc) : option (DocumentID * Z) :=
  match pc with
  | JEpoch d e | JRow d e | JWait d e | JGot d e _ | JAcquired d e _ => Some (d, e)
  | JFailed _ => None
  end.

Lemma carried_share doc res pc :
  carried (share_one doc res pc) = carried pc \/ carried (share_one doc res pc) = None.
Proof. destruct pc; simpl; auto. case_match; auto. destruct res; simpl; auto. Qed.

(** A join keeps the epoch it captured until it is done. *)
Lemma step_carried ev s s' j pc :
  step ev s = Some s' -> joins s !! j = Some pc ->
  exists pc', joins s' !! j = Some pc' /\ (carried pc' = carried pc \/ carried pc' = None).
Proof.
  intros Hs Hj.
  assert (Hset : forall j0 pc0 s0, (j0 = j -> carried pc0 = carried pc \/ carried pc0 = None) ->
    joins s0 = joins s -> exists pc', joins (set_join j0 pc0 s0) !! j = Some pc'
      /\ (carried pc' = carried pc \/ carried pc' = None)).
  { intros j0 pc0 s0 H0 E. simpl. rewrite E, lookup_insert. case_decide; [subst|]; eauto. }
  destruct ev as [j0 doc now|j0 row|j0|doc|doc ok|doc|doc|doc|j0|j0|doc now|doc expires|r|r|r|r|]; simpl in Hs.
  - destruct (joins s !! j0) eqn:E0; [done|]. injection Hs as <-.
    assert (Hne : j0 <> j) by congruence. unfold begin_join.
    destruct (tombstones s !! doc); [case_match|]; by apply Hset.
  - destruct (joins s !! j0) as [[]|] eqn:E0; try done. injection Hs as <-. apply Hset; [|done].
    intros ->. simplify_eq. case_match; auto.
  - destruct (joins s !! j0) as [[]|] eqn:E0; try done. injection Hs as <-.
    destruct (flights s !! doc); apply (Hset _ _ s); try done; intros ->; simplify_eq; by left.
  - destruct (flights s !! doc) as [[? []]|]; try done. injection Hs as <-. eauto.
  - destruct (flights s !! doc) as [[? []]|]; try done. injection Hs as <-. destruct ok; eauto.
  - destruct (flights s !! doc) as [[? []]|]; try done. injection Hs as <-. unfold register.
    repeat case_match; eauto.
  - destruct (flights s !! doc) as [[? []]|]; try done. injection Hs as <-. eauto.
  - destruct (flights s !! doc) as [[? []]|]; try done. injection Hs as <-. simpl.
    rewrite lookup_fmap, Hj. simpl. eexists. split; [done|]. apply carried_share.
  - destruct (joins s !! j0) as [[]|] eqn:E0; try done. injection Hs as <-.
    destruct (negb _); apply (Hset _ _ s); try done; intros ->; simplify_eq; auto.
  - destruct (joins s !! j0) as [[]|] eqn:E0; try done. injection Hs as <-. apply Hset; [|done].
    intros ->. simplify_eq. auto.
  - injection Hs as <-. eauto.
  - injection Hs as <-. case_bool_decide; eauto.
  - destruct (made s !! r) as [[? []]|]; try done. case_bool_decide; [done|]. injection Hs as <-. eauto.
  - destruct (made s !! r) as [[? []]|]; try done. injection Hs as <-. eauto.
  - destruct (made s !! r) as [[? []]|]; try done. injection Hs as <-. simpl. unfold remove.
    case_bool_decide; eauto.
  - case_bool_decide; [|done]. injection Hs as <-. eauto.
  - injection Hs as <-. eauto.
Qed.

Lemma run_carried evs s s' j pc :
  run evs s = Some s' -> joins s !! j = Some pc ->
  exists pc', joins s' !! j = Some pc' /\ (carried pc' = carried pc \/ carried pc' = None).
Proof.
  revert s pc. induction evs as [|ev evs IH]; intros s pc H Hj; simpl in H.
  - injection H as <-. eauto.
  - destruct (step ev s) as [s1|] eqn:Hs; [|done].
    destruct (step_carried ev s s1 j pc Hs Hj) as (pc1 & H1 & C1).
    destruct (IH s1 pc1 H H1) as (pc2 & H2 & C2). exists pc2. split; [done|].
    destruct C2 as [->|]; [done|by right].
Qed.

Lemma deletes_none evs : deletes evs = 0%Z -> forall doc now, EvDelete doc now ∉ evs.
Proof.
  unfold deletes. intros H doc now Hin.
  assert (Hf : EvDelete doc now ∈ List.filter is_delete evs).
  { apply list_elem_of_In, filter_In. split; [by apply list_elem_of_In|done]. }
  destruct (List.filter is_delete evs); [by apply elem_of_nil in Hf|]. simpl in H. lia.
Qed.

Lemma deletes_le evs : (0 <= deletes evs <= Z.of_nat (List.length evs))%Z.
Proof.
  unfold deletes. split; [lia|]. pose proof (filter_length_le is_delete evs). lia.
Qed.

(** C9: a session is only ever admitted on an existence read no deletion has
    overtaken: however joins, deletions, materializations and shutdown interleave,
    if a join that began obtains its room, then between the moment it captured the
    delete epoch, before it read whether the document exists, and the moment it was
    handed the room, no document was deleted. *)
Theorem admission_spans_no_deletion (a b : list event) (s : mgr) (j : nat) (doc d : DocumentID)
    (now e : Z) (r : nat) :
  run (a ++ [EvBegin j doc now] ++ b ++ [EvCheck j]) NewManager = Some s ->
  joins s !! j = Some (JAcquired d e r) -> (Z.of_nat (List.length b) < 2 ^ 64)%Z ->
  d = doc /\ forall doc' now', EvDelete doc' now' ∉ b.
Proof.
  intros H Hj Hlen. rewrite run_app in H. destruct (run a NewManager) as [s1|] eqn:Ha; [|done].
  assert (He1 : deleteEpoch s1 = u64 (deleteEpoch s1)).
  { rewrite (run_epoch a NewManager s1 Ha eq_refl). unfold u64. by rewrite Zmod_mod. }
  rewrite run_app in H. simpl in H. destruct (joins s1 !! j) eqn:Hn; [done|].
  set (s2 := begin_join j doc now s1) in *.
  assert (Hs2 : deleteEpoch s2 = deleteEpoch s1).
  { unfold s2, begin_join. by repeat case_match. }
  assert (Hj2 : exists pc, joins s2 !! j = Some pc /\ (carried pc = Some (doc, deleteEpoch s1) \/ carried pc = None)).
  { unfold s2, begin_join. repeat case_match; simpl; rewrite lookup_insert_eq; eauto. }
  destruct Hj2 as (pc2 & Hpc2 & C2).
  rewrite run_app in H. destruct (run b s2) as [s3|] eqn:Hb; [|done].
  destruct (run_carried b s2 s3 j pc2 Hb Hpc2) as (pc3 & Hpc3 & C3).
  assert (He3 : deleteEpoch s3 = u64 (deleteEpoch s1 + deletes b)).
  { rewrite (run_epoch b s2 s3 Hb); rewrite Hs2; done. }
  simpl in H. rewrite Hpc3 in H. destruct pc3 as [| | |d3 e3 r3| |]; try done. injection H as <-.
  destruct (Z.eqb_spec (deleteEpoch s3) e3) as [E|E]; simpl in Hj.
  2: { rewrite lookup_insert_eq in Hj. discriminate. }
  rewrite lookup_insert_eq in Hj. injection Hj as -> -> ->.
  assert (Hc : Some (d, e) = Some (doc, deleteEpoch s1)).
  { simpl in C3. destruct C3 as [C3|C3]; [|done]. destruct C2 as [C2|C2]; congruence. }
  injection Hc as -> ->. split; [done|]. apply deletes_none.
  pose proof (deletes_le b) as Hd. rewrite He3 in E. unfold u64 in E, He1.
  set (k := deleteEpoch s1) in *. assert (Hk : (0 <= k < 2 ^ 64)%Z).
  { rewrite He1. apply Z.mod_pos_bound. lia. }
  destruct (Z.lt_ge_cases (k + deletes b) (2 ^ 64)).
  - rewrite Z.mod_small in E; lia.
  - rewrite <- (Z.mod_unique (k + deletes b) (2 ^ 64) 1 (k + deletes b - 2 ^ 64)) in E; lia.
Qed.

(** ** The registry invariant *)

(** [building]: the shared materialization of [doc] may still register a room. *)
Definition building (pc : flight_pc) : bool :=
  match pc with FBuild | FRegister _ => true | _ => false end.

Record registry_ok (s : mgr) : Prop := {
  rg_gauge : (roomsGauge s + Z.of_nat (size (opening s))
    = Z.of_nat (size (rooms s)) + Z.of_nat (size (leaving s)))%Z;
  rg_rooms : forall doc r, rooms s !! doc = Some r ->
    exists p, made s !! r = Some (doc, p) /\ p <> Built /\ p <> Gone;
  rg_opening : forall r, r ∈ opening s -> exists doc, made s !! r = Some (doc, Serving);
  rg_open : forall doc e r, flights s !! doc = Some (mkShared e (FOpen r)) ->
    r ∈ opening s /\ made s !! r = Some (doc, Serving);
  rg_leaving : forall r, r ∈ leaving s -> exists doc, made s !! r = Some (doc, Gone);
  rg_serving : forall r doc, made s !! r = Some (doc, Serving) -> rooms s !! doc = Some r;
  rg_built : forall r doc, made s !! r = Some (doc, Built) ->
    exists e, flights s !! doc = Some (mkShared e (FRegister r));
  rg_register : forall doc e r, flights s !! doc = Some (mkShared e (FRegister r)) ->
    made s !! r = Some (doc, Built);
  rg_building : forall doc e pc, flights s !! doc = Some (mkShared e pc) -> building pc = true ->
    rooms s !! doc = None;
  rg_next : forall r x, made s !! r = Some x -> r < nextRoom s }.

(** Changes that leave the rooms and the materializations alone. *)
Lemma registry_frame s s' :
  registry_ok s -> rooms s' = rooms s -> made s' = made s -> flights s' = flights s ->
  roomsGauge s' = roomsGauge s -> nextRoom s' = nextRoom s -> opening s' = opening s ->
  leaving s' = leaving s -> registry_ok s'.
Proof. intros [] E1 E2 E3 E4 E5 E6 E7. split; rewrite ?E1, ?E2, ?E3, ?E4, ?E5, ?E6, ?E7; done. Qed.

(** A materialization that moves on without a room in hand. *)
Lemma registry_flight s doc e pc :
  registry_ok s ->
  (forall e' r, flights s !! doc <> Some (mkShared e' (FRegister r))) ->
  (forall r, pc <> FRegister r) -> (forall r, pc <> FOpen r) ->
  (building pc = true -> rooms s !! doc = None) ->
  registry_ok (set_flight doc (Some (mkShared e pc)) s).
Proof.
  intros [] Hno Hpc Hpo Hb. split; simpl; try done.
  - intros d e' r. destruct (decide (d = doc)) as [->|Hd].
    + rewrite lookup_partial_alter_eq. intros [= _ ->]. by destruct (Hpo r).
    + rewrite lookup_partial_alter_ne by done. apply rg_open0.
  - intros r d Hr. destruct (rg_built0 r d Hr) as [e' He']. exists e'.
    rewrite lookup_partial_alter_ne; [done|]. intros <-. by eapply Hno.
  - intros d e' r. destruct (decide (d = doc)) as [->|Hd].
    + rewrite lookup_partial_alter_eq. intros [= _ ->]. by destruct (Hpc r).
    + rewrite lookup_partial_alter_ne by done. apply rg_register0.
  - intros d e' pc'. destruct (decide (d = doc)) as [->|Hd].
    + rewrite lookup_partial_alter_eq. intros [= _ ->]. exact Hb.
    + rewrite lookup_partial_alter_ne by done. apply rg_building0.
Qed.

Lemma registry_built s doc e :
  registry_ok s -> flights s !! doc = Some (mkShared e FBuild) ->
  registry_ok (set_flight doc (Some (mkShared e (FRegister (nextRoom s))))
    (mkMgr (rooms s) (tombstones s) (closed s) (deleteEpoch s)
       (<[nextRoom s := (doc, Built)]> (made s)) (S (nextRoom s)) (flights s) (joins s)
       (roomsGauge s) (nudged s) (opening s) (leaving s))).
Proof.
  intros [] Hf.
  assert (Hfresh : forall r x, made s !! r = Some x -> <[nextRoom s := (doc, Built)]> (made s) !! r = Some x).
  { intros r x Hr. rewrite lookup_insert_ne; [done|]. intros <-. apply rg_next0 in Hr. lia. }
  split; simpl; try done.
  - intros d r (p & Hp & ?)%rg_rooms0. eauto.
  - intros r (d & Hd)%rg_opening0. eauto.
  - intros d e' r. destruct (decide (d = doc)) as [->|Hd]; [by rewrite lookup_partial_alter_eq|].
    rewrite lookup_partial_alter_ne by done. intros [H1 H2]%rg_open0. auto.
  - intros r (d & Hd)%rg_leaving0. eauto.
  - intros r d. rewrite lookup_insert. case_decide; [done|]. apply rg_serving0.
  - intros r d. rewrite lookup_insert. case_decide as Hr.
    + intros [= ->]. subst. rewrite lookup_partial_alter_eq. eauto.
    + intros Hb. destruct (rg_built0 r d Hb) as [e' He']. exists e'.
      rewrite lookup_partial_alter_ne; [done|]. intros <-. congruence.
  - intros d e' r. destruct (decide (d = doc)) as [->|Hd].
    + rewrite lookup_partial_alter_eq. intros [= _ <-]. by rewrite lookup_insert_eq.
    + rewrite lookup_partial_alter_ne by done. intros Hr%rg_register0. auto.
  - intros d e' pc. destruct (decide (d = doc)) as [->|Hd].
    + intros _ _. by apply (rg_building0 doc e FBuild).
    + rewrite lookup_partial_alter_ne by done. apply rg_building0.
  - intros r x. rewrite lookup_insert. case_decide; [lia|]. intros Hr%rg_next0. lia.
Qed.

(** A room moves from one phase to another, neither of them [Built]. *)
Lemma registry_phase s r doc p q :
  registry_ok s -> made s !! r = Some (doc, p) -> p <> Built -> q <> Built -> q <> Serving ->
  r ∉ opening s -> (rooms s !! doc = Some r -> q <> Gone) -> (r ∈ leaving s -> q = Gone) ->
  registry_ok (set_phase r doc q s).
Proof.
  intros [] Hm Hp Hq Hs Ho Hr Hl.
  assert (Hkeep : forall r0 x, made s !! r0 = Some x -> r0 <> r -> <[r := (doc, q)]> (made s) !! r0 = Some x).
  { intros r0 x Hx Hne. by rewrite lookup_insert_ne. }
  split; simpl; try done.
  - intros d r0 Hd. destruct (rg_rooms0 d r0 Hd) as (p0 & H0 & H1). destruct (decide (r0 = r)) as [->|]; [|eauto].
    rewrite Hm in H0. injection H0 as <- <-. exists q. rewrite lookup_insert_eq. auto.
  - intros r0 H0. destruct (rg_opening0 r0 H0) as [d Hd]. exists d. apply Hkeep; [done|]. by intros ->.
  - intros d e r0 H0. destruct (rg_open0 d e r0 H0). split; [done|]. apply Hkeep; [done|]. by intros ->.
  - intros r0 H0. destruct (rg_leaving0 r0 H0) as [d Hd]. destruct (decide (r0 = r)) as [->|]; [|eauto].
    exists doc. rewrite lookup_insert_eq. by rewrite (Hl H0).
  - intros r0 d. rewrite lookup_insert. case_decide as E; [by intros [= _ ->]|by apply rg_serving0].
  - intros r0 d. rewrite lookup_insert. case_decide as E; [by intros [= _ ->]|by apply rg_built0].
  - intros d e r0 Hf%rg_register0. apply Hkeep; [done|]. intros ->. congruence.
  - intros r0 x. rewrite lookup_insert. case_decide as E; [|by apply rg_next0]. intros _. subst.
    by apply rg_next0 in Hm.
Qed.

(** The room in hand is not registered: its materialization fails. *)
Lemma registry_refuse s doc e r f :
  registry_ok s -> flights s !! doc = Some (mkShared e (FRegister r)) ->
  registry_ok (set_flight doc (Some (mkShared e (FDone (inl f)))) (set_phase r doc Ending s)).
Proof.
  intros [] Hf. assert (Hm := rg_register0 _ _ _ Hf).
  assert (Hkeep : forall r0 d p, made s !! r0 = Some (d, p) -> (d, p) <> (doc, Built) ->
    <[r := (doc, Ending)]> (made s) !! r0 = Some (d, p)).
  { intros r0 d p Hx Hne. rewrite lookup_insert_ne; [done|]. intros <-. congruence. }
  split; simpl; try done.
  - intros d r0 (p & H0 & H1 & H2)%rg_rooms0. exists p. split; [apply Hkeep; [done|congruence]|done].
  - intros r0 [d H0]%rg_opening0. exists d. by apply Hkeep.
  - intros d e' r0. destruct (decide (d = doc)) as [->|Hd]; [by rewrite lookup_partial_alter_eq|].
    rewrite lookup_partial_alter_ne by done. intros [H1 H2]%rg_open0. split; [done|by apply Hkeep].
  - intros r0 [d H0]%rg_leaving0. exists d. by apply Hkeep.
  - intros r0 d. rewrite lookup_insert. case_decide as E; [done|by apply rg_serving0].
  - intros r0 d. rewrite lookup_insert. case_decide as E; [done|]. intros Hb.
    destruct (rg_built0 r0 d Hb) as [e' He']. exists e'. rewrite lookup_partial_alter_ne; [done|].
    intros <-. congruence.
  - intros d e' r0. destruct (decide (d = doc)) as [->|Hd]; [by rewrite lookup_partial_alter_eq|].
    rewrite lookup_partial_alter_ne by done. intros Hr%rg_register0. apply Hkeep; congruence.
  - intros d e' pc. destruct (decide (d = doc)) as [->|Hd].
    + intros _ _. by apply (rg_building0 doc e (FRegister r)).
    + rewrite lookup_partial_alter_ne by done. apply rg_building0.
  - intros r0 x. rewrite lookup_insert. case_decide as E; [|by apply rg_next0]. intros _. subst.
    by apply rg_next0 in Hm.
Qed.

(** The room in hand is registered. *)
Lemma registry_enter s doc e r :
  registry_ok s -> flights s !! doc = Some (mkShared e (FRegister r)) ->
  registry_ok (set_flight doc (Some (mkShared e (FOpen r)))
    (set_phase r doc Serving
      (set_counts (roomsGauge s) ({[r]} ∪ opening s) (leaving s) (set_rooms (<[doc := r]> (rooms s)) s)))).
Proof.
  intros [] Hf. assert (Hm := rg_register0 _ _ _ Hf). assert (Hnone := rg_building0 _ _ _ Hf eq_refl).
  assert (Hkeep : forall r0 d p, made s !! r0 = Some (d, p) -> (d, p) <> (doc, Built) ->
    <[r := (doc, Serving)]> (made s) !! r0 = Some (d, p)).
  { intros r0 d p Hx Hne. rewrite lookup_insert_ne; [done|]. intros <-. congruence. }
  assert (Hr : r ∉ opening s) by (intros [d Hd]%rg_opening0; congruence).
  split; simpl.
  - rewrite map_size_insert_None, size_union, size_singleton by (done || set_solver). lia.
  - intros d r0. rewrite lookup_insert. case_decide as E.
    + intros [= <-]. subst. exists Serving. by rewrite lookup_insert_eq.
    + intros (p & H0 & H1 & H2)%rg_rooms0. exists p. split; [apply Hkeep; [done|congruence]|done].
  - intros r0 [->%elem_of_singleton|[d H0]%rg_opening0]%elem_of_union; [|exists d; by apply Hkeep].
    exists doc. by rewrite lookup_insert_eq.
  - intros d e' r0. destruct (decide (d = doc)) as [->|Hd].
    + rewrite lookup_partial_alter_eq. intros [= _ <-]. rewrite lookup_insert_eq. set_solver.
    + rewrite lookup_partial_alter_ne by done. intros [H1 H2]%rg_open0. split; [set_solver|by apply Hkeep].
  - intros r0 [d H0]%rg_leaving0. exists d. by apply Hkeep.
  - intros r0 d. rewrite lookup_insert. case_decide as E; [intros [= <-]; subst; by rewrite lookup_insert_eq|].
    intros H0%rg_serving0. rewrite lookup_insert_ne; [done|congruence].
  - intros r0 d. rewrite lookup_insert. case_decide as E; [done|]. intros Hb.
    destruct (rg_built0 r0 d Hb) as [e' He']. exists e'. rewrite lookup_partial_alter_ne; [done|].
    intros <-. congruence.
  - intros d e' r0. destruct (decide (d = doc)) as [->|Hd]; [by rewrite lookup_partial_alter_eq|].
    rewrite lookup_partial_alter_ne by done. intros H0%rg_register0. apply Hkeep; congruence.
  - intros d e' pc. destruct (decide (d = doc)) as [->|Hd]; [rewrite lookup_partial_alter_eq; by intros [= _ <-]|].
    rewrite lookup_partial_alter_ne, lookup_insert_ne by done. apply rg_building0.
  - intros r0 x. rewrite lookup_insert. case_decide as E; [|by apply rg_next0]. intros _. subst.
    by apply rg_next0 in Hm.
Qed.

Lemma registry_register s doc e r :
  registry_ok s -> flights s !! doc = Some (mkShared e (FRegister r)) -> registry_ok (register doc e r s).
Proof.
  intros Hok Hf. unfold register. destruct (negb _); [by apply registry_refuse|].
  destruct (closed s); [by apply registry_refuse|by apply registry_enter].
Qed.

Lemma registry_opened s doc e r :
  registry_ok s -> flights s !! doc = Some (mkShared e (FOpen r)) -> registry_ok (opened doc e r s).
Proof.
  intros [] Hf. destruct (rg_open0 _ _ _ Hf) as [Hr Hm].
  split; simpl; try done.
  - rewrite size_difference, size_singleton by set_solver.
    assert (size (opening s) <> 0) by (intros H0%size_empty_inv; set_solver). lia.
  - intros r0 [H0 _]%elem_of_difference. by apply rg_opening0.
  - intros d e' r0. destruct (decide (d = doc)) as [->|Hd]; [by rewrite lookup_partial_alter_eq|].
    rewrite lookup_partial_alter_ne by done. intros [H1 H2]%rg_open0. split; [|done].
    assert (r0 <> r) by congruence. set_solver.
  - intros r0 d Hb. destruct (rg_built0 r0 d Hb) as [e' He']. exists e'.
    rewrite lookup_partial_alter_ne; [done|]. intros <-. congruence.
  - intros d e' r0. destruct (decide (d = doc)) as [->|Hd]; [by rewrite lookup_partial_alter_eq|].
    rewrite lookup_partial_alter_ne by done. apply rg_register0.
  - intros d e' pc. destruct (decide (d = doc)) as [->|Hd]; [rewrite lookup_partial_alter_eq; by intros [= _ <-]|].
    rewrite lookup_partial_alter_ne by done. apply rg_building0.
Qed.

Lemma registry_remove s doc r :
  registry_ok s -> made s !! r = Some (doc, Over) -> registry_ok (set_phase r doc Gone (remove doc r s)).
Proof.
  intros Hok Hm. pose proof Hok as [].
  assert (Ho : r ∉ opening s) by (intros [d Hd]%rg_opening0; congruence).
  assert (Hl : r ∉ leaving s) by (intros [d Hd]%rg_leaving0; congruence).
  unfold remove. case_bool_decide as Hr; [|by apply (registry_phase s r doc Over)].
  assert (Hkeep : forall r0 x, made s !! r0 = Some x -> x <> (doc, Over) ->
    <[r := (doc, Gone)]> (made s) !! r0 = Some x).
  { intros r0 x Hx Hne. rewrite lookup_insert_ne; [done|]. intros <-. congruence. }
  split; simpl; try done.
  - rewrite size_union, size_singleton by set_solver.
    pose proof (size_delete_Some (rooms s) doc r Hr). lia.
  - intros d r0. rewrite lookup_delete. case_decide as E; [done|]. intros (p & H0 & H1)%rg_rooms0.
    exists p. split; [apply Hkeep; [done|congruence]|done].
  - intros r0 [d H0]%rg_opening0. exists d. by apply Hkeep.
  - intros d e r0 [H1 H2]%rg_open0. split; [done|by apply Hkeep].
  - intros r0 [->%elem_of_singleton|[d H0]%rg_leaving0]%elem_of_union; [|exists d; by apply Hkeep].
    exists doc. by rewrite lookup_insert_eq.
  - intros r0 d. rewrite lookup_insert. case_decide as E; [done|]. intros Hs.
    rewrite lookup_delete_ne; [by apply rg_serving0|]. intros <-. apply rg_serving0 in Hs. congruence.
  - intros r0 d. rewrite lookup_insert. case_decide as E; [done|]. apply rg_built0.
  - intros d e r0 Hf%rg_register0. by apply Hkeep.
  - intros d e pc Hf Hb. rewrite lookup_delete. case_decide; [done|]. by eapply rg_building0.
  - intros r0 x. rewrite lookup_insert. case_decide as E; [|by apply rg_next0]. intros _. subst.
    by apply rg_next0 in Hm.
Qed.

Lemma registry_counted s r : registry_ok s -> r ∈ leaving s -> registry_ok (counted_out r s).
Proof.
  intros [] Hr. split; simpl; try done.
  - rewrite size_difference, size_singleton by set_solver.
    assert (size (leaving s) <> 0) by (intros H0%size_empty_inv; set_solver). lia.
  - intros r0 [H0 _]%elem_of_difference. by apply rg_leaving0.
Qed.

Lemma registry_share s doc e res :
  registry_ok s -> flights s !! doc = Some (mkShared e (FDone res)) -> registry_ok (share doc res s).
Proof.
  intros [] Hf. split; simpl; try done.
  - intros d e' r. rewrite lookup_delete. case_decide; [done|]. apply rg_open0.
  - intros r d Hb. destruct (rg_built0 r d Hb) as [e' He']. exists e'.
    rewrite lookup_delete_ne; [done|]. intros <-. congruence.
  - intros d e' r. rewrite lookup_delete. case_decide; [done|]. apply rg_register0.
  - intros d e' pc. rewrite lookup_delete. case_decide; [done|]. apply rg_building0.
Qed.

(** A room that is not opening and not leaving moves on to [q]. *)
Lemma registry_on s r doc p q :
  registry_ok s -> made s !! r = Some (doc, p) -> r ∉ opening s -> p = Serving /\ q = Ending \/ p = Ending /\ q = Over ->
  registry_ok (set_phase r doc q s).
Proof.
  intros Hok Hm Ho Hpq. apply (registry_phase s r doc p); try done; try (destruct Hpq; naive_solver).
  intros [d Hd]%(rg_leaving _ Hok). destruct Hpq; naive_solver.
Qed.

Lemma registry_step ev s s' : registry_ok s -> step ev s = Some s' -> registry_ok s'.
Proof.
  intros Hok Hs.
  destruct ev as [j doc now|j row|j|doc|doc ok|doc|doc|doc|j|j|doc now|doc expires|r|r|r|r|]; simpl in Hs.
  - destruct (joins s !! j); [done|]. injection Hs as <-. unfold begin_join.
    repeat case_match; by apply (registry_frame s).
  - destruct (joins s !! j) as [[]|]; try done. injection Hs as <-. by apply (registry_frame s).
  - destruct (joins s !! j) as [[]|]; try done. injection Hs as <-.
    destruct (flights s !! doc) eqn:Hf; [by apply (registry_frame s)|].
    apply registry_flight; [by apply (registry_frame s)|by simpl; congruence|done..].
  - destruct (flights s !! doc) as [[e []]|] eqn:Hf; try done. injection Hs as <-.
    apply registry_flight; [done|congruence|by intros r; repeat case_match..|].
    destruct (rooms s !! doc) eqn:Hr; [done|]. by case_match.
  - destruct (flights s !! doc) as [[e []]|] eqn:Hf; try done. injection Hs as <-.
    destruct ok; [by apply registry_built|]. apply registry_flight; [done|congruence|done..].
  - destruct (flights s !! doc) as [[e []]|] eqn:Hf; try done. injection Hs as <-. by apply registry_register.
  - destruct (flights s !! doc) as [[e []]|] eqn:Hf; try done. injection Hs as <-. by apply registry_opened.
  - destruct (flights s !! doc) as [[e []]|] eqn:Hf; try done. injection Hs as <-. by eapply registry_share.
  - destruct (joins s !! j) as [[]|]; try done. injection Hs as <-.
    destruct (negb _); by apply (registry_frame s).
  - destruct (joins s !! j) as [[]|]; try done. injection Hs as <-. by apply (registry_frame s).
  - injection Hs as <-. by apply (registry_frame s).
  - injection Hs as <-. case_bool_decide; [by apply (registry_frame s)|done].
  - destruct (made s !! r) as [[doc []]|] eqn:Hm; try done. case_bool_decide as Ho; [done|]. injection Hs as <-.
    apply (registry_on s r doc Serving); auto.
  - destruct (made s !! r) as [[doc []]|] eqn:Hm; try done. injection Hs as <-.
    apply (registry_on s r doc Ending); auto. intros [d Hd]%(rg_opening _ Hok). congruence.
  - destruct (made s !! r) as [[doc []]|] eqn:Hm; try done. injection Hs as <-. by apply registry_remove.
  - case_bool_decide; [|done]. injection Hs as <-. by apply registry_counted.
  - injection Hs as <-. by apply (registry_frame s).
Qed.

Lemma registry_run evs s s' : registry_ok s -> run evs s = Some s' -> registry_ok s'.
Proof.
  revert s. induction evs as [|ev evs IH]; intros s Hok H; simpl in H; [by injection H as <-|].
  destruct (step ev s) as [s1|] eqn:Hs; [|done]. eapply IH; [|exact H]. by eapply registry_step.
Qed.

Lemma registry_new : registry_ok NewManager.
Proof. split; try done. Qed.

(** The rooms still to be reported open are registered, so there are no more of them. *)
Lemma opening_registered s : registry_ok s -> size (opening s) <= size (rooms s).
Proof.
  intros []. assert (Hsub : elements (opening s) ⊆+ (map_to_list (rooms s)).*2).
  { apply NoDup_submseteq; [apply NoDup_elements|].
    intros r [doc Hd%rg_serving0]%elem_of_elements%rg_opening0.
    apply list_elem_of_fmap. exists (doc, r). split; [done|]. by apply elem_of_map_to_list. }
  apply submseteq_length in Hsub. rewrite length_fmap, length_map_to_list in Hsub. exact Hsub.
Qed.

(** C17: the registry is exact.  However materializations, deletions, releases and
    shutdown interleave, every room that serves is the one registered for its document,
    so a document never has two; a room that was built but is not registered is still in
    the hands of its materialization or has been torn down; and the rooms gauge, which
    the code moves only after it has let go of the lock, is off the number of registered
    rooms by exactly the calls still to be made: one for each room registered and not
    yet reported open, none of which has begun to tear down, and one for each removed
    and not yet reported closed.  It is never negative, and with no call outstanding
    it is exact. *)
Theorem registry_exact (evs : list event) (s : mgr) :
  run evs NewManager = Some s ->
  (roomsGauge s + Z.of_nat (size (opening s)) = Z.of_nat (RoomCount s) + Z.of_nat (size (leaving s)))%Z
  /\ (0 <= roomsGauge s)%Z
  /\ (opening s = ∅ -> leaving s = ∅ -> roomsGauge s = Z.of_nat (RoomCount s))
  /\ (forall r, r ∈ opening s -> exists doc, made s !! r = Some (doc, Serving) /\ rooms s !! doc = Some r)
  /\ (forall r doc, r ∈ leaving s -> rooms s !! doc <> Some r)
  /\ (forall r doc, made s !! r = Some (doc, Serving) -> rooms s !! doc = Some r)
  /\ (forall r r' doc, made s !! r = Some (doc, Serving) -> made s !! r' = Some (doc, Serving) -> r = r')
  /\ (forall r doc p, made s !! r = Some (doc, p) -> rooms s !! doc <> Some r ->
        (exists e, flights s !! doc = Some (mkShared e (FRegister r))) \/ p = Ending \/ p = Over \/ p = Gone).
Proof.
  intros H. pose proof (registry_run _ _ _ registry_new H) as Hok. pose proof (opening_registered s Hok) as Hsz.
  destruct Hok. unfold RoomCount. split_and!; [done|lia| | | |done| |].
  - intros E1 E2. rewrite E1, E2, !size_empty in rg_gauge0. lia.
  - intros r [doc Hd]%rg_opening0. exists doc. auto.
  - intros r doc [d Hd]%rg_leaving0 (p & Hp & _ & Hg)%rg_rooms0. congruence.
  - intros r r' doc H1%rg_serving0 H2%rg_serving0. congruence.
  - intros r doc p Hm Hr. destruct p; auto. by apply rg_serving0 in Hm.
Qed.

Lemma closed_step ev s s' :
  closed s = true -> step ev s = Some s' -> closed s' = true /\ rooms s' ⊆ rooms s.
Proof.
  intros Hc Hs. destruct ev as [j doc now|j row|j|doc|doc ok|doc|doc|doc|j|j|doc now|doc expires|r|r|r|r|]; simpl in Hs;
    repeat (case_match; try done); simplify_eq/=; try done.
  - unfold begin_join. by repeat case_match.
  - unfold register. rewrite Hc. by repeat case_match.
  - unfold remove. case_bool_decide; [|done]. split; [done|]. apply delete_subseteq.
Qed.

(** Once shutdown has begun no room is registered any more, so the snapshot
    of the rooms the shutdown drains misses none. *)
Theorem no_room_after_shutdown (a b : list event) (s : mgr) :
  run (a ++ [EvClose] ++ b) NewManager = Some s ->
  exists s0, run (a ++ [EvClose]) NewManager = Some s0 /\ rooms s ⊆ rooms s0.
Proof.
  rewrite (app_assoc a [EvClose] b), run_app. intros H.
  destruct (run (a ++ [EvClose]) NewManager) as [s0|] eqn:H0; [|done]. exists s0. split; [done|].
  assert (Hc : closed s0 = true).
  { rewrite run_app in H0. destruct (run a NewManager); [|done]. simpl in H0. by injection H0 as <-. }
  assert (Hgo : forall s1, closed s1 = true -> rooms s1 ⊆ rooms s0 -> run b s1 = Some s -> rooms s ⊆ rooms s0).
  { clear H H0 Hc. induction b as [|ev b IH]; intros s1 Hc Hsub H; simpl in H; [by injection H as <-|].
    destruct (step ev s1) as [s2|] eqn:Hs; [|done]. destruct (closed_step ev s1 s2 Hc Hs) as [Hc2 Hs2].
    apply (IH s2); [done|by etrans|done]. }
  by apply (Hgo s0).
Qed.

(** ** Witnesses *)

Definition doc_row : Metadata := mkMetadata "d" "memo" 1 "ptr" true None "" "" "" 0 0.

(** Two joins share one materialization; a deletion then overtakes the second's
    check, and its room is nudged and later released. *)
Definition two_joins : list event :=
  [EvBegin 1 "d" 10; EvRow 1 (Loaded doc_row); EvBegin 2 "d" 11; EvRow 2 (Loaded doc_row);
   EvEnter 1; EvEnter 2; EvLook "d"; EvBuilt "d" true; EvRegister "d"; EvOpened "d"; EvShare "d"].

Definition overtaken : list event :=
  two_joins ++ [EvCheck 1; EvDelete "d" 12; EvCheck 2; EvTeardown 0; EvOver 0; EvReleased 0; EvCountedOut 0; EvBegin 3 "d" 13].

Example overtaken_outcome :
  (fun s => (joins s !! 1%nat, joins s !! 2%nat, joins s !! 3%nat, RoomCount s, nudged s))
    <$> run overtaken NewManager
  = Some (Some (JAcquired "d" 0 0), Some (JFailed RoomUnavailable), Some (JFailed ErrForbidden), 0%nat, [0%nat]).
Proof. vm_compute. reflexivity. Qed.

Definition state_after (evs : list event) : mgr :=
  match run evs NewManager with Some s => s | None => NewManager end.

Lemma admission_spans_no_deletion_witness :
  joins (state_after (two_joins ++ [EvCheck 1])) !! 1%nat = Some (JAcquired "d" 0 0)
  /\ EvDelete "d" 12 ∉ tail two_joins.
Proof.
  split; [vm_compute; reflexivity|].
  apply (admission_spans_no_deletion [] (tail two_joins) (state_after (two_joins ++ [EvCheck 1])) 1 "d" "d" 10 0 0).
  - vm_compute. reflexivity.
  - vm_compute. reflexivity.
  - done.
Defined.

(** The registration of one room before its opening is reported, while another's
    removal is not yet reported either. *)
Definition between_calls : list event :=
  two_joins ++ [EvTeardown 0; EvOver 0; EvBegin 3 "e" 10; EvRow 3 (Loaded doc_row); EvEnter 3; EvLook "e";
    EvBuilt "e" true; EvReleased 0; EvRegister "e"].

Lemma registry_exact_witness :
  RoomCount (state_after between_calls) = 1%nat
  /\ (size (opening (state_after between_calls)), size (leaving (state_after between_calls))) = (1, 1)%nat
  /\ (0 <= roomsGauge (state_after between_calls))%Z
  /\ roomsGauge (state_after two_joins) = Z.of_nat (RoomCount (state_after two_joins)).
Proof.
  split; [vm_compute; reflexivity|]. split; [vm_compute; reflexivity|]. split.
  - apply (registry_exact between_calls). vm_compute. reflexivity.
  - apply (registry_exact two_joins); vm_compute; reflexivity.
Defined.

Definition late : list event :=
  [EvBegin 1 "e" 10; EvRow 1 (Loaded doc_row); EvEnter 1; EvLook "e"; EvBuilt "e" true].

Lemma no_room_after_shutdown_witness :
  RoomCount (state_after (late ++ [EvClose] ++ [EvRegister "e"])) = 0%nat
  /\ exists s0, run (late ++ [EvClose]) NewManager = Some s0
       /\ rooms (state_after (late ++ [EvClose] ++ [EvRegister "e"])) ⊆ rooms s0.
Proof.
  split; [vm_compute; reflexivity|].
  apply (no_room_after_shutdown late [EvRegister "e"]). vm_compute. reflexivity.
Defined.

Definition toy_session : Session := mkSession 7 (Some 1) false.

