(* ===== verification/Shutdown.v ===== *)
(** * Shutdown: [Manager.Close] (domain/service/manager.go)

    The registry of [Manager] goes on running while [Close] signals the rooms it found,
    each from its own goroutine, and waits for them under one deadline.  A step of the
    machine is a step of the registry, one read or select of a signalling goroutine, a
    room's command queue filling or emptying, a step of the waiting loop, or the deadline
    passing; they interleave freely.  A room's [done] closes ([EvOver]) before its
    removal from the registry ([EvReleased]), as in [Room.teardown].  The goroutine's own
    timer is untimed: it may fire at any moment.  That a room which was told to close
    saves and goes is [RoomRun.teardown_completes]. *)

From stdpp Require Import base gmap list strings.
From Stdlib Require Import ZArith String Lia.
From S2P Require Import Prelude Control Lifecycle RoomState Manager.

(** ** The drain *)

Definition shutdownDrainGrace : Z := 5 * second.
Definition shutdown_budget (BackendTimeout : Z) : Z :=
  (if (BackendTimeout <=? 0)%Z then defaultBackendTimeout else BackendTimeout) + shutdownDrainGrace.

(** The waiting loop: the rooms it has left to wait for. *)
Inductive close_pc := NotClosing | Draining (rest : list nat) | Finished (gave_up : bool).
#[export] Instance close_pc_eq_dec : EqDecision close_pc.
Proof. solve_decision. Defined.

(** A signalling goroutine in [enqueueWithReason]: not begun, past the lifecycle check,
    in the blocking select, returned. *)
Inductive signal_pc := Parked | Checked | Blocked | Sent (o : enqueueOutcome).

(** What moves it: the lifecycle read, a select's case, or the first select's default. *)
Inductive signal_way := ReadsState | ViaSlot | ViaDone | Falls | ViaContext | ViaTimer.

(** [sh_full]: the rooms whose command channel has no free slot. *)
Record shutdown := mkShutdown {
  sh_mgr : mgr;
  sh_pc : close_pc;
  sh_signals : gmap nat signal_pc;
  sh_full : gset nat;
  sh_expired : bool;
  sh_registryCloses : nat }.

Definition starting : shutdown := mkShutdown NewManager NotClosing ∅ ∅ false 0.

(** [CloseBegins order]: the rooms in the order the range over the map visits them.
    [QueueTurns]: senders fill a room's channel, or its loop empties a slot. *)
Inductive shutdown_event :=
| OfRegistry (ev : event)
| CloseBegins (order : list nat)
| SignalMoves (r : nat) (way : signal_way)
| QueueTurns (r : nat) (full : bool)
| DeadlinePasses
| Drain (abandon : bool).

Definition registered (s : mgr) : list nat := (map_to_list (rooms s)).*2.
Definition phase_of (s : mgr) (r : nat) : option phase := snd <$> made s !! r.

(** What a goroutine reads of a room: its lifecycle state and its [done] channel. *)
Definition lc_of (s : mgr) (r : nat) : roomState :=
  match phase_of s r with
  | Some Built | Some Serving => stateActive
  | Some Ending | Some Over => stateDraining
  | Some Gone | None => stateClosed
  end.
Definition done_of (s : mgr) (r : nat) : bool :=
  match phase_of s r with Some Over | Some Gone => true | _ => false end.

(** [shutdownCtx]: its deadline has passed, or [Close] returned and cancelled it. *)
Definition ctx_done (s : shutdown) : bool :=
  sh_expired s || match sh_pc s with Finished _ => true | _ => false end.

(** [room.enqueueCtx(shutdownCtx, cmdClose)], one read or select at a time. *)
Definition signal_step (s : shutdown) (r : nat) (pc : signal_pc) (way : signal_way) : option signal_pc :=
  let slot := negb (bool_decide (r ∈ sh_full s)) in
  let lc := lc_of (sh_mgr s) r in
  match pc, way with
  | Parked, ReadsState =>
      Some (if bool_decide (lc = stateActive) then Checked else Sent enqueueRefusedInactive)
  | Checked, ViaSlot | Blocked, ViaSlot => if slot then Some (Sent enqueueAdmitted) else None
  | Checked, ViaDone | Blocked, ViaDone =>
      if done_of (sh_mgr s) r then Some (Sent enqueueRefusedInactive) else None
  | Checked, Falls => if slot || done_of (sh_mgr s) r then None else Some Blocked
  | Blocked, ViaContext => if ctx_done s then Some (Sent (classifyRefusal lc)) else None
  | Blocked, ViaTimer => Some (Sent (classifyRefusal lc))
  | _, _ => None
  end.

Definition finish (gave_up : bool) (s : shutdown) : shutdown :=
  mkShutdown (sh_mgr s) (Finished gave_up) (sh_signals s) (sh_full s) (sh_expired s) (S (sh_registryCloses s)).
Definition set_sh_mgr (m : mgr) (s : shutdown) : shutdown :=
  mkShutdown m (sh_pc s) (sh_signals s) (sh_full s) (sh_expired s) (sh_registryCloses s).
Definition set_sh_signal (r : nat) (pc : signal_pc) (s : shutdown) : shutdown :=
  mkShutdown (sh_mgr s) (sh_pc s) (<[r := pc]> (sh_signals s)) (sh_full s) (sh_expired s) (sh_registryCloses s).
Definition set_sh_pc (pc : close_pc) (s : shutdown) : shutdown :=
  mkShutdown (sh_mgr s) pc (sh_signals s) (sh_full s) (sh_expired s) (sh_registryCloses s).

Definition parked (order : list nat) : gmap nat signal_pc := list_to_map ((fun r => (r, Parked)) <$> order).

Definition step (ev : shutdown_event) (s : shutdown) : option shutdown :=
  match ev with
  | OfRegistry EvClose => None
  | OfRegistry e => (fun m => set_sh_mgr m s) <$> Manager.step e (sh_mgr s)
  | CloseBegins order =>
      match sh_pc s, Manager.step EvClose (sh_mgr s) with
      | NotClosing, Some m =>
          if bool_decide (order ≡ₚ registered m)
          then Some (mkShutdown m (Draining order) (parked order) (sh_full s) (sh_expired s) (sh_registryCloses s))
          else None
      | _, _ => None
      end
  | SignalMoves r way =>
      match sh_signals s !! r with
      | Some pc => (fun pc' => set_sh_signal r pc' s) <$> signal_step s r pc way
      | None => None
      end
  | QueueTurns r full =>
      Some (mkShutdown (sh_mgr s) (sh_pc s) (sh_signals s)
              (if full then {[r]} ∪ sh_full s else sh_full s ∖ {[r]}) (sh_expired s) (sh_registryCloses s))
  | DeadlinePasses =>
      match sh_pc s with
      | Draining _ => Some (mkShutdown (sh_mgr s) (sh_pc s) (sh_signals s) (sh_full s) true (sh_registryCloses s))
      | _ => None
      end
  | Drain abandon =>
      match sh_pc s with
      | Draining [] => if abandon then None else Some (finish false s)
      | Draining (r :: rest) =>
          if abandon then if sh_expired s then Some (finish true s) else None
          else if done_of (sh_mgr s) r then Some (set_sh_pc (Draining rest) s) else None
      | _ => None
      end
  end.

(** ** What holds throughout *)

Record drain_ok (s : shutdown) : Prop := {
  dr_registry : registry_ok (sh_mgr s);
  dr_begun : sh_pc s <> NotClosing -> closed (sh_mgr s) = true;
  dr_waits : forall doc r, rooms (sh_mgr s) !! doc = Some r ->
    match sh_pc s with
    | NotClosing | Finished true => True
    | Draining rest => r ∈ rest \/ done_of (sh_mgr s) r = true
    | Finished false => done_of (sh_mgr s) r = true
    end;
  dr_signals : forall doc r, sh_pc s <> NotClosing -> rooms (sh_mgr s) !! doc = Some r ->
    is_Some (sh_signals s !! r);
  dr_closes : sh_registryCloses s = match sh_pc s with Finished _ => 1 | _ => 0 end;
  dr_gave_up : sh_pc s = Finished true -> sh_expired s = true }.

(** A registered room whose [done] is closed has only its removal left. *)
Lemma registered_done s doc r :
  registry_ok s -> rooms s !! doc = Some r -> done_of s r = true -> phase_of s r = Some Over.
Proof.
  intros H Hr. unfold done_of, phase_of. destruct (rg_rooms s H doc r Hr) as (p & -> & _ & Hg). by destruct p.
Qed.

Lemma done_phase s r : done_of s r = true <-> exists doc p, made s !! r = Some (doc, p) /\ (p = Over \/ p = Gone).
Proof.
  unfold done_of, phase_of. split.
  - destruct (made s !! r) as [[doc p]|]; [|done]. intros H. exists doc, p. split; [done|]. destruct p; auto; done.
  - by intros (doc & p & -> & [->| ->]).
Qed.

(** A closed [done] stays closed. *)
Lemma done_step ev s s' r :
  registry_ok s -> Manager.step ev s = Some s' -> done_of s r = true -> done_of s' r = true.
Proof.
  intros Hok Hs. rewrite !done_phase. intros (doc & p & Hm & Hp).
  assert (Hne : forall r' d q, made s !! r' = Some (d, q) -> q <> Over -> q <> Gone -> r' <> r).
  { intros r' d q H1 H2 H3 ->. rewrite Hm in H1. injection H1 as -> ->. by destruct Hp. }
  destruct ev as [j d now|j row|j|d|d ok|d|d|d|j|j|d now|d expires|r'|r'|r'|r'|]; simpl in Hs;
    repeat (case_match; try done); simplify_eq/=; eauto.
  - unfold begin_join. repeat case_match; simpl; eauto.
  - rewrite lookup_insert_ne; [eauto|]. intros E. apply (rg_next _ Hok) in Hm. lia.
  - assert (Hx : made s !! room = Some (d, Built)) by (by eapply (rg_register _ Hok)).
    unfold register. repeat case_match; simpl; (rewrite lookup_insert_ne; [eauto|by eapply Hne]).
  - rewrite lookup_insert_ne; [eauto|by eapply Hne].
  - rewrite lookup_insert_ne; [eauto|by eapply Hne].
  - destruct (decide (r' = r)) as [->|]; [rewrite lookup_insert_eq; eauto|].
    rewrite lookup_insert_ne by done. unfold remove. case_bool_decide; simpl; eauto.
Qed.

Lemma registered_elem s doc r : rooms s !! doc = Some r -> r ∈ registered s.
Proof.
  intros H. unfold registered. apply list_elem_of_fmap. exists (doc, r). split; [done|].
  by apply elem_of_map_to_list.
Qed.

Lemma parked_elem order r : r ∈ order -> parked order !! r = Some Parked.
Proof.
  intros H. unfold parked. induction order as [|r' order IH]; [set_solver|]. simpl.
  rewrite lookup_insert. case_decide; [done|]. apply IH. set_solver.
Qed.

Lemma drain_registry ev s m :
  drain_ok s -> Manager.step ev (sh_mgr s) = Some m -> drain_ok (set_sh_mgr m s).
Proof.
  intros [] Hs.
  assert (Hsub : sh_pc s <> NotClosing -> closed m = true /\ rooms m ⊆ rooms (sh_mgr s)).
  { intros Hb. eapply closed_step; [by apply dr_begun0|done]. }
  assert (Hdone : forall r, done_of (sh_mgr s) r = true -> done_of m r = true) by (intros r; by eapply done_step).
  split; simpl; try done.
  - by eapply registry_step.
  - intros Hb. by apply Hsub.
  - intros doc r Hr. destruct (decide (sh_pc s = NotClosing)) as [->|Hb]; [done|].
    destruct (Hsub Hb) as [_ Hs']. pose proof (dr_waits0 doc r (lookup_weaken _ _ _ _ Hr Hs')) as Hw.
    destruct (sh_pc s) as [|rest|[]]; [done|destruct Hw; auto|done|auto].
  - intros doc r Hb Hr. destruct (Hsub Hb) as [_ Hs']. apply (dr_signals0 doc); [done|]. by eapply lookup_weaken.
Qed.

Lemma drain_step ev s s' : drain_ok s -> step ev s = Some s' -> drain_ok s'.
Proof.
  intros Hok Hs. destruct ev as [ev|order|r way|r full| |abandon]; cbn [step] in Hs.
  - assert (H : (fun m => set_sh_mgr m s) <$> Manager.step ev (sh_mgr s) = Some s') by (by destruct ev).
    apply fmap_Some in H as (m & Hm & ->). by eapply drain_registry.
  - destruct (sh_pc s) eqn:Hpc; try done. simpl in Hs. case_bool_decide as Ho; [|done]. injection Hs as <-.
    destruct Hok. rewrite Hpc in *. split; simpl; try done.
    + by apply (registry_frame (sh_mgr s)).
    + intros doc r Hr. left. rewrite Ho. by eapply registered_elem.
    + intros doc r _ Hr. rewrite parked_elem; [done|]. rewrite Ho. by eapply registered_elem.
  - destruct (sh_signals s !! r) as [pc|] eqn:Hr; [|done]. apply fmap_Some in Hs as (pc' & _ & ->).
    destruct Hok. split; simpl; try done.
    intros doc r' Hb Hd. rewrite lookup_insert. case_decide; [done|]. by eapply dr_signals0.
  - injection Hs as <-. by destruct Hok; split.
  - destruct (sh_pc s) eqn:Hpc; try done. injection Hs as <-. destruct Hok. rewrite Hpc in *. split; simpl; try done.
    all: by rewrite Hpc.
  - destruct Hok. destruct (sh_pc s) as [|[|r rest]|] eqn:Hpc; try done; destruct abandon; try done.
    + injection Hs as <-. split; simpl; try done; auto.
      * intros doc r Hr. destruct (dr_waits0 doc r Hr) as [H|H]; [set_solver|done].
      * intros doc r _. by apply dr_signals0.
    + destruct (sh_expired s) eqn:He; [|done]. injection Hs as <-. split; simpl; try done; auto.
      intros doc r' _. by apply dr_signals0.
    + destruct (done_of (sh_mgr s) r) eqn:Hd; [|done]. injection Hs as <-.
      split; simpl; try done; auto; [|intros doc r' _; by apply dr_signals0].
      intros doc r' Hr. destruct (dr_waits0 doc r' Hr) as [[->|]%elem_of_cons|]; auto.
Qed.

Lemma drain_reach evs s : drive step evs starting = Some s -> drain_ok s.
Proof.
  apply (drive_inv step drain_ok); [intros ev s1 s2; apply drain_step|].
  split; simpl; try done.
Qed.

(** C18: [Close] waits for every room that could lose edits.  However joins,
    materializations, deletions, room ends, signals and the deadline interleave: once it
    has begun, a room still registered is one it is signalling, and one it is still
    waiting for or whose teardown is over; the document registry is closed exactly when
    [Close] finishes, once; and when it finishes without having given up, no room serves
    or is still tearing down under its document: a room's [done] closes just before its
    removal, so an entry left then is one whose removal is the next thing its room does,
    and once those have run none is registered.  It gives up only after its deadline. *)
Theorem close_drains_every_room (evs : list shutdown_event) (s : shutdown) :
  drive step evs starting = Some s ->
  (sh_registryCloses s = match sh_pc s with Finished _ => 1 | _ => 0 end)
  /\ (forall rest doc r, sh_pc s = Draining rest -> rooms (sh_mgr s) !! doc = Some r ->
        (r ∈ rest \/ phase_of (sh_mgr s) r = Some Over) /\ is_Some (sh_signals s !! r))
  /\ (sh_pc s = Finished false ->
        (forall doc r, rooms (sh_mgr s) !! doc = Some r -> phase_of (sh_mgr s) r = Some Over)
        /\ (forall r, phase_of (sh_mgr s) r <> Some Serving)
        /\ ((forall r, phase_of (sh_mgr s) r <> Some Over) -> rooms (sh_mgr s) = ∅))
  /\ (sh_pc s = Finished true -> sh_expired s = true).
Proof.
  intros H. destruct (drain_reach evs s H). split_and!; [done| | |done].
  - intros rest doc r Hpc Hr. split; [|apply (dr_signals0 doc); [by rewrite Hpc|done]].
    pose proof (dr_waits0 doc r Hr) as Hw. rewrite Hpc in Hw.
    destruct Hw as [|Hd]; [by left|right]. by eapply registered_done.
  - intros Hpc. assert (Hover : forall doc r, rooms (sh_mgr s) !! doc = Some r -> phase_of (sh_mgr s) r = Some Over).
    { intros doc r Hr. pose proof (dr_waits0 doc r Hr) as Hw. rewrite Hpc in Hw. by eapply registered_done. }
    split_and!; [done| |].
    + intros r Hr. pose proof Hr as Hr'. unfold phase_of in Hr.
      destruct (made (sh_mgr s) !! r) as [[doc p]|] eqn:Hm; [|done].
      simplify_eq/=. apply (rg_serving _ dr_registry0) in Hm. rewrite (Hover doc r Hm) in Hr'. discriminate.
    + intros Hno. apply map_empty. intros doc. destruct (rooms (sh_mgr s) !! doc) as [r|] eqn:E; [|done].
      by destruct (Hno r (Hover doc r E)).
Qed.

(** ** How long [Close] and its signals can take *)

Definition is_drain (ev : shutdown_event) : bool := match ev with Drain _ => true | _ => false end.
Definition drains (evs : list shutdown_event) : nat := List.length (List.filter is_drain evs).
Definition moves_of (r : nat) (ev : shutdown_event) : bool :=
  match ev with SignalMoves r' _ => bool_decide (r' = r) | _ => false end.
Definition moves (r : nat) (evs : list shutdown_event) : nat := List.length (List.filter (moves_of r) evs).

(** The steps the waiting loop, and a signalling goroutine, have at most left. *)
Definition drain_left (s : shutdown) : nat :=
  match sh_pc s with Draining rest => S (List.length rest) | _ => 0 end.
Definition signal_left (pc : signal_pc) : nat :=
  match pc with Parked => 3 | Checked => 2 | Blocked => 1 | Sent _ => 0 end.

Lemma drain_left_step ev s s' :
  step ev s = Some s' -> sh_pc s <> NotClosing ->
  sh_pc s' <> NotClosing /\ drain_left s' + (if is_drain ev then 1 else 0) <= drain_left s
  /\ (forall rest, sh_pc s' = Draining rest -> drain_left s' + (if is_drain ev then 1 else 0) = drain_left s).
Proof.
  intros Hs Hb. unfold drain_left. destruct ev as [ev|order|r way|r full| |abandon]; cbn [step] in Hs.
  - assert (H : (fun m => set_sh_mgr m s) <$> Manager.step ev (sh_mgr s) = Some s') by (by destruct ev).
    apply fmap_Some in H as (m & Hm & ->). simpl. split_and!; [done|lia|intros; lia].
  - by destruct (sh_pc s).
  - destruct (sh_signals s !! r) as [pc|]; [|done]. apply fmap_Some in Hs as (pc' & _ & ->). simpl.
    split_and!; [done|lia|intros; lia].
  - injection Hs as <-. simpl. split_and!; [done|lia|intros; lia].
  - destruct (sh_pc s) eqn:E; try done. injection Hs as <-. simpl. split_and!; [done|lia|intros; lia].
  - destruct (sh_pc s) as [|[|r rest]|]; try done; destruct abandon; simpl in Hs; try done;
      try (destruct (sh_expired s); [|done]); try (destruct (done_of _ _); [|done]); injection Hs as <-; simpl;
      split_and!; try done; try lia; intros; simplify_eq; lia.
Qed.

Lemma drain_left_run more s s' :
  drive step more s = Some s' -> sh_pc s <> NotClosing ->
  sh_pc s' <> NotClosing /\ drain_left s' + drains more <= drain_left s
  /\ (forall rest, sh_pc s' = Draining rest -> drain_left s' + drains more = drain_left s).
Proof.
  revert s. induction more as [|ev more IH]; intros s H Hb; simpl in H.
  - injection H as <-. unfold drains. simpl. split_and!; [done|lia|intros; lia].
  - destruct (step ev s) as [s1|] eqn:Hs; [|done]. destruct (drain_left_step ev s s1 Hs Hb) as (B1 & L1 & E1).
    destruct (IH s1 H B1) as (B2 & L2 & E2).
    assert (Hd : drains (ev :: more) = (if is_drain ev then 1 else 0) + drains more)
      by (unfold drains; simpl; by destruct (is_drain ev)).
    rewrite Hd. split_and!; [done|lia|]. intros rest Hrest. pose proof (E2 rest Hrest) as E2'.
    destruct (sh_pc s1) as [|rest1|b] eqn:H1; [done|pose proof (E1 rest1 eq_refl); lia|].
    unfold drain_left in E2' at 2. rewrite H1 in E2'. unfold drain_left in E2'. rewrite Hrest in E2'. lia.
Qed.

(** What a step does to the signal of [r]. *)
Lemma signal_step_left s r pc way pc' : signal_step s r pc way = Some pc' -> signal_left pc' < signal_left pc.
Proof.
  unfold signal_step. intros H. repeat (case_match; try done); simplify_eq/=; try lia. all: destruct pc'; simpl; lia.
Qed.

Lemma signal_left_step ev s s' r pc' :
  step ev s = Some s' -> sh_pc s <> NotClosing -> sh_signals s' !! r = Some pc' ->
  exists pc, sh_signals s !! r = Some pc /\ signal_left pc' + (if moves_of r ev then 1 else 0) <= signal_left pc.
Proof.
  intros Hs Hb. destruct ev as [ev|order|r0 way|r0 full| |abandon]; cbn [step] in Hs; simpl.
  - assert (H : (fun m => set_sh_mgr m s) <$> Manager.step ev (sh_mgr s) = Some s') by (by destruct ev).
    apply fmap_Some in H as (m & Hm & ->). simpl. intros Hr. exists pc'. split; [done|lia].
  - by destruct (sh_pc s).
  - destruct (sh_signals s !! r0) as [pc|] eqn:H0; [|done]. apply fmap_Some in Hs as (pc1 & H1 & ->). simpl.
    rewrite lookup_insert. case_decide as E; case_bool_decide; try done; intros Hx.
    + subst. injection Hx as ->. exists pc. apply signal_step_left in H1. split; [done|lia].
    + exists pc'. split; [done|lia].
  - injection Hs as <-. simpl. intros H. exists pc'. split; [done|lia].
  - destruct (sh_pc s); try done. injection Hs as <-. simpl. intros H. exists pc'. split; [done|lia].
  - destruct (sh_pc s) as [|[|r' rest]|]; try done; destruct abandon; simpl in Hs; try done;
      try (destruct (sh_expired s); [|done]); try (destruct (done_of _ _); [|done]); injection Hs as <-; simpl;
      intros H; exists pc'; (split; [done|lia]).
Qed.

Lemma signal_left_run more s s' r pc' :
  drive step more s = Some s' -> sh_pc s <> NotClosing -> sh_signals s' !! r = Some pc' ->
  signal_left pc' + moves r more <= 3.
Proof.
  assert (Hgo : drive step more s = Some s' -> sh_pc s <> NotClosing -> sh_signals s' !! r = Some pc' ->
    exists pc, sh_signals s !! r = Some pc /\ signal_left pc' + moves r more <= signal_left pc).
  { revert s. induction more as [|ev more IH]; intros s H Hb Hr; simpl in H.
    - injection H as <-. exists pc'. unfold moves. simpl. split; [done|lia].
    - destruct (step ev s) as [s1|] eqn:Hs; [|done]. destruct (drain_left_step ev s s1 Hs Hb) as (B1 & _).
      destruct (IH s1 H B1 Hr) as (pc1 & H1 & L1). destruct (signal_left_step ev s s1 r pc1 Hs Hb H1) as (pc & H2 & L2).
      exists pc. split; [done|]. unfold moves in *. simpl. destruct (moves_of r ev); simpl; lia. }
  intros H Hb Hr. destruct (Hgo H Hb Hr) as (pc & _ & L). destruct pc; simpl in L; lia.
Qed.

(** A signalling goroutine with no step of its own but its timer. *)
Lemma signal_stuck s r pc :
  sh_signals s !! r = Some pc -> (forall o, pc <> Sent o) ->
  (forall way, way <> ViaTimer -> step (SignalMoves r way) s = None) ->
  pc = Blocked /\ r ∈ sh_full s /\ done_of (sh_mgr s) r = false /\ ctx_done s = false.
Proof.
  intros Hr Hno Hst.
  pose proof (Hst ReadsState ltac:(done)) as S1. pose proof (Hst ViaSlot ltac:(done)) as S2.
  pose proof (Hst ViaDone ltac:(done)) as S3. pose proof (Hst Falls ltac:(done)) as S4.
  pose proof (Hst ViaContext ltac:(done)) as S5. cbn [step] in *. rewrite Hr in *.
  unfold signal_step in *. destruct pc as [| | |o]; [done| | |by destruct (Hno o)].
  - destruct (negb _) eqn:E1; [done|]. destruct (done_of (sh_mgr s) r) eqn:E2; done.
  - destruct (negb _) eqn:E1; [done|]. destruct (done_of (sh_mgr s) r) eqn:E2; [done|].
    destruct (ctx_done s) eqn:E3; [done|]. apply negb_false_iff, bool_decide_eq_true in E1. done.
Qed.

(** The waiting loop with no step of its own. *)
Lemma drain_stuck s rest :
  sh_pc s = Draining rest -> step (Drain false) s = None -> step (Drain true) s = None ->
  sh_expired s = false /\ exists r rest', rest = r :: rest' /\ done_of (sh_mgr s) r = false.
Proof.
  intros Hpc H1 H2. cbn [step] in *. rewrite Hpc in *. destruct rest as [|r rest]; [done|].
  destruct (done_of (sh_mgr s) r) eqn:E; [done|]. destruct (sh_expired s) eqn:Ex; [done|]. eauto.
Qed.

Lemma drain_when_done s rest :
  sh_pc s = Draining rest -> (forall r, r ∈ rest -> done_of (sh_mgr s) r = true) ->
  exists s', drive step (replicate (S (List.length rest)) (Drain false)) s = Some s' /\ sh_pc s' = Finished false.
Proof.
  revert s. induction rest as [|r rest IH]; intros s Hpc Hd; simpl; rewrite Hpc; [by eexists|].
  rewrite (Hd r) by (by left).
  destruct (IH (set_sh_pc (Draining rest) s)) as (s' & Hs' & Hf); [done| |by exists s'].
  intros r' Hr'. apply Hd. by right.
Qed.

(** C38: [Close] returns, and so does every goroutine it starts.  Take any run that goes
    on from a [Close] waiting for [rest].  Whatever else moves in it, the waiting loop
    takes at most one step more than there are rooms, and by then it has finished.  Where
    it still waits, it has no step only when its deadline has not passed and the first
    room it has left is not done: from the deadline on it always has one, and one at a
    room that is not done is its last; and before it, once its rooms are done, its own
    steps end it without giving up.  A signalling goroutine takes at most three steps,
    and apart from its own timer it is without one only in the blocking select, when the
    command queue of its own room is full, that room is not done, and the shutdown's
    deadline has neither passed nor been cancelled: no room's full queue delays
    another's signal, nor outlives [Close]. *)
Theorem close_returns (more : list shutdown_event) (s s' : shutdown) (rest : list nat) :
  sh_pc s = Draining rest -> drive step more s = Some s' ->
  drains more <= S (List.length rest)
  /\ (drains more = S (List.length rest) -> exists gave_up, sh_pc s' = Finished gave_up)
  /\ (forall left, sh_pc s' = Draining left ->
        drains more + List.length left = List.length rest
        /\ (step (Drain false) s' = None -> step (Drain true) s' = None ->
              sh_expired s' = false /\ exists r left', left = r :: left' /\ done_of (sh_mgr s') r = false)
        /\ (forall r left' b s2, left = r :: left' -> done_of (sh_mgr s') r = false ->
              step (Drain b) s' = Some s2 -> sh_pc s2 = Finished true)
        /\ ((forall r, r ∈ left -> done_of (sh_mgr s') r = true) ->
              exists s2, drive step (replicate (S (List.length left)) (Drain false)) s' = Some s2
                /\ sh_pc s2 = Finished false))
  /\ (forall r pc, sh_signals s' !! r = Some pc ->
        moves r more <= 3
        /\ ((forall o, pc <> Sent o) -> (forall way, way <> ViaTimer -> step (SignalMoves r way) s' = None) ->
              pc = Blocked /\ r ∈ sh_full s' /\ done_of (sh_mgr s') r = false /\ ctx_done s' = false)).
Proof.
  intros Hpc Hm. assert (Hb : sh_pc s <> NotClosing) by (by rewrite Hpc).
  destruct (drain_left_run more s s' Hm Hb) as (B & L & E). unfold drain_left in L, E. rewrite Hpc in L, E.
  split_and!; [lia| | |].
  - intros Hd. destruct (sh_pc s') as [|left|b] eqn:H'; [done|lia|by exists b].
  - intros left H'. specialize (E left H'). rewrite H' in E. split_and!; [lia|by apply drain_stuck| |by apply drain_when_done].
    intros r left' b s2 -> Hd Hs. cbn [step] in Hs. rewrite H', Hd in Hs. destruct b; [|done].
    destruct (sh_expired s'); [|done]. by injection Hs as <-.
  - intros r pc Hr. split; [pose proof (signal_left_run more s s' r pc Hm Hb Hr); lia|]. by apply signal_stuck.
Qed.

(** ** A shutdown that overtakes a materialization and waits for a room *)

Definition busy : list shutdown_event :=
  (OfRegistry <$> two_joins) ++ (OfRegistry <$> [EvBegin 3 "e" 10; EvRow 3 (Loaded doc_row); EvEnter 3;
     EvLook "e"; EvBuilt "e" true])
  ++ [CloseBegins [0]; OfRegistry (EvRegister "e"); SignalMoves 0 ReadsState; SignalMoves 0 ViaSlot;
      OfRegistry (EvTeardown 0)].
Definition drained : list shutdown_event :=
  busy ++ [OfRegistry (EvOver 0); Drain false; OfRegistry (EvReleased 0); OfRegistry (EvCountedOut 0); Drain false].

Definition after_drained : shutdown := default starting (drive step drained starting).

Lemma close_drains_every_room_witness :
  sh_pc after_drained = Finished false /\ rooms (sh_mgr after_drained) = ∅ /\ sh_registryCloses after_drained = 1
  /\ forall r, phase_of (sh_mgr after_drained) r <> Some Serving.
Proof.
  assert (E : drive step drained starting = Some after_drained) by (vm_compute; reflexivity).
  assert (Hpc : sh_pc after_drained = Finished false) by (vm_compute; reflexivity).
  destruct (close_drains_every_room drained after_drained E) as (Hc & _ & Hf & _).
  split; [exact Hpc|]. split; [vm_compute; reflexivity|].
  split; [rewrite Hc, Hpc; reflexivity|]. apply (Hf Hpc).
Defined.

(** A room that is stuck with a full queue: its signal waits, and the deadline ends
    both the signal and [Close]. *)
Definition wedged : list shutdown_event :=
  (OfRegistry <$> two_joins) ++ [QueueTurns 0 true; CloseBegins [0]; SignalMoves 0 ReadsState; SignalMoves 0 Falls].
Definition given_up : list shutdown_event := [DeadlinePasses; SignalMoves 0 ViaContext].

Definition after_wedged : shutdown := default starting (drive step wedged starting).
Definition after_deadline : shutdown := default starting (drive step given_up after_wedged).

Lemma close_returns_witness :
  drive step wedged starting = Some after_wedged
  /\ sh_signals after_wedged !! 0 = Some Blocked /\ step (SignalMoves 0 ViaSlot) after_wedged = None
  /\ sh_pc after_deadline = Draining [0] /\ sh_expired after_deadline = true
  /\ ~ (step (Drain false) after_deadline = None /\ step (Drain true) after_deadline = None)
  /\ (forall b s2, step (Drain b) after_deadline = Some s2 -> sh_pc s2 = Finished true).
Proof.
  assert (E2 : drive step given_up after_wedged = Some after_deadline) by (vm_compute; reflexivity).
  assert (Hpc : sh_pc after_deadline = Draining [0]) by (vm_compute; reflexivity).
  assert (Hx : sh_expired after_deadline = true) by (vm_compute; reflexivity).
  do 3 (split; [vm_compute; reflexivity|]). split; [exact Hpc|]. split; [exact Hx|].
  destruct (close_returns given_up after_wedged after_deadline [0] ltac:(vm_compute; reflexivity) E2)
    as (_ & _ & Hw & _). destruct (Hw [0] Hpc) as (_ & Hstuck & Hlast & _). split.
  - intros [H1 H2]. destruct (Hstuck H1 H2) as [Hn _]. rewrite Hx in Hn. discriminate.
  - intros b s2. apply (Hlast 0 [] b s2); [reflexivity|vm_compute; reflexivity].
Defined.
