(* ===== verification/Admission.v ===== *)
(** * Admitting a connection, and the answers of a deletion (manager.go)

    [Join] composes what [Manager] models separately: the grant, the deletion
    tombstone, the existence read, and the two attempts at a room.  What an attempt
    yields is an argument, since the room and the registry decide it.
    [CloseDeleted_answer] is what the deletion event is told. *)

From stdpp Require Import base list strings.
From Stdlib Require Import ZArith String Lia.
From S2P Require Import Prelude Control Lifecycle RoomState RoomLoop Manager.

(** ** Join *)

(** One attempt: [acquire] fails, the room does not take the command, the room
    answers, or it ends without answering. *)
Inductive join_attempt :=
| AcquireFailed (e : joinFailure)
| NotQueued
| RoomAnswered (res : joinResult)
| RoomEnded.

Definition refusal_of (e : joinError) : joinFailure :=
  match e with ErrRoomFull => RoomFull | errRoomUnavailable => RoomUnavailable end.

(** [todo] attempts are left, [k] is the number of the next one. *)
Fixpoint join_attempts (todo k : nat) (attempt : nat -> join_attempt)
    : joinFailure + (connID * list wire_frame) :=
  match todo with
  | O => inl RoomUnavailable
  | S todo' =>
      match attempt k with
      | AcquireFailed e => inl e
      | RoomAnswered (Joined id frames) => inr (id, frames)
      | RoomAnswered (Refused e) => inl (refusal_of e)
      | NotQueued | RoomEnded => join_attempts todo' (S k) attempt
      end
  end.

(** An unexpired tombstone refuses the join. *)
Definition tombstoned (tomb : option Z) (now : Z) : bool :=
  match tomb with Some expires => (now <? expires)%Z | None => false end.

Definition Join (evaluate : Privilege -> option AuthDecision) (tomb : option Z) (now : Z)
    (row : load_answer) (attempt : CollaboratorMode -> option bool -> nat -> join_attempt)
    : joinFailure + (connID * list wire_frame) :=
  match authorizeSession evaluate with
  | inl e => inl e
  | inr mode =>
      if tombstoned tomb now then inl ErrForbidden
      else match requireDocument row with
           | inl e => inl e
           | inr m => join_attempts 2 0 (attempt mode (m_IsMultiUser m))
           end
  end.

(** ** The answers of a deletion *)

Inductive closeError := LiveRoomBusy | LiveRoomDeadline | CloseNotCompleted.

(** [lc_then] is the room's state once the queue refused the command,
    [deadline_passed] whether the caller's own deadline had by then. *)
Definition CloseDeleted_answer (live : bool) (lc_now : roomState) (first : attempt) (later : wake)
    (lc_then : roomState) (deadline_passed : bool) (res : completion unit) : option closeError :=
  if negb live then None
  else if negb (enqueueCtx lc_now first later) then
    if bool_decide (lc_then = stateActive)
    then Some (if deadline_passed then LiveRoomDeadline else LiveRoomBusy)
    else None
  else match res with
       | Answered _ _ | RoomGone _ => None
       | DeadlinePassed _ => Some CloseNotCompleted
       end.

(** ** Properties *)

Definition gave_up (a : join_attempt) : Prop := a = NotQueued \/ a = RoomEnded.

Lemma join_attempts_joined todo k attempt id frames :
  join_attempts todo k attempt = inr (id, frames) ->
  exists n, (k <= n < k + todo)%nat /\ attempt n = RoomAnswered (Joined id frames)
    /\ forall i, (k <= i < n)%nat -> gave_up (attempt i).
Proof.
  revert k. induction todo as [|todo IH]; intros k; simpl; [done|].
  destruct (attempt k) as [| |[]|] eqn:Ha; try done; intros H.
  - destruct (IH _ H) as (n & ? & ? & Hb). exists n. split_and!; [lia|lia|done|].
    intros i Hi. destruct (decide (i = k)) as [->|]; [by left|apply Hb; lia].
  - injection H as -> ->. exists k. split_and!; [lia|lia|done|]. intros i Hi. lia.
  - destruct (IH _ H) as (n & ? & ? & Hb). exists n. split_and!; [lia|lia|done|].
    intros i Hi. destruct (decide (i = k)) as [->|]; [by right|apply Hb; lia].
Qed.

(** A session exists only for an actor the grant lets read, on a document whose
    row exists and is migrated and that no unexpired deletion covers; the room is
    asked for exactly the mode the update grant gives and the row's licence, at most
    twice, the second time only after a room that ended or took no command. *)
Theorem join_gate (evaluate : Privilege -> option AuthDecision) (tomb : option Z) (now : Z)
    (row : load_answer) (attempt : CollaboratorMode -> option bool -> nat -> join_attempt)
    (id : connID) (frames : list wire_frame) :
  Join evaluate tomb now row attempt = inr (id, frames) ->
  exists read write m n,
    evaluate PrivilegeRead = Some read /\ Allowed read = true
    /\ evaluate PrivilegeUpdateContent = Some write
    /\ (forall expires, tomb = Some expires -> (expires <= now)%Z)
    /\ row = Loaded m /\ m_Migrated m = true
    /\ let asked := attempt (if Allowed write then ModeCollaborator else ModeViewer) (m_IsMultiUser m) in
       (n < 2)%nat /\ asked n = RoomAnswered (Joined id frames)
       /\ forall i, (i < n)%nat -> gave_up (asked i).
Proof.
  unfold Join, authorizeSession, requireDocument.
  destruct (evaluate PrivilegeRead) as [read|]; [|done].
  destruct (Allowed read) eqn:Hr; [|done]. simpl.
  destruct (evaluate PrivilegeUpdateContent) as [write|]; [|done].
  destruct (tombstoned tomb now) eqn:Ht; [done|].
  destruct row as [m| |]; try done. destruct (m_Migrated m) eqn:Hm; [|done]. simpl.
  intros (n & Hn & Ha & Hb)%(join_attempts_joined 2 0).
  exists read, write, m, n. split_and!; try done; [|lia|intros i Hi; apply Hb; lia].
  intros expires ->. simpl in Ht. by apply Z.ltb_ge in Ht.
Qed.

Lemma join_blind (evaluate : Privilege -> option AuthDecision) read (tomb : option Z) (now : Z)
    (row : load_answer) (attempt : CollaboratorMode -> option bool -> nat -> join_attempt) :
  evaluate PrivilegeRead = Some read -> Allowed read = false ->
  Join evaluate tomb now row attempt = inl ErrForbidden.
Proof. intros Hr Hno. unfold Join, authorizeSession. by rewrite Hr, Hno. Qed.

(** ** Witnesses *)

Definition grants (read write : bool) (p : Privilege) : option AuthDecision :=
  match p with
  | PrivilegeRead => Some (mkDecision read "")
  | PrivilegeUpdateContent => Some (mkDecision write "")
  end.

(** The first room ends under the join, the second answers. *)
Definition second_time (mode : CollaboratorMode) (lic : option bool) (k : nat) : join_attempt :=
  match k with O => RoomEnded | _ => RoomAnswered (Joined 3 [WBytes "x"]) end.

Lemma join_gate_witness :
  Join (grants true false) (Some 5%Z) 6 (Loaded doc_row) second_time = inr (3%Z, [WBytes "x"])
  /\ exists read write m n,
    grants true false PrivilegeRead = Some read /\ Allowed read = true
    /\ grants true false PrivilegeUpdateContent = Some write
    /\ (forall expires, Some 5%Z = Some expires -> (expires <= 6)%Z)
    /\ Loaded doc_row = Loaded m /\ m_Migrated m = true
    /\ let asked := second_time (if Allowed write then ModeCollaborator else ModeViewer) (m_IsMultiUser m) in
       (n < 2)%nat /\ asked n = RoomAnswered (Joined 3 [WBytes "x"])
       /\ forall i, (i < n)%nat -> gave_up (asked i).
Proof.
  split; [reflexivity|].
  apply (join_gate (grants true false) (Some 5%Z) 6 (Loaded doc_row) second_time 3 [WBytes "x"]).
  reflexivity.
Defined.
