(* ===== verification/Store.v ===== *)
(** * Checkpoint stores: the contract, the in-process store, the in-memory index

    [CheckpointStore] is the interface a room saves through and loads from, with the
    laws it relies on: a document's slot is empty, lost, or holds bytes.  The theorem
    about any sequence of saves and loads is proved from the laws alone; the
    in-process store (persistence/inprocess/store.go) satisfies them here.  What the
    file-service store does is in [FileStore].  The in-memory metadata index
    (metadatastore/inmemory/store.go) is at the end. *)

From stdpp Require Import base gmap list strings.
From Stdlib Require Import ZArith String Lia.
From S2P Require Import Prelude Control.

Local Open Scope string_scope.

(** ** Requests and answers *)

Inductive encoding := EncodingUnspecified | EncodingV1 | EncodingV2.

Inductive storeError :=
| CtxDone | ErrUnexpectedFence | ErrEncodingRequired | ErrUnsupportedEncoding
| SnapshotTooLarge | ErrNotFound | ErrCorrupt
| ResolveFailed | RecordFailed | RewriteFailed | CreateFailed | FetchFailed.
#[export] Instance storeError_eq_dec : EqDecision storeError.
Proof. solve_decision. Defined.

(** [rq_ctx_done]: the caller's context has ended before the call. *)
Record save_request := mkSave {
  rq_ctx_done : bool;
  rq_id : DocumentID;
  rq_encoding : encoding;
  rq_fence : Z;
  rq_update : bytes;
  rq_vector : bytes }.

Record checkpoint := mkCheckpoint {
  ck_revision : Z;
  ck_encoding : encoding;
  ck_update : bytes;
  ck_vector : bytes }.

(** What both stores refuse before touching anything. *)
Definition check_encoding (e : encoding) : option storeError :=
  match e with
  | EncodingV2 => None
  | EncodingUnspecified => Some ErrEncodingRequired
  | EncodingV1 => Some ErrUnsupportedEncoding
  end.

(** ** The interface *)

Inductive slot := Empty | Lost | Holds (b : bytes).

Class CheckpointStore (W : Type) := {
  save : save_request -> W -> (storeError + Z) * W;
  load : bool -> DocumentID -> W -> (storeError + checkpoint) * W }.

Class StoreLaws (W : Type) {CS : CheckpointStore W} := {
  good : W -> Prop;
  slot_of : W -> DocumentID -> slot;
  save_ok rq w rev w' : good w -> save rq w = (inr rev, w') ->
    good w' /\ slot_of w' (rq_id rq) = Holds (rq_update rq)
    /\ rq_encoding rq = EncodingV2 /\ slot_of w (rq_id rq) <> Lost;
  save_refused rq w e w' : good w -> save rq w = (inl e, w') ->
    good w' /\ (slot_of w' (rq_id rq) = slot_of w (rq_id rq)
                \/ slot_of w' (rq_id rq) = Holds (rq_update rq));
  save_frame rq w d : good w -> d <> rq_id rq -> slot_of (save rq w).2 d = slot_of w d;
  load_frame ctx id w : good w ->
    good (load ctx id w).2 /\ forall d, slot_of (load ctx id w).2 d = slot_of w d;
  load_answer_sound ctx id w : good w ->
    match (load ctx id w).1 with
    | inr ck => slot_of w id = Holds (ck_update ck) /\ ck_encoding ck = EncodingV2
    | inl ErrNotFound => slot_of w id = Empty
    | inl _ => True
    end }.

(** ** A store in use *)

Section Client.
Context {W : Type} {CS : CheckpointStore W} {SL : StoreLaws W}.

Inductive op := OSave (rq : save_request) | OLoad (ctx_done : bool) (id : DocumentID).

Definition exec1 (o : op) (w : W) : W :=
  match o with OSave rq => (save rq w).2 | OLoad ctx id => (load ctx id w).2 end.
Definition exec (ops : list op) (w : W) : W := fold_left (fun w o => exec1 o w) ops w.

(** [b] was handed to a save of [id] in [ops], whether it was acknowledged or not. *)
Definition offered (id : DocumentID) (b : bytes) (ops : list op) : Prop :=
  exists rq, OSave rq ∈ ops /\ rq_id rq = id /\ rq_update rq = b.

Lemma exec1_holds o w id b :
  good w -> slot_of w id = Holds b ->
  good (exec1 o w) /\ (slot_of (exec1 o w) id = Holds b
    \/ exists rq, o = OSave rq /\ rq_id rq = id /\ slot_of (exec1 o w) id = Holds (rq_update rq)).
Proof.
  intros Hg Hs. destruct o as [rq|ctx d]; simpl.
  - assert (Hgood : good (save rq w).2 /\ (slot_of (save rq w).2 (rq_id rq) = slot_of w (rq_id rq)
                \/ slot_of (save rq w).2 (rq_id rq) = Holds (rq_update rq))).
    { destruct (save rq w) as [[e|rev] w'] eqn:E; simpl.
      - by apply (save_refused rq w e w').
      - destruct (save_ok rq w rev w' Hg E) as (? & ? & _). auto. }
    destruct Hgood as [Hg' Hslot]. split; [done|].
    destruct (decide (id = rq_id rq)) as [->|Hne].
    + destruct Hslot as [->| ?]; [by left|right; eauto].
    + left. by rewrite save_frame.
  - destruct (load_frame ctx d w Hg) as [? Hf]. split; [done|]. left. by rewrite Hf.
Qed.

Lemma exec_good ops w : good w -> good (exec ops w).
Proof.
  revert w. induction ops as [|o ops IH]; intros w Hg; [done|]. apply IH. destruct o as [rq|ctx d]; simpl.
  - destruct (save rq w) as [[e|rev] w'] eqn:E; [by eapply save_refused|by eapply save_ok].
  - by apply load_frame.
Qed.

Lemma exec_holds ops w id b :
  good w -> slot_of w id = Holds b ->
  good (exec ops w) /\ exists b', slot_of (exec ops w) id = Holds b' /\ (b' = b \/ offered id b' ops).
Proof.
  revert w b. induction ops as [|o ops IH]; intros w b Hg Hs; simpl; [eauto|].
  destruct (exec1_holds o w id b Hg Hs) as [Hg1 H1].
  destruct H1 as [H1|(rq & -> & Hid & H1)]; destruct (IH _ _ Hg1 H1) as [Hg' (b' & Hb' & Hor)];
    (split; [done|]); exists b'; (split; [done|]).
  - destruct Hor as [->|(rq & Hin & ? & ?)]; [by left|right]. exists rq. split; [by right|done].
  - right. destruct Hor as [->|(rq' & Hin & ? & ?)]; [exists rq; split; [by left|done]|].
    exists rq'. split; [by right|done].
Qed.
End Client.

Lemma store_keeps {W} `{SL : StoreLaws W} rq w rev w1 ops ctx :
  good w -> save rq w = (inr rev, w1) ->
  match (load ctx (rq_id rq) (exec ops w1)).1 with
  | inr ck => ck_update ck = rq_update rq \/ offered (rq_id rq) (ck_update ck) ops
  | inl e => e <> ErrNotFound
  end.
Proof.
  intros Hg Hsave. destruct (save_ok rq w rev w1 Hg Hsave) as (Hg1 & Hs1 & _).
  destruct (exec_holds ops w1 _ _ Hg1 Hs1) as (Hg2 & b & Hb & Hor).
  pose proof (load_answer_sound ctx (rq_id rq) _ Hg2) as Hl.
  destruct (load ctx (rq_id rq) (exec ops w1)).1 as [[]|ck]; try done; [congruence|].
  destruct Hl as [Hl _]. rewrite Hb in Hl. injection Hl as <-. exact Hor.
Qed.

(** ** The in-process store *)

Module Inprocess.

Record store := mkStore {
  blobs : gmap DocumentID bytes;
  vectors : gmap DocumentID bytes;
  encodings : gmap DocumentID encoding;
  revisions : gmap DocumentID Z;
  revision : Z }.

Definition New : store := mkStore ∅ ∅ ∅ ∅ 0.

Definition checkFence (fence : Z) : option storeError :=
  if (fence =? 0)%Z then None else Some ErrUnexpectedFence.

Definition SaveCheckpoint (rq : save_request) (s : store) : (storeError + Z) * store :=
  if rq_ctx_done rq then (inl CtxDone, s)
  else match check_encoding (rq_encoding rq) with
       | Some e => (inl e, s)
       | None =>
           match checkFence (rq_fence rq) with
           | Some e => (inl e, s)
           | None =>
               let rev := u64 (revision s + 1) in
               (inr rev,
                mkStore (<[rq_id rq := rq_update rq]> (blobs s))
                        (<[rq_id rq := rq_vector rq]> (vectors s))
                        (<[rq_id rq := rq_encoding rq]> (encodings s))
                        (<[rq_id rq := rev]> (revisions s)) rev)
           end
       end.

(** A key missing from a map reads as the zero value. *)
Definition LoadCheckpoint (ctx_done : bool) (id : DocumentID) (s : store) : storeError + checkpoint :=
  if ctx_done then inl CtxDone
  else match blobs s !! id with
       | None => inl ErrNotFound
       | Some blob =>
           inr (mkCheckpoint (default 0%Z (revisions s !! id))
                  (default EncodingUnspecified (encodings s !! id)) blob (default "" (vectors s !! id)))
       end.

#[export] Instance checkpoint_store : CheckpointStore store := {
  save := SaveCheckpoint;
  load ctx id s := (LoadCheckpoint ctx id s, s) }.

Definition wf (s : store) : Prop := forall id b, blobs s !! id = Some b -> encodings s !! id = Some EncodingV2.

Definition slot (s : store) (id : DocumentID) : Store.slot :=
  match blobs s !! id with Some b => Holds b | None => Empty end.

Lemma save_cases rq s :
  (exists e, SaveCheckpoint rq s = (inl e, s))
  \/ (rq_ctx_done rq = false /\ rq_encoding rq = EncodingV2 /\ rq_fence rq = 0%Z
      /\ let rev := u64 (revision s + 1) in
         SaveCheckpoint rq s = (inr rev,
           mkStore (<[rq_id rq := rq_update rq]> (blobs s)) (<[rq_id rq := rq_vector rq]> (vectors s))
             (<[rq_id rq := EncodingV2]> (encodings s)) (<[rq_id rq := rev]> (revisions s)) rev)).
Proof.
  unfold SaveCheckpoint, checkFence. destruct (rq_ctx_done rq); [eauto|].
  destruct (rq_encoding rq); simpl; [eauto..|].
  destruct (Z.eqb_spec (rq_fence rq) 0); [right|left; eauto]. done.
Qed.

#[export] Program Instance store_laws : StoreLaws store := {
  good := wf;
  slot_of := slot }.
Next Obligation.
  intros rq s rev s' Hwf H. simpl in H.
  destruct (save_cases rq s) as [[e E]|(_ & He & _ & E)]; rewrite E in H; [done|]. injection H as _ <-.
  unfold slot. simpl. rewrite lookup_insert_eq. split_and!; [|done|done|by case_match].
  intros id b. simpl. rewrite !lookup_insert. case_decide; [done|]. apply Hwf.
Qed.
Next Obligation.
  intros rq s e s' Hwf H. simpl in H.
  destruct (save_cases rq s) as [[e' E]|(_ & _ & _ & E)]; rewrite E in H; [|done]. injection H as _ <-. auto.
Qed.
Next Obligation.
  intros rq s d Hwf Hd. simpl.
  destruct (save_cases rq s) as [[e' ->]|(_ & _ & _ & ->)]; [done|]. unfold slot. simpl.
  by rewrite lookup_insert_ne.
Qed.
Next Obligation. done. Qed.
Next Obligation.
  intros ctx id s Hwf. simpl. unfold LoadCheckpoint, slot. destruct ctx; [done|].
  destruct (blobs s !! id) as [b|] eqn:Hb; [|done]. simpl. by rewrite (Hwf _ _ Hb).
Qed.

Lemma wf_new : wf New.
Proof. by intros id b. Qed.

(** A refused save touches nothing; an accepted one is read back exactly, bytes,
    state vector, codec and revision, and leaves every other document as it was; the
    revision is the next one of the store's counter. *)
Theorem checkpoint_roundtrip (rq : save_request) (s s' : store) (res : storeError + Z) :
  SaveCheckpoint rq s = (res, s') ->
  match res with
  | inl _ => s' = s
  | inr rev =>
      rev = u64 (revision s + 1)
      /\ LoadCheckpoint false (rq_id rq) s'
         = inr (mkCheckpoint rev EncodingV2 (rq_update rq) (rq_vector rq))
      /\ forall ctx d, d <> rq_id rq -> LoadCheckpoint ctx d s' = LoadCheckpoint ctx d s
  end.
Proof.
  destruct (save_cases rq s) as [[e E]|(_ & _ & _ & E)]; rewrite E; intros H; injection H as <- <-; [done|].
  split; [done|]. unfold LoadCheckpoint. simpl. rewrite !lookup_insert_eq. split; [done|].
  intros ctx d Hd. by rewrite !lookup_insert_ne by done.
Qed.

Definition req_a := mkSave false "a" EncodingV2 0 "bytes" "vec".
Definition stored_a : store :=
  mkStore {["a" := "bytes"]} {["a" := "vec"]} {["a" := EncodingV2]} {["a" := 1%Z]} 1.

Lemma checkpoint_roundtrip_witness :
  SaveCheckpoint req_a New = (inr 1%Z, stored_a)
  /\ LoadCheckpoint false "a" stored_a = inr (mkCheckpoint 1 EncodingV2 "bytes" "vec").
Proof.
  split; [reflexivity|].
  destruct (checkpoint_roundtrip req_a New stored_a (inr 1%Z) eq_refl) as (_ & H & _). exact H.
Defined.

(** What the in-process store acknowledged stays readable: after any later saves
    and loads, of any documents, a load answers those bytes or bytes a later save of
    that document offered, and never that the document is unknown. *)
Theorem acknowledged_save_survives (before after : list op) (rq : save_request) (rev : Z)
    (s1 : store) (ctx : bool) :
  SaveCheckpoint rq (exec before New) = (inr rev, s1) ->
  match LoadCheckpoint ctx (rq_id rq) (exec after s1) with
  | inr ck => ck_update ck = rq_update rq \/ offered (rq_id rq) (ck_update ck) after
  | inl e => e <> ErrNotFound
  end.
Proof.
  intros H. exact (store_keeps rq (exec before New) rev s1 after ctx (exec_good before New wf_new) H).
Qed.

Lemma acknowledged_save_survives_witness :
  SaveCheckpoint req_a (exec [] New) = (inr 1%Z, stored_a)
  /\ match LoadCheckpoint false "a" (exec [OSave (mkSave false "a" EncodingV1 0 "v1" "")] stored_a) with
     | inr ck => ck_update ck = "bytes" \/ offered "a" (ck_update ck) [OSave (mkSave false "a" EncodingV1 0 "v1" "")]
     | inl e => e <> ErrNotFound
     end.
Proof.
  split; [reflexivity|].
  apply (acknowledged_save_survives [] [OSave (mkSave false "a" EncodingV1 0 "v1" "")] req_a 1 stored_a false).
  reflexivity.
Defined.
End Inprocess.

(** ** The in-memory metadata index *)

Module InMemory.

Abbreviation rows := (gmap DocumentID Metadata) (only parsing).

Definition Load (id : DocumentID) (s : rows) : load_answer :=
  match s !! id with Some m => Loaded m | None => NotFound end.

Definition blank_or (given existing : string) : string := if String.eqb given "" then existing else given.

Definition coalesceBlank (given existing : Metadata) : Metadata :=
  mkMetadata (m_ID given)
    (blank_or (m_ContentType given) (m_ContentType existing))
    (m_Version given)
    (blank_or (m_ContentPointer given) (m_ContentPointer existing))
    (if m_Migrated existing then true else m_Migrated given)
    (match m_IsMultiUser given with None => m_IsMultiUser existing | Some b => Some b end)
    (blank_or (m_AuthorizationPolicyID given) (m_AuthorizationPolicyID existing))
    (blank_or (m_StorageBucketID given) (m_StorageBucketID existing))
    (blank_or (m_OwnerRef given) (m_OwnerRef existing))
    (m_CreatedAt given) (m_UpdatedAt given).

Definition set_times (created updated : Z) (m : Metadata) : Metadata :=
  mkMetadata (m_ID m) (m_ContentType m) (m_Version m) (m_ContentPointer m) (m_Migrated m) (m_IsMultiUser m)
    (m_AuthorizationPolicyID m) (m_StorageBucketID m) (m_OwnerRef m) created updated.
Definition set_row_version (v : Z) (m : Metadata) : Metadata :=
  mkMetadata (m_ID m) (m_ContentType m) v (m_ContentPointer m) (m_Migrated m) (m_IsMultiUser m)
    (m_AuthorizationPolicyID m) (m_StorageBucketID m) (m_OwnerRef m) (m_CreatedAt m) (m_UpdatedAt m).
Definition set_migrated (m : Metadata) : Metadata :=
  mkMetadata (m_ID m) (m_ContentType m) (m_Version m) (m_ContentPointer m) true (m_IsMultiUser m)
    (m_AuthorizationPolicyID m) (m_StorageBucketID m) (m_OwnerRef m) (m_CreatedAt m) (m_UpdatedAt m).

(** [now] is the clock's reading. *)
Definition Save (now : Z) (m : Metadata) (s : rows) : rows :=
  let row := match s !! m_ID m with
             | Some existing =>
                 coalesceBlank (set_row_version (i64 (m_Version existing + 1))
                   (set_times (m_CreatedAt existing) (m_UpdatedAt m) m)) existing
             | None =>
                 set_row_version (if (m_Version m =? 0)%Z then 1%Z else m_Version m)
                   (set_migrated (set_times now (m_UpdatedAt m) m))
             end in
  <[m_ID m := set_times (m_CreatedAt row) now row]> s.

(** [keeps given old new]: a blank column keeps its value, any other is written. *)
Definition keeps (given old new : string) : Prop :=
  (given = "" -> new = old) /\ (given <> "" -> new = given).

Lemma blank_or_keeps given old : keeps given old (blank_or given old).
Proof. unfold keeps, blank_or. destruct (String.eqb_spec given ""); split; congruence. Qed.

(** Saving over an existing row never clears a column: blank columns keep what
    the row had and the others take what was given, the licence and the migration
    mark included; the version counts the save, the creation time stays, and no
    other row changes. *)
Theorem save_keeps_blank_columns (now : Z) (m old : Metadata) (s : rows) :
  s !! m_ID m = Some old ->
  exists row, Load (m_ID m) (Save now m s) = Loaded row
    /\ keeps (m_ContentType m) (m_ContentType old) (m_ContentType row)
    /\ keeps (m_ContentPointer m) (m_ContentPointer old) (m_ContentPointer row)
    /\ keeps (m_AuthorizationPolicyID m) (m_AuthorizationPolicyID old) (m_AuthorizationPolicyID row)
    /\ keeps (m_StorageBucketID m) (m_StorageBucketID old) (m_StorageBucketID row)
    /\ keeps (m_OwnerRef m) (m_OwnerRef old) (m_OwnerRef row)
    /\ m_IsMultiUser row = match m_IsMultiUser m with None => m_IsMultiUser old | given => given end
    /\ m_Migrated row = m_Migrated old || m_Migrated m
    /\ m_Version row = i64 (m_Version old + 1)
    /\ m_CreatedAt row = m_CreatedAt old /\ m_UpdatedAt row = now
    /\ forall d, d <> m_ID m -> Load d (Save now m s) = Load d s.
Proof.
  intros Hold. unfold Load, Save. rewrite Hold, lookup_insert_eq. eexists. split; [done|].
  simpl. split_and!; try apply blank_or_keeps; try done.
  intros d Hd. by rewrite lookup_insert_ne by done.
Qed.

Definition old_row := mkMetadata "d" "memo" 4 "file" true (Some false) "pol" "bucket" "owner" 10 20.
Definition blank_row := mkMetadata "d" "memo" 0 "" false None "" "" "owner2" 0 0.

Lemma save_keeps_blank_columns_witness :
  Load "d" (Save 30 blank_row {["d" := old_row]})
  = Loaded (mkMetadata "d" "memo" 5 "file" true (Some false) "pol" "bucket" "owner2" 10 30)
  /\ exists row, Load "d" (Save 30 blank_row {["d" := old_row]}) = Loaded row /\ m_Version row = 5%Z.
Proof.
  split; [vm_compute; reflexivity|].
  destruct (save_keeps_blank_columns 30 blank_row old_row {["d" := old_row]} (lookup_insert_eq ∅ "d" old_row))
    as (row & H & _ & _ & _ & _ & _ & _ & _ & Hv & _).
  exists row. split; [exact H|exact Hv].
Defined.
End InMemory.
