(* ===== verification/Reopen.v ===== *)
(** * A document outlives its room

    The room ([RoomLoop]), the two stores it saves to ([Store]) and materialization
    ([RoomNew]) put together.  [world_after] says which stores a room's history of
    saves leaves behind, among the traffic of other documents.  The checkpoint store is
    any that meets [StoreLaws]; the index is the in-memory one. *)

From stdpp Require Import base gmap sets list strings.
From Stdlib Require Import ZArith String Lia.
From S2P Require Import Prelude Control Lifecycle Core Schema RoomState RoomFanout RoomBarrier.
From S2P Require Import RoomApply RoomLife RoomLoop Fixture RoomRel RoomSafe RoomSave RoomRun.
From S2P Require Import RoomTurn RoomSchema RoomInv RoomDurable RoomNew Store.

Local Open Scope go_scope.

(** What [restoreInto] makes of the checkpoint store's answer. *)
Definition answered (a : storeError + checkpoint) : checkpoint_answer :=
  match a with
  | inr ck => CheckpointFound (ck_update ck)
  | inl ErrNotFound => CheckpointMissing
  | inl _ => CheckpointFailed
  end.

Section World.
Context {Y : YCore} {P : Params}.
Context {W : Type} {CS : CheckpointStore W} {SL : StoreLaws W}.

(** The request [persist] makes. *)
Definition save_of (ctx_done : bool) (snapshot vector : bytes) : save_request :=
  mkSave ctx_done p_id EncodingV2 0 snapshot vector.

Definition accepts (res : storeError + Z) : bool := match res with inr _ => true | inl _ => false end.

(** Traffic that is not a save of this document. *)
Definition elsewhere (o : op) : Prop :=
  match o with OSave rq => rq_id rq <> p_id | OLoad _ _ => True end.

Inductive world_after (w0 : W) (rows0 : gmap DocumentID Metadata) :
    list effect -> W -> gmap DocumentID Metadata -> Prop :=
| after_nothing : world_after w0 rows0 [] w0 rows0
| after_checkpoint h w rows ctx s v res w' :
    world_after w0 rows0 h w rows -> save (save_of ctx s v) w = (res, w') ->
    world_after w0 rows0 (ESaveCheckpoint s v (accepts res) :: h) w' rows
| after_row h w rows now m (ok : bool) :
    world_after w0 rows0 h w rows ->
    world_after w0 rows0 (ESaveMetadata m ok :: h) w (if ok then InMemory.Save now m rows else rows)
| after_effect h w rows e :
    world_after w0 rows0 h w rows ->
    (forall s v ok, e <> ESaveCheckpoint s v ok) -> (forall m ok, e <> ESaveMetadata m ok) ->
    world_after w0 rows0 (e :: h) w rows
| after_elsewhere h w rows o :
    world_after w0 rows0 h w rows -> elsewhere o -> world_after w0 rows0 h (exec1 o w) rows
| after_other_row h w rows now m :
    world_after w0 rows0 h w rows -> m_ID m <> p_id ->
    world_after w0 rows0 h w (InMemory.Save now m rows).

Lemma index_frame now m rows : m_ID m <> p_id -> InMemory.Save now m rows !! p_id = rows !! p_id.
Proof. intros Hm. unfold InMemory.Save. by rewrite lookup_insert_ne. Qed.

(** The slot of the document follows the newest checkpoint. *)
Lemma world_slot w0 rows0 h w rows :
  good w0 -> world_after w0 rows0 h w rows ->
  good w /\ match last_checkpoint h with
            | None => slot_of w p_id = slot_of w0 p_id
            | Some (s, true) => slot_of w p_id = Holds s
            | Some (_, false) => True
            end.
Proof.
  intros Hg. induction 1 as [|h w rows ctx s v res w' _ [Hw _] Hs|h w rows now m ok _ IH
    |h w rows e _ IH Hc Hm|h w rows o _ [Hw IH] Ho|h w rows now m _ IH _]; [done| |exact IH| | |exact IH].
  - destruct res as [e|rev]; simpl.
    + by destruct (save_refused _ _ _ _ Hw Hs).
    + by destruct (save_ok _ _ _ _ Hw Hs) as (? & ? & _).
  - destruct e; try exact IH. by destruct (Hc snapshot vector ok).
  - assert (Hslot : good (exec1 o w) /\ slot_of (exec1 o w) p_id = slot_of w p_id).
    { destruct o as [rq|ctx d]; simpl in *.
      - split; [|by apply save_frame].
        destruct (save rq w) as [[e|rev] w'] eqn:E; [by eapply save_refused|by eapply save_ok].
      - destruct (load_frame ctx d w Hw) as [? Hf]. by rewrite Hf. }
    destruct Hslot as [? ->]. done.
Qed.

(** Dropping what a stretch of the loop did, as long as no row was accepted. *)
Lemma world_drop w0 rows0 new h w rows :
  Forall (fun e => ~ saved_row e) new -> world_after w0 rows0 (new ++ h) w rows ->
  exists w1 rows1, world_after w0 rows0 h w1 rows1 /\ rows1 !! p_id = rows !! p_id.
Proof.
  intros Hn H. remember (new ++ h)%list as h' eqn:Heq. revert new Hn Heq.
  induction H as [|h' w rows ctx s v res w' H IH Hs|h' w rows now m ok H IH
    |h' w rows e H IH Hc Hm|h' w rows o H IH Ho|h' w rows now m H IH Hne]; intros new Hn Heq.
  - symmetry in Heq. apply app_eq_nil in Heq as [_ ->]. eexists _, _. split; [constructor|done].
  - destruct new as [|e new]; simpl in Heq.
    + subst h. eexists _, _. split; [by econstructor|done].
    + injection Heq as _ Heq. apply Forall_cons in Hn as [_ Hn]. by apply (IH new).
  - destruct new as [|e new]; simpl in Heq.
    + subst h. eexists _, _. split; [exact (after_row _ _ h' w rows now m ok H)|done].
    + injection Heq as He Heq. apply Forall_cons in Hn as [Hne Hn].
      destruct ok; [destruct Hne; rewrite <- He; by eexists|]. by apply (IH new).
  - destruct new as [|e' new]; simpl in Heq.
    + subst h. eexists _, _. split; [by apply after_effect|done].
    + injection Heq as _ Heq. apply Forall_cons in Hn as [_ Hn]. by apply (IH new).
  - destruct (IH new Hn Heq) as (w1 & rows1 & ? & ?). eauto.
  - destruct (IH new Hn Heq) as (w1 & rows1 & ? & Hr). exists w1, rows1. split; [done|].
    by rewrite index_frame.
Qed.

(** The newest accepted row, seen through the traffic that followed it. *)
Lemma world_row w0 rows0 m h w rows :
  world_after w0 rows0 (ESaveMetadata m true :: h) w rows ->
  exists w1 rows1 now, world_after w0 rows0 h w1 rows1 /\ rows !! p_id = InMemory.Save now m rows1 !! p_id.
Proof.
  intros H. remember (ESaveMetadata m true :: h) as h' eqn:Heq.
  induction H as [|h' w rows ctx s v res w' H IH Hs|h' w rows now m' ok H IH
    |h' w rows e H IH Hc Hm|h' w rows o H IH Ho|h' w rows now m' H IH Hne]; simplify_eq.
  - eauto.
  - by destruct (Hm m true).
  - auto.
  - destruct (IH eq_refl) as (w1 & rows1 & now' & ? & Hr). exists w1, rows1, now'. split; [done|].
    by rewrite index_frame.
Qed.

(** ** The index follows the room *)

(** The index row says what the room would write. *)
Definition row_agrees (c : core) (row : Metadata) : Prop :=
  m_Version row = version c
  /\ (m_ContentType row, (m_AuthorizationPolicyID row, m_StorageBucketID row, m_OwnerRef row)) = row_fields c.

Definition indexed (w0 : W) (rows0 : gmap DocumentID Metadata) (r : Room) : Prop :=
  forall w rows, world_after w0 rows0 (trace r) w rows ->
    exists row, rows !! p_id = Some row /\ row_agrees (co r) row.

Lemma blank_or_same x : InMemory.blank_or x x = x.
Proof. unfold InMemory.blank_or. by destruct (String.eqb x ""). Qed.

(** Saving the room's row over one that agrees gives one that agrees again. *)
Lemma save_agrees now c rows row v :
  rows !! p_id = Some row -> row_agrees c row -> v = i64 (version c + 1) ->
  exists row', InMemory.Save now (room_row c v) rows !! p_id = Some row'
    /\ m_Version row' = v
    /\ (m_ContentType row', (m_AuthorizationPolicyID row', m_StorageBucketID row', m_OwnerRef row'))
       = row_fields c.
Proof.
  intros Hrow [Hv Hf] ->. unfold InMemory.Save, room_row. simpl. rewrite Hrow, lookup_insert_eq.
  eexists. split; [done|]. simpl. unfold row_fields in *. injection Hf as H1 H2 H3 H4.
  rewrite Hv. split; [done|]. by rewrite <- H1, <- H2, <- H3, <- H4, !blank_or_same.
Qed.

Context {L : YLaws Y} {Q : YQuiet Y}.

Lemma indexed_edited w0 rows0 r r' : edited r r' -> indexed w0 rows0 r -> indexed w0 rows0 r'.
Proof.
  intros [[[Hv Hr] _] (new & Ht & Hn & _)] H w rows Hw. rewrite Ht in Hw.
  destruct (world_drop _ _ _ _ _ _ Hn Hw) as (w1 & rows1 & Hw1 & He).
  destruct (H _ _ Hw1) as (row & Hrow & Ha). exists row. rewrite <- He. split; [done|].
  unfold row_agrees. by rewrite Hv, Hr.
Qed.

Lemma indexed_turn w0 rows0 r r' : turn r r' -> indexed w0 rows0 r -> indexed w0 rows0 r'.
Proof.
  intros [H|(ra & rb & Ha & (_ & s & v & _ & _ & ->) & Hb)] H0; [by eapply indexed_edited|].
  eapply indexed_edited; [by apply frozen_edited|].
  assert (Hra : indexed w0 rows0 ra) by (eapply indexed_edited; [by apply frozen_edited|done]).
  intros w rows Hw. apply world_row in Hw as (w1 & rows1 & now & Hw1 & Hr).
  apply (world_drop _ _ [ESaveCheckpoint s v true] (trace ra)) in Hw1 as (w2 & rows2 & Hw2 & He);
    [|repeat constructor; by intros [? ?]].
  destruct (Hra _ _ Hw2) as (row & Hrow & Hag). rewrite He in Hrow.
  destruct (save_agrees now (co ra) rows1 row _ Hrow Hag eq_refl) as (row' & H1 & H2 & H3).
  exists row'. rewrite Hr. split; [exact H1|]. by split.
Qed.

(** ** Reopening *)

(** [r'] is a room the loop passes through, or the one it leaves behind. *)
Definition came_to (r0 r r' : Room) (n : Z) : Prop :=
  reaches any_event r0 n r /\ (r' = r \/ exists ev, run_step ev r = Exited r').

Lemma came_to_kept (I : Room -> Prop) r0 r r' n :
  (forall r1 r2, turn r1 r2 -> I r1 -> I r2) -> I r0 -> came_to r0 r r' n -> I r'.
Proof.
  intros Hturn H0 [Hr Hor].
  assert (Hr' : I r).
  { clear Hor. induction Hr as [|n r ev r1 _ IH _ _ Hs]; [done|].
    pose proof (run_step_turn ev r) as H. rewrite Hs in H. by eapply Hturn. }
  destruct Hor as [->|[ev Hs]]; [done|].
  pose proof (run_step_turn ev r) as H. rewrite Hs in H. by eapply Hturn.
Qed.

Lemma applyConvention_same ct d : same (applyConvention ct d) d.
Proof.
  unfold applyConvention. destruct (String.eqb _ _); [apply law_root|].
  destruct (String.eqb _ _); [|apply same_refl].
  eapply same_trans; [apply law_root|]. eapply same_trans; apply law_root.
Qed.

(** Opening a valid stored document succeeds with that document. *)
Lemma newRoom_restores ct m u d0 :
  (forall d, is_Some (EncodeStateAsUpdateV2 d)) ->
  ap_ok (ApplyUpdateV2 (NewDoc p_id) u) = true -> same (ap_doc (ApplyUpdateV2 (NewDoc p_id) u)) d0 ->
  m_ContentType m <> ""%string -> validateStoredContent (m_ContentType m) d0 = None ->
  exists r, newRoom ct (Loaded m) Opens (CheckpointFound u) true = ([], inr r)
    /\ same (doc (co r)) d0 /\ row_agrees (co r) m.
Proof.
  intros Henc Hok Hsame Hct Hval. unfold newRoom, open_document, restoreInto. simpl. rewrite Hok.
  apply String.eqb_neq in Hct. rewrite Hct.
  set (d := ap_doc _) in *.
  pose proof (applyConvention_same (m_ContentType m) d) as Hconv.
  assert (Hd : same (applyConvention (m_ContentType m) d) d0) by (by eapply same_trans).
  rewrite (validate_same _ _ _ Hd), Hval. unfold wire_room, initShadow, get_core, bindM, gets. simpl.
  rewrite Hct. unfold cloneDoc. destruct (Henc (applyConvention (m_ContentType m) d)) as [b Hb]. rewrite Hb.
  destruct (law_clone p_id _ _ Hb) as [-> _].
  destruct (negb _ && negb _); simpl; (eexists; split_and!; [done|exact Hd|by split; [|unfold row_fields; simpl; rewrite Hct]]).
Qed.

(** And so does opening one that was never written. *)
Lemma newRoom_fresh ct m d0 :
  (forall d, is_Some (EncodeStateAsUpdateV2 d)) -> same (NewDoc p_id) d0 ->
  m_ContentType m <> ""%string -> validateStoredContent (m_ContentType m) d0 = None ->
  exists r, newRoom ct (Loaded m) Opens CheckpointMissing true = ([], inr r)
    /\ same (doc (co r)) d0 /\ row_agrees (co r) m.
Proof.
  intros Henc Hsame Hct Hval. unfold newRoom, open_document, restoreInto. simpl.
  apply String.eqb_neq in Hct. rewrite Hct.
  assert (Hd : same (applyConvention (m_ContentType m) (NewDoc p_id)) d0)
    by (eapply same_trans; [apply applyConvention_same|done]).
  rewrite (validate_same _ _ _ Hd), Hval. unfold wire_room, initShadow, get_core, bindM, gets. simpl.
  rewrite Hct. unfold cloneDoc. destruct (Henc (applyConvention (m_ContentType m) (NewDoc p_id))) as [b Hb].
  rewrite Hb. destruct (law_clone p_id _ _ Hb) as [-> _].
  destruct (negb _ && negb _); simpl; (eexists; split_and!; [done|exact Hd|by split; [|unfold row_fields; simpl; rewrite Hct]]).
Qed.

Lemma came_to_row_fields r0 r r' n : came_to r0 r r' n -> row_fields (co r') = row_fields (co r0).
Proof.
  apply (came_to_kept (fun x => row_fields (co x) = row_fields (co r0))); [|done].
  intros r1 r2 Ht <-. by apply turn_row_fields.
Qed.

Lemma came_to_synced r0 r r' n :
  trace r0 = [] -> came_to r0 r r' n -> dirty (co r') = false ->
  (last_checkpoint (trace r') = None /\ doc (co r') = doc (co r0))
  \/ exists s, last_checkpoint (trace r') = Some (s, true) /\ EncodeStateAsUpdateV2 (doc (co r')) = Some s.
Proof.
  intros Ht Hc Hd.
  assert (H : synced (doc (co r0)) r').
  { apply (came_to_kept (synced (doc (co r0))) r0 r r' n); [by apply synced_turn| |done].
    intros _. by rewrite Ht. }
  specialize (H Hd). destruct (last_checkpoint (trace r')) as [[s ok]|]; [right|by left].
  destruct H as [-> ?]. by exists s.
Qed.

(** What a clean room holds passes the load check. *)
Lemma clean_document_valid r0 r r' n :
  fair_range -> (forall d, is_Some (EncodeStateAsUpdateV2 d)) ->
  opened r0 -> (content (co r0) = ContentTypeWhiteboard \/ content (co r0) = ContentTypeMemo -> screened r0) ->
  came_to r0 r r' n -> (n < 2 ^ 64)%Z -> dirty (co r') = false ->
  validateStoredContent (content (co r')) (doc (co r')) = None.
Proof.
  intros Hf Henc Ho Hs Hc Hn Hd.
  pose proof (row_fields_content _ _ (came_to_row_fields r0 r r' n Hc)) as Hct0. rewrite Hct0.
  destruct (decide (content (co r0) = ContentTypeWhiteboard \/ content (co r0) = ContentTypeMemo)) as [Hor|Hno].
  2: { apply validateStoredContent_None. split; tauto. }
  destruct Hc as [Hr Hor'].
  assert (Hg : guarded (co r)).
  { apply (reaches_rel Hf any_event (kept guarded) (TurnRel0 := guarded_turn Henc _) r0 n r);
      [by apply opened_live|done..|by apply screened_guarded, Hs]. }
  destruct Hg as (s & _ & _ & Hv). destruct Hor' as [->|[ev He]]; [by rewrite <- Hct0|].
  pose proof (run_step_turn ev r) as Ht. rewrite He in Ht.
  rewrite (turn_clean_doc r r' Ht Hd), <- Hct0, (row_fields_content _ _ (turn_row_fields _ _ Ht)). done.
Qed.

(** What a room opened from the stores starts with. *)
Lemma newRoom_from_store ct m0 ckpt sub effs r0 :
  m_ContentType m0 <> ""%string ->
  newRoom ct (Loaded m0) Opens ckpt sub = (effs, inr r0) ->
  row_agrees (co r0) m0
  /\ match ckpt with
     | CheckpointFound u => ap_ok (ApplyUpdateV2 (NewDoc p_id) u) = true
                            /\ same (ap_doc (ApplyUpdateV2 (NewDoc p_id) u)) (doc (co r0))
     | CheckpointMissing => same (NewDoc p_id) (doc (co r0))
     | CheckpointFailed => False
     end.
Proof.
  intros Hct H. apply newRoom_result in H as (d & k & mirror & _ & -> & _ & (_ & d0 & Hres & ->)).
  split; [split; [done|]; unfold row_fields; simpl; by rewrite (proj2 (String.eqb_neq _ _) Hct)|].
  pose proof (fun ct => same_sym _ _ (applyConvention_same ct d0)) as Hconv. unfold restored in Hres.
  destruct ckpt; [destruct Hres as [? ->]|subst d0|done]; simpl; auto.
Qed.

(** The index still has the document's row, in step with the room. *)
Lemma index_tracks w0 rows0 m0 r0 r r' n w rows :
  rows0 !! p_id = Some m0 -> row_agrees (co r0) m0 -> trace r0 = [] ->
  came_to r0 r r' n -> world_after w0 rows0 (trace r') w rows ->
  exists row, rows !! p_id = Some row /\ row_agrees (co r') row.
Proof.
  intros Hrow0 Hag0 Ht0 Hc Hw.
  cut (indexed w0 rows0 r'); [intros H; by apply (H w)|]. clear w rows Hw.
  apply (came_to_kept (indexed w0 rows0) r0 r r' n); [by apply indexed_turn| |done].
  intros w rows Hw. rewrite Ht0 in Hw. exists m0. split; [|done]. rewrite <- Hrow0.
  remember [] as h eqn:E. revert E. induction Hw; intros E; try done; [by apply IHHw|].
  rewrite index_frame by done. by apply IHHw.
Qed.

(** A slot that did not change is answered the same, when it is answered. *)
Lemma same_answer ctx0 ctx id w0 w :
  good w0 -> good w -> slot_of w id = slot_of w0 id ->
  match answered (load ctx id w).1, answered (load ctx0 id w0).1 with
  | CheckpointFailed, _ | _, CheckpointFailed => True
  | a, b => b = a
  end.
Proof.
  intros Hg0 Hg Hslot.
  pose proof (load_answer_sound ctx0 id w0 Hg0) as H0. pose proof (load_answer_sound ctx id w Hg) as H.
  rewrite Hslot in H.
  destruct (load ctx id w).1 as [[]|ck], (load ctx0 id w0).1 as [[]|ck0]; simpl in *; try done.
  - destruct H0. congruence.
  - destruct H. congruence.
  - destruct H0, H. f_equal. congruence.
Qed.

(** ** The property *)

End World.

(** ** A life of a document *)

#[local] Existing Instances Inprocess.checkpoint_store Inprocess.store_laws.

Definition row_of_doc : Metadata := mkMetadata "doc" ContentTypeMemo 3 "" true None "pol" "bucket" "owner" 0 0.
Definition rows_before : gmap DocumentID Metadata := {["doc"%string := row_of_doc]}.

Definition first_room : Room :=
  match (@newRoom toy healthy ContentTypeMemo (Loaded row_of_doc) Opens CheckpointMissing true).2 with
  | inr r => r
  | inl _ => toy_room
  end.

(** A collaborator edits, the room saves and goes idle. *)
Definition edited_and_saved : list loop_event := session ++ [LSaveTimer].
Definition saved_room : Room :=
  match run_trace (P := healthy) edited_and_saved first_room with Some r => r | None => toy_room end.

Definition store_after : Inprocess.store :=
  (Inprocess.SaveCheckpoint (@save_of healthy false "hello" "vhello") Inprocess.New).2.
Definition rows_after : gmap DocumentID Metadata :=
  InMemory.Save 9 (@room_row toy healthy (co saved_room) 4) rows_before.

Lemma saved_world :
  world_after (P := healthy) Inprocess.New rows_before (trace saved_room) store_after rows_after.
Proof.
  replace (trace saved_room) with (firstn 2 (trace saved_room)
    ++ [ESaveMetadata (@room_row toy healthy (co saved_room) 4) true; ESaveCheckpoint "hello" "vhello" true]
    ++ skipn 4 (trace saved_room))%list by (vm_compute; reflexivity).
  pose proof (after_nothing (P := healthy) Inprocess.New rows_before) as H.
  let h := eval vm_compute in (rev (skipn 4 (trace saved_room))) in
  let rec go h := lazymatch h with
    | nil => idtac
    | ?e :: ?h' => apply (after_effect (P := healthy) _ _ _ _ _ e) in H; [|congruence|congruence]; go h'
    end in go h.
  apply (after_checkpoint (P := healthy) _ _ _ _ _ false "hello" "vhello" (inr 1%Z) store_after) in H;
    [|vm_compute; reflexivity].
  apply (after_row (P := healthy) _ _ _ _ _ 9 (@room_row toy healthy (co saved_room) 4) true) in H.
  let h := eval vm_compute in (rev (firstn 2 (trace saved_room))) in
  let rec go h := lazymatch h with
    | nil => idtac
    | ?e :: ?h' => apply (after_effect (P := healthy) _ _ _ _ _ e) in H; [|congruence|congruence]; go h'
    end in go h.
  exact H.
Qed.

