(* ===== verification/FileStore.v ===== *)
(** * The file-service checkpoint store (persistence/fileservice, metapointer)

    One stable file per document, rewritten in place, behind a pointer kept in the
    metadata index.  The file service and the index are outside the repository:
    [FileService] and [MetadataStore] are their calls, and nothing is assumed of their
    answers: what the store does is stated of the calls it makes and the answers it gets
    ([Answers], [stored], [save_calls], [loaded_as]).  Whether bytes the file service
    acknowledged stay readable is the file service's promise: it deduplicates content
    within a bucket, and a rewrite it never answered may still land. *)

From stdpp Require Import base gmap sets list strings pretty.
From Stdlib Require Import ZArith NArith Ascii String Lia.
From S2P Require Import Prelude Utf8 Control Core Store.
From S2P Require Fixture.

Local Open Scope string_scope.

(** ** The services *)

(** No response at all, or a status with what the body decodes to. *)
Inductive response (A : Type) := NoResponse | Response (status : Z) (body : A).
Arguments NoResponse {A}. Arguments Response {A}.

Class FileService (W : Type) := {
  fs_put : string -> bytes -> W -> response unit * W;
  fs_post : string -> bytes -> W -> response (option string) * W;
  fs_get : string -> W -> response bytes * W }.

Class MetadataStore (W : Type) := {
  ms_load : DocumentID -> W -> load_answer * W;
  ms_save : Metadata -> W -> bool * W }.

(** The upload limit of the deployment; not positive means none. *)
Class FileConfig := { MaxUploadSize : Z }.

(** ** The pointer resolver (metapointer) *)

Inductive pointer_answer := Pointed (pointer bucket : string) | ErrNoPointer (bucket : string) | IndexFailed.

Section Store.
Context {Y : YCore} {W : Type} {FS : FileService W} {MS : MetadataStore W} {FC : FileConfig}.

Definition Pointer (id : DocumentID) (w : W) : pointer_answer * W :=
  let '(row, w') := ms_load id w in
  (match row with
   | NotFound => ErrNoPointer ""
   | LoadFailed => IndexFailed
   | Loaded m =>
       if String.eqb (m_ContentPointer m) "" then ErrNoPointer (m_StorageBucketID m)
       else Pointed (m_ContentPointer m) (m_StorageBucketID m)
   end, w').

(** The row's other columns travel with the pointer. *)
Definition with_pointer (id : DocumentID) (pointer : string) (m : Metadata) : Metadata :=
  mkMetadata id (m_ContentType m) (m_Version m) pointer (m_Migrated m) (m_IsMultiUser m)
    (m_AuthorizationPolicyID m) (m_StorageBucketID m) (m_OwnerRef m) (m_CreatedAt m) (m_UpdatedAt m).

Definition zero_row : Metadata := mkMetadata "" "" 0 "" false None "" "" "" 0 0.

Definition Record_pointer (id : DocumentID) (pointer : string) (w : W) : bool * W :=
  let '(row, w1) := ms_load id w in
  match row with
  | LoadFailed => (false, w1)
  | Loaded m => ms_save (with_pointer id pointer m) w1
  | NotFound => ms_save (with_pointer id pointer zero_row) w1
  end.

(** ** The HTTP calls *)

Definition rewrite_file (pointer : string) (data : bytes) (w : W) : option storeError * W :=
  let '(resp, w') := fs_put pointer data w in
  (match resp with
   | NoResponse => Some RewriteFailed
   | Response st _ =>
       if (st =? 200)%Z || (st =? 201)%Z || (st =? 204)%Z then None
       else if (st =? 404)%Z then Some ErrNotFound
       else Some RewriteFailed
   end, w').

Definition create_file (bucket : string) (data : bytes) (w : W) : (storeError + string) * W :=
  let '(resp, w') := fs_post bucket data w in
  (match resp with
   | NoResponse => inl CreateFailed
   | Response st body =>
       if negb ((st =? 200)%Z || (st =? 201)%Z) then inl CreateFailed
       else match body with
            | None => inl CreateFailed
            | Some id => if String.eqb id "" then inl CreateFailed else inr id
            end
   end, w').

(** [io.LimitReader] reads nothing when its limit is not positive. *)
Definition readBounded (body : bytes) (limit : Z) : storeError + bytes :=
  if (limit <=? 0)%Z then inr body
  else let b := Utf8.take (Z.to_nat (i64 (limit + 1))) body in
       if (limit <? blen b)%Z then inl ErrCorrupt else inr b.

Definition fetch_file (pointer : string) (w : W) : (storeError + bytes) * W :=
  let '(resp, w') := fs_get pointer w in
  (match resp with
   | NoResponse => inl FetchFailed
   | Response st body =>
       if (st =? 404)%Z then inl ErrCorrupt
       else if negb (st =? 200)%Z then inl FetchFailed
       else readBounded body MaxUploadSize
   end, w').

(** ** The store: the services and the revision counter *)

Definition too_large (update : bytes) : bool :=
  (0 <? MaxUploadSize)%Z && (MaxUploadSize <? blen update)%Z.

Definition next_revision (w : W) (n : Z) : (storeError + Z) * (W * Z) :=
  (inr (u64 (n + 1)), (w, u64 (n + 1))).

(** A document with a pointer: its file is rewritten, never recreated. *)
Definition save_existing (pointer : string) (rq : save_request) (w : W) (n : Z)
    : (storeError + Z) * (W * Z) :=
  let '(err, w') := rewrite_file pointer (rq_update rq) w in
  match err with
  | None => next_revision w' n
  | Some ErrNotFound => (inl ErrCorrupt, (w', n))
  | Some e => (inl e, (w', n))
  end.

(** A document without one: create the file, then record where it is. *)
Definition save_first (bucket : string) (rq : save_request) (w : W) (n : Z)
    : (storeError + Z) * (W * Z) :=
  if String.eqb bucket "" then (inl ErrCorrupt, (w, n))
  else let '(created, w1) := create_file bucket (rq_update rq) w in
       match created with
       | inl e => (inl e, (w1, n))
       | inr pointer =>
           let '(recorded, w2) := Record_pointer (rq_id rq) pointer w1 in
           if recorded : bool then next_revision w2 n else (inl RecordFailed, (w2, n))
       end.

Definition SaveCheckpoint (rq : save_request) (s : W * Z) : (storeError + Z) * (W * Z) :=
  let '(w, n) := s in
  if rq_ctx_done rq then (inl CtxDone, s)
  else if negb (rq_fence rq =? 0)%Z then (inl ErrUnexpectedFence, s)
  else match check_encoding (rq_encoding rq) with
       | Some e => (inl e, s)
       | None =>
           if too_large (rq_update rq) then (inl SnapshotTooLarge, s)
           else let '(answer, w1) := Pointer (rq_id rq) w in
                match answer with
                | Pointed pointer _ => save_existing pointer rq w1 n
                | ErrNoPointer bucket => save_first bucket rq w1 n
                | IndexFailed => (inl ResolveFailed, (w1, n))
                end
       end.

Definition LoadCheckpoint (ctx_done : bool) (id : DocumentID) (s : W * Z)
    : (storeError + checkpoint) * (W * Z) :=
  let '(w, n) := s in
  if ctx_done then (inl CtxDone, s)
  else let '(answer, w1) := Pointer id w in
       match answer with
       | ErrNoPointer _ => (inl ErrNotFound, (w1, n))
       | IndexFailed => (inl ResolveFailed, (w1, n))
       | Pointed pointer _ =>
           let '(fetched, w2) := fetch_file pointer w1 in
           (match fetched with
            | inl e => inl e
            | inr blob =>
                match EncodeStateVectorFromUpdateV2 blob with
                | None => inl ErrCorrupt
                | Some vector => inr (mkCheckpoint n EncodingV2 blob vector)
                end
            end, (w2, n))
       end.

#[export] Instance file_store : CheckpointStore (W * Z) := {
  save := SaveCheckpoint;
  load := LoadCheckpoint }.
End Store.

(** ** What is asked of the services *)

(** One call to the file service or the index, with its answer. *)
Inductive call :=
| CPut (pointer : string) (data : bytes) (answer : response unit)
| CPost (bucket : string) (data : bytes) (answer : response (option string))
| CGet (pointer : string) (answer : response bytes)
| CRowLoad (id : DocumentID) (answer : load_answer)
| CRowSave (m : Metadata) (answer : bool).

(** Services that answer anything at all, depending on everything asked before. *)
Class Answers := {
  on_put : list call -> string -> bytes -> response unit;
  on_post : list call -> string -> bytes -> response (option string);
  on_get : list call -> string -> response bytes;
  on_row_load : list call -> DocumentID -> load_answer;
  on_row_save : list call -> Metadata -> bool }.

#[export] Instance logged_files `{Answers} : FileService (list call) := {
  fs_put p d h := let a := on_put h p d in (a, h ++ [CPut p d a])%list;
  fs_post b d h := let a := on_post h b d in (a, h ++ [CPost b d a])%list;
  fs_get p h := let a := on_get h p in (a, h ++ [CGet p a])%list }.

#[export] Instance logged_index `{Answers} : MetadataStore (list call) := {
  ms_load id h := let a := on_row_load h id in (a, h ++ [CRowLoad id a])%list;
  ms_save m h := let a := on_row_save h m in (a, h ++ [CRowSave m a])%list }.

Definition put_done (st : Z) : bool := (st =? 200)%Z || (st =? 201)%Z || (st =? 204)%Z.
Definition post_done (st : Z) : bool := (st =? 200)%Z || (st =? 201)%Z.

(** What an index row says of a document's file, and what the row becomes. *)
Definition row_pointer (row : load_answer) : string :=
  match row with Loaded m => m_ContentPointer m | _ => "" end.
Definition row_bucket (row : load_answer) : string :=
  match row with Loaded m => m_StorageBucketID m | _ => "" end.
Definition pointed_row (id : DocumentID) (pointer : string) (row : load_answer) : Metadata :=
  with_pointer id pointer (match row with Loaded m => m | _ => zero_row end).

(** The file service said it holds [data] behind the pointer the index has, or has just
    recorded, for the document [id]. *)
Inductive stored (id : DocumentID) (data : bytes) : list call -> Prop :=
| stored_rewritten m st :
    m_ContentPointer m <> "" -> put_done st = true ->
    stored id data [CRowLoad id (Loaded m); CPut (m_ContentPointer m) data (Response st tt)]
| stored_created row st pointer row' :
    row <> LoadFailed -> row_pointer row = "" -> row_bucket row <> "" ->
    post_done st = true -> pointer <> "" -> row' <> LoadFailed ->
    stored id data [CRowLoad id row; CPost (row_bucket row) data (Response st (Some pointer));
                    CRowLoad id row'; CRowSave (pointed_row id pointer row') true].

(** A call a save of [data] to [id] may make, the ones before it being [before]: it reads
    the document's row; it writes the file the row points to; where the row points to
    none, it creates one in the document's own bucket; and it records a pointer the file
    service has just given out, leaving the row's other columns as they are. *)
Definition save_call (id : DocumentID) (data : bytes) (before : list call) (c : call) : Prop :=
  match c with
  | CRowLoad id' _ => id' = id
  | CPut p d _ => d = data /\ exists m, before = [CRowLoad id (Loaded m)] /\ p = m_ContentPointer m /\ p <> ""
  | CPost b d _ => d = data /\ b <> "" /\ exists row, before = [CRowLoad id row] /\ row <> LoadFailed
                   /\ row_pointer row = "" /\ b = row_bucket row
  | CRowSave m _ => exists row st pointer row',
      before = [CRowLoad id row; CPost (row_bucket row) data (Response st (Some pointer)); CRowLoad id row']
      /\ post_done st = true /\ pointer <> "" /\ row' <> LoadFailed /\ m = pointed_row id pointer row'
  | CGet _ _ => False
  end.
Definition save_calls (id : DocumentID) (data : bytes) (calls : list call) : Prop :=
  forall before c after, calls = (before ++ c :: after)%list -> save_call id data before c.

Section Calls.
Context {Y : YCore} {AS : Answers} {FC : FileConfig}.

(** Every prefix of the calls with the call that follows it. *)
Lemma save_calls_snoc id data calls c :
  save_calls id data calls -> save_call id data calls c -> save_calls id data (calls ++ [c])%list.
Proof.
  intros Hc Hl before c' after E. destruct after as [|x after _] using rev_ind.
  - apply app_inj_tail in E as [<- <-]. exact Hl.
  - rewrite app_comm_cons, app_assoc in E. apply app_inj_tail in E as [-> _]. by apply (Hc before c' after).
Qed.
Lemma save_calls_nil id data : save_calls id data [].
Proof. intros before c after E. by destruct before. Qed.

(** What a save that made [calls] comes to. *)
Definition saved_as (rq : save_request) (n : Z) (calls : list call) (res : storeError + Z) (n' : Z) : Prop :=
  save_calls (rq_id rq) (rq_update rq) calls
  /\ (match res with inr rev => stored (rq_id rq) (rq_update rq) calls /\ rev = u64 (n + 1) /\ n' = rev
      | inl _ => ~ stored (rq_id rq) (rq_update rq) calls /\ n' = n end)
  /\ (forall p d, CPut p d (Response 404 tt) ∈ calls -> res = inl ErrCorrupt).

Ltac unstored := let H := fresh in intros H; inversion H; subst; simpl in *; simplify_eq; done.
Ltac no_put := intros ? ?; rewrite ?elem_of_cons, elem_of_nil; naive_solver.
Ltac calls_tac :=
  repeat first [apply save_calls_nil | apply (save_calls_snoc _ _ []) | apply (save_calls_snoc _ _ [_])
               | apply (save_calls_snoc _ _ [_; _]) | apply (save_calls_snoc _ _ [_; _; _])]; simpl; eauto 12.

Lemma save_existing_as m rq h n res h' n' :
  m_ContentPointer m <> "" ->
  save_existing (m_ContentPointer m) rq h n = (res, (h', n')) ->
  exists calls, h' = (h ++ calls)%list /\ saved_as rq n (CRowLoad (rq_id rq) (Loaded m) :: calls) res n'.
Proof.
  intros Hp. unfold save_existing, rewrite_file, next_revision. simpl. set (a := on_put _ _ _).
  intros H. exists [CPut (m_ContentPointer m) (rq_update rq) a].
  assert (Hc : save_calls (rq_id rq) (rq_update rq)
      [CRowLoad (rq_id rq) (Loaded m); CPut (m_ContentPointer m) (rq_update rq) a]) by calls_tac.
  unfold saved_as. destruct a as [|st []].
  { injection H as <- <- <-. split_and!; [done|done|unstored|done|no_put]. }
  fold (put_done st) in H. destruct (put_done st) eqn:Hd.
  - injection H as <- <- <-. split_and!; [done|done|by constructor|done|done|].
    intros p d. rewrite !elem_of_cons, elem_of_nil. intros [?|[E|[]]]; [done|]. by simplify_eq.
  - assert (Hn : ~ stored (rq_id rq) (rq_update rq)
      [CRowLoad (rq_id rq) (Loaded m); CPut (m_ContentPointer m) (rq_update rq) (Response st tt)]).
    { intros Hs. inversion Hs; simplify_eq. congruence. }
    destruct (Z.eqb_spec st 404) as [->|Hne]; injection H as <- <- <-; split_and!; try done.
    intros p d. rewrite !elem_of_cons, elem_of_nil. intros [?|[E|[]]]; [done|]. by simplify_eq.
Qed.

Lemma Record_pointer_as id pointer h ok h' :
  Record_pointer id pointer h = (ok, h') ->
  (h' = (h ++ [CRowLoad id LoadFailed])%list /\ ok = false)
  \/ exists row, row <> LoadFailed
       /\ h' = (h ++ [CRowLoad id row; CRowSave (pointed_row id pointer row) ok])%list.
Proof.
  unfold Record_pointer. simpl. destruct (on_row_load h id) as [m| |] eqn:Hr; intros H; injection H as <- <-.
  - right. exists (Loaded m). by rewrite <- app_assoc.
  - right. exists NotFound. by rewrite <- app_assoc.
  - by left.
Qed.

Lemma save_first_as row rq h n res h' n' :
  row <> LoadFailed -> row_pointer row = "" ->
  save_first (row_bucket row) rq h n = (res, (h', n')) ->
  exists calls, h' = (h ++ calls)%list /\ saved_as rq n (CRowLoad (rq_id rq) row :: calls) res n'.
Proof.
  intros Hrow Hp. unfold save_first, saved_as. destruct (String.eqb_spec (row_bucket row) "") as [|Hb].
  { intros [= <- <- <-]. exists []. rewrite app_nil_r. split_and!; [done|calls_tac|unstored|done|no_put]. }
  unfold create_file. simpl. set (a := on_post _ _ _).
  assert (Hc : save_calls (rq_id rq) (rq_update rq)
      [CRowLoad (rq_id rq) row; CPost (row_bucket row) (rq_update rq) a]) by (calls_tac; split_and!; eauto).
  assert (Hfail : (inl CreateFailed : storeError + Z, ((h ++ [CPost (row_bucket row) (rq_update rq) a])%list, n))
      = (res, (h', n')) ->
    exists calls, h' = (h ++ calls)%list
      /\ saved_as rq n (CRowLoad (rq_id rq) row :: calls) res n').
  { intros [= <- <- <-]. exists [CPost (row_bucket row) (rq_update rq) a].
    split; [done|]. split_and!; [done|unstored|done|no_put]. }
  destruct a as [|st body]; [exact Hfail|]. fold (post_done st).
  destruct (post_done st) eqn:Hd; simpl; [|exact Hfail]. destruct body as [pointer|]; [|exact Hfail].
  destruct (String.eqb_spec pointer "") as [|Hne]; [exact Hfail|]. clear Hfail.
  destruct (Record_pointer (rq_id rq) pointer _) as [ok h2] eqn:Hrec.
  apply Record_pointer_as in Hrec as [[-> ->]|(row' & Hrow' & ->)].
  - intros [= <- <- <-]. eexists. rewrite <- app_assoc. split; [done|]. simpl.
    split_and!; [calls_tac; done|unstored|done|no_put].
  - assert (Hc2 : save_calls (rq_id rq) (rq_update rq)
      [CRowLoad (rq_id rq) row; CPost (row_bucket row) (rq_update rq) (Response st (Some pointer));
       CRowLoad (rq_id rq) row'; CRowSave (pointed_row (rq_id rq) pointer row') ok])
      by (calls_tac; exists row, st, pointer, row'; done).
    destruct ok; intros [= <- <- <-]; eexists; rewrite <- app_assoc; (split; [done|]); simpl;
      (split_and!; [exact Hc2| |done..|no_put]); [by constructor|unstored].
Qed.

Lemma SaveCheckpoint_as rq h n res h' n' :
  SaveCheckpoint rq (h, n) = (res, (h', n')) ->
  exists calls, h' = (h ++ calls)%list /\ saved_as rq n calls res n'.
Proof.
  assert (Hearly : forall e, (inl e : storeError + Z, (h, n)) = (res, (h', n')) ->
    exists calls, h' = (h ++ calls)%list /\ saved_as rq n calls res n').
  { intros e [= <- <- <-]. exists []. rewrite app_nil_r. split; [done|].
    split_and!; [calls_tac|unstored|done|]. intros p d H. by apply elem_of_nil in H. }
  unfold SaveCheckpoint. destruct (rq_ctx_done rq); [apply Hearly|]. destruct (negb _); [apply Hearly|].
  destruct (check_encoding _); [apply Hearly|]. destruct (too_large _); [apply Hearly|]. clear Hearly.
  unfold Pointer. simpl. set (row := on_row_load h (rq_id rq)).
  assert (Hgo : forall calls, h' = ((h ++ [CRowLoad (rq_id rq) row]) ++ calls)%list ->
    saved_as rq n (CRowLoad (rq_id rq) row :: calls) res n' ->
    exists calls, h' = (h ++ calls)%list /\ saved_as rq n calls res n').
  { intros calls -> H. eexists. rewrite <- app_assoc. by split. }
  destruct row as [m| |] eqn:Hrow.
  - destruct (String.eqb_spec (m_ContentPointer m) "") as [Hp|Hp]; intros H.
    + destruct (save_first_as (Loaded m) rq _ n res h' n' ltac:(done) Hp H) as (calls & H1 & H2). eauto.
    + destruct (save_existing_as m rq _ n res h' n' Hp H) as (calls & H1 & H2). eauto.
  - intros H. destruct (save_first_as NotFound rq _ n res h' n' ltac:(done) eq_refl H) as (calls & H1 & H2). eauto.
  - intros [= <- <- <-]. exists [CRowLoad (rq_id rq) LoadFailed]. split; [done|].
    split_and!; [calls_tac; done|unstored|done|no_put].
Qed.

(** Reading one byte past the limit tells a body at the limit from a longer one. *)
Lemma readBounded_exact body limit b :
  (limit < 2 ^ 63 - 1)%Z -> readBounded body limit = inr b -> b = body.
Proof.
  intros Hmax. unfold readBounded. destruct (Z.leb_spec limit 0); [by intros [= <-]|].
  rewrite i64_small by lia. unfold blen. destruct (Z.ltb_spec limit
    (Z.of_nat (String.length (Utf8.take (Z.to_nat (limit + 1)) body)))) as [|Hle]; [done|].
  intros [= <-]. rewrite length_string_min in Hle. apply string_take_all. lia.
Qed.


(** What a load that made [calls] comes to. *)
Definition loaded_as (id : DocumentID) (n : Z) (calls : list call) (res : storeError + checkpoint) : Prop :=
  (forall c, c ∈ calls -> match c with CRowLoad id' _ => id' = id | CGet _ _ => True | _ => False end)
  /\ (res = inl ErrNotFound <-> exists row, calls = [CRowLoad id row] /\ row <> LoadFailed /\ row_pointer row = "")
  /\ (forall p body, CGet p (Response 404 body) ∈ calls -> res = inl ErrCorrupt)
  /\ (forall ck, res = inr ck -> exists m vector,
        m_ContentPointer m <> ""
        /\ calls = [CRowLoad id (Loaded m); CGet (m_ContentPointer m) (Response 200 (ck_update ck))]
        /\ EncodeStateVectorFromUpdateV2 (ck_update ck) = Some vector /\ ck = mkCheckpoint n EncodingV2 (ck_update ck) vector).

Lemma fetch_file_as p h :
  (MaxUploadSize < 2 ^ 63 - 1)%Z ->
  exists a, (fetch_file p h).2 = (h ++ [CGet p a])%list
    /\ match (fetch_file p h).1 with
       | inr b => a = Response 200 b
       | inl e => e <> ErrNotFound /\ forall body, a = Response 404 body -> e = ErrCorrupt
       end.
Proof.
  intros Hmax. unfold fetch_file. simpl. exists (on_get h p). destruct (on_get h p) as [|st body]; simpl; [done|].
  destruct (Z.eqb_spec st 404) as [->|]; simpl; [done|]. destruct (Z.eqb_spec st 200) as [->|]; simpl.
  - split; [done|]. destruct (readBounded body MaxUploadSize) as [e|b] eqn:Hb.
    + unfold readBounded in Hb. repeat case_match; simplify_eq. done.
    + by apply readBounded_exact in Hb as ->.
  - split; [done|]. split; [done|]. intros b [= ->]. done.
Qed.

Lemma LoadCheckpoint_as id h n res h' n' :
  (MaxUploadSize < 2 ^ 63 - 1)%Z ->
  LoadCheckpoint false id (h, n) = (res, (h', n')) ->
  exists calls, h' = (h ++ calls)%list /\ n' = n /\ loaded_as id n calls res.
Proof.
  intros Hmax. unfold LoadCheckpoint, Pointer. cbn -[fetch_file]. set (row := on_row_load h id).
  assert (Hone : forall e, (e = ErrNotFound <-> row <> LoadFailed /\ row_pointer row = "") ->
    loaded_as id n [CRowLoad id row] (inl e)).
  { intros e He. split_and!.
    - by intros c ->%list_elem_of_singleton.
    - split; [intros [= ->]; exists row; by split; [|apply He]|].
      intros (row0 & [= <-] & H1 & H2). f_equal. by apply He.
    - by intros p body [=]%list_elem_of_singleton.
    - done. }
  destruct row as [m| |] eqn:Hrow.
  2: { intros [= <- <- <-]. exists [CRowLoad id NotFound]. split_and!; [done|done|]. by apply Hone. }
  2: { intros [= <- <- <-]. exists [CRowLoad id LoadFailed]. split_and!; [done|done|]. apply Hone. naive_solver. }
  destruct (String.eqb_spec (m_ContentPointer m) "") as [Hp|Hp].
  { intros [= <- <- <-]. exists [CRowLoad id (Loaded m)]. split_and!; [done|done|]. by apply Hone. }
  destruct (fetch_file_as (m_ContentPointer m) (h ++ [CRowLoad id (Loaded m)]) Hmax) as (a & Hh & Ha).
  destruct (fetch_file _ _) as [fetched h2]. simpl in Hh, Ha. subst h2. intros [= Hres <- <-].
  exists [CRowLoad id (Loaded m); CGet (m_ContentPointer m) a]. rewrite <- app_assoc. split_and!; [done|done|].
  assert (Hnf : res <> inl ErrNotFound /\ (forall body, a = Response 404 body -> res = inl ErrCorrupt)).
  { subst res. destruct fetched as [e|b]; [|by subst a; destruct (EncodeStateVectorFromUpdateV2 b)].
    destruct Ha as [H1 H2]. split; [congruence|]. intros body E. f_equal. by eapply H2. }
  split_and!.
  - intros c. rewrite !elem_of_cons, elem_of_nil. by intros [->|[->|[]]].
  - split; [by intros E; destruct Hnf|]. by intros (row0 & [=] & _).
  - intros p body. rewrite !elem_of_cons, elem_of_nil. intros [?|[E|[]]]; [done|]. injection E as -> <-.
    by eapply Hnf.
  - intros ck ->. destruct fetched as [e|b]; [done|]. destruct (EncodeStateVectorFromUpdateV2 b) as [v|] eqn:Hv; [|done].
    injection Hres as <-. exists m, v. subst a. by split_and!.
Qed.

(** C20: the file-service store does what its answers say, whatever the file service and
    the index answer and in whatever state they are.  A save is acknowledged exactly when
    the file service took these bytes for the file the document's row points to, or
    created a file of them and the index recorded its id; otherwise it is an error and no
    revision is spent.  It only ever rewrites the file the row names, creates one only
    for a row that names none, in that row's own bucket, and records only an id just
    given out, without touching the row's other columns; a file missing behind its
    pointer is corruption, never recreated.  A load writes nothing, answers exactly the
    whole bytes of the file the row points to, calls a missing file corruption, and says
    that the document was never saved, which a room would open empty, exactly when the
    index answered that it has no file. *)
Theorem file_store_answers (rq : save_request) (id : DocumentID) (h : list call) (n : Z) :
  (MaxUploadSize < 2 ^ 63 - 1)%Z ->
  (forall res h' n', SaveCheckpoint rq (h, n) = (res, (h', n')) ->
    exists calls, h' = (h ++ calls)%list /\ save_calls (rq_id rq) (rq_update rq) calls
      /\ ((exists rev, res = inr rev) <-> stored (rq_id rq) (rq_update rq) calls)
      /\ n' = match res with inr rev => rev | inl _ => n end
      /\ (forall rev, res = inr rev -> rev = u64 (n + 1))
      /\ (forall p d, CPut p d (Response 404 tt) ∈ calls -> res = inl ErrCorrupt))
  /\ (forall res h' n', LoadCheckpoint false id (h, n) = (res, (h', n')) ->
    exists calls, h' = (h ++ calls)%list /\ n' = n /\ loaded_as id n calls res).
Proof.
  intros Hmax. split; [|intros res h' n'; by apply LoadCheckpoint_as].
  intros res h' n' (calls & -> & Hc & Hres & Hp)%SaveCheckpoint_as. exists calls.
  split_and!; [done|done| | | |done].
  - destruct res as [e|rev]; [|split; [intros _; apply Hres|eauto]].
    split; [by intros [? ?]|]. intros Hs. by destruct Hres.
  - destruct res; apply Hres.
  - intros rev ->. apply Hres.
Qed.
End Calls.

(** ** A service that holds one file at most, in answers *)

Module Sample.

(** The row of ["d"] points to its file once one was recorded; the file reads as it was
    last written, and one put back with ["late"] is never answered. *)
Definition row (ptr : string) : Metadata := mkMetadata "d" "memo" 1 ptr true None "pol" "bucket" "own" 0 0.
Definition recorded (h : list call) : string :=
  fold_left (fun p c => match c with CRowSave m true => m_ContentPointer m | _ => p end) h "".
Definition content (h : list call) : bytes :=
  fold_left (fun b c => match c with
    | CPut _ d _ | CPost _ d (Response 201 _) => d | _ => b end) h "".

#[export] Instance answers : Answers := {|
  on_put h p d := if String.eqb d "late" then NoResponse else Response 200 tt;
  on_post h b d := Response 201 (Some "x");
  on_get h p := if String.eqb (content h) "gone" then Response 404 "" else Response 200 (content h);
  on_row_load h id := Loaded (row (recorded h));
  on_row_save h m := true |}.

#[export] Instance limited : FileConfig := { MaxUploadSize := 1000 }.
Definition request (b : bytes) : save_request := mkSave false "d" EncodingV2 0 b "".
End Sample.

Section Witnesses.
Import Sample.
#[local] Existing Instance Fixture.toy.

Definition after_first : list call := (SaveCheckpoint (Sample.request "one") ([], 0%Z)).2.1.
Definition after_lost : list call := (SaveCheckpoint (Sample.request "gone") (after_first, 1%Z)).2.1.

(** The first save creates the file; its file then goes missing, which a load reports as
    corruption. *)
Lemma file_store_answers_witness :
  (SaveCheckpoint (Sample.request "one") ([], 0%Z)).1 = inr 1%Z
  /\ (exists calls, after_first = ([] ++ calls)%list /\ stored "d" "one" calls)
  /\ (LoadCheckpoint false "d" (after_first, 1%Z)).1 = inr (mkCheckpoint 1 EncodingV2 "one" "vone")
  /\ (LoadCheckpoint false "d" (after_lost, 2%Z)).1 = inl ErrCorrupt.
Proof.
  split; [vm_compute; reflexivity|]. split.
  - destruct (proj1 (file_store_answers (AS := Sample.answers) (FC := Sample.limited) (Sample.request "one") "d" [] 0 ltac:(reflexivity))
      (inr 1%Z) after_first 1%Z ltac:(vm_compute; reflexivity)) as (calls & Hc & _ & Hs & _).
    exists calls. split; [exact Hc|]. apply Hs. exists 1%Z. reflexivity.
  - split; vm_compute; reflexivity.
Defined.
End Witnesses.
