(* ===== verification/Decode.v ===== *)
(** * Decoding JSON into Go structs

    What [json.Unmarshal] does with a struct of scalar fields, on top of [Json.parse]:
    whether every value can be stored in its field ([fits]), and what each field then
    holds (the last match wins, [null] changes nothing). *)

From stdpp Require Import base list strings.
From Stdlib Require Import ZArith NArith Ascii String Lia.
From S2P Require Import Prelude Utf8 Json RoomState RoomBarrier.

Local Open Scope string_scope.

(** The shape of a struct field: a scalar, a [json.RawMessage] or a struct, which lists
    its fields. *)
Inductive shape := SBool | SString | SInt | SRaw | SStruct (fields : list (string * shape)).

Definition digits_value (s : string) : option Z :=
  match span_digits s with
  | (d, "") => if String.eqb d "" then None
               else Some (fold_left (fun n c => 10 * n + Z.of_N (code c - 48))%Z (list_ascii_of_string d) 0%Z)
  | _ => None
  end.

(** [strconv.ParseInt] on a JSON number. *)
Definition int_literal (s : string) : option Z :=
  let signed := match s with
                | String c s' => if Ascii.eqb c (ch 45) then option_map Z.opp (digits_value s') else digits_value s
                | "" => None
                end in
  match signed with
  | Some z => if ((- 2 ^ 63 <=? z) && (z <? 2 ^ 63))%Z then Some z else None
  | None => None
  end.

(** [v] can be stored in a field of the given shape; [null] always can. *)
Fixpoint fits (v : json) (sh : shape) : bool :=
  match v, sh with
  | JNull, _ => true
  | _, SRaw => true
  | JBool _, SBool => true
  | JStr _, SString => true
  | JNum lit, SInt => match int_literal lit with Some _ => true | None => false end
  | JObj kvs, SStruct fields =>
      forallb (fun '(k, v') =>
        match find (fun '(name, _) => key_matches name k) fields with
        | Some (_, sh') => fits v' sh'
        | None => true
        end) kvs
  | _, _ => false
  end.

(** The last value given to the boolean field [name]. *)
Fixpoint bool_field (name : string) (kvs : list (string * json)) (acc : bool) : bool :=
  match kvs with
  | [] => acc
  | (k, JBool b) :: kvs' => bool_field name kvs' (if key_matches name k then b else acc)
  | _ :: kvs' => bool_field name kvs' acc
  end.

Fixpoint int_field (name : string) (kvs : list (string * json)) (acc : Z) : Z :=
  match kvs with
  | [] => acc
  | (k, JNum lit) :: kvs' =>
      int_field name kvs' (if key_matches name k then default acc (int_literal lit) else acc)
  | _ :: kvs' => int_field name kvs' acc
  end.

(** A [*bool] field, which [null] sets to nil. *)
Fixpoint bool_ptr_field (name : string) (kvs : list (string * json)) (acc : option bool) : option bool :=
  match kvs with
  | [] => acc
  | (k, JBool b) :: kvs' => bool_ptr_field name kvs' (if key_matches name k then Some b else acc)
  | (k, JNull) :: kvs' => bool_ptr_field name kvs' (if key_matches name k then None else acc)
  | _ :: kvs' => bool_ptr_field name kvs' acc
  end.

(** A [json.RawMessage] field: the value as it stands, [null] included; an absent one
    is empty. *)
Fixpoint raw_field (name : string) (kvs : list (string * json)) (acc : option json) : option json :=
  match kvs with
  | [] => acc
  | (k, v) :: kvs' => raw_field name kvs' (if key_matches name k then Some v else acc)
  end.

(** A string field of an object that fits its struct. *)
Definition string_field (name : string) (kvs : list (string * json)) : string :=
  default "" (decode_string_field name kvs "").

(** The members of a value that decodes into the struct [sh]; [null] decodes into the
    zero struct. *)
Definition members_of (sh : shape) (v : json) : option (list (string * json)) :=
  if fits v sh then match v with JObj kvs => Some kvs | _ => Some [] end else None.
