(* ===== verification/Attach.v ===== *)
(** * A supervised broker attachment

    The lifecycle consumer (adapter/inbound/lifecycle/conn.go) and the RabbitMQ client
    (adapter/outbound/metadatastore/rabbitmq/conn.go) keep one session with the broker,
    a connection and a channel, open in the same way: a supervisor goroutine consumes
    the session until its stream ends, releases it, and opens the next on a backoff,
    for ever; [Close] may come at any moment, from any number of goroutines.  This is
    the machine of both, one access to the shared state at a time; [Consumer] and
    [MetaRpc] are its clients. *)

From stdpp Require Import base gmap sets list.
From Stdlib Require Import ZArith Lia.
From S2P Require Import Prelude.

(** ** State *)

(** Where the supervisor is; sessions are numbered as they are opened. *)
Inductive sup_pc :=
| Consuming (n : nat)
| Releasing (n : nat)
| Waiting
| Opening
| Opened (n : nat)
| Refusing (n : nat)
| Exited.
#[export] Instance sup_pc_eq_dec : EqDecision sup_pc.
Proof. solve_decision. Defined.

(** Where a call of [Close] is: the signal given, the channel it [found] closed, done. *)
Inductive close_pc := CSignalled | CChannel (found : option nat) | CClosed.

(** [a_live] is the attachment [Close] reads; [a_ch] and [a_conn] are the sessions
    whose channel or connection this process still holds open. *)
Record attach := mkAttach {
  a_closed : bool;
  a_live : option nat;
  a_ch : gset nat;
  a_conn : gset nat;
  a_next : nat;
  a_sup : sup_pc;
  a_closers : gmap nat close_pc }.

(** [Connect], once its first session is open. *)
Definition connected : attach := mkAttach false (Some 0) {[0]} {[0]} 1 (Consuming 0) ∅.

Definition set_sup (pc : sup_pc) (s : attach) : attach :=
  mkAttach (a_closed s) (a_live s) (a_ch s) (a_conn s) (a_next s) pc (a_closers s).
Definition set_closer (k : nat) (pc : close_pc) (s : attach) : attach :=
  mkAttach (a_closed s) (a_live s) (a_ch s) (a_conn s) (a_next s) (a_sup s) (<[k := pc]> (a_closers s)).
Definition close_ch (n : nat) (s : attach) : attach :=
  mkAttach (a_closed s) (a_live s) (a_ch s ∖ {[n]}) (a_conn s) (a_next s) (a_sup s) (a_closers s).
Definition close_conn (n : nat) (s : attach) : attach :=
  mkAttach (a_closed s) (a_live s) (a_ch s) (a_conn s ∖ {[n]}) (a_next s) (a_sup s) (a_closers s).

(** ** Steps *)

(** [adopt]: the check of the closed signal and the write of the fields, under one
    lock. *)
Definition adopt (n : nat) (s : attach) : attach :=
  if a_closed s then set_sup (Refusing n) s
  else mkAttach (a_closed s) (Some n) (a_ch s) (a_conn s) (a_next s) (Consuming n) (a_closers s).

(** The supervisor's events: the stream ends; [run] releases the session; [reattach]
    waits, is told to stop, opens a session or fails to, offers it, releases it when
    refused.  [Close]'s: the signal, the channel, the connection. *)
Inductive sup_event :=
| SupEnd | SupRelease | SupTick | SupQuit | SupOpened (ok : bool) | SupAdopt | SupRefuse
| ClSignal (k : nat) | ClChannel (k : nat) | ClConn (k : nat).

Section Machine.
(** Whether [Close] reads the attachment again before it closes the connection. *)
Context (reread : bool).

Definition sup_step (ev : sup_event) (s : attach) : option attach :=
  match ev with
  | SupEnd => match a_sup s with Consuming n => Some (set_sup (Releasing n) s) | _ => None end
  | SupRelease =>
      match a_sup s with
      | Releasing n => Some (set_sup Waiting (close_conn n (close_ch n s)))
      | _ => None
      end
  | SupTick => match a_sup s with Waiting => Some (set_sup Opening s) | _ => None end
  | SupQuit =>
      match a_sup s with
      | Waiting => if a_closed s then Some (set_sup Exited s) else None
      | _ => None
      end
  | SupOpened ok =>
      match a_sup s with
      | Opening =>
          Some (if ok : bool then
                  mkAttach (a_closed s) (a_live s) ({[a_next s]} ∪ a_ch s) ({[a_next s]} ∪ a_conn s)
                    (S (a_next s)) (Opened (a_next s)) (a_closers s)
                else set_sup Waiting s)
      | _ => None
      end
  | SupAdopt => match a_sup s with Opened n => Some (adopt n s) | _ => None end
  | SupRefuse =>
      match a_sup s with
      | Refusing n => Some (set_sup Exited (close_conn n (close_ch n s)))
      | _ => None
      end
  | ClSignal k =>
      match a_closers s !! k with
      | Some _ => None
      | None => Some (set_closer k CSignalled
                  (mkAttach true (a_live s) (a_ch s) (a_conn s) (a_next s) (a_sup s) (a_closers s)))
      end
  | ClChannel k =>
      match a_closers s !! k with
      | Some CSignalled =>
          Some (set_closer k (CChannel (a_live s)) (match a_live s with Some n => close_ch n s | None => s end))
      | _ => None
      end
  | ClConn k =>
      match a_closers s !! k with
      | Some (CChannel found) =>
          let conn := if reread then a_live s else found in
          Some (set_closer k CClosed (match conn with Some n => close_conn n s | None => s end))
      | _ => None
      end
  end.

(** ** Invariant *)

Definition sup_session (pc : sup_pc) : option nat :=
  match pc with Consuming n | Releasing n | Opened n | Refusing n => Some n | _ => None end.

(** What is open is in the supervisor's hands, and a closer leaves the live session
    behind it closed. *)
Record attached (s : attach) : Prop := mkAttached {
  at_fresh : forall n, sup_session (a_sup s) = Some n \/ a_live s = Some n -> n < a_next s;
  at_held : forall n, n ∈ a_ch s \/ n ∈ a_conn s -> sup_session (a_sup s) = Some n;
  at_live : forall n, a_sup s = Consuming n \/ a_sup s = Releasing n -> a_live s = Some n;
  at_open : forall n, a_sup s = Opened n -> a_live s <> Some n;
  at_refusing : forall n, a_sup s = Refusing n -> a_closed s = true;
  at_exited : a_sup s = Exited -> a_closed s = true;
  at_signal : forall k pc, a_closers s !! k = Some pc -> a_closed s = true;
  at_channel : forall k found, a_closers s !! k = Some (CChannel found) ->
    found = a_live s /\ forall n, a_live s = Some n -> n ∉ a_ch s;
  at_closed : forall k n, a_closers s !! k = Some CClosed -> a_live s = Some n -> n ∉ a_ch s /\ n ∉ a_conn s }.

Lemma attached_connected : attached connected.
Proof. split; simpl; try done; [intros n [H|H]; simplify_eq; lia|set_solver|naive_solver]. Qed.

Lemma attached_release n s pc :
  attached s -> sup_session (a_sup s) = Some n -> sup_session pc = None ->
  (pc = Exited -> a_closed s = true) -> attached (set_sup pc (close_conn n (close_ch n s))).
Proof.
  intros [] Hn Hpc He. split; simpl; rewrite ?Hpc.
  - naive_solver.
  - intros m Hm. exfalso. assert (m <> n) by set_solver. assert (sup_session (a_sup s) = Some m); [|congruence].
    apply at_held0. set_solver.
  - by intros m [-> | ->].
  - by intros m ->.
  - by intros m ->.
  - done.
  - done.
  - intros k found H. destruct (at_channel0 k found H). set_solver.
  - intros k m H1 H2. destruct (at_closed0 k m H1 H2). set_solver.
Qed.

Lemma attached_closer_channel k s :
  attached s -> a_closers s !! k = Some CSignalled ->
  attached (set_closer k (CChannel (a_live s)) (match a_live s with Some n => close_ch n s | None => s end)).
Proof.
  intros [] H.
  assert (Hg : forall n, n ∈ a_ch (match a_live s with Some n => close_ch n s | None => s end) -> n ∈ a_ch s)
    by (intros n; destruct (a_live s); simpl; set_solver).
  assert (E : forall A (f : attach -> A), (forall n, f (close_ch n s) = f s) ->
    f (match a_live s with Some n => close_ch n s | None => s end) = f s)
    by (intros A' f Hf; by destruct (a_live s)).
  split; simpl; rewrite ?(E _ a_sup), ?(E _ a_live), ?(E _ a_next), ?(E _ a_conn), ?(E _ a_closed), ?(E _ a_closers) by done; try done.
  - intros n [Hn|Hn]; apply at_held0; [left; by apply Hg|by right].
  - intros k' pc. rewrite lookup_insert. case_decide; [intros _; by apply (at_signal0 k CSignalled)|by apply at_signal0].
  - intros k' found. rewrite lookup_insert. case_decide.
    + intros [= <-]. split; [done|]. intros n Hn. rewrite Hn. simpl. set_solver.
    + intros Hk. destruct (at_channel0 k' found Hk) as [E1 E2]. split; [done|]. intros n Hn Hin. by apply (E2 n Hn), Hg.
  - intros k' n. rewrite lookup_insert. case_decide; [done|]. intros Hk Hn.
    destruct (at_closed0 k' n Hk Hn). split; [|done]. intros Hin. by apply Hg in Hin.
Qed.

Lemma attached_closer_conn k s :
  attached s -> a_closers s !! k = Some (CChannel (a_live s)) -> (forall n, a_live s = Some n -> n ∉ a_ch s) ->
  attached (set_closer k CClosed (match a_live s with Some n => close_conn n s | None => s end)).
Proof.
  intros [] H0 Hch.
  assert (Hg : forall n, n ∈ a_conn (match a_live s with Some n => close_conn n s | None => s end) -> n ∈ a_conn s)
    by (intros n; destruct (a_live s); simpl; set_solver).
  assert (E : forall A (f : attach -> A), (forall n, f (close_conn n s) = f s) ->
    f (match a_live s with Some n => close_conn n s | None => s end) = f s)
    by (intros A' f Hf; by destruct (a_live s)).
  split; simpl; rewrite ?(E _ a_sup), ?(E _ a_live), ?(E _ a_next), ?(E _ a_ch), ?(E _ a_closed), ?(E _ a_closers) by done; try done.
  - intros n [Hn|Hn]; apply at_held0; [by left|right; by apply Hg].
  - intros k' pc. rewrite lookup_insert. case_decide; [intros _; by apply (at_signal0 k _ H0)|by apply at_signal0].
  - intros k' found. rewrite lookup_insert. case_decide; [done|]. apply at_channel0.
  - intros k' n. rewrite lookup_insert. case_decide.
    + intros _ Hn. split; [by apply Hch|]. rewrite Hn. simpl. set_solver.
    + intros Hk Hn. destruct (at_closed0 k' n Hk Hn). split; [done|]. intros Hin. by apply Hg in Hin.
Qed.

Lemma attached_opened s :
  attached s -> a_sup s = Opening ->
  attached (mkAttach (a_closed s) (a_live s) ({[a_next s]} ∪ a_ch s) ({[a_next s]} ∪ a_conn s) (S (a_next s))
              (Opened (a_next s)) (a_closers s)).
Proof.
  intros [] H. rewrite H in *. split; simpl; try done.
  - intros n [Hn|Hn]; simplify_eq; [lia|]. specialize (at_fresh0 n). naive_solver lia.
  - intros n Hn. destruct (decide (n = a_next s)) as [->|]; [done|].
    exfalso. assert (E : sup_session Opening = Some n) by (apply at_held0; set_solver). done.
  - by intros n [|].
  - intros n Hn Hl. simplify_eq. specialize (at_fresh0 (a_next s)). naive_solver lia.
  - intros k found Hk. destruct (at_channel0 k found Hk) as [E1 E2]. split; [done|]. intros n Hn.
    pose proof (at_fresh0 n (or_intror Hn)). specialize (E2 n Hn). set_unfold. naive_solver lia.
  - intros k n Hk Hn. pose proof (at_fresh0 n (or_intror Hn)). destruct (at_closed0 k n Hk Hn). set_unfold. naive_solver lia.
Qed.

Lemma sup_step_attached ev s s' : attached s -> sup_step ev s = Some s' -> attached s'.
Proof.
  intros A Hs. pose proof A as []. destruct ev; simpl in Hs.
  9: { destruct (a_closers s !! k) as [[| |]|] eqn:H; try done. injection Hs as <-. by apply attached_closer_channel. }
  9: { destruct (a_closers s !! k) as [[|found|]|] eqn:H0; try done. injection Hs as <-.
    destruct (at_channel0 k found H0) as [-> Hch].
    replace (if reread then a_live s else a_live s) with (a_live s) by (by destruct reread).
    by apply attached_closer_conn. }
  all: repeat case_match; simplify_eq.
  - split; simpl; try done; naive_solver.
  - by apply attached_release; [|rewrite H|..].
  - split; simpl; try done; naive_solver.
  - split; simpl; try done; naive_solver.
  - by apply attached_opened.
  - split; simpl; try done; naive_solver.
  - unfold adopt. destruct (a_closed s) eqn:Hc.
    + split; simpl; try done; rewrite ?H in *; naive_solver.
    + split; simpl; try done; rewrite ?H in *; try naive_solver.
  - apply attached_release; [done|by rewrite H|done|]. intros _. by eapply at_refusing0.
  - split; simpl; try done.
    + intros k' found. rewrite lookup_insert. case_decide; [done|]. by apply at_channel0.
    + intros k' n. rewrite lookup_insert. case_decide; [done|]. by apply at_closed0.
Qed.

Lemma drive_attached evs s s' : attached s -> drive sup_step evs s = Some s' -> attached s'.
Proof. intros A. apply drive_inv; [|done]. intros ev s1 s2. apply sup_step_attached. Qed.

(** ** What both clients rely on *)

Lemma drive_from_connect evs s : drive sup_step evs connected = Some s -> attached s.
Proof. apply drive_attached, attached_connected. Qed.

(** After a [Close] has returned, what is still open is a session the supervisor has
    just opened and is about to offer or to release. *)
Lemma closed_leaves_only_offer s k n :
  attached s -> a_closers s !! k = Some CClosed -> n ∈ a_ch s \/ n ∈ a_conn s ->
  a_sup s = Opened n \/ a_sup s = Refusing n.
Proof.
  intros A Hk Hn. pose proof (at_held s A n Hn) as Hs.
  assert (Hl : a_live s = Some n -> False).
  { intros Hl. destruct (at_closed s A k n Hk Hl) as [H1 H2]. tauto. }
  destruct (a_sup s) eqn:E; simplify_eq/=; try tauto; destruct Hl; apply (at_live s A); rewrite E; auto.
Qed.

(** The supervisor gives up only once [Close] was called, leaving nothing open. *)
Lemma exited_leaves_nothing s :
  attached s -> a_sup s = Exited -> a_closed s = true /\ a_ch s = ∅ /\ a_conn s = ∅.
Proof.
  intros A Hs. split; [by apply at_exited|].
  pose proof (at_held s A) as Hh. rewrite Hs in Hh. split; apply set_eq; intros n; split; try set_solver;
    intros Hn; specialize (Hh n); naive_solver.
Qed.

(** Steps of the supervisor, and attempts of it to open a session that failed. *)
Definition is_sup (ev : sup_event) : bool :=
  match ev with ClSignal _ | ClChannel _ | ClConn _ => false | _ => true end.
Definition is_failed_open (ev : sup_event) : bool := match ev with SupOpened false => true | _ => false end.
Definition sup_moves (evs : list sup_event) : nat := List.length (List.filter is_sup evs).
Definition failed_opens (evs : list sup_event) : nat := List.length (List.filter is_failed_open evs).

(** The steps left on the longest way to the exit on which no open fails. *)
Definition sup_left (pc : sup_pc) : nat :=
  match pc with
  | Consuming _ => 6 | Releasing _ => 5 | Waiting => 4 | Opening => 3 | Opened _ => 2 | Refusing _ => 1
  | Exited => 0
  end.

(** The sessions it may still open once [Close] was called: at most one. *)
Definition opens_left (pc : sup_pc) : nat :=
  match pc with Consuming _ | Releasing _ | Waiting | Opening => 1 | _ => 0 end.

Lemma winding_down_step ev s s' :
  a_closed s = true -> sup_step ev s = Some s' ->
  a_closed s' = true /\ a_live s' = a_live s
  /\ a_next s' + opens_left (a_sup s') <= a_next s + opens_left (a_sup s)
  /\ (if is_sup ev then 1 else 0) + sup_left (a_sup s') <= sup_left (a_sup s) + 2 * (if is_failed_open ev then 1 else 0).
Proof.
  intros Hc Hs. destruct ev as [| | | |ok| | |k|k|k]; simpl in Hs.
  9: { destruct (a_closers s !! k) as [[| |]|]; try done. injection Hs as <-. simpl.
    destruct (a_live s) eqn:El; simpl; split_and!; try done; lia. }
  9: { destruct (a_closers s !! k) as [[|found|]|]; try done. injection Hs as <-. simpl.
    destruct (if reread then a_live s else found); simpl; split_and!; try done; lia. }
  8: { destruct (a_closers s !! k); [done|]. injection Hs as <-. simpl. split_and!; try done; lia. }
  all: destruct (a_sup s) eqn:E; try done; try (destruct ok); unfold adopt in *; rewrite ?Hc in *; try done;
    injection Hs as <-; simpl; rewrite ?Hc; split_and!; try done; lia.
Qed.

Lemma winding_down more s s' :
  a_closed s = true -> drive sup_step more s = Some s' ->
  a_closed s' = true /\ a_live s' = a_live s
  /\ a_next s' + opens_left (a_sup s') <= a_next s + opens_left (a_sup s)
  /\ sup_moves more + sup_left (a_sup s') <= sup_left (a_sup s) + 2 * failed_opens more.
Proof.
  revert s. induction more as [|ev more IH]; intros s Hc H; simpl in H.
  - injection H as <-. unfold sup_moves, failed_opens. simpl. split_and!; [done|done|lia|lia].
  - destruct (sup_step ev s) as [s1|] eqn:Hs; [|done].
    destruct (winding_down_step ev s s1 Hc Hs) as (C1 & L1 & N1 & M1). destruct (IH s1 C1 H) as (C2 & L2 & N2 & M2).
    split_and!; [done|congruence|lia|]. unfold sup_moves, failed_opens in *. simpl.
    destruct (is_sup ev), (is_failed_open ev); simpl; lia.
Qed.

(** The supervisor is never without a step before it exits, and at each wait one
    of them is the exit. *)
Lemma sup_moves_on s :
  a_closed s = true ->
  (a_sup s <> Exited -> exists ev, is_sup ev = true /\ is_Some (sup_step ev s))
  /\ (a_sup s = Waiting -> exists s', sup_step SupQuit s = Some s' /\ a_sup s' = Exited).
Proof.
  intros Hc. split.
  - intros Hx. destruct (a_sup s) as [n|n| | |n|n|] eqn:E; try done;
      [exists SupEnd|exists SupRelease|exists SupQuit|exists (SupOpened false)|exists SupAdopt|exists SupRefuse];
      (split; [done|]); simpl; rewrite E, ?Hc; by eexists.
  - intros E. simpl. rewrite E, Hc. by eexists.
Qed.
End Machine.

(** C31: however [Close] interleaves with the stream ending, the session being
    released and the next one being opened, no connection outlives it.  Once a [Close]
    has returned, only a session the supervisor has just opened can still be open; the
    supervisor exits only once [Close] was called, and leaves nothing open.  From the
    signal on, in every run, no session is adopted any more, at most one is still opened,
    and the supervisor winds down: it is never without a step before it exits, each time
    it waits to open a session the exit is one of them, and it takes at most six steps
    and two more for each attempt to open a session that failed meanwhile. *)
Theorem no_session_outlives_close (reread : bool) (evs : list sup_event) (s : attach) :
  drive (sup_step reread) evs connected = Some s ->
  (forall k n, a_closers s !! k = Some CClosed -> n ∈ a_ch s \/ n ∈ a_conn s ->
     a_closed s = true /\ (a_sup s = Opened n \/ a_sup s = Refusing n))
  /\ (a_sup s = Exited -> a_closed s = true /\ a_ch s = ∅ /\ a_conn s = ∅)
  /\ (a_closed s = true -> forall more s', drive (sup_step reread) more s = Some s' ->
        a_live s' = a_live s
        /\ a_next s' <= S (a_next s)
        /\ sup_moves more <= 6 + 2 * failed_opens more
        /\ (a_sup s' <> Exited -> exists ev, is_sup ev = true /\ is_Some (sup_step reread ev s'))
        /\ (a_sup s' = Waiting -> exists s2, sup_step reread SupQuit s' = Some s2 /\ a_sup s2 = Exited)).
Proof.
  intros H. pose proof (drive_from_connect reread evs s H) as A. split_and!.
  - intros k n Hk Hn. split; [by eapply (at_signal s A)|by eapply closed_leaves_only_offer].
  - intros Hs. by apply exited_leaves_nothing.
  - intros Hc more s' Hm. destruct (winding_down reread more s s' Hc Hm) as (C & L & N & M).
    destruct (sup_moves_on reread s' C) as [M1 M2]. split_and!; [done| | |done|done].
    + destruct (a_sup s); simpl in N; lia.
    + destruct (a_sup s); simpl in M; lia.
Qed.

(** [Close] runs while the supervisor is opening the next session. *)
Definition close_during_reattach : list sup_event :=
  [SupEnd; SupRelease; SupTick; ClSignal 0; ClChannel 0].
Definition wind_down : list sup_event :=
  [SupOpened false; SupTick; SupOpened true; ClConn 0; SupAdopt; SupRefuse].

Definition after_signal : attach := default connected (drive (sup_step true) close_during_reattach connected).
Definition after_reattach : attach := default connected (drive (sup_step true) wind_down after_signal).

Lemma no_session_outlives_close_witness :
  drive (sup_step true) (close_during_reattach ++ wind_down) connected = Some after_reattach
  /\ a_conn after_reattach = ∅
  /\ sup_moves wind_down = 5 /\ sup_moves wind_down <= 6 + 2 * failed_opens wind_down
  /\ a_live after_reattach = a_live after_signal.
Proof.
  assert (E : drive (sup_step true) (close_during_reattach ++ wind_down) connected = Some after_reattach)
    by (vm_compute; reflexivity).
  assert (E1 : drive (sup_step true) close_during_reattach connected = Some after_signal) by (vm_compute; reflexivity).
  split; [exact E|].
  destruct (no_session_outlives_close true _ after_reattach E) as (_ & H & _).
  destruct (no_session_outlives_close true _ after_signal E1) as (_ & _ & H1).
  destruct (H1 ltac:(vm_compute; reflexivity) wind_down after_reattach ltac:(vm_compute; reflexivity))
    as (L & _ & M & _).
  split; [exact (proj2 (proj2 (H ltac:(vm_compute; reflexivity))))|].
  split; [vm_compute; reflexivity|]. split; [exact M|exact L].
Defined.
