(* ===== verification/Consumer.v ===== *)
(** * The lifecycle consumer (adapter/inbound/lifecycle)

    [handle] and [processOne]: what becomes of one delivery of the lifecycle queue;
    [topologyFor]: the queues; [openSession]: one attachment brought up.  The supervisor
    around it is the machine of [Attach]; what the manager answers is
    [Admission.CloseDeleted_answer]. *)

From stdpp Require Import base gmap sets list strings.
From Stdlib Require Import ZArith String Lia.
From S2P Require Import Prelude Json Control Lifecycle RoomState RoomBarrier.
From S2P Require Import Manager Admission Decode Attach.

Local Open Scope string_scope.

(** ** Events *)

Definition PatternDocumentDeleted : string := "document.deleted".

(** The NestJS envelope: [data] is kept as it stands. *)
Record envelope := mkEnvelope { env_Pattern : string; env_Data : option json; env_ID : string }.
Definition envelope_shape : shape := SStruct [("pattern", SString); ("data", SRaw); ("id", SString)].

Definition unmarshal_envelope (body : bytes) : option envelope :=
  match parse body with
  | Some v =>
      match members_of envelope_shape v with
      | Some kvs => Some (mkEnvelope (string_field "pattern" kvs) (raw_field "data" kvs None) (string_field "id" kvs))
      | None => None
      end
  | None => None
  end.

(** [DeletedEvent]: its only field is the document's id. *)
Definition DeletedEvent : shape := SStruct [("id", SString)].
Definition unmarshal_deleted (data : option json) : option DocumentID :=
  match data with
  | Some v => match members_of DeletedEvent v with Some kvs => Some (string_field "id" kvs) | None => None end
  | None => None
  end.

Definition patternOf (body : bytes) : string :=
  match unmarshal_envelope body with Some env => env_Pattern env | None => "<unparseable>" end.

Inductive ackAction := ackSuccess | requeue | rejectPoison.
#[export] Instance ackAction_eq_dec : EqDecision ackAction.
Proof. solve_decision. Defined.

(** [refused id] is the manager's error, if it returns one. *)
Definition handleDeleted {E} (refused : DocumentID -> option E) (data : option json) : ackAction :=
  match unmarshal_deleted data with
  | None => rejectPoison
  | Some id =>
      if String.eqb id "" then rejectPoison
      else match refused id with Some _ => requeue | None => ackSuccess end
  end.

Definition handle {E} (refused : DocumentID -> option E) (body : bytes) : ackAction :=
  match unmarshal_envelope body with
  | None => rejectPoison
  | Some env =>
      if String.eqb (env_Pattern env) PatternDocumentDeleted then handleDeleted refused (env_Data env)
      else rejectPoison
  end.

(** What the consumer tells the broker and its observer. *)
Inductive delivery_effect := Ack | Nack (redeliver : bool) | EventDeadLettered (pattern : string).
#[export] Instance delivery_effect_eq_dec : EqDecision delivery_effect.
Proof. solve_decision. Defined.

Definition processOne {E} (refused : DocumentID -> option E) (body : bytes) : list delivery_effect :=
  match handle refused body with
  | ackSuccess => [Ack]
  | requeue => [Nack true]
  | rejectPoison => [Nack false; EventDeadLettered (patternOf body)]
  end.

(** The deliveries of one session, in order. *)
Definition consume {E} (refused : DocumentID -> option E) (bodies : list bytes) : list delivery_effect :=
  flat_map (processOne refused) bodies.

(** ** Queues *)

Definition suffixDLQ : string := ".dlq".
Record queueNames := mkNames { q_main : string; q_dlq : string }.
Definition namesFor (main : string) : queueNames := mkNames main (main ++ suffixDLQ).

Inductive arg := ArgString (s : string) | ArgInt (z : Z).
#[export] Instance arg_eq_dec : EqDecision arg.
Proof. solve_decision. Defined.
Record queueSpec := mkSpec { spec_name : string; spec_args : list (string * arg) }.

Definition topologyFor (n : queueNames) : list queueSpec :=
  [mkSpec (q_main n)
     [("x-queue-type", ArgString "quorum"); ("x-delivery-limit", ArgInt (-1));
      ("x-dead-letter-exchange", ArgString ""); ("x-dead-letter-routing-key", ArgString (q_dlq n))];
   mkSpec (q_dlq n)
     [("x-queue-type", ArgString "quorum"); ("x-delivery-limit", ArgInt (-1))]].

(** ** One attachment *)

Definition DefaultPrefetch : Z := 1.
Definition DefaultHandlerTimeout : Z := 30 * second.
Definition DefaultDepthPollInterval : Z := 30 * second.
Definition DefaultReattachBackoff : Z := 5 * second.

Definition resolvePrefetch (n : Z) : Z := if (n <=? 0)%Z then DefaultPrefetch else n.
Definition resolveHandlerTimeout (d : Z) : Z := if (d <=? 0)%Z then DefaultHandlerTimeout else d.
Definition resolveReattachBackoff (d : Z) : Z := if (d <=? 0)%Z then DefaultReattachBackoff else d.
Definition resolveDepthPollInterval (d : Z) : Z := if (d =? 0)%Z then DefaultDepthPollInterval else d.

(** What is asked of the broker, and whether it agrees. *)
Inductive broker_call :=
| Dial | OpenChannel | QueueDeclare (q : queueSpec) | Qos (prefetch : Z) | Consume (queue : string)
| CloseChannel | CloseConn.

Section Session.
Context (agrees : broker_call -> bool).

(** Each queue in turn, until one is refused. *)
Fixpoint declareTopology (qs : list queueSpec) : list broker_call * bool :=
  match qs with
  | [] => ([], true)
  | q :: qs' =>
      if agrees (QueueDeclare q) then
        let '(calls, ok) := declareTopology qs' in (QueueDeclare q :: calls, ok)
      else ([QueueDeclare q], false)
  end.

(** The calls made, and whether a session came of them. *)
Definition openSession (prefetch : Z) (names : queueNames) : list broker_call * bool :=
  if negb (agrees Dial) then ([Dial], false)
  else if negb (agrees OpenChannel) then ([Dial; OpenChannel; CloseConn], false)
  else
    let '(declared, ok) := declareTopology (topologyFor names) in
    let opened := ([Dial; OpenChannel] ++ declared)%list in
    if negb ok then (opened ++ [CloseChannel; CloseConn], false)%list
    else
      let qos := Qos (resolvePrefetch prefetch) in
      if negb (agrees qos) then (opened ++ [qos; CloseChannel; CloseConn], false)%list
      else
        let take := Consume (q_main names) in
        if negb (agrees take) then (opened ++ [qos; take; CloseChannel; CloseConn], false)%list
        else (opened ++ [qos; take], true)%list.

(** One round of [pollDepths]: the ready counts reported, until a queue cannot be
    re-declared. *)
Fixpoint poll_round (ready : queueSpec -> option Z) (qs : list queueSpec) : list (string * Z) :=
  match qs with
  | [] => []
  | q :: qs' => match ready q with Some n => (spec_name q, n) :: poll_round ready qs' | None => [] end
  end.
End Session.

(** [Connect]: the URL and the queue are required, the first attachment must come up. *)
Definition Connect (url queue : string) (prefetch : Z) (agrees : broker_call -> bool) : option attach :=
  if String.eqb url "" || String.eqb queue "" then None
  else if (openSession agrees prefetch (namesFor queue)).2 then Some connected else None.

(** ** What becomes of a delivery *)

(** The body is the deletion event of document [id]. *)
Definition actionable (body : bytes) (id : DocumentID) : Prop :=
  exists env, unmarshal_envelope body = Some env /\ env_Pattern env = PatternDocumentDeleted
    /\ unmarshal_deleted (env_Data env) = Some id /\ id <> "".

Lemma handle_actionable {E} (refused : DocumentID -> option E) body id :
  actionable body id -> handle refused body = match refused id with Some _ => requeue | None => ackSuccess end.
Proof.
  intros (env & H1 & H2 & H3 & H4). unfold handle. rewrite H1, H2, String.eqb_refl. unfold handleDeleted.
  rewrite H3. by apply String.eqb_neq in H4 as ->.
Qed.

Lemma handle_inv {E} (refused : DocumentID -> option E) body :
  handle refused body <> rejectPoison -> exists id, actionable body id.
Proof.
  unfold handle. destruct (unmarshal_envelope body) as [env|] eqn:He; [|done].
  destruct (String.eqb_spec (env_Pattern env) PatternDocumentDeleted) as [Hp|]; [|done].
  unfold handleDeleted. destruct (unmarshal_deleted (env_Data env)) as [id|] eqn:Hd; [|done].
  destruct (String.eqb_spec id "") as [|Hid]; [done|]. intros _. exists id, env. done.
Qed.

Lemma actionable_unique body id id' : actionable body id -> actionable body id' -> id = id'.
Proof. intros (e1 & A1 & _ & B1 & _) (e2 & A2 & _ & B2 & _). congruence. Qed.

(** How the manager's attempt to close one document went ([CloseDeleted]). *)
Record closing := mkClosing {
  cl_live : bool;
  cl_now : roomState;
  cl_first : attempt;
  cl_later : wake;
  cl_then : roomState;
  cl_deadline : bool;
  cl_res : completion unit }.
Definition close_refused (c : closing) : option closeError :=
  CloseDeleted_answer (cl_live c) (cl_now c) (cl_first c) (cl_later c) (cl_then c) (cl_deadline c) (cl_res c).

(** A room there was is done with: it took no command because it is no longer active,
    or it ran the command or ended. *)
Definition room_done (c : closing) : Prop :=
  cl_live c = true ->
  if enqueueCtx (cl_now c) (cl_first c) (cl_later c)
  then cl_res c <> DeadlinePassed _ else cl_then c <> stateActive.

Lemma close_refused_spec c : close_refused c = None <-> room_done c.
Proof.
  unfold close_refused, CloseDeleted_answer, room_done. destruct (cl_live c); simpl; [|naive_solver].
  destruct (enqueueCtx _ _ _); simpl.
  - destruct (cl_res c); naive_solver.
  - case_bool_decide; destruct (cl_deadline c); naive_solver.
Qed.

Definition is_terminal (e : delivery_effect) : bool := match e with EventDeadLettered _ => false | _ => true end.
Definition settled (l : list delivery_effect) : nat := List.length (List.filter is_terminal l).

(** C23: every delivery is settled exactly once: acknowledged when it is the deletion
    of a document whose room, if it had one, is done with; redelivered when a live room
    would not close; and rejected, which routes it to the dead-letter queue, exactly
    when it is no deletion event of any document. *)
Theorem delivery_settled_once (closes : DocumentID -> closing) (body : bytes) :
  let acts := processOne (fun id => close_refused (closes id)) body in
  settled acts = 1
  /\ (Ack ∈ acts <-> exists id, actionable body id /\ room_done (closes id))
  /\ (Nack true ∈ acts <-> exists id, actionable body id /\ ~ room_done (closes id))
  /\ (Nack false ∈ acts <-> ~ exists id, actionable body id).
Proof.
  cbv zeta. unfold processOne. set (refused := fun id => close_refused (closes id)).
  destruct (decide (handle refused body = rejectPoison)) as [Hp|Hp].
  - assert (Hno : ~ exists id, actionable body id).
    { intros (id & Ha). rewrite (handle_actionable refused body id Ha) in Hp. by destruct (refused id). }
    rewrite Hp. split_and!; [done|set_solver..].
  - destruct (handle_inv refused body Hp) as (id & Ha). rewrite (handle_actionable refused body id Ha).
    pose proof (close_refused_spec (closes id)) as Hd. unfold refused.
    assert (Hu : forall P : DocumentID -> Prop, (exists id', actionable body id' /\ P id') <-> P id).
    { intros P. split; [intros (id' & Ha' & HP)|eauto]. by rewrite (actionable_unique body id id' Ha Ha'). }
    rewrite (Hu (fun i => room_done (closes i))), (Hu (fun i => ~ room_done (closes i))).
    destruct (close_refused (closes id)); split_and!; try done; set_unfold; naive_solver.
Qed.

(** A deletion event, as the server publishes it. *)
Definition deletion_body : bytes :=
  print (JObj [("pattern", JStr PatternDocumentDeleted); ("data", JObj [("id", JStr "d1")])]).

Example deletion_is_acked :
  processOne (fun id => close_refused (mkClosing false stateActive SlotFree WokeSlot stateActive false (RoomGone _))) deletion_body = [Ack].
Proof. vm_compute. reflexivity. Qed.

Example foreign_event_is_dead_lettered :
  processOne (fun _ => None : option unit) "{}" = [Nack false; EventDeadLettered ""].
Proof. vm_compute. reflexivity. Qed.

(** A session settles as many deliveries as it was handed. *)
Lemma consume_settles {E} (refused : DocumentID -> option E) bodies :
  settled (consume refused bodies) = List.length bodies.
Proof.
  induction bodies as [|b bs IH]; [done|]. simpl. unfold settled in *. rewrite List.filter_app, length_app, IH.
  unfold processOne. by destruct (handle refused b).
Qed.

(** ** The topology *)

(** Where the broker sends a message rejected from a queue: the default exchange
    delivers to the queue its routing key names. *)
Definition dead_letter_queue (q : queueSpec) : option string :=
  match table_lookup "x-dead-letter-exchange" (spec_args q), table_lookup "x-dead-letter-routing-key" (spec_args q) with
  | Some (ArgString ""), Some (ArgString k) => Some k
  | _, _ => None
  end.

(** Rejected events go to the declared dead-letter queue and stay there; no queue limits
    redeliveries. *)
Lemma topology_routes main :
  let qs := topologyFor (namesFor main) in
  map spec_name qs = [main; main ++ suffixDLQ]
  /\ map dead_letter_queue qs = [Some (main ++ suffixDLQ); None]
  /\ Forall (fun q => table_lookup "x-delivery-limit" (spec_args q) = Some (ArgInt (-1))) qs.
Proof. cbv zeta. split_and!; [done|done|]. repeat constructor. Qed.

(** ** Opening an attachment *)

Lemma declareTopology_spec agrees qs calls ok :
  declareTopology agrees qs = (calls, ok) ->
  (ok = true -> calls = map QueueDeclare qs /\ Forall (fun c => agrees c = true) calls)
  /\ CloseConn ∉ calls /\ CloseChannel ∉ calls.
Proof.
  revert calls ok. induction qs as [|q qs IH]; intros calls ok; simpl.
  - intros [= <- <-]. split_and!; [done|set_solver..].
  - destruct (agrees (QueueDeclare q)) eqn:Ha.
    + destruct (declareTopology agrees qs) as [calls' ok']. intros [= <- <-].
      destruct (IH calls' ok' eq_refl) as (H1 & H2 & H3). split_and!; [|set_solver..].
      intros Hok. destruct (H1 Hok) as [-> Hf]. split; [done|]. by constructor.
    + intros [= <- <-]. split_and!; [done|set_solver..].
Qed.

(** Bringing a session up either makes every call in order, each agreed to, with a
    positive prefetch set before the first delivery, or gives back whatever it got. *)
Lemma openSession_contract agrees prefetch names :
  let '(calls, ok) := openSession agrees prefetch names in
  (0 < resolvePrefetch prefetch)%Z
  /\ if ok : bool
     then calls = ([Dial; OpenChannel] ++ map QueueDeclare (topologyFor names)
                   ++ [Qos (resolvePrefetch prefetch); Consume (q_main names)])%list
          /\ Forall (fun c => agrees c = true) calls
     else (agrees Dial = true -> last calls = Some CloseConn)
          /\ (agrees Dial = true -> agrees OpenChannel = true -> CloseChannel ∈ calls).
Proof.
  assert (Hp : (0 < resolvePrefetch prefetch)%Z).
  { unfold resolvePrefetch, DefaultPrefetch. destruct (Z.leb_spec prefetch 0); lia. }
  unfold openSession. generalize (topologyFor names) as qs. intros qs.
  destruct (agrees Dial) eqn:Hd; simpl; [|split; [done|split; congruence]].
  destruct (agrees OpenChannel) eqn:Hc; simpl; [|split; [done|split; [done|congruence]]].
  destruct (declareTopology agrees qs) as [declared ok] eqn:E. destruct (declareTopology_spec _ _ _ _ E) as (H1 & _).
  destruct ok; simpl.
  2: { split; [done|]. split; [intros _; apply (last_app (Dial :: OpenChannel :: declared) [CloseChannel; CloseConn])|set_solver]. }
  destruct (H1 eq_refl) as [-> Hf]. destruct (agrees (Qos _)) eqn:Hq; simpl.
  2: { split; [done|]. split; [intros _; apply (last_app (Dial :: OpenChannel :: map QueueDeclare qs) [_; CloseChannel; CloseConn])|set_solver]. }
  destruct (agrees (Consume _)) eqn:Ht; simpl.
  2: { split; [done|]. split; [intros _; apply (last_app (Dial :: OpenChannel :: map QueueDeclare qs) [_; _; CloseChannel; CloseConn])|set_solver]. }
  split; [done|]. split; [done|]. constructor; [done|]. constructor; [done|]. apply Forall_app. split; [done|].
  by repeat constructor.
Qed.
