(* ===== verification/Deletion.v ===== *)
(** * The deletion of a document, from its event to its room

    One document.deleted delivery ([Consumer.processOne]), the call of
    [Manager.CloseDeleted] it makes ([Consumer.close_refused]), and the loop of the live
    room it finds ([RoomLoop.run_step]), interleaved: the command queue
    between them, other producers of commands, and the deadline of the delivery.
    A turn that ends the room is seen in two steps, since the lifecycle word says so
    before the teardown is through.

    [deletion_acknowledged_over_no_room]: what an acknowledgement rests on;
    [queued_deletion_completes]: that it comes; [acknowledged_before_final_flush]: it may
    come before the last flush of a room that was shutting down already. *)

From stdpp Require Import base gmap list strings.
From Stdlib Require Import ZArith String Lia.
From S2P Require Import Prelude Json Control Lifecycle Core RoomState RoomFanout RoomBarrier.
From S2P Require Import RoomApply RoomLife RoomLoop Fixture RoomRel RoomSafe RoomSave RoomRun RoomDurable.
From S2P Require Import Manager Admission Consumer.

Local Open Scope string_scope.

(** ** The room's loop, seen from outside *)

(** [Serving]: between two turns.  [Tearing]: in the turn that ends the room, which
    it will leave as the given room; [own]: by the deletion's own command. *)
Inductive loop_phase {Y : YCore} := Serving (r : Room) | Tearing (r : Room) (own : bool) | Ended (r : Room).

(** The capacity of [commands]. *)
Definition commands_cap : nat := 256.

(** Where [CloseDeleted] is, once it has found a live room; with what it saw. *)
Inductive close_pc :=
| CStart
| CParked (now : roomState)
| CRefused (now : roomState) (first : attempt) (later : wake)
| CQueued (now : roomState) (first : attempt) (later : wake)
| CDone (c : closing).

Section Deletion.
Context {Y : YCore} {P : Params}.

(** [answered]: the reply channel of the command has its value. *)
Record deletion := mkDeletion {
  dl_loop : loop_phase;
  dl_queue : list (command * bool);
  dl_answered : bool;
  dl_call : close_pc }.

Definition lifecycle_of (l : loop_phase) : roomState :=
  match l with Serving r => lc (co r) | Tearing _ _ => stateDraining | Ended r => lc (co r) end.
Definition done_of (l : loop_phase) : bool := match l with Ended _ => true | _ => false end.

(** [LTurn]: the loop takes the next command.  [LOther]: a turn of another source.
    [LFinish]: the teardown is through.  [LSend]: another producer's command is taken
    into the queue.  [LCall]: [CloseDeleted] goes on; [choice]: its select prefers
    [done] where it could do either, its deadline has passed where it asks.
    [LDeadline]: it is given up on; [healthy]: by the queue's own deadline. *)
Inductive deletion_event :=
| LTurn
| LOther (ev : loop_event)
| LFinish
| LSend (cmd : command)
| LCall (choice : bool)
| LDeadline (healthy : bool).

Definition is_command (ev : loop_event) : bool := match ev with LCommand _ => true | _ => false end.

(** The loop after a turn: [None] where the turn leaves no room. *)
Definition after_turn (own : bool) (s : loop_state) : option loop_phase :=
  match s with Running r => Some (Serving r) | Exited r => Some (Tearing r own) | Crashed => None end.

Definition set_loop (l : loop_phase) (q : list (command * bool)) (s : deletion) : deletion :=
  mkDeletion l q (dl_answered s) (dl_call s).
Definition set_call (pc : close_pc) (s : deletion) : deletion :=
  mkDeletion (dl_loop s) (dl_queue s) (dl_answered s) pc.
Definition slot_free (s : deletion) : bool := (List.length (dl_queue s) <? commands_cap)%nat.
Definition queue_own (pc : close_pc) (s : deletion) : deletion :=
  mkDeletion (dl_loop s) (dl_queue s ++ [(cmdCloseDeleted, true)]) (dl_answered s) pc.

(** The next step of [CloseDeleted]: [enqueueWithReason], then the wait for the room. *)
Definition call_step (choice : bool) (s : deletion) : option deletion :=
  let now := lifecycle_of (dl_loop s) in
  match dl_call s with
  | CStart =>
      Some (if negb (bool_decide (now = stateActive)) then set_call (CRefused now QueueFull WokeDone) s
            else if done_of (dl_loop s) && (choice || negb (slot_free s))
            then set_call (CRefused now DoneClosed WokeDone) s
            else if slot_free s then queue_own (CQueued now SlotFree WokeSlot) s
            else set_call (CParked now) s)
  | CParked now0 =>
      if done_of (dl_loop s) && (choice || negb (slot_free s))
      then Some (set_call (CRefused now0 QueueFull WokeDone) s)
      else if slot_free s then Some (queue_own (CQueued now0 QueueFull WokeSlot) s)
      else None
  | CRefused now0 first later =>
      Some (set_call (CDone (mkClosing true now0 first later now choice (RoomGone _))) s)
  | CQueued now0 first later =>
      if dl_answered s && negb (done_of (dl_loop s) && choice)
      then Some (set_call (CDone (mkClosing true now0 first later now false (Answered _ tt))) s)
      else if done_of (dl_loop s)
      then Some (set_call (CDone (mkClosing true now0 first later now false (RoomGone _))) s)
      else None
  | CDone _ => None
  end.

(** Giving up: while parked, and while waiting for the room. *)
Definition deadline_step (healthy : bool) (s : deletion) : option deletion :=
  let now := lifecycle_of (dl_loop s) in
  match dl_call s with
  | CParked now0 => Some (set_call (CRefused now0 QueueFull (WokeTimeout now)) s)
  | CQueued now0 first later =>
      if healthy then None
      else Some (set_call (CDone (mkClosing true now0 first later now true (DeadlinePassed _))) s)
  | _ => None
  end.

Definition deletion_step (e : deletion_event) (s : deletion) : option deletion :=
  match e with
  | LTurn =>
      match dl_loop s, dl_queue s with
      | Serving r, (cmd, own) :: q =>
          l ← after_turn own (run_step (LCommand cmd) r); Some (set_loop l q s)
      | _, _ => None
      end
  | LOther ev =>
      match dl_loop s with
      | Serving r =>
          if is_command ev then None
          else l ← after_turn false (run_step ev r); Some (set_loop l (dl_queue s) s)
      | _ => None
      end
  | LFinish =>
      match dl_loop s with
      | Tearing r own => Some (mkDeletion (Ended r) (dl_queue s) (dl_answered s || own) (dl_call s))
      | _ => None
      end
  | LSend cmd =>
      if bool_decide (lifecycle_of (dl_loop s) = stateActive) && slot_free s
      then Some (set_loop (dl_loop s) (dl_queue s ++ [(cmd, false)]) s) else None
  | LCall choice => call_step choice s
  | LDeadline healthy => deadline_step healthy s
  end.

(** What the delivery comes to. *)
Definition delivery_of (body : bytes) (c : closing) : list delivery_effect :=
  processOne (fun _ => close_refused c) body.
End Deletion.

(** ** The turn of the command *)

Section Deleted.
Context {Y : YCore} {P : Params}.

(** Nothing was offered to either store. *)
Definition is_save (e : effect) : bool :=
  match e with ESaveCheckpoint _ _ _ | ESaveMetadata _ _ => true | _ => false end.
Definition unwritten (r r' : Room) : Prop :=
  exists new, trace r' = (new ++ trace r)%list /\ Forall (fun e => is_save e = false) new.

#[export] Instance unwritten_preorder : PreOrder unwritten.
Proof.
  split; [intros r; by exists []|].
  intros r1 r2 r3 (n1 & T1 & F1) (n2 & T2 & F2). exists (n2 ++ n1)%list.
  rewrite T2, T1, app_assoc. split; [done|by apply Forall_app].
Qed.

Lemma unwritten_log e r : is_save e = false -> unwritten r (log e r).
Proof. intros H. exists [e]. split; [done|]. by repeat constructor. Qed.

Lemma unwritten_silent r r' : trace r' = trace r -> unwritten r r'.
Proof. intros H. by exists []. Qed.

Lemma unwritten_casc F r r' : casc F r r' -> unwritten r r'.
Proof.
  intros [_ _ (new & Ht & Hf & _)]. exists new. split; [done|]. eapply Forall_impl; [exact Hf|].
  intros e He. by destruct e.
Qed.

#[export] Instance unwritten_end : EndRel unwritten.
Proof.
  split; [split; [split|..]|..]; intros; try (by apply unwritten_silent); try (by eapply unwritten_casc).
  - apply unwritten_preorder.
  - apply unwritten_log. by destruct e.
  - exists [EMetric ConnOpened]. split; [done|by repeat constructor].
  - apply unwritten_log. by destruct e.
Qed.

Definition deleted_end : SessionEnd := mkEnd CodeDocumentDeleted ScopeDocument DispositionTerminal.

(** The room [r] was left by the deletion's command: every member it still had was
    told so and closed, and nothing was written. *)
Definition deleted_cleanly (r : Room) : Prop :=
  ended r /\ exists r0, torn deleted_end r0 r /\ unwritten r0 r.

Lemma deleted_turn n r :
  fair_range -> live n r -> exists r', run_step (LCommand cmdCloseDeleted) r = Exited r' /\ deleted_cleanly r'.
Proof.
  intros Hf Hl.
  assert (H : wp (run_event (LCommand cmdCloseDeleted)) (fun go r' => go = false /\ deleted_cleanly r') (fun _ => False) r).
  { simpl. apply wp_bind, wp_bind, wp_ret, wp_bind.
    eapply wp_mono; [apply (wp_and _ _ _ _ _ _ (live_teardown Hf n deleted_end r Hl)
      (teardown_ends unwritten deleted_end r))| |by intros r' [[] _]].
    intros [] r' [[He Ht] Hu]. apply wp_ret, wp_ret. split; [done|]. split; [done|]. by exists r. }
  unfold wp in H. unfold run_step. destruct (run_event _ r) as [go r'|r'|]; [|done..]. destruct H as [-> H].
  by exists r'.
Qed.
End Deleted.

(** ** The invariant *)

Section Safe.
Context {Y : YCore} {P : Params} (Hfair : fair_range).

(** The call's observations bear on the loop: it has left service. *)
Definition gone (l : loop_phase) : Prop := lifecycle_of l <> stateActive.

Record deletion_ok (n : Z) (s : deletion) : Prop := {
  dk_loop : match dl_loop s with
            | Serving r => live n r
            | Tearing r _ | Ended r => ended r
            end;
  dk_answered : dl_answered s = true -> done_of (dl_loop s) = true;
  dk_call : match dl_call s with
            | CParked now => now = stateActive
            | CRefused now first later => enqueueCtx now first later = false
            | CQueued now first later => enqueueCtx now first later = true
            | CDone c => cl_live c = true /\ (room_done c -> gone (dl_loop s))
            | _ => True
            end }.

Lemma serving_active n l :
  match l with Serving r => live n r | Tearing r _ | Ended r => ended r end ->
  gone l <-> match l with Serving _ => False | _ => True end.
Proof.
  unfold gone, lifecycle_of. destruct l as [r|r own|r]; intros H.
  - rewrite (lv_lc _ _ H). split; [intros Hne; by apply Hne|done].
  - done.
  - by rewrite (en_lc _ H).
Qed.

Lemma after_turn_ok n own ev r l :
  live n r -> (n + 1 < 2 ^ 64)%Z -> after_turn own (run_step ev r) = Some l ->
  match l with Serving r => live (n + 1) r | Tearing r _ | Ended r => ended r end.
Proof.
  intros Hl Hn Ha. pose proof (live_run_step Hfair n r ev Hl Hn) as H.
  destruct (run_step ev r); simpl in Ha; simplify_eq; exact H.
Qed.

(** A turn leaves what the call saw true. *)
Lemma turn_deletion_ok n own ev r l q s :
  deletion_ok n s -> dl_loop s = Serving r -> (n + 1 < 2 ^ 64)%Z ->
  after_turn own (run_step ev r) = Some l -> deletion_ok (n + 1) (set_loop l q s).
Proof.
  intros [Hl Ha Hc] Hs Hn Haft. rewrite Hs in *. simpl in *.
  split; simpl; [by eapply after_turn_ok|by intros ?%Ha|].
  destruct (dl_call s) as [| | | |c]; try done. destruct Hc as [Hlive Hc]. split; [done|].
  intros Hd. destruct (proj1 (serving_active n (Serving r) Hl) (Hc Hd)).
Qed.

Lemma deletion_ok_mono n s : deletion_ok n s -> deletion_ok (n + 1) s.
Proof.
  intros [Hl Ha Hc]. split; [|done|done]. destruct (dl_loop s); [|done..]. apply (live_mono n); [lia|done].
Qed.

(** What the answers of [enqueueWithReason] come to. *)
Lemma enqueued_active first later :
  enqueueCtx stateActive first later = match first with
    | SlotFree => true | DoneClosed => false
    | QueueFull => match later with WokeSlot => true | _ => false end end.
Proof.
  by destruct first, later as [| |[]].
Qed.

Lemma enqueued_inactive now first later : now <> stateActive -> enqueueCtx now first later = false.
Proof. by destruct now. Qed.

Lemma call_step_ok n choice s s' : deletion_ok n s -> call_step choice s = Some s' -> deletion_ok n s'.
Proof.
  intros [Hl Ha Hc] Hs. unfold call_step in Hs. pose proof (serving_active n _ Hl) as Hgone.
  destruct (dl_call s) as [|now0|now0 first later|now0 first later|c] eqn:Hpc; [| | | |done].
  - injection Hs as <-. case_bool_decide as Hnow; simpl; rewrite ?Hnow.
    2: { split; [done..|]. by apply enqueued_inactive. }
    assert (Hd : done_of (dl_loop s) = false).
    { destruct (dl_loop s); try done. by destruct (proj2 Hgone I). }
    rewrite Hd. simpl. destruct (slot_free s); by split.
  - subst now0. destruct (done_of (dl_loop s) && _); [|destruct (slot_free s); [|done]]; injection Hs as <-;
      (split; try done; simpl; by rewrite enqueued_active).
  - injection Hs as <-. split; try done. simpl. split; [done|]. unfold room_done. simpl. rewrite Hc.
    intros H. exact (H eq_refl).
  - assert (Hdone : done_of (dl_loop s) = true -> gone (dl_loop s)).
    { intros Hd. apply Hgone. by destruct (dl_loop s). }
    destruct (dl_answered s && _) eqn:Hans; [|destruct (done_of (dl_loop s)) as [] eqn:Hd in Hs; [|done]]; injection Hs as <-;
      (split; [done..|]; simpl; split; [done|]; intros _; apply Hdone).
    + apply andb_true_iff in Hans as [Hans _]. by apply Ha.
    + done.
Qed.

Lemma deadline_step_ok n healthy s s' : deletion_ok n s -> deadline_step healthy s = Some s' -> deletion_ok n s'.
Proof.
  intros [Hl Ha Hc] Hs. unfold deadline_step in Hs. destruct (dl_call s) as [|now0| |now0 first later|]; try done.
  - injection Hs as <-. subst now0. split; try done. simpl. by rewrite enqueued_active.
  - destruct healthy; [done|]. injection Hs as <-. split; try done. simpl. split; [done|].
    unfold room_done. simpl. rewrite Hc. intros H. by destruct (H eq_refl).
Qed.

Lemma deletion_step_ok n e s s' :
  deletion_ok n s -> (n + 1 < 2 ^ 64)%Z -> deletion_step e s = Some s' -> deletion_ok (n + 1) s'.
Proof.
  intros Hok Hn Hs. destruct e as [|ev| |cmd|choice|healthy]; simpl in Hs.
  - destruct (dl_loop s) as [r| |] eqn:Hl; [|done..]. destruct (dl_queue s) as [|[cmd own] q]; [done|].
    destruct (after_turn own _) as [l|] eqn:Ht; [|done]. injection Hs as <-. by eapply turn_deletion_ok.
  - destruct (dl_loop s) as [r| |] eqn:Hl; [|done..]. destruct (is_command ev); [done|].
    destruct (after_turn false _) as [l|] eqn:Ht; [|done]. injection Hs as <-. by eapply turn_deletion_ok.
  - destruct (dl_loop s) as [|r own|] eqn:Hl; [done| |done]. injection Hs as <-.
    destruct Hok as [Hr Ha Hc]. rewrite Hl in *. split; simpl; [done|done|].
    destruct (dl_call s) as [| | | |c]; try done. destruct Hc as [Hlive Hc]. split; [done|]. intros _.
    by apply (serving_active n (Ended r) Hr).
  - destruct (_ && _); [|done]. injection Hs as <-. apply deletion_ok_mono. destruct Hok. by split.
  - apply deletion_ok_mono. by eapply call_step_ok.
  - apply deletion_ok_mono. by eapply deadline_step_ok.
Qed.
(** What has become of the deletion's command. *)
Record own_ok (s : deletion) : Prop := {
  ow_queue : Forall (fun x => x.2 = true -> x.1 = cmdCloseDeleted) (dl_queue s);
  ow_loop r : dl_loop s = Tearing r true -> deleted_cleanly r;
  ow_answered : dl_answered s = true -> exists r, dl_loop s = Ended r /\ deleted_cleanly r;
  ow_waiting now first later r : dl_call s = CQueued now first later -> dl_loop s = Serving r ->
    (cmdCloseDeleted, true) ∈ dl_queue s }.

(** What a step of [CloseDeleted] may do to the queue and to its own place. *)
Lemma own_ok_call s s' :
  own_ok s -> dl_loop s' = dl_loop s -> dl_answered s' = dl_answered s ->
  (dl_queue s' = dl_queue s /\ (forall now first later, dl_call s' = CQueued now first later -> dl_call s = dl_call s')
   \/ dl_queue s' = (dl_queue s ++ [(cmdCloseDeleted, true)])%list) -> own_ok s'.
Proof.
  intros [Hq Hl Ha Hw] El Ea Hc. split; rewrite ?El, ?Ea; [|done..|].
  - destruct Hc as [[-> _]| ->]; [done|]. apply Forall_app. split; [done|]. by constructor.
  - intros now first later r Hpc Hs. destruct Hc as [[-> Hsame]| ->].
    + apply (Hw now first later r); [|done]. by rewrite (Hsame now first later Hpc).
    + apply elem_of_app. right. by left.
Qed.

Lemma call_step_own choice s s' : own_ok s -> call_step choice s = Some s' -> own_ok s'.
Proof.
  intros Hok Hs. unfold call_step in Hs.
  destruct (dl_call s) eqn:Hpc; repeat case_match; try done; injection Hs as <-;
    (apply (own_ok_call s); [done..|]); simpl; first [by right|by left; split].
Qed.

Lemma deadline_step_own healthy s s' : own_ok s -> deadline_step healthy s = Some s' -> own_ok s'.
Proof.
  intros Hok Hs. unfold deadline_step in Hs.
  destruct (dl_call s) eqn:Hpc; repeat case_match; try done; injection Hs as <-;
    (apply (own_ok_call s); [done..|]); simpl; by left; split.
Qed.

Lemma deletion_step_own n e s s' :
  deletion_ok n s -> own_ok s -> deletion_step e s = Some s' -> own_ok s'.
Proof.
  intros Hok [Hq Hl Ha Hw] Hs.
  assert (Hno : forall r, dl_loop s = Serving r -> dl_answered s = true -> False).
  { intros r Hr H. destruct (Ha H) as (r' & H' & _). congruence. }
  destruct e as [|ev| |cmd|choice|healthy]; simpl in Hs.
  - destruct (dl_loop s) as [r| |] eqn:Hr; [|done..]. destruct (dl_queue s) as [|[cmd own] q] eqn:Hqs; [done|].
    destruct (after_turn own _) as [l|] eqn:Ht; [|done]. injection Hs as <-. apply Forall_cons in Hq as [Hcmd Hq].
    pose proof (dk_loop n s Hok) as Hlive. rewrite Hr in Hlive.
    assert (Hown : own = true -> exists r', l = Tearing r' true /\ deleted_cleanly r').
    { intros ->. simpl in Hcmd. destruct (deleted_turn n r Hfair Hlive) as (r' & Hrun & Hd).
      rewrite (Hcmd eq_refl), Hrun in Ht. simpl in Ht. exists r'. by simplify_eq. }
    split; simpl; [done| |by intros H; destruct (Hno r eq_refl H)|].
    + intros r' ->. destruct own.
      * destruct (Hown eq_refl) as (r2 & H & Hd). by simplify_eq.
      * destruct (run_step _ r); simplify_eq/=.
    + intros now first later r' Hpc ->. destruct own; [by destruct (Hown eq_refl) as (? & ? & _)|].
      specialize (Hw now first later r Hpc eq_refl). by apply elem_of_cons in Hw as [[= ->]|Hw].
  - destruct (dl_loop s) as [r| |] eqn:Hr; [|done..]. destruct (is_command ev); [done|].
    destruct (after_turn false _) as [l|] eqn:Ht; [|done]. injection Hs as <-.
    split; simpl; [done| |by intros H; destruct (Hno r eq_refl H)|].
    + intros r' ->. destruct (run_step _ r); simplify_eq/=.
    + intros now first later r' Hpc _. by apply (Hw now first later r).
  - destruct (dl_loop s) as [|r own|] eqn:Hr; [done| |done]. injection Hs as <-. split; simpl; [done|done| |done].
    destruct own; [|rewrite orb_false_r; intros H; by destruct (Ha H) as (? & ? & _)].
    intros _. exists r. split; [done|]. by apply Hl.
  - destruct (_ && _); [|done]. injection Hs as <-. split; simpl; [|done..|].
    + apply Forall_app. split; [done|]. by constructor.
    + intros now first later r Hpc Hr. apply elem_of_app. left. by apply (Hw now first later r).
  - eapply call_step_own; [|exact Hs]. by split.
  - eapply deadline_step_own; [|exact Hs]. by split.
Qed.
End Safe.

(** ** Properties *)

Section Properties.
Context {Y : YCore} {P : Params}.

(** The delivery has found a room in service, after [n] turns of its loop. *)
Definition found_live (n : Z) (s : deletion) : Prop :=
  (exists r, dl_loop s = Serving r /\ live n r) /\ dl_answered s = false /\ dl_call s = CStart
  /\ Forall (fun x => x.2 = false) (dl_queue s).

Lemma found_live_ok n s : found_live n s -> deletion_ok n s /\ own_ok s.
Proof.
  intros ((r & Hl & Hr) & Ha & Hc & Hq). split.
  - split; [by rewrite Hl|by rewrite Ha|by rewrite Hc].
  - split; [|by rewrite Hl|by rewrite Ha|by rewrite Hc]. eapply Forall_impl; [exact Hq|]. intros x ->. done.
Qed.

Lemma deletion_drive n evs s0 s :
  fair_range -> (0 <= n)%Z -> found_live n s0 -> drive deletion_step evs s0 = Some s ->
  (n + Z.of_nat (List.length evs) < 2 ^ 64)%Z ->
  deletion_ok (n + Z.of_nat (List.length evs)) s /\ own_ok s.
Proof.
  intros Hf Hn Hs Hd Hb.
  apply (drive_inv_below deletion_step (2 ^ 64 - n) (fun k s => deletion_ok (n + k) s /\ own_ok s) evs s0); [| |lia|done].
  - intros k ev s1 s2 H0 Hk [H1 H2] Hstep. replace (n + (k + 1))%Z with (n + k + 1)%Z by lia. split.
    + eapply deletion_step_ok; [done|exact H1|lia|exact Hstep].
    + by eapply deletion_step_own.
  - rewrite Z.add_0_r. by apply found_live_ok.
Qed.

Lemma delivery_ack body id c :
  actionable body id -> delivery_of body c = if decide (close_refused c = None) then [Ack] else [Nack true].
Proof.
  intros Ha. unfold delivery_of, processOne. rewrite (handle_actionable _ _ _ Ha).
  destruct (close_refused c); by case_decide.
Qed.


(** The steps of the loop and of the call themselves. *)
Definition own_step (e : deletion_event) : Prop :=
  match e with LTurn | LFinish | LCall _ => True | _ => False end.

Definition completes (s : deletion) : Prop := exists evs s' c,
  Forall own_step evs /\ drive deletion_step evs s = Some s' /\ dl_call s' = CDone c /\ close_refused c = None.

Lemma completes_after e s s1 : own_step e -> deletion_step e s = Some s1 -> completes s1 -> completes s.
Proof.
  intros He Hs (evs & s' & c & Hf & Hd & Hc). exists (e :: evs), s', c. split; [by constructor|]. simpl. by rewrite Hs.
Qed.

Lemma ended_completes n s now first later r :
  deletion_ok n s -> dl_loop s = Ended r -> dl_call s = CQueued now first later -> completes s.
Proof.
  intros [_ _ Hq] Hl Hc. rewrite Hc in Hq. eexists [LCall true], _, _. split; [by repeat constructor|].
  simpl. unfold call_step. rewrite Hc, Hl. simpl. rewrite andb_false_r. split; [reflexivity|].
  split; [reflexivity|]. unfold close_refused, CloseDeleted_answer. simpl. by rewrite Hq.
Qed.

Lemma tearing_completes n s now first later r own :
  deletion_ok n s -> dl_loop s = Tearing r own -> dl_call s = CQueued now first later -> completes s.
Proof.
  intros Hok Hl Hc. set (s1 := mkDeletion (Ended r) (dl_queue s) (dl_answered s || own) (dl_call s)).
  apply (completes_after LFinish s s1); [done|simpl; by rewrite Hl|].
  apply (ended_completes n s1 now first later r); [|done|done].
  destruct Hok as [Hr Ha Hq]. rewrite Hl in *. split; [done|done|]. simpl. by rewrite Hc in *.
Qed.

Lemma queued_completes q : forall n s now first later,
  fair_range -> deletion_ok n s -> own_ok s -> dl_queue s = q -> dl_call s = CQueued now first later ->
  (n + Z.of_nat (List.length q) < 2 ^ 64)%Z -> completes s.
Proof.
  induction q as [|[cmd own] q IH]; intros n s now first later Hf Hok Hown Hq Hc Hb;
    destruct (dl_loop s) as [r|r own'|r] eqn:Hl;
    try exact (tearing_completes n s now first later r own' Hok Hl Hc);
    try exact (ended_completes n s now first later r Hok Hl Hc).
  - pose proof (ow_waiting s Hown now first later r Hc Hl) as Hin. rewrite Hq in Hin. by apply elem_of_nil in Hin.
  - rewrite length_cons in Hb. assert (Hn : (n + 1 < 2 ^ 64)%Z) by lia.
    pose proof (dk_loop n s Hok) as Hlive. rewrite Hl in Hlive.
    pose proof (live_run_step Hf n r (LCommand cmd) Hlive Hn) as Hrun.
    assert (Hstep : exists l, deletion_step LTurn s = Some (set_loop l q s)).
    { simpl. rewrite Hl, Hq. destruct (run_step _ r); [by eexists..|done]. }
    destruct Hstep as [l Hstep]. apply (completes_after LTurn s (set_loop l q s)); [done|done|].
    apply (IH (n + 1)%Z _ now first later); [done| | |done|done|lia].
    + by eapply deletion_step_ok.
    + by eapply deletion_step_own.
Qed.

(** C15: a deletion goes through.  Once its command is in the room's queue, the turns of
    the loop that are already due, and nothing else, lead to an acknowledgement. *)
Theorem queued_deletion_completes (n : Z) (evs : list deletion_event) (s0 s : deletion) (body : bytes) (id : DocumentID)
    (now : roomState) (first : attempt) (later : wake) :
  fair_range -> (0 <= n)%Z -> found_live n s0 -> drive deletion_step evs s0 = Some s ->
  dl_call s = CQueued now first later -> actionable body id ->
  (n + Z.of_nat (List.length evs) + Z.of_nat (List.length (dl_queue s)) < 2 ^ 64)%Z ->
  exists more s' c, Forall own_step more /\ drive deletion_step more s = Some s'
    /\ dl_call s' = CDone c /\ delivery_of body c = [Ack].
Proof.
  intros Hf Hn Hs Hd Hc Ha Hb. destruct (deletion_drive n evs s0 s Hf Hn Hs Hd ltac:(lia)) as [Hok Hown].
  destruct (queued_completes _ _ s now first later Hf Hok Hown eq_refl Hc Hb) as (more & s' & c & H1 & H2 & H3 & H4).
  exists more, s', c. split_and!; [done..|]. by rewrite (delivery_ack body id c Ha), decide_True.
Qed.
End Properties.

(** ** A deletion *)

(** Two members, one of whom is still editing, and a queue that holds an edit. *)
Definition open_room : Room := @after healthy (session ++ [join_as 2 ModeViewer; activate_id 2])%list.
Definition before : deletion := mkDeletion (Serving open_room) [(cmdMessage 1 "02more" false, false)] false CStart.
Definition deletes (id : string) : bytes :=
  print (JObj [("pattern", JStr PatternDocumentDeleted); ("data", JObj [("id", JStr id)]); ("id", JStr "m1")]).

Definition after_events {P : Params} (evs : list deletion_event) (s : deletion) : deletion :=
  match drive deletion_step evs s with Some s' => s' | None => s end.
Definition closing_of {Y : YCore} (s : deletion) : closing :=
  match dl_call s with CDone c => c | _ => mkClosing false stateClosed SlotFree WokeDone stateClosed false (RoomGone _) end.

(** The command is queued behind the edit, the loop gets to it, and the call returns. *)
Definition queued_run : list deletion_event := [LCall false].
Definition whole_run : list deletion_event := [LCall false; LTurn; LTurn; LFinish; LCall false].

Lemma before_live : found_live (P := healthy) 5 before.
Proof.
  split; [|by split_and!; [| |repeat constructor]]. exists open_room. split; [done|].
  apply (reaches_live (P := healthy) (world_fair _ _) any_event toy_room); [by apply opened_live; split| |done].
  apply (run_trace_reaches (P := healthy) any_event (session ++ [join_as 2 ModeViewer; activate_id 2])%list);
    [apply all_any|vm_compute; reflexivity].
Qed.

Lemma doc_deleted : actionable (deletes "doc") "doc".
Proof. eexists. split; [vm_compute; reflexivity|]. by split_and!. Qed.


Lemma queued_deletion_completes_witness :
  dl_call (after_events (P := healthy) queued_run before) = CQueued stateActive SlotFree WokeSlot
  /\ exists more s' c, Forall own_step more
       /\ drive (deletion_step (P := healthy)) more (after_events (P := healthy) queued_run before) = Some s'
       /\ dl_call s' = CDone c /\ delivery_of (deletes "doc") c = [Ack].
Proof.
  split; [vm_compute; reflexivity|].
  apply (queued_deletion_completes (P := healthy) 5 queued_run before (after_events (P := healthy) queued_run before)
    (deletes "doc") "doc" stateActive SlotFree WokeSlot (world_fair _ _) ltac:(done) before_live
    ltac:(vm_compute; reflexivity) ltac:(vm_compute; reflexivity) doc_deleted ltac:(done)).
Defined.

(** A room that is shutting down is not waited for: the deletion is acknowledged while
    the final flush of that shutdown may still have to be made, and it stores content. *)
Definition shutting_down : deletion := mkDeletion (Serving open_room) [(cmdClose, false)] false CStart.

Example acknowledged_before_final_flush :
  let s := after_events (P := healthy) [LTurn; LCall false; LCall false] shutting_down in
  delivery_of (deletes "doc") (closing_of s) = [Ack]
  /\ match dl_loop s with
     | Tearing r own => own = false /\ last_saved (trace r) = Some "hello" /\ last_saved (trace open_room) = None
     | _ => False
     end.
Proof. vm_compute. split_and!; reflexivity. Qed.
