(* ===== verification/MetaRpc.v ===== *)
(** * The metadata index over RabbitMQ (adapter/outbound/metadatastore/rabbitmq)

    [Load] and [Save]: the index row over request and reply (store.go, contract.go).
    [Client]: the transport under them (conn.go), a machine whose calls register a
    waiter, publish and wait, while the supervisor of [Attach] replaces the session and
    [Close] ends it.  A call's correlation id is its number: the code draws a fresh
    UUID for each. *)

From stdpp Require Import base gmap sets list strings.
From Stdlib Require Import ZArith String Lia.
From S2P Require Import Prelude Json Control RoomState RoomBarrier FileStore.
From S2P Require Import Decode Attach.

Local Open Scope string_scope.

(** ** The contract *)

Definition PatternSave : string := "collaboration-save".
Definition PatternFetch : string := "collaboration-fetch".
Definition PatternContribution : string := "collaboration-contribution".

(** [omitempty] on a string. *)
Definition omit_empty (key v : string) : list (string * json) :=
  if String.eqb v "" then [] else [(key, JStr v)].

Definition SaveData (m : Metadata) : json :=
  JObj ([("id", JStr (m_ID m)); ("contentType", JStr (m_ContentType m)); ("version", JInt (m_Version m));
         ("contentPointer", JStr (m_ContentPointer m))]
        ++ omit_empty "authorizationPolicyId" (m_AuthorizationPolicyID m) ++ omit_empty "ownerRef" (m_OwnerRef m)).

Definition FetchData (id : DocumentID) : json := JObj [("id", JStr id)].

Definition ContributionData (id : DocumentID) (users : list string) : json :=
  JObj [("id", JStr id); ("users", JArr (map (fun u => JObj [("id", JStr u)]) users))].

Record SaveReply := mkSaveReply { sr_Success : bool; sr_Error : string }.
Definition save_shape : shape := SStruct [("success", SBool); ("error", SString)].
Definition unmarshal_save (v : json) : option SaveReply :=
  match members_of save_shape v with
  | Some kvs => Some (mkSaveReply (bool_field "success" kvs false) (string_field "error" kvs))
  | None => None
  end.

Record FetchReply := mkFetchReply {
  fr_Found : bool; fr_ContentType : string; fr_Version : Z; fr_ContentPointer : string; fr_Migrated : bool;
  fr_IsMultiUser : option bool; fr_AuthorizationPolicyID : string; fr_StorageBucketID : string;
  fr_OwnerRef : string; fr_Error : string }.
Definition fetch_shape : shape :=
  SStruct [("found", SBool); ("contentType", SString); ("version", SInt); ("contentPointer", SString);
           ("migrated", SBool); ("isMultiUser", SBool); ("authorizationPolicyId", SString);
           ("storageBucketId", SString); ("ownerRef", SString); ("error", SString)].
Definition zero_fetch : FetchReply := mkFetchReply false "" 0 "" false None "" "" "" "".
Definition unmarshal_fetch (v : json) : option FetchReply :=
  match members_of fetch_shape v with
  | Some kvs =>
      Some (mkFetchReply (bool_field "found" kvs false) (string_field "contentType" kvs)
              (int_field "version" kvs 0) (string_field "contentPointer" kvs) (bool_field "migrated" kvs false)
              (bool_ptr_field "isMultiUser" kvs None) (string_field "authorizationPolicyId" kvs)
              (string_field "storageBucketId" kvs) (string_field "ownerRef" kvs) (string_field "error" kvs))
  | None => None
  end.

(** ** Envelopes *)

Definition marshalEnvelope (pattern id : string) (data : json) : bytes :=
  print (JObj [("pattern", JStr pattern); ("data", data); ("id", JStr id)]).

Record nestReply := mkReply { nr_Response : option json; nr_Err : option json }.
Definition reply_shape : shape :=
  SStruct [("response", SRaw); ("isDisposed", SBool); ("err", SRaw); ("id", SString)].
Definition unmarshal_reply (body : bytes) : option nestReply :=
  match parse body with
  | Some v =>
      match members_of reply_shape v with
      | Some kvs => Some (mkReply (raw_field "response" kvs None) (raw_field "err" kvs None))
      | None => None
      end
  | None => None
  end.

(** What [consumeReplies] hands to the waiter for one delivery. *)
Definition malformed : nestReply := mkReply None (Some (JStr "malformed reply envelope")).
Definition reply_of (body : bytes) : nestReply := default malformed (unmarshal_reply body).
Definition channel_closed : nestReply := mkReply None (Some (JStr "rabbitmq reply channel closed")).

(** ** The store *)

Inductive rpcError := ReplyConsumerClosed | PublishFailed | RpcTimeout | ServerError | UnmarshalReply.

(** The end of [Call]: a server error, else the response read into [zero]. *)
Definition Call_reply {A} (unmarshal : json -> option A) (zero : A) (r : nestReply) : rpcError + A :=
  match nr_Err r with
  | Some JNull | None =>
      match nr_Response r with
      | None => inr zero
      | Some v => match unmarshal v with Some a => inr a | None => inl UnmarshalReply end
      end
  | Some _ => inl ServerError
  end.

Section Store.
(** What a call obtains: an error of its own or the reply its waiter was handed. *)
Context {W : Type} (transport : string -> json -> W -> (rpcError + nestReply) * W).

Definition Call {A} (pattern : string) (data : json) (unmarshal : json -> option A) (zero : A) (w : W)
    : (rpcError + A) * W :=
  let '(answer, w') := transport pattern data w in
  (match answer with inl e => inl e | inr r => Call_reply unmarshal zero r end, w').

Definition row_of (id : DocumentID) (r : FetchReply) : Metadata :=
  mkMetadata id (fr_ContentType r) (fr_Version r) (fr_ContentPointer r) (fr_Migrated r) (fr_IsMultiUser r)
    (fr_AuthorizationPolicyID r) (fr_StorageBucketID r) (fr_OwnerRef r) 0 0.

Definition known_type (ct : string) : bool :=
  String.eqb ct "" || String.eqb ct ContentTypeMemo || String.eqb ct ContentTypeWhiteboard.

Definition Load (id : DocumentID) (w : W) : load_answer * W :=
  let '(answer, w') := Call PatternFetch (FetchData id) unmarshal_fetch zero_fetch w in
  (match answer with
   | inl _ => LoadFailed
   | inr r =>
       if negb (String.eqb (fr_Error r) "") then LoadFailed
       else if negb (fr_Found r) then NotFound
       else if negb (known_type (fr_ContentType r)) then LoadFailed
       else Loaded (row_of id r)
   end, w').

Definition Save (m : Metadata) (w : W) : bool * W :=
  let '(answer, w') := Call PatternSave (SaveData m) unmarshal_save (mkSaveReply false "") w in
  (match answer with
   | inl _ => false
   | inr r => if negb (String.eqb (sr_Error r) "") then false else sr_Success r
   end, w').

(** [Contribution] over [Emit], which reports whether the broker took the event. *)
Definition Contribution (emit : string -> json -> bool) (uuid_string : ActorID -> string)
    (id : DocumentID) (actorIDs : list ActorID) : bool :=
  emit PatternContribution (ContributionData id (map uuid_string actorIDs)).

(** The store as the port the room, the manager and the resolver use. *)
#[export] Instance rabbit_store : MetadataStore W := {| ms_load := Load; ms_save := Save |}.
End Store.

(** ** The client *)

(** A call: registered under its id with the channel and the reply queue it will use,
    published on them, or returned. *)
Inductive call_pc :=
| CRegistered (ch replyQ : option nat)
| CSent (ch replyQ : option nat)
| CReturned (res : rpcError + nestReply).

(** [c_att] holds the session, [c_replyQ] the queue named in requests, [c_pending] the
    registered waiters, [c_given] what was put into each waiter's channel. *)
Record client := mkClient {
  c_att : attach;
  c_replyQ : option nat;
  c_detached : bool;
  c_pending : gset nat;
  c_calls : gmap nat call_pc;
  c_given : gmap nat nestReply }.

Definition Connect : client := mkClient connected (Some 0) false ∅ ∅ ∅.

Definition set_att (a : attach) (c : client) : client :=
  mkClient a (c_replyQ c) (c_detached c) (c_pending c) (c_calls c) (c_given c).
Definition set_detached (b : bool) (c : client) : client :=
  mkClient (c_att c) (c_replyQ c) b (c_pending c) (c_calls c) (c_given c).
Definition set_call (k : nat) (pc : call_pc) (c : client) : client :=
  mkClient (c_att c) (c_replyQ c) (c_detached c) (c_pending c) (<[k := pc]> (c_calls c)) (c_given c).

(** [adopt] on top of the supervisor's: the reply queue changes with the session and
    the client is attached again, unless it was refused. *)
Definition adopt_client (c : client) : client :=
  match a_sup (c_att c) with
  | Consuming n => mkClient (c_att c) (Some n) false (c_pending c) (c_calls c) (c_given c)
  | _ => c
  end.

(** [failAllPending] *)
Definition failAllPending (c : client) : client :=
  mkClient (c_att c) (c_replyQ c) true ∅ (c_calls c)
    (set_fold (fun k m => <[k := channel_closed]> m) (c_given c) (c_pending c)).

(** [live]: the channel, the reply queue and whether the client is detached, together. *)
Definition live (c : client) : option nat * option nat * bool := (a_live (c_att c), c_replyQ c, c_detached c).

(** The first section of [Call]. *)
Definition register (k : nat) (c : client) : client :=
  let '(ch, replyQ, detached) := live c in
  if detached then set_call k (CReturned (inl ReplyConsumerClosed)) c
  else mkClient (c_att c) (c_replyQ c) (c_detached c) ({[k]} ∪ c_pending c)
         (<[k := CRegistered ch replyQ]> (c_calls c)) (c_given c).

(** Its return, with the deferred removal of the waiter. *)
Definition return_call (k : nat) (res : rpcError + nestReply) (c : client) : client :=
  mkClient (c_att c) (c_replyQ c) (c_detached c) (c_pending c ∖ {[k]}) (<[k := CReturned res]> (c_calls c)) (c_given c).

(** [deliver] *)
Definition deliver (k : nat) (r : nestReply) (c : client) : client :=
  if decide (k ∈ c_pending c) then
    mkClient (c_att c) (c_replyQ c) (c_detached c) (c_pending c ∖ {[k]}) (c_calls c) (<[k := r]> (c_given c))
  else c.

(** [Emit] *)
Definition Emit (accepts : nat -> bool) (c : client) : bool :=
  match (live c).1.1 with Some n => accepts n | None => false end.

Inductive client_event :=
| RSup (ev : sup_event)
| RCall (k : nat)
| RPublish (k : nat) (ok : bool)
| RReply (k : nat) (body : bytes)
| RDone (k : nat)
| RTimeout (k : nat).

Definition step (ev : client_event) (c : client) : option client :=
  match ev with
  | RSup ev =>
      match sup_step false ev (c_att c) with
      | None => None
      | Some a =>
          let c1 := set_att a c in
          Some (match ev with
                | SupEnd => failAllPending c1
                | SupAdopt => adopt_client c1
                | ClChannel _ => set_detached true c1
                | _ => c1
                end)
      end
  | RCall k => match c_calls c !! k with Some _ => None | None => Some (register k c) end
  | RPublish k ok =>
      match c_calls c !! k with
      | Some (CRegistered ch q) =>
          Some (if ok : bool then set_call k (CSent ch q) c else return_call k (inl PublishFailed) c)
      | _ => None
      end
  | RReply k body =>
      match a_sup (c_att c) with Consuming _ => Some (deliver k (reply_of body) c) | _ => None end
  | RDone k =>
      match c_calls c !! k, c_given c !! k with
      | Some (CSent _ _), Some r => Some (return_call k (inr r) c)
      | _, _ => None
      end
  | RTimeout k =>
      match c_calls c !! k with
      | Some (CSent _ _) => Some (return_call k (inl RpcTimeout) c)
      | _ => None
      end
  end.

(** ** Opening a session *)

Inductive setup_call := SDial | SChannel | SDeclareReply | SDeclareServer (queue : string) | SConsume | SCloseChannel | SCloseConn.

Definition openSession (agrees : setup_call -> bool) (queue : string) : list setup_call * bool :=
  if negb (agrees SDial) then ([SDial], false)
  else if negb (agrees SChannel) then ([SDial; SChannel; SCloseConn], false)
  else if negb (agrees SDeclareReply) then ([SDial; SChannel; SDeclareReply; SCloseChannel; SCloseConn], false)
  else if negb (agrees (SDeclareServer queue))
  then ([SDial; SChannel; SDeclareReply; SDeclareServer queue; SCloseChannel; SCloseConn], false)
  else if negb (agrees SConsume)
  then ([SDial; SChannel; SDeclareReply; SDeclareServer queue; SConsume; SCloseChannel; SCloseConn], false)
  else ([SDial; SChannel; SDeclareReply; SDeclareServer queue; SConsume], true).

(** ** What the store answers *)

Section StoreFacts.
Context {W : Type} (transport : string -> json -> W -> (rpcError + nestReply) * W).

Definition no_error (r : nestReply) : Prop := nr_Err r = None \/ nr_Err r = Some JNull.

Lemma Call_reply_inv {A} (unmarshal : json -> option A) zero r a :
  Call_reply unmarshal zero r = inr a ->
  no_error r /\ ((nr_Response r = None /\ a = zero) \/ exists v, nr_Response r = Some v /\ unmarshal v = Some a).
Proof.
  unfold Call_reply, no_error. intros H.
  destruct (nr_Err r) as [[]|]; try done; (split; [auto|]);
    (destruct (nr_Response r) as [v|]; [|left; by simplify_eq]; right; exists v;
     destruct (unmarshal v); by simplify_eq).
Qed.

(** C35: the index is never answered from a failed exchange.  A row, or a save said to
    be accepted, was read from a reply that carries no error and whose response says so;
    a document is unknown only when the server's reply says it or has no response at
    all; a delivery that is no reply envelope fails the call. *)
Theorem index_answers_are_replies (id : DocumentID) (m : Metadata) (w : W) :
  (forall row, (Load transport id w).1 = Loaded row -> exists r v fr,
     (transport PatternFetch (FetchData id) w).1 = inr r /\ no_error r /\ nr_Response r = Some v
     /\ unmarshal_fetch v = Some fr /\ fr_Error fr = "" /\ fr_Found fr = true
     /\ known_type (fr_ContentType fr) = true /\ row = row_of id fr)
  /\ ((Load transport id w).1 = NotFound -> exists r,
     (transport PatternFetch (FetchData id) w).1 = inr r /\ no_error r
     /\ (nr_Response r = None \/ exists v fr, nr_Response r = Some v /\ unmarshal_fetch v = Some fr
           /\ fr_Error fr = "" /\ fr_Found fr = false))
  /\ ((Save transport m w).1 = true -> exists r v,
     (transport PatternSave (SaveData m) w).1 = inr r /\ no_error r /\ nr_Response r = Some v
     /\ unmarshal_save v = Some (mkSaveReply true ""))
  /\ (forall body, unmarshal_reply body = None ->
     (transport PatternFetch (FetchData id) w).1 = inr (reply_of body) -> (Load transport id w).1 = LoadFailed).
Proof.
  unfold Load, Save, Call. split_and!.
  - intros row. destruct (transport _ _ _) as [[e|r] w']; simpl; [done|].
    destruct (Call_reply _ _ r) as [e|fr] eqn:E; [done|]. apply Call_reply_inv in E as (Hn & [[_ ->]|(v & Hv & Hu)]); [done|].
    destruct (String.eqb_spec (fr_Error fr) ""); simpl; [|done]. destruct (fr_Found fr) eqn:Hf; simpl; [|done].
    destruct (known_type _) eqn:Ht; simpl; [|done]. intros [= <-]. exists r, v, fr. done.
  - destruct (transport _ _ _) as [[e|r] w']; simpl; [done|].
    destruct (Call_reply _ _ r) as [e|fr] eqn:E; [done|]. apply Call_reply_inv in E as (Hn & [[Hr ->]|(v & Hv & Hu)]).
    { intros _. exists r. auto. }
    destruct (String.eqb_spec (fr_Error fr) ""); simpl; [|done]. destruct (fr_Found fr) eqn:Hf; simpl.
    { by destruct (known_type _). }
    intros _. exists r. split_and!; [done|done|]. right. exists v, fr. done.
  - destruct (transport _ _ _) as [[e|r] w']; simpl; [done|].
    destruct (Call_reply _ _ r) as [e|sr] eqn:E; [done|]. apply Call_reply_inv in E as (Hn & [[_ ->]|(v & Hv & Hu)]); [done|].
    destruct sr as [su er]. simpl. destruct (String.eqb_spec er ""); simpl; [|done]. intros ->. subst er. exists r, v. done.
  - intros body Hb Ht. unfold reply_of in Ht. rewrite Hb in Ht. simpl in Ht.
    destruct (transport _ _ _) as [a w']. simpl in *. by subst a.
Qed.
End StoreFacts.

(** A server that answers every fetch with the same body. *)
Definition answering (body : bytes) (pattern : string) (data : json) (w : unit) : (rpcError + nestReply) * unit :=
  (inr (reply_of body), w).

Definition found_body : bytes :=
  print (JObj [("response", JObj [("found", JBool true); ("contentType", JStr "memo"); ("version", JInt 3);
    ("contentPointer", JStr "f1"); ("migrated", JBool true); ("isMultiUser", JNull); ("storageBucketId", JStr "b1")]);
    ("isDisposed", JBool true); ("id", JStr "x")]).

Definition found_row : Metadata := mkMetadata "d" "memo" 3 "f1" true None "" "b1" "" 0 0.

Lemma index_answers_are_replies_witness :
  (Load (answering found_body) "d" tt).1 = Loaded found_row
  /\ exists r v fr, (answering found_body PatternFetch (FetchData "d") tt).1 = inr r /\ no_error r
     /\ nr_Response r = Some v /\ unmarshal_fetch v = Some fr /\ fr_Error fr = "" /\ fr_Found fr = true
     /\ known_type (fr_ContentType fr) = true /\ found_row = row_of "d" fr.
Proof.
  assert (E : (Load (answering found_body) "d" tt).1 = Loaded found_row) by (vm_compute; reflexivity).
  split; [exact E|].
  exact (proj1 (index_answers_are_replies (answering found_body) "d" found_row tt) found_row E).
Defined.

(** An envelope without a response decodes, and reads as an unknown document. *)
Example empty_envelope_is_not_found : (Load (answering "{}") "d" tt).1 = NotFound.
Proof. vm_compute. reflexivity. Qed.

(** ** Waiters *)

(** A registered waiter belongs to a call using the session being consumed, whose
    waiter is still empty; every other call under way has been given something. *)
Record sound (c : client) : Prop := mkSound {
  s_att : attached (c_att c);
  s_live : c_detached c = false -> exists n, a_sup (c_att c) = Consuming n /\ c_replyQ c = Some n;
  s_pending : forall k, k ∈ c_pending c -> c_given c !! k = None /\ exists n, a_sup (c_att c) = Consuming n
    /\ (c_calls c !! k = Some (CRegistered (Some n) (Some n)) \/ c_calls c !! k = Some (CSent (Some n) (Some n)));
  s_waiting : forall k ch q, c_calls c !! k = Some (CRegistered ch q) \/ c_calls c !! k = Some (CSent ch q) ->
    ch = q /\ (k ∈ c_pending c \/ is_Some (c_given c !! k));
  s_given : forall k, is_Some (c_given c !! k) -> is_Some (c_calls c !! k) }.

Lemma sound_connect : sound Connect.
Proof.
  split; simpl; try done.
  - apply attached_connected.
  - intros _. by exists 0.
  - intros k ch q [H|H]; by rewrite lookup_empty in H.
  - intros k [r H]. by rewrite lookup_empty in H.
Qed.

Lemma given_failed (X : gset nat) (m : gmap nat nestReply) k :
  set_fold (fun k m => <[k := channel_closed]> m) m X !! k
  = if decide (k ∈ X) then Some channel_closed else m !! k.
Proof.
  set (f := fun (k : nat) (m : gmap nat nestReply) => <[k := channel_closed]> m).
  assert (H : (k ∈ X -> set_fold f m X !! k = Some channel_closed) /\ (k ∉ X -> set_fold f m X !! k = m !! k)).
  { apply (set_fold_ind_L (fun (m' : gmap nat nestReply) X =>
      (k ∈ X -> m' !! k = Some channel_closed) /\ (k ∉ X -> m' !! k = m !! k))); [set_solver|].
    intros x X' m' Hx [IH1 IH2]. unfold f. rewrite lookup_insert. case_decide; set_solver. }
  case_decide; by apply H.
Qed.

(** Only the end of its stream stops the supervisor consuming a session. *)
Lemma still_consuming reread ev a a' n :
  sup_step reread ev a = Some a' -> ev <> SupEnd -> a_sup a = Consuming n -> a_sup a' = Consuming n.
Proof.
  intros Hs Hne Hc. destruct ev; simpl in Hs; repeat case_match; simplify_eq; simpl; try done.
Qed.

Lemma sound_sup ev c a :
  sound c -> sup_step false ev (c_att c) = Some a -> ev <> SupEnd -> sound (set_att a c).
Proof.
  intros [] Hs Hne. split; simpl; try done.
  - by eapply sup_step_attached.
  - intros Hd. destruct (s_live0 Hd) as (n & H1 & H2). exists n. split; [by eapply still_consuming|done].
  - intros k Hk. destruct (s_pending0 k Hk) as (H1 & n & H2 & H3). split; [done|]. exists n.
    split; [by eapply still_consuming|done].
Qed.

Lemma sound_end c a : sound c -> sup_step false SupEnd (c_att c) = Some a -> sound (failAllPending (set_att a c)).
Proof.
  intros [] Hs. split; simpl; try done.
  - by eapply sup_step_attached.
  - intros k ch q Hk. destruct (s_waiting0 k ch q Hk) as [-> Hw]. split; [done|]. right. rewrite given_failed.
    case_decide; [done|]. by destruct Hw.
  - intros k. rewrite given_failed. case_decide as Hin; [|apply s_given0]. intros _.
    destruct (s_pending0 k Hin) as (_ & n & _ & [-> | ->]); eauto.
Qed.

Lemma sound_adopt c a : sound c -> sup_step false SupAdopt (c_att c) = Some a -> sound (adopt_client (set_att a c)).
Proof.
  intros S Hs. pose proof (sound_sup SupAdopt c a S Hs ltac:(done)) as S1.
  unfold adopt_client. simpl. destruct (a_sup a) as [n| | | | | |] eqn:E; try done.
  destruct S1. split; simpl in *; try done. intros _. by exists n.
Qed.

Lemma sound_return k res c : sound c -> is_Some (c_calls c !! k) -> sound (return_call k res c).
Proof.
  intros [] Hk. split; simpl; try done.
  - intros k' Hin. destruct (s_pending0 k' ltac:(set_solver)) as (H1 & n & H2 & H3). split; [done|]. exists n.
    rewrite !lookup_insert_ne by set_solver. done.
  - intros k' ch' q'. rewrite lookup_insert. case_decide; [by intros [?|?]|]. intros Hw.
    destruct (s_waiting0 k' ch' q' Hw) as [-> [|]]; (split; [done|]); [left; set_solver|by right].
  - intros k' Hg. rewrite lookup_insert. case_decide; [eauto|by apply s_given0].
Qed.

Lemma sound_register k c : sound c -> c_calls c !! k = None -> sound (register k c).
Proof.
  intros S Hk. pose proof S as []. unfold register, live.
  assert (Hng : c_given c !! k = None).
  { destruct (c_given c !! k) eqn:E; [|done]. destruct (s_given0 k ltac:(eauto)). congruence. }
  assert (Hnp : k ∉ c_pending c).
  { intros Hin. destruct (s_pending0 k Hin) as (_ & n & _ & [E|E]); congruence. }
  destruct (c_detached c) eqn:Hd; split; simpl; try done.
  - intros Hf. congruence.
  - intros k' Hk'. destruct (s_pending0 k' Hk') as (H1 & n & H2 & H3). split; [done|]. exists n.
    rewrite !lookup_insert_ne by congruence. done.
  - intros k' ch q. rewrite lookup_insert. case_decide; [by intros [?|?]|apply s_waiting0].
  - intros k' Hg. rewrite lookup_insert. case_decide; [eauto|by apply s_given0].
  - destruct (s_live0 eq_refl) as (n & H1 & H2). intros k' [->%elem_of_singleton|Hin]%elem_of_union.
    + split; [done|]. exists n. split; [done|]. left. rewrite lookup_insert_eq, H2.
      by rewrite (at_live _ s_att0 n (or_introl H1)).
    + destruct (s_pending0 k' Hin) as (G1 & m & G2 & G3). split; [done|]. exists m.
      rewrite !lookup_insert_ne by congruence. done.
  - destruct (s_live0 eq_refl) as (n & H1 & H2). intros k' ch q. rewrite lookup_insert. case_decide.
    + intros [[= <- <-]|?]; [|done]. rewrite H2, (at_live _ s_att0 n (or_introl H1)). split; [done|]. left. set_solver.
    + intros Hw. destruct (s_waiting0 k' ch q Hw) as [-> [|]]; (split; [done|]); [left; set_solver|by right].
  - intros k' Hg. rewrite lookup_insert. case_decide; [eauto|by apply s_given0].
Qed.

Lemma sound_published k ch q c :
  sound c -> c_calls c !! k = Some (CRegistered ch q) -> sound (set_call k (CSent ch q) c).
Proof.
  intros [] Hk. split; simpl; try done.
  - intros k' Hin. destruct (s_pending0 k' Hin) as (H1 & n & H2 & H3). split; [done|]. exists n. split; [done|].
    rewrite lookup_insert. case_decide; [|done]. subst k'. right. destruct H3; congruence.
  - intros k' ch' q'. rewrite lookup_insert. case_decide; [|apply s_waiting0]. subst k'.
    intros [?|[= <- <-]]; [done|]. apply s_waiting0. by left.
  - intros k' Hg. rewrite lookup_insert. case_decide; [eauto|by apply s_given0].
Qed.

Lemma sound_deliver k r c : sound c -> sound (deliver k r c).
Proof.
  intros S. unfold deliver. case_decide as Hin; [|done]. destruct S. split; simpl; try done.
  - intros k' Hin'. destruct (s_pending0 k' ltac:(set_solver)) as (H1 & H2). split; [|done].
    by rewrite lookup_insert_ne by set_solver.
  - intros k' ch q Hw. destruct (s_waiting0 k' ch q Hw) as [-> Hw']. split; [done|].
    rewrite lookup_insert. case_decide; [right; eauto|]. destruct Hw'; [left; set_solver|by right].
  - intros k'. rewrite lookup_insert. case_decide; [|apply s_given0]. subst k'. intros _.
    destruct (s_pending0 k Hin) as (_ & n' & _ & [-> | ->]); eauto.
Qed.

Lemma step_sound ev c c' : sound c -> step ev c = Some c' -> sound c'.
Proof.
  intros S Hs. destruct ev as [ev|k|k ok|k body|k|k]; simpl in Hs.
  - destruct (sup_step false ev (c_att c)) as [a|] eqn:Ha; [|done]. injection Hs as <-.
    destruct ev; try (by apply (sound_sup _ c a S Ha)).
    + by apply sound_end.
    + by apply sound_adopt.
    + destruct (sound_sup _ c a S Ha ltac:(done)). by split.
  - destruct (c_calls c !! k) eqn:Hk; [done|]. injection Hs as <-. by apply sound_register.
  - destruct (c_calls c !! k) as [[ch q| |]|] eqn:Hk; try done. injection Hs as <-.
    destruct ok; [by apply sound_published|apply sound_return; eauto].
  - destruct (a_sup (c_att c)) eqn:Ha; try done. injection Hs as <-. by apply sound_deliver.
  - destruct (c_calls c !! k) as [[|ch q|]|] eqn:Hk; try done. destruct (c_given c !! k); [|done].
    injection Hs as <-. apply sound_return; [done|]. by rewrite Hk.
  - destruct (c_calls c !! k) as [[|ch q|]|] eqn:Hk; try done. injection Hs as <-. apply sound_return; [done|]. by rewrite Hk.
Qed.

Lemma drive_sound evs c c' : sound c -> drive step evs c = Some c' -> sound c'.
Proof. intros S. apply drive_inv; [|done]. intros ev c1 c2. apply step_sound. Qed.

(** What a waiter was given stays. *)
Lemma step_given ev c c' k r : sound c -> step ev c = Some c' -> c_given c !! k = Some r -> c_given c' !! k = Some r.
Proof.
  intros S Hs Hg. destruct ev as [ev|k0|k0 ok|k0 body|k0|k0]; simpl in Hs.
  - destruct (sup_step _ _ _) as [a|]; [|done]. injection Hs as <-. destruct ev; try done.
    + unfold failAllPending. simpl. rewrite given_failed. case_decide as Hin; [|done].
      destruct (s_pending c S k Hin) as [E _]. congruence.
    + unfold adopt_client. by case_match.
  - destruct (c_calls c !! k0); [done|]. injection Hs as <-. unfold register, live. by case_match.
  - destruct (c_calls c !! k0) as [[]|]; try done. injection Hs as <-. by destruct ok.
  - destruct (a_sup _); try done. injection Hs as <-. unfold deliver. case_decide as Hin; [|done]. simpl.
    destruct (decide (k0 = k)) as [->|]; [|by rewrite lookup_insert_ne].
    destruct (s_pending c S k Hin) as [E _]. congruence.
  - destruct (c_calls c !! k0) as [[]|]; try done. destruct (c_given c !! k0); [|done]. by injection Hs as <-.
  - destruct (c_calls c !! k0) as [[]|]; try done. by injection Hs as <-.
Qed.

(** C21: a reply reaches the call that asked for it, once.  Whatever the interleaving
    of calls, replies, broker drops, re-attachments and shutdown: a waiter that is still
    registered is empty, so handing it a reply never blocks; the reply goes to it and to
    no other call; a reply to a call that is no longer registered is dropped; and what a
    waiter was given never changes. *)
Theorem reply_reaches_its_call_once (evs : list client_event) (c c' : client) (k : nat) (body : bytes) :
  drive step evs Connect = Some c -> step (RReply k body) c = Some c' ->
  (k ∈ c_pending c -> c_given c !! k = None /\ c_given c' !! k = Some (reply_of body) /\ k ∉ c_pending c')
  /\ (k ∉ c_pending c -> c' = c)
  /\ (forall k', k' <> k -> c_given c' !! k' = c_given c !! k' /\ (k' ∈ c_pending c' <-> k' ∈ c_pending c))
  /\ c_calls c' = c_calls c
  /\ (forall evs' c2 k' r, drive step evs' c' = Some c2 -> c_given c' !! k' = Some r -> c_given c2 !! k' = Some r).
Proof.
  intros Hd Hs. pose proof (drive_sound evs Connect c sound_connect Hd) as S.
  pose proof (step_sound _ _ _ S Hs) as S'.
  assert (Hlast : forall evs' c2 k' r, drive step evs' c' = Some c2 -> c_given c' !! k' = Some r -> c_given c2 !! k' = Some r).
  { intros evs' c2 k' r H Hg.
    apply (drive_inv step (fun c => sound c /\ c_given c !! k' = Some r) evs' c' c2); [|done|done].
    intros ev c3 c4 [S3 H3] H4. split; [by eapply step_sound|by eapply step_given]. }
  simpl in Hs. destruct (a_sup (c_att c)); try done. injection Hs as <-. unfold deliver in *.
  destruct (decide (k ∈ c_pending c)) as [Hin|Hin]; simpl in *.
  - split_and!; try done.
    + intros _. split_and!; [by apply (s_pending c S)|by rewrite lookup_insert_eq|set_solver].
    + intros k' Hne. rewrite lookup_insert_ne by done. split; [done|set_solver].
  - by split_and!.
Qed.

(** C26: no call waits in vain.  A call that has published and been given nothing yet
    published on the session whose replies are being consumed now and named that
    session's own reply queue; should the stream end, every such call is told at once,
    and from then until the next session is adopted a new call fails immediately. *)
Theorem no_call_waits_in_vain (evs : list client_event) (c : client) (k : nat) (ch q : option nat) :
  drive step evs Connect = Some c -> c_calls c !! k = Some (CSent ch q) -> c_given c !! k = None ->
  exists n, ch = Some n /\ q = Some n /\ a_sup (c_att c) = Consuming n /\ k ∈ c_pending c
    /\ exists c', step (RSup SupEnd) c = Some c' /\ c_given c' !! k = Some channel_closed
       /\ (forall k', c_calls c' !! k' = None ->
             exists c2, step (RCall k') c' = Some c2 /\ c_calls c2 !! k' = Some (CReturned (inl ReplyConsumerClosed))).
Proof.
  intros Hd Hk Hg. pose proof (drive_sound evs Connect c sound_connect Hd) as S.
  destruct (s_waiting c S k ch q (or_intror Hk)) as [-> [Hin|[r Hr]]]; [|congruence].
  destruct (s_pending c S k Hin) as (_ & n & Hc & [E|E]); rewrite Hk in E; [done|]. injection E as ->.
  exists n. split_and!; try done. unfold step, sup_step. rewrite Hc. eexists. split_and!; [reflexivity|..].
  - unfold failAllPending. simpl. rewrite given_failed. by rewrite decide_True.
  - intros k' Hk'. rewrite Hk'. eexists. split; [reflexivity|]. simpl. by rewrite lookup_insert_eq.
Qed.

(** A call is answered on the second session, after the first one dropped. *)
Definition sample : list client_event :=
  [RCall 0; RPublish 0 true; RSup SupEnd; RDone 0; RCall 1; RSup SupRelease; RSup SupTick; RSup (SupOpened true);
   RSup SupAdopt; RCall 2; RPublish 2 true].
Definition after_sample : client := default Connect (drive step sample Connect).

Lemma no_call_waits_in_vain_witness :
  c_calls after_sample !! 0 = Some (CReturned (inr channel_closed))
  /\ c_calls after_sample !! 1 = Some (CReturned (inl ReplyConsumerClosed))
  /\ a_sup (c_att after_sample) = Consuming 1.
Proof.
  assert (E : drive step sample Connect = Some after_sample) by (vm_compute; reflexivity).
  split_and!; [vm_compute; reflexivity..|].
  destruct (no_call_waits_in_vain sample after_sample 2 (Some 1) (Some 1) E
    ltac:(vm_compute; reflexivity) ltac:(vm_compute; reflexivity)) as (n & H1 & _ & H2 & _).
  injection H1 as <-. exact H2.
Defined.

Lemma reply_reaches_its_call_once_witness :
  exists c', step (RReply 2 found_body) after_sample = Some c'
    /\ c_given c' !! 2 = Some (reply_of found_body).
Proof.
  assert (E : drive step sample Connect = Some after_sample) by (vm_compute; reflexivity).
  exists (deliver 2 (reply_of found_body) after_sample).
  assert (E' : step (RReply 2 found_body) after_sample = Some (deliver 2 (reply_of found_body) after_sample)) by (vm_compute; reflexivity).
  assert (Hin : 2 ∈ c_pending after_sample) by (apply (bool_decide_eq_true_1 _); vm_compute; reflexivity).
  split; [exact E'|].
  exact (proj1 (proj2 (proj1 (reply_reaches_its_call_once sample after_sample _ 2 found_body E E') Hin))).
Defined.

(** Setting a session up gives back whatever it got when it fails. *)
Lemma openSession_gives_back agrees queue :
  let '(calls, ok) := openSession agrees queue in
  if ok : bool then calls = [SDial; SChannel; SDeclareReply; SDeclareServer queue; SConsume]
                    /\ Forall (fun x => agrees x = true) calls
  else (agrees SDial = true -> last calls = Some SCloseConn)
       /\ (agrees SDial = true -> agrees SChannel = true -> SCloseChannel ∈ calls).
Proof.
  unfold openSession. destruct (agrees SDial) eqn:H1; simpl; [|split; congruence].
  destruct (agrees SChannel) eqn:H2; simpl; [|split; [done|congruence]].
  destruct (agrees SDeclareReply) eqn:H3; simpl; [|split; [done|set_solver]].
  destruct (agrees (SDeclareServer queue)) eqn:H4; simpl; [|split; [done|set_solver]].
  destruct (agrees SConsume) eqn:H5; simpl; [|split; [done|set_solver]].
  split; [done|]. by repeat constructor.
Qed.
