(* ===== verification/Auth.v ===== *)
(** * Handshake identity and per-document authorization (outbound/auth)

    The header and open adapters, and authzeval's [Evaluate] and [doEvaluate].  The
    authorization service is [post], the circuit breaker [execute] (a third-party
    library: it answers what the guarded call answered, or an error of its own),
    [parse_uuid] and [uuid_string] are the uuid library's. *)

From stdpp Require Import base list strings.
From Stdlib Require Import ZArith NArith Ascii String Lia.
From S2P Require Import Prelude Utf8 Json Control RoomState RoomBarrier FileStore Decode.

Local Open Scope string_scope.

(** ** Decoding the answer of the service *)

Definition evaluateResponse : shape :=
  SStruct [("allowed", SBool); ("reason", SString);
           ("error", SStruct [("code", SString); ("dependency", SString); ("retryAfterMs", SInt)])].

Definition unmarshal_decision (body : bytes) : option AuthDecision :=
  match parse body with
  | Some v =>
      if fits v evaluateResponse then
        match v with
        | JObj kvs =>
            match decode_string_field "reason" kvs "" with
            | Some reason => Some (mkDecision (bool_field "allowed" kvs false) reason)
            | None => None
            end
        | _ => Some (mkDecision false "")
        end
      else None
  | None => None
  end.

(** ** authzeval *)

Record evaluateRequest := mkEvaluate { ev_actor : string; ev_privilege : string; ev_policy : string }.

(** Its JSON, the body of the POST. *)
Definition evaluate_payload (r : evaluateRequest) : bytes :=
  print (JObj [("actorId", JStr (ev_actor r)); ("privilege", JStr (ev_privilege r));
               ("authorizationPolicyId", JStr (ev_policy r))]).

Inductive evalError :=
| NoResolver | PolicyUnresolved | NoPolicy | RequestFailed | ServiceUnavailable | ServiceError (status : Z)
| BadAnswer | BreakerOpen.

(** [strings.TrimRight] of a slash, on the service's address. *)
Fixpoint trim_slashes (s : string) : string :=
  match s with
  | "" => ""
  | String c s' => let t := trim_slashes s' in if String.eqb t "" && Ascii.eqb c "/" then "" else String c t
  end.

(** What [New] gives the circuit breaker: consecutive failures that trip it, how long it
    stays open, how many probes it lets through (a [uint32]). *)
Record breakerSettings := mkBreaker { br_failures : Z; br_timeout : Z; br_halfOpen : Z }.
Definition breaker_settings (failures timeout halfOpen : Z) : breakerSettings :=
  mkBreaker (if (failures <=? 0)%Z then 3%Z else failures) (if (timeout <=? 0)%Z then (15 * second)%Z else timeout)
    ((if (halfOpen <=? 0)%Z then 2%Z else halfOpen) mod 2 ^ 32).
Definition ReadyToTrip (b : breakerSettings) (consecutiveFailures : Z) : bool := (br_failures b <=? consecutiveFailures)%Z.

(** What the policy resolver answers. *)
Inductive policy_answer := PolicyFound (id : string) | PolicyNotFound | PolicyFailed.

Definition privilege_string (p : Privilege) : string :=
  match p with PrivilegeRead => "read" | PrivilegeUpdateContent => "update-content" end.

Definition maxBody : Z := Z.shiftl 64 10.

(** [io.ReadAll] of an [io.LimitReader]. *)
Definition limited (n : Z) (body : bytes) : bytes :=
  if (blen body <=? n)%Z then body else Utf8.take (Z.to_nat n) body.

Section Evaluate.
Context (uuid_string : ActorID -> string) (post : evaluateRequest -> response bytes)
  (execute : evalError + AuthDecision -> evalError + AuthDecision).

Definition ActorIDString (i : Identity) : string :=
  match actorID i with Some id => uuid_string id | None => "" end.

Definition doEvaluate (req : evaluateRequest) : evalError + AuthDecision :=
  match post req with
  | NoResponse => inl RequestFailed
  | Response status body =>
      if (status =? 503)%Z then inl ServiceUnavailable
      else if negb (status =? 200)%Z then inl (ServiceError status)
      else match unmarshal_decision (limited maxBody body) with
           | Some d => inr d
           | None => inl BadAnswer
           end
  end.

(** [resolver] is [None] when none is configured. *)
Definition Evaluate (resolver : option policy_answer) (i : Identity) (p : Privilege) : evalError + AuthDecision :=
  match resolver with
  | None => inl NoResolver
  | Some PolicyNotFound => inr (mkDecision false "")
  | Some PolicyFailed => inl PolicyUnresolved
  | Some (PolicyFound policy) =>
      if String.eqb policy "" then inl NoPolicy
      else execute (doEvaluate (mkEvaluate (ActorIDString i) (privilege_string p) policy))
  end.

(** Authorization fails closed.  A grant is given only when the service itself
    answered 200 with [allowed] true for this actor, this privilege and the policy of
    this document; a clean denial only when it answered 200 otherwise, or the document
    does not exist; whatever else happened is an error, which a join never takes for
    an answer. *)
Theorem authorization_fails_closed (resolver : option policy_answer) (i : Identity) (p : Privilege)
    (d : AuthDecision) :
  (forall r, execute r = r \/ exists e, execute r = inl e) ->
  Evaluate resolver i p = inr d ->
  (resolver = Some PolicyNotFound /\ Allowed d = false)
  \/ exists policy body,
       resolver = Some (PolicyFound policy) /\ policy <> ""
       /\ post (mkEvaluate (ActorIDString i) (privilege_string p) policy) = Response 200 body
       /\ unmarshal_decision (limited maxBody body) = Some d.
Proof.
  intros Hex. unfold Evaluate. destruct resolver as [[policy| |]|]; try done.
  - destruct (String.eqb_spec policy ""); [done|].
    destruct (Hex (doEvaluate (mkEvaluate (ActorIDString i) (privilege_string p) policy))) as [->|[e ->]]; [|done].
    unfold doEvaluate. destruct (post _) as [|st body] eqn:Hp; [done|].
    destruct (Z.eqb_spec st 503); [done|]. destruct (Z.eqb_spec st 200) as [->|]; [|done]. simpl.
    destruct (unmarshal_decision _) eqn:Hu; [|done]. intros [= <-]. right. exists policy, body. done.
  - intros [= <-]. by left.
Qed.
End Evaluate.

(** ** Handshake adapters *)

Section Handshake.
Context (parse_uuid : string -> option ActorID).

Definition IdentityFromActorID (raw : string) : option Identity :=
  match parse_uuid raw with Some id => Some (mkIdentity (Some id)) | None => None end.

Definition header_Authenticate (credential : string) : option Identity :=
  if String.eqb credential "" then None else IdentityFromActorID credential.

Definition open_Authenticate (credential : string) : option Identity := Some (mkIdentity None).
Definition open_Evaluate (i : Identity) (id : DocumentID) (p : Privilege) : option AuthDecision :=
  Some (mkDecision true "open mode").
End Handshake.

Definition allow_answer : bytes :=
  "{" ++ quote ++ "allowed" ++ quote ++ ":true," ++ quote ++ "reason" ++ quote ++ ":" ++ quote ++ "owner" ++ quote ++ "}".

Example allow_decoded : unmarshal_decision allow_answer = Some (mkDecision true "owner").
Proof. vm_compute. reflexivity. Qed.

Example denials :
  map unmarshal_decision ["{}"; "null"; "[]"; "{" ++ quote ++ "Allowed" ++ quote ++ ":1}"; "{" ++ quote ++ "ALLOWED" ++ quote ++ ":true}"]
  = [Some (mkDecision false ""); Some (mkDecision false ""); None; None; Some (mkDecision true "")].
Proof. vm_compute. reflexivity. Qed.

Definition answering (req : evaluateRequest) : response bytes :=
  if String.eqb (ev_policy req) "pol" then Response 200 allow_answer else Response 503 "".

Lemma authorization_fails_closed_witness :
  Evaluate (fun _ => "u") answering id (Some (PolicyFound "pol")) (mkIdentity (Some 1%N)) PrivilegeRead
    = inr (mkDecision true "owner")
  /\ (Some (PolicyFound "pol") = Some PolicyNotFound /\ Allowed (mkDecision true "owner") = false
      \/ exists policy body,
       Some (PolicyFound "pol") = Some (PolicyFound policy) /\ policy <> ""
       /\ answering (mkEvaluate (ActorIDString (fun _ => "u") (mkIdentity (Some 1%N)))
            (privilege_string PrivilegeRead) policy) = Response 200 body
       /\ unmarshal_decision (limited maxBody body) = Some (mkDecision true "owner")).
Proof.
  split; [vm_compute; reflexivity|].
  apply (authorization_fails_closed (fun _ => "u") answering id (Some (PolicyFound "pol"))
    (mkIdentity (Some 1%N)) PrivilegeRead (mkDecision true "owner")).
  - intros r. by left.
  - vm_compute. reflexivity.
Defined.
