(* ===== verification/HubWire.v ===== *)
(** * The Redis hub: frames and delivery (adapter/outbound/hub/redis/hub.go)

    [encode] and [decode]: the frame a hub puts on the wire.  [Publish], [deliver]
    and [dispatchRemote]: which local subscribers a message reaches, on the pod that
    publishes it and on the others.  [awaitSubscribed]: the handshake before a
    subscription counts.  Who is subscribed when is [Hub].

    What the outside does is the class [HubEnv]: what a handler answers, in which
    order Go ranges over a map, whether Redis accepts a message. *)

From stdpp Require Import base gmap sets list strings.
From Stdlib Require Import ZArith NArith String Ascii Lia.
From S2P Require Import Prelude Utf8 Control.

Local Open Scope string_scope.

(** ** Frames *)

Definition maxIDLen : Z := 65536.

(** [encoding/binary]'s big-endian 32-bit integers. *)
Definition byte_of (z : Z) : ascii := ascii_of_N (Z.to_N (z mod 256)).
Definition byte_val (a : ascii) : Z := Z.of_N (N_of_ascii a).
Definition PutUint32 (v : Z) : bytes :=
  String (byte_of (v / 2 ^ 24)) (String (byte_of (v / 2 ^ 16))
    (String (byte_of (v / 2 ^ 8)) (String (byte_of v) ""))).
Definition Uint32 (b : bytes) : Z :=
  match b with
  | String b0 (String b1 (String b2 (String b3 _))) =>
      byte_val b0 * 2 ^ 24 + byte_val b1 * 2 ^ 16 + byte_val b2 * 2 ^ 8 + byte_val b3
  | _ => 0
  end.

Definition clamp_id (id : bytes) : bytes :=
  if (maxIDLen <? blen id)%Z then take (Z.to_nat maxIDLen) id else id.

Definition encode (instance source payload : bytes) : bytes :=
  let instance := clamp_id instance in
  let source := clamp_id source in
  PutUint32 (blen instance mod 2 ^ 32) ++ instance
  ++ PutUint32 (blen source mod 2 ^ 32) ++ source ++ payload.

Definition decode (frame : bytes) : option (bytes * bytes * bytes) :=
  if (blen frame <? 4)%Z then None else
  let instLen := Uint32 frame in
  if (instLen <? 0)%Z || (blen frame <? 4 + instLen + 4)%Z then None else
  let instance := take (Z.to_nat instLen) (drop 4 frame) in
  let rest := drop (4 + Z.to_nat instLen) frame in
  let srcLen := Uint32 rest in
  if (srcLen <? 0)%Z || (blen rest <? 4 + srcLen)%Z then None else
  Some (instance, take (Z.to_nat srcLen) (drop 4 rest), drop (4 + Z.to_nat srcLen) rest).

(** ** Channels and messages *)

Inductive MessageKind := DocumentUpdate | AwarenessUpdate | OtherKind (k : Z).
#[export] Instance MessageKind_eq_dec : EqDecision MessageKind.
Proof. solve_decision. Defined.

Record Message := mkMessage {
  msg_DocumentID : DocumentID;
  msg_SourceID : string;
  msg_Kind : MessageKind;
  msg_Payload : bytes }.

Definition documentChannelPrefix : string := "doc:".
Definition awarenessChannelPrefix : string := "awareness:".

Definition channelFor (doc : DocumentID) (kind : MessageKind) : string :=
  match kind with
  | AwarenessUpdate => awarenessChannelPrefix ++ doc
  | _ => documentChannelPrefix ++ doc
  end.

(** The channels of one document's Redis subscription. *)
Definition pump_channels (doc : DocumentID) : list string :=
  [documentChannelPrefix ++ doc; awarenessChannelPrefix ++ doc].

Definition kind_of_channel (channel : string) : MessageKind :=
  if String.prefix awarenessChannelPrefix channel then AwarenessUpdate else DocumentUpdate.

(** A message as go-redis hands it over. *)
Record redisMessage := mkRedisMessage { rm_Channel : string; rm_Payload : bytes }.

(** ** Delivery *)

Record subscription := mkSub { sub_doc : DocumentID; sub_id : Z; sub_source : string }.
#[export] Instance subscription_eq_dec : EqDecision subscription.
Proof. solve_decision. Defined.

(** A handler call: who was handed what. *)
Abbreviation call := (subscription * Message)%type (only parsing).

Class HubEnv := {
  fn : list call -> subscription -> Message -> option string;
  range : list call -> gmap Z subscription -> list subscription;
  range_perm : forall h m, range h m ≡ₚ (map_to_list m).*2;
  redis_accepts : list call -> string -> bytes -> bool }.

Inductive hubError := ErrContext | ErrInvalidMessage | ErrClosed | ErrHandler (e : string) | ErrRedis.

(** What [Publish] did: the handler calls so far, what it gave to Redis, its error. *)
Record published := mkPublished {
  pub_calls : list call;
  pub_sent : option (string * bytes);
  pub_err : option hubError }.

Abbreviation registry := (gmap DocumentID (gmap Z subscription)) (only parsing).
Definition subscribers (subs : registry) (doc : DocumentID) : gmap Z subscription :=
  default ∅ (subs !! doc).

Section Delivery.
Context `{HubEnv}.

(** The subscribers of [doc] other than the sender, as the range visits them. *)
Definition targets (h : list call) (subs : registry) (doc : DocumentID) (source : string) : list subscription :=
  List.filter (fun s => negb (String.eqb (sub_source s) source)) (range h (subscribers subs doc)).

Fixpoint deliver (h : list call) (first : option string) (ts : list subscription) (msg : Message)
    : list call * option string :=
  match ts with
  | [] => (h, first)
  | s :: ts' =>
      let err := fn h s msg in
      deliver (h ++ [(s, msg)])%list (match first with None => err | Some _ => first end) ts' msg
  end.

Definition publishable (msg : Message) : bool :=
  negb (String.eqb (msg_DocumentID msg) "")
  && match msg_Kind msg with OtherKind _ => false | _ => true end.

Definition Publish (instance : string) (is_closed : bool) (subs : registry) (ctx_err : bool)
    (h : list call) (msg : Message) : published :=
  if ctx_err then mkPublished h None (Some ErrContext)
  else if negb (publishable msg) then mkPublished h None (Some ErrInvalidMessage)
  else if is_closed then mkPublished h None (Some ErrClosed)
  else
    let '(h', localErr) := deliver h None (targets h subs (msg_DocumentID msg) (msg_SourceID msg)) msg in
    let channel := channelFor (msg_DocumentID msg) (msg_Kind msg) in
    let frame := encode instance (msg_SourceID msg) (msg_Payload msg) in
    mkPublished h' (Some (channel, frame))
      (match localErr with
       | Some e => Some (ErrHandler e)
       | None => if redis_accepts h' channel frame then None else Some ErrRedis
       end).

Definition dispatchRemote (instance : string) (subs : registry) (h : list call) (doc : DocumentID)
    (m : redisMessage) : list call :=
  match decode (rm_Payload m) with
  | None => h
  | Some (from, source, payload) =>
      if String.eqb from instance then h
      else (deliver h None (targets h subs doc source)
              (mkMessage doc source (kind_of_channel (rm_Channel m)) payload)).1
  end.
End Delivery.

(** ** The handshake of a subscription *)

(** What [ReceiveTimeout] returns; [RError] includes the deadline. *)
Inductive received :=
| RSubscription
| RMessage (m : redisMessage)
| RPong
| RUnexpected
| RError.

Inductive awaited :=
| Confirmed (early : list redisMessage) (rest : list received)
| Refused
| StillWaiting.

(** The loop of [awaitSubscribed] with [confirmed] of [want] read so far. *)
Fixpoint awaitSubscribed (early : list redisMessage) (confirmed want : nat) (replies : list received)
    : awaited :=
  if (want <=? confirmed)%nat then Confirmed early replies
  else match replies with
       | [] => StillWaiting
       | RSubscription :: rs => awaitSubscribed early (S confirmed) want rs
       | RMessage m :: rs => awaitSubscribed (early ++ [m])%list confirmed want rs
       | RPong :: rs => awaitSubscribed early confirmed want rs
       | RUnexpected :: _ | RError :: _ => Refused
       end.

(** The data messages of a stream, in order. *)
Fixpoint data (rs : list received) : list redisMessage :=
  match rs with
  | [] => []
  | RMessage m :: rs' => m :: data rs'
  | _ :: rs' => data rs'
  end.

(** What the goroutine of a started pump dispatches, in order: the early messages,
    then what [Channel] yields of the rest of the stream. *)
Definition startPump (doc : DocumentID) (replies : list received) : option (list redisMessage) :=
  match awaitSubscribed [] 0 (List.length (pump_channels doc)) replies with
  | Confirmed early rest => Some (early ++ data rest)%list
  | _ => None
  end.

(** ** Facts about the length fields *)

#[local] Arguments String.append !s1 s2 /.

Lemma byte_val_of z : byte_val (byte_of z) = (z mod 256)%Z.
Proof.
  unfold byte_val, byte_of. pose proof (Z.mod_pos_bound z 256).
  rewrite N_ascii_embedding; lia.
Qed.

Lemma byte_of_val a : byte_of (byte_val a) = a.
Proof.
  unfold byte_val, byte_of. pose proof (N_ascii_bounded a).
  rewrite Z.mod_small, N2Z.id by lia. apply ascii_N_embedding.
Qed.

Lemma byte_val_range a : (0 <= byte_val a < 256)%Z.
Proof. unfold byte_val. pose proof (N_ascii_bounded a). lia. Qed.

Lemma Uint32_Put v rest : (0 <= v < 2 ^ 32)%Z -> Uint32 (PutUint32 v ++ rest) = v.
Proof.
  intros Hv. simpl. rewrite !byte_val_of. Z.to_euclidean_division_equations. lia.
Qed.

Lemma Uint32_range b : (0 <= Uint32 b < 2 ^ 32)%Z.
Proof.
  destruct b as [|b0 [|b1 [|b2 [|b3 b]]]]; simpl; try lia.
  pose proof (byte_val_range b0). pose proof (byte_val_range b1).
  pose proof (byte_val_range b2). pose proof (byte_val_range b3). lia.
Qed.

Lemma byte_of_sum q a : (0 <= byte_val a < 256)%Z -> byte_of (256 * q + byte_val a) = a.
Proof.
  intros Ha. unfold byte_of. rewrite Z.add_comm, Z.mul_comm, Z_mod_plus_full.
  fold (byte_of (byte_val a)). apply byte_of_val.
Qed.

Lemma Put_Uint32 b : (4 <= blen b)%Z -> PutUint32 (Uint32 b) ++ drop 4 b = b.
Proof.
  unfold blen. destruct b as [|b0 [|b1 [|b2 [|b3 b]]]]; simpl; try lia. intros _.
  pose proof (byte_val_range b0). pose proof (byte_val_range b1).
  pose proof (byte_val_range b2). pose proof (byte_val_range b3).
  unfold PutUint32. simpl.
  repeat f_equal.
  - rewrite <- (byte_of_val b0) at 2. f_equal. Z.to_euclidean_division_equations. lia.
  - rewrite <- (byte_of_sum (byte_val b0) b1) at 2 by done. f_equal. Z.to_euclidean_division_equations. lia.
  - rewrite <- (byte_of_sum (byte_val b0 * 256 + byte_val b1) b2) at 2 by done. f_equal.
    Z.to_euclidean_division_equations. lia.
  - rewrite <- (byte_of_sum (byte_val b0 * 2 ^ 16 + byte_val b1 * 256 + byte_val b2) b3) at 2 by done.
    f_equal. lia.
Qed.

Lemma length_Put v : blen (PutUint32 v) = 4%Z.
Proof. done. Qed.

Lemma prefix_app_l a b : String.prefix a (a ++ b) = true.
Proof.
  induction a as [|c a IH]; simpl; [by destruct b|]. destruct (ascii_dec c c); [done|congruence].
Qed.

(** ** The codec *)

Lemma clamp_id_le id : (blen (clamp_id id) <= maxIDLen)%Z.
Proof.
  unfold clamp_id. destruct (Z.ltb_spec maxIDLen (blen id)); [|done].
  unfold blen in *. pose proof (length_take_le (Z.to_nat maxIDLen) id). unfold maxIDLen in *. lia.
Qed.

Lemma clamp_id_small id : (blen id <= maxIDLen)%Z -> clamp_id id = id.
Proof. intros H. unfold clamp_id. destruct (Z.ltb_spec maxIDLen (blen id)); [lia|done]. Qed.

(** A length-prefixed field in front of anything. *)
Definition field (id : bytes) : bytes := PutUint32 (blen id) ++ id.

Lemma encode_fields i s p : encode i s p = field (clamp_id i) ++ field (clamp_id s) ++ p.
Proof.
  unfold encode, field. pose proof (clamp_id_le i). pose proof (clamp_id_le s).
  pose proof (blen_nonneg (clamp_id i)). pose proof (blen_nonneg (clamp_id s)). unfold maxIDLen in *.
  rewrite !Z.mod_small by lia. by rewrite !string_app_assoc.
Qed.

Lemma decode_fields i s p :
  (blen i < 2 ^ 32)%Z -> (blen s < 2 ^ 32)%Z -> decode (field i ++ field s ++ p) = Some (i, s, p).
Proof.
  intros Hi Hs. unfold decode, field.
  pose proof (blen_nonneg i). pose proof (blen_nonneg s). pose proof (blen_nonneg p).
  rewrite !string_app_assoc. rewrite Uint32_Put by lia. rewrite !blen_app, !length_Put.
  destruct (Z.ltb_spec (4 + (blen i + (4 + (blen s + blen p)))) 4); [lia|].
  destruct (Z.ltb_spec (blen i) 0); [lia|].
  destruct (Z.ltb_spec (4 + (blen i + (4 + (blen s + blen p)))) (4 + blen i + 4)); [lia|].
  cbn [orb]. rewrite blen_to_nat. change (drop 4 (PutUint32 (blen i) ++ ?x)) with x. cbn [Nat.add].
  change (drop (S (S (S (S ?n)))) (PutUint32 (blen i) ++ ?x)) with (drop n x).
  rewrite string_take_app, string_drop_app, Uint32_Put, !blen_app, !length_Put by lia.
  destruct (Z.ltb_spec (blen s) 0); [lia|].
  destruct (Z.ltb_spec (4 + (blen s + blen p)) (4 + blen s)); [lia|]. cbn [orb].
  rewrite blen_to_nat. change (drop 4 (PutUint32 (blen s) ++ ?x)) with x.
  change (drop (S (S (S (S ?n)))) (PutUint32 (blen s) ++ ?x)) with (drop n x).
  by rewrite string_take_app, string_drop_app.
Qed.

Lemma decode_unique f i s p : decode f = Some (i, s, p) -> f = field i ++ field s ++ p.
Proof.
  unfold decode. pose proof (Uint32_range f) as Hr.
  destruct (Z.ltb_spec (blen f) 4) as [|H4]; [done|].
  destruct (Z.ltb_spec (Uint32 f) 0) as [|H0]; [done|].
  destruct (Z.ltb_spec (blen f) (4 + Uint32 f + 4)) as [|Hl]; [done|]. cbn [orb].
  set (n := Z.to_nat (Uint32 f)). set (rest := drop (4 + n) f).
  assert (Hrest : blen rest = (blen f - 4 - Uint32 f)%Z).
  { unfold rest, blen in *. rewrite length_drop. lia. }
  pose proof (Uint32_range rest) as Hr2.
  destruct (Z.ltb_spec (Uint32 rest) 0) as [|H5]; [done|].
  destruct (Z.ltb_spec (blen rest) (4 + Uint32 rest)) as [|Hl2]; [done|]. cbn [orb].
  intros Heq.
  assert (Hf : f = PutUint32 (Uint32 f) ++ take n (drop 4 f) ++ rest).
  { rewrite <- (Put_Uint32 f) at 1 by lia. f_equal. rewrite <- (string_take_drop n (drop 4 f)) at 1. f_equal.
    unfold rest. clear. destruct f as [|? [|? [|? [|? f]]]]; simpl; try done; by destruct n. }
  assert (Hrs : rest = PutUint32 (Uint32 rest) ++ take (Z.to_nat (Uint32 rest)) (drop 4 rest)
                       ++ drop (4 + Z.to_nat (Uint32 rest)) rest).
  { rewrite <- (Put_Uint32 rest) at 1 by lia. f_equal.
    rewrite <- (string_take_drop (Z.to_nat (Uint32 rest)) (drop 4 rest)) at 1. f_equal.
    clear. destruct rest as [|? [|? [|? [|? f']]]]; simpl; try done; by destruct (Z.to_nat _). }
  assert (L1 : blen (take n (drop 4 f)) = Uint32 f).
  { unfold blen in *. rewrite length_string_take; [lia|]. rewrite length_drop. lia. }
  assert (L2 : blen (take (Z.to_nat (Uint32 rest)) (drop 4 rest)) = Uint32 rest).
  { unfold blen in *. rewrite length_string_take; [lia|]. rewrite length_drop. lia. }
  assert (Hg : f = field (take n (drop 4 f)) ++ field (take (Z.to_nat (Uint32 rest)) (drop 4 rest))
                   ++ drop (4 + Z.to_nat (Uint32 rest)) rest).
  { unfold field. rewrite L1, L2, !string_app_assoc, <- Hrs. exact Hf. }
  by injection Heq as <- <- <-.
Qed.

(** A frame decodes to exactly what was encoded, for instance and source ids of
    up to 2^16 bytes, whatever bytes they contain, and it is the only frame that
    decodes so: no source id can pass for another's. *)
Theorem frame_roundtrip (instance source payload : bytes) :
  (blen instance <= maxIDLen)%Z -> (blen source <= maxIDLen)%Z ->
  decode (encode instance source payload) = Some (instance, source, payload)
  /\ forall frame, decode frame = Some (instance, source, payload) ->
       frame = encode instance source payload.
Proof.
  intros Hi Hs. rewrite encode_fields, !clamp_id_small by done. unfold maxIDLen in *. split.
  - apply decode_fields; lia.
  - intros frame. apply decode_unique.
Qed.

Lemma frame_roundtrip_witness :
  decode (encode "pod-1" "a:b" "x") = Some ("pod-1", "a:b", "x").
Proof. exact (proj1 (frame_roundtrip "pod-1" "a:b" "x" ltac:(done) ltac:(done))). Defined.

(** Oversized ids are cut, and frames too short for their prefixes are refused. *)
Lemma decode_short f : (blen f < 8)%Z -> decode f = None.
Proof.
  intros Hf. destruct (decode f) as [[[i s] p]|] eqn:E; [|done].
  apply decode_unique in E. subst f. unfold field in Hf. rewrite !blen_app, !length_Put in Hf.
  pose proof (blen_nonneg i). pose proof (blen_nonneg s). pose proof (blen_nonneg p). lia.
Qed.

Example encode_ab :
  encode "A" "B" "C" = String "000" (String "000" (String "000" (String "001" (String "A"
    (String "000" (String "000" (String "000" (String "001" (String "B" (String "C" "")))))))))).
Proof. reflexivity. Qed.

(** ** Delivery *)

Section DeliveryFacts.
Context `{HubEnv}.

Lemma deliver_calls h first ts msg :
  (deliver h first ts msg).1 = (h ++ map (fun s => (s, msg)) ts)%list.
Proof.
  revert h first. induction ts as [|s ts IH]; intros h first; simpl; [by rewrite app_nil_r|].
  rewrite IH. by rewrite <- app_assoc.
Qed.

Definition others (subs : registry) (doc : DocumentID) (source : string) : list subscription :=
  List.filter (fun s => negb (String.eqb (sub_source s) source)) (map_to_list (subscribers subs doc)).*2.

Lemma targets_others h subs doc source : targets h subs doc source ≡ₚ others subs doc source.
Proof. unfold targets, others. by rewrite (range_perm h (subscribers subs doc)). Qed.

Lemma kind_of_channelFor doc k :
  k = DocumentUpdate \/ k = AwarenessUpdate -> kind_of_channel (channelFor doc k) = k.
Proof.
  unfold kind_of_channel. intros [-> | ->]; [done|]. unfold channelFor. by rewrite prefix_app_l.
Qed.

Lemma publishable_kind msg :
  publishable msg = true -> msg_Kind msg = DocumentUpdate \/ msg_Kind msg = AwarenessUpdate.
Proof. unfold publishable. destruct (msg_Kind msg); [auto..|]. by rewrite andb_false_r. Qed.

Lemma dispatch_encoded b subs h doc k a s p :
  (blen a <= maxIDLen)%Z -> (blen s <= maxIDLen)%Z ->
  dispatchRemote b subs h doc (mkRedisMessage (channelFor doc k) (encode a s p))
  = if String.eqb a b then h
    else (deliver h None (targets h subs doc s) (mkMessage doc s (kind_of_channel (channelFor doc k)) p)).1.
Proof.
  intros Ha Hs. unfold dispatchRemote. cbn [rm_Payload rm_Channel].
  rewrite encode_fields, !clamp_id_small by done. rewrite decode_fields; [done|unfold maxIDLen in *; lia..].
Qed.

(** C19: what a pod hands to its own subscribers for a message another pod published
    is exactly what it would hand them had the message been published locally: same
    subscribers, document, sender, kind and payload, the sender left out; and on the
    publishing pod the frame that comes back from Redis is delivered to no one, so no
    subscriber is reached twice by one publish. *)
Theorem remote_delivery_is_local (a b : string) (subs subs' : registry) (h h' : list call) (msg : Message) :
  a <> b -> (blen a <= maxIDLen)%Z -> (blen (msg_SourceID msg) <= maxIDLen)%Z ->
  publishable msg = true ->
  exists m, pub_sent (Publish a false subs' false h' msg) = Some (rm_Channel m, rm_Payload m)
    /\ rm_Channel m ∈ pump_channels (msg_DocumentID msg)
    /\ dispatchRemote b subs h (msg_DocumentID msg) m = pub_calls (Publish b false subs false h msg)
    /\ dispatchRemote a subs' h' (msg_DocumentID msg) m = h'.
Proof.
  intros Hab Ha Hs Hp.
  exists (mkRedisMessage (channelFor (msg_DocumentID msg) (msg_Kind msg)) (encode a (msg_SourceID msg) (msg_Payload msg))).
  pose proof (publishable_kind msg Hp) as Hk. split_and!.
  - unfold Publish. rewrite Hp. simpl. by destruct (deliver _ _ _ _).
  - cbn [rm_Channel]. destruct Hk as [-> | ->]; simpl; unfold pump_channels; set_solver.
  - rewrite dispatch_encoded by done. apply String.eqb_neq in Hab. rewrite Hab.
    rewrite kind_of_channelFor by done. unfold Publish. rewrite Hp. simpl.
    destruct msg as [d s k p]. simpl. destruct (deliver _ _ _ _) eqn:E. simpl. done.
  - rewrite dispatch_encoded by done. by rewrite String.eqb_refl.
Qed.

(** A publish on an open hub calls every subscriber of the document other than
    the sender once, in some order, with the message as it was given, and hands the
    message to Redis whatever the handlers answered; it fails with a handler's error
    if one failed, else if Redis refused.  A message that is not valid and a closed
    hub reach no one. *)
Theorem publish_reaches_others_once (instance : string) (is_closed ctx_err : bool) (subs : registry)
    (h : list call) (msg : Message) :
  let r := Publish instance is_closed subs ctx_err h msg in
  if ctx_err || negb (publishable msg) || is_closed
  then pub_calls r = h /\ pub_sent r = None /\ pub_err r <> None
  else (exists new, pub_calls r = (h ++ new)%list
          /\ new ≡ₚ map (fun s => (s, msg)) (others subs (msg_DocumentID msg) (msg_SourceID msg)))
       /\ pub_sent r = Some (channelFor (msg_DocumentID msg) (msg_Kind msg),
                             encode instance (msg_SourceID msg) (msg_Payload msg))
       /\ (pub_err r = None -> (deliver h None (targets h subs (msg_DocumentID msg) (msg_SourceID msg)) msg).2 = None
             /\ redis_accepts (pub_calls r) (channelFor (msg_DocumentID msg) (msg_Kind msg))
                  (encode instance (msg_SourceID msg) (msg_Payload msg)) = true).
Proof.
  cbv zeta. unfold Publish. destruct ctx_err; [done|]. destruct (publishable msg); [|done].
  destruct is_closed; [done|]. cbn [orb negb].
  pose proof (deliver_calls h None (targets h subs (msg_DocumentID msg) (msg_SourceID msg)) msg) as Hd.
  destruct (deliver _ _ _ _) as [h2 e]. simpl in *. subst h2. split_and!; [|done|].
  - eexists. split; [done|]. by rewrite targets_others.
  - destruct e; [done|]. by destruct (redis_accepts _ _ _).
Qed.
End DeliveryFacts.

(** The surroundings of the examples: handlers succeed, Redis accepts. *)
#[export] Program Instance quiet_hub : HubEnv := {|
  fn := fun _ _ _ => None;
  range := fun _ m => (map_to_list m).*2;
  redis_accepts := fun _ _ _ => true |}.
Next Obligation. done. Qed.

Lemma remote_delivery_is_local_witness :
  exists m : redisMessage,
    dispatchRemote "pod-b" {["d" := {[7%Z := mkSub "d" 7 "room-b"]}]} [] "d" m
    = [(mkSub "d" 7 "room-b", mkMessage "d" "room-a" AwarenessUpdate "st")]
    /\ dispatchRemote "pod-a" {["d" := {[1%Z := mkSub "d" 1 "room-a"]}]} [] "d" m = [].
Proof.
  destruct (remote_delivery_is_local "pod-a" "pod-b" {["d" := {[7%Z := mkSub "d" 7 "room-b"]}]}
    {["d" := {[1%Z := mkSub "d" 1 "room-a"]}]} [] [] (mkMessage "d" "room-a" AwarenessUpdate "st")
    ltac:(done) ltac:(done) ltac:(done) eq_refl) as (m & _ & _ & H1 & H2).
  exists m. split; [exact (eq_trans H1 eq_refl)|exact H2].
Defined.

(** ** The handshake *)

Definition is_confirmation (r : received) : bool := match r with RSubscription => true | _ => false end.

Lemma awaitSubscribed_spec early confirmed want rs early' rest :
  awaitSubscribed early confirmed want rs = Confirmed early' rest ->
  exists read, rs = (read ++ rest)%list /\ early' = (early ++ data read)%list
    /\ RError ∉ read /\ RUnexpected ∉ read
    /\ List.length (List.filter is_confirmation read) = (want - confirmed)%nat.
Proof.
  revert early confirmed. induction rs as [|r rs IH]; intros early confirmed H; simpl in H.
  - destruct (Nat.leb_spec want confirmed); [|done]. injection H as <- <-.
    exists []. simpl. rewrite app_nil_r. split_and!; try done; [set_solver..|lia].
  - destruct (Nat.leb_spec want confirmed).
    + injection H as <- <-. exists []. simpl. rewrite app_nil_r. split_and!; try done; [set_solver..|lia].
    + destruct r as [|m| | |]; try done; apply IH in H as (read & -> & -> & H1 & H2 & H3).
      * exists (RSubscription :: read). simpl. split_and!; try done; [set_solver..|lia].
      * exists (RMessage m :: read). simpl. rewrite <- app_assoc. split_and!; try done; set_solver.
      * exists (RPong :: read). simpl. split_and!; try done; set_solver.
Qed.

Lemma data_app a b : data (a ++ b) = (data a ++ data b)%list.
Proof. induction a as [|r a IH]; simpl; [done|]. destruct r; simpl; rewrite ?IH; done. Qed.

(** A subscription is only taken for established once the server has confirmed
    both of the document's channels, before any error or foreign reply, and then
    nothing is lost: every message the server sent since the connection was opened,
    those among the confirmations included, is dispatched in order. *)
Theorem handshake_loses_nothing (doc : DocumentID) (replies : list received) (ms : list redisMessage) :
  startPump doc replies = Some ms ->
  ms = data replies
  /\ exists read rest, replies = (read ++ rest)%list
       /\ List.length (List.filter is_confirmation read) = List.length (pump_channels doc)
       /\ RError ∉ read /\ RUnexpected ∉ read.
Proof.
  unfold startPump. intros Hs. destruct (awaitSubscribed _ _ _ _) as [early rest| |] eqn:E; try done.
  injection Hs as <-. apply awaitSubscribed_spec in E as (read & -> & -> & H1 & H2 & H3).
  split; [by rewrite data_app|]. exists read, rest. split_and!; done.
Qed.

Lemma handshake_loses_nothing_witness :
  [mkRedisMessage "doc:d" "f"; mkRedisMessage "doc:d" "g"]
  = data [RSubscription; RMessage (mkRedisMessage "doc:d" "f"); RPong; RSubscription;
          RMessage (mkRedisMessage "doc:d" "g")].
Proof.
  exact (proj1 (handshake_loses_nothing "d"
    [RSubscription; RMessage (mkRedisMessage "doc:d" "f"); RPong; RSubscription;
     RMessage (mkRedisMessage "doc:d" "g")] _ eq_refl)).
Defined.
