(* ===== verification/Pods.v ===== *)
(** * Pods of one document, and the wire between them

    The rooms of one document on several pods ([RoomLoop.run_step], one loop per pod),
    each with the queue its subscription fills (room.go, [newRoom] and the [peerUpdates]
    case of [run]), composed with the hubs of their pods ([HubWire.Publish] and
    [HubWire.dispatchRemote]).  Redis is a bag of frames: a frame may reach a pod late,
    out of order, more than once or never, and one whose publish failed may have got
    through all the same.

    An update may come before one it depends on: the core keeps it waiting ([YMerge]).  One
    of another pod is then integrated when the missing one comes.  One of a pod's own member
    is published by no pod as long as it waits, and not at all when it is another pod's
    update that completes it: [pd_held] is what a pod's own turns left waiting.

    [pods_converge]: pods that have taken every update that was published hold the same
    document, but for what they held back.  [pods_can_converge]: delivering the frames is
    enough to get there. *)

From stdpp Require Import base gmap sets list strings.
From Stdlib Require Import ZArith Lia String Ascii Permutation.
From S2P Require Import Prelude Utf8 Json Control Lifecycle Limits Core Schema RoomState.
From S2P Require Import RoomFanout RoomBarrier RoomApply RoomLife RoomLoop Fixture RoomRel.
From S2P Require Import RoomSafe RoomSave RoomRun RoomTurn RoomSchema RoomInv RoomSpec RoomEdits HubWire.


(** ** The deployment *)

(** What each pod's room and hub run with.  [subs]: the local subscriptions of a pod's
    hub; [sid]: the id of its room's subscription. *)
Class Deployment := {
  host : Type;
  host_eq :: EqDecision host;
  host_countable :: Countable host;
  documentID : DocumentID;
  env : host -> Params;
  instance : host -> string;
  source : host -> string;
  subs : host -> registry;
  sid : host -> Z }.

(** Every pod hosts the document, in one room with a source id of its own ([newRoom]),
    under an instance id of its own ([NewWithClient]). *)
Record deployed {D : Deployment} : Prop := {
  dp_id p : @p_id (env p) = documentID;
  dp_named : documentID <> ""%string;
  dp_instance p q : instance p = instance q -> p = q;
  dp_source p q : source p = source q -> p = q;
  dp_instance_len p : (blen (instance p) <= maxIDLen)%Z;
  dp_source_len p : (blen (source p) <= maxIDLen)%Z;
  dp_subs p : subscribers (subs p) documentID = {[sid p := mkSub documentID (sid p) (source p)]};
  dp_fair p : @fair_range (env p) }.
Arguments deployed : clear implicits.

(** ** A pod *)

(** What waits in [peerUpdates]. *)
Record peerUpdate := mkPeerUpdate { pu_data : bytes; pu_ephemeral : bool }.

Definition peerUpdates_cap : nat := 256.

Section Pods.
Context {Y : YCore} {L : YLaws Y} {Mg : YMerge Y} {Hub : HubEnv} {D : Deployment}.

(** [pd_room] is gone once the loop has ended.  [pd_calls]: the handler calls of the
    pod's hub.  For the theorems: [pd_taken], the updates the room published or took, and
    [pd_held], what turns of its own left waiting in the document. *)
Record pod := mkPod {
  pd_room : option Room;
  pd_queue : list peerUpdate;
  pd_calls : list call;
  pd_taken : list bytes;
  pd_held : list bytes }.

(** [cl_wire]: what was handed to Redis, each with whether the publish succeeded. *)
Record cluster := mkCluster { cl_pods : gmap host pod; cl_wire : list (redisMessage * bool) }.

Definition put_pod (p : host) (pd : pod) (c : cluster) : cluster :=
  mkCluster (<[p := pd]> (cl_pods c)) (cl_wire c).

(** The message [publishToPeers] hands to the hub. *)
Definition room_message (p : host) (ephemeral : bool) (frame : bytes) : Message :=
  mkMessage documentID (source p) (if ephemeral then AwarenessUpdate else DocumentUpdate) frame.

(** The subscription's handler: it queues what it is given. *)
Definition peer_handler (msg : Message) : peerUpdate :=
  mkPeerUpdate (msg_Payload msg) (bool_decide (msg_Kind msg = AwarenessUpdate)).

(** What the handler queues for the calls made to the room of pod [p]. *)
Definition received_by (p : host) (calls : list call) : list peerUpdate :=
  omap (fun c => if (sub_id c.1 =? sid p)%Z then Some (peer_handler c.2) else None) calls.

(** The publishes of a turn, oldest first, through the pod's hub. *)
Fixpoint publish_all (p : host) (calls : list call) (effs : list effect) : list call * list (redisMessage * bool) :=
  match effs with
  | [] => (calls, [])
  | EPublish ephemeral frame ok :: effs' =>
      let res := Publish (instance p) false (subs p) false calls (room_message p ephemeral frame) in
      let '(calls', wire) := publish_all p (pub_calls res) effs' in
      (calls', match pub_sent res with
               | Some (ch, b) => (mkRedisMessage ch b, ok) :: wire
               | None => wire
               end)
  | _ :: effs' => publish_all p calls effs'
  end.

(** What a turn added to the history, oldest first. *)
Definition turn_effects (r r' : Room) : list effect :=
  rev (firstn (List.length (trace r') - List.length (trace r)) (trace r')).

(** What waits in the document of a room in service. *)
Definition left_waiting (s : loop_state) : list bytes :=
  match s with Running r => waiting (doc (co r)) | _ => [] end.

(** A pod after a turn of its loop: its publishes are on the wire. *)
Definition turned (p : host) (c : cluster) (pd : pod) (r : Room) (s : loop_state)
    (took held : list bytes) : cluster :=
  let after r' room :=
    let '(calls, wire) := publish_all p (pd_calls pd) (turn_effects r r') in
    let own := updates_out (rev (turn_effects r r')) in
    mkCluster (<[p := mkPod room (pd_queue pd) calls (own ++ took ++ pd_taken pd) (held ++ pd_held pd)]> (cl_pods c))
              (cl_wire c ++ wire) in
  match s with
  | Running r' => after r' (Some r')
  | Exited r' => after r' None
  | Crashed => put_pod p (mkPod None (pd_queue pd) (pd_calls pd) (pd_taken pd) (pd_held pd)) c
  end.

(** ** The cluster *)

(** [Turn]: a turn that no other pod caused.  [Receive p i]: the [i]-th frame of the wire,
    which Redis took, reaches the hub of pod [p].  [Stray p i]: it does so although its
    publish failed.  [Take]: the loop takes what is first in its queue. *)
Inductive cl_event :=
| Turn (p : host) (ev : loop_event)
| Receive (p : host) (i : nat)
| Stray (p : host) (i : nat)
| Take (p : host).

Definition from_peer (ev : loop_event) : bool := match ev with LPeer _ _ => true | _ => false end.

Definition receive (p : host) (i : nat) (ok : bool) (c : cluster) : option cluster :=
  pd ← cl_pods c !! p; m ← cl_wire c !! i; _ ← pd_room pd;
  if negb (Bool.eqb m.2 ok) then None
  else
    let calls := dispatchRemote (instance p) (subs p) (pd_calls pd) documentID m.1 in
    let queue := (pd_queue pd ++ received_by p (skipn (List.length (pd_calls pd)) calls))%list in
    if (List.length queue <=? peerUpdates_cap)%nat
    then Some (put_pod p (mkPod (pd_room pd) queue calls (pd_taken pd) (pd_held pd)) c) else None.

Definition cl_step (e : cl_event) (c : cluster) : option cluster :=
  match e with
  | Turn p ev =>
      pd ← cl_pods c !! p; r ← pd_room pd;
      if from_peer ev then None
      else let s := @run_step Y (env p) ev r in Some (turned p c pd r s [] (left_waiting s))
  | Receive p i => receive p i true c
  | Stray p i => receive p i false c
  | Take p =>
      pd ← cl_pods c !! p; r ← pd_room pd;
      match pd_queue pd with
      | [] => None
      | u :: queue =>
          let took := if negb (pu_ephemeral u) && screens r (pu_data u) then [pu_data u] else [] in
          Some (turned p c (mkPod (Some r) queue (pd_calls pd) (pd_taken pd) (pd_held pd)) r
                  (@run_step Y (env p) (LPeer (pu_data u) (pu_ephemeral u)) r) took [])
      end
  end.

(** The document updates on the wire. *)
Definition update_in (m : redisMessage) : option bytes :=
  match kind_of_channel (rm_Channel m), decode (rm_Payload m) with
  | DocumentUpdate, Some (_, _, u) => Some u
  | _, _ => None
  end.
Definition updates_in (ws : list (redisMessage * bool)) : list bytes := omap update_in ws.*1.
Definition sent (c : cluster) : list bytes := updates_in (cl_wire c).

Lemma updates_in_app ws vs : updates_in (ws ++ vs) = (updates_in ws ++ updates_in vs)%list.
Proof. unfold updates_in. by rewrite fmap_app, omap_app. Qed.

(** Pod [p] serves the document with room [r]. *)
Definition serving (c : cluster) (p : host) (pd : pod) (r : Room) : Prop :=
  cl_pods c !! p = Some pd /\ pd_room pd = Some r.
End Pods.

(** ** Frames of the wire *)

Section Frames.
Context {Y : YCore} {L : YLaws Y} {Mg : YMerge Y} {Hub : HubEnv} {D : Deployment} (Dp : deployed D).

Definition frame_of (p : host) (ephemeral : bool) (u : bytes) : redisMessage :=
  mkRedisMessage (channelFor documentID (if ephemeral then AwarenessUpdate else DocumentUpdate))
    (encode (instance p) (source p) u).

Definition framed (p : host) (e : effect) : option (redisMessage * bool) :=
  match e with EPublish ephemeral u ok => Some (frame_of p ephemeral u, ok) | _ => None end.

Lemma room_message_publishable p e u : publishable (room_message p e u) = true.
Proof.
  unfold publishable. simpl. rewrite (proj2 (String.eqb_neq _ _) (dp_named Dp)). by destruct e.
Qed.

Lemma publish_sent p calls e u :
  pub_sent (Publish (instance p) false (subs p) false calls (room_message p e u))
  = Some (rm_Channel (frame_of p e u), rm_Payload (frame_of p e u)).
Proof. unfold Publish. rewrite room_message_publishable. simpl. by destruct (deliver _ _ _ _). Qed.

(** Everything a turn publishes goes out, as its frames. *)
Lemma publish_all_wire p calls effs : (publish_all p calls effs).2 = omap (framed p) effs.
Proof.
  revert calls. induction effs as [|e effs IH]; intros calls; [done|].
  destruct e as [| | |ephemeral u ok| | | | | | | | |]; cbn -[Publish]; try apply IH.
  rewrite publish_sent. specialize (IH (pub_calls (Publish (instance p) false (subs p) false calls
    (room_message p ephemeral u)))). destruct (publish_all p _ effs) as [calls' wire]. simpl in *. by rewrite IH.
Qed.

Lemma update_in_frame p e u : update_in (frame_of p e u) = if e then None else Some u.
Proof.
  unfold update_in, frame_of. simpl.
  rewrite kind_of_channelFor by (destruct e; auto). destruct e; [done|].
  rewrite encode_fields, !clamp_id_small by (apply dp_instance_len, Dp || apply dp_source_len, Dp).
  rewrite decode_fields; [done|..].
  - pose proof (dp_instance_len Dp p). unfold maxIDLen in *. lia.
  - pose proof (dp_source_len Dp p). unfold maxIDLen in *. lia.
Qed.

Lemma updates_framed p (effs : list effect) : updates_in (omap (framed p) effs) = omap published_of effs.
Proof.
  induction effs as [|e effs IH]; [done|].
  destruct e as [| | |ephemeral u ok| | | | | | | | |]; simpl; try exact IH.
  unfold updates_in in *. simpl. rewrite update_in_frame. destruct ephemeral; [exact IH|]. f_equal. exact IH.
Qed.

(** A pod queues what another published, and never what it published itself. *)
Lemma received_frame p a e u calls :
  received_by p (skipn (List.length calls) (dispatchRemote (instance p) (subs p) calls documentID (frame_of a e u)))
  = if bool_decide (a = p) then [] else [mkPeerUpdate u e].
Proof.
  unfold frame_of. rewrite dispatch_encoded by (apply dp_instance_len, Dp || apply dp_source_len, Dp).
  case_bool_decide as Hap.
  { subst a. by rewrite String.eqb_refl, skipn_all. }
  rewrite (proj2 (String.eqb_neq _ _)) by (by intros ?%(dp_instance Dp)).
  rewrite deliver_calls, skipn_app, skipn_all, Nat.sub_diag, app_nil_l.
  assert (Ht : targets calls (subs p) documentID (source a) = [mkSub documentID (sid p) (source p)]).
  { apply Permutation_singleton_r. rewrite targets_others. unfold others. rewrite (dp_subs Dp).
    rewrite map_to_list_singleton. simpl. rewrite (proj2 (String.eqb_neq _ _)); [done|].
    intros Hs. by apply Hap, (dp_source Dp). }
  rewrite Ht. unfold received_by, peer_handler. simpl. rewrite Z.eqb_refl.
  rewrite kind_of_channelFor by (destruct e; auto). by destruct e.
Qed.

Lemma turn_effects_new r r' new : trace r' = (new ++ trace r)%list -> rev (turn_effects r r') = new.
Proof.
  intros Ht. unfold turn_effects. rewrite rev_involutive, Ht, length_app, Nat.add_sub.
  apply firstn_app_length || (rewrite firstn_app, Nat.sub_diag, firstn_all; simpl; by rewrite app_nil_r).
Qed.
End Frames.

(** ** The invariant *)

Section Invariant.
Context {Y : YCore} {L : YLaws Y} {Mg : YMerge Y} {Hub : HubEnv} {D : Deployment}.
Context (Dp : deployed D) (Henc : forall d, is_Some (EncodeStateAsUpdateV2 d)).
(** The document every room was opened with. *)
Context (d0 : Doc).

(** A room holds the opening document with [us]. *)
Definition holds (us : list bytes) (r : Room) : Prop :=
  guarded (co r) /\ Forall (acceptable d0) us /\ same (doc (co r)) (replay d0 us).

Record pod_ok (c : cluster) (p : host) (pd : pod) : Prop := {
  po_queue : Forall (fun u => pu_ephemeral u = false -> pu_data u ∈ sent c) (pd_queue pd);
  po_taken : pd_taken pd ⊆ sent c;
  po_own u : frame_of p false u ∈ (cl_wire c).*1 -> u ∈ pd_taken pd;
  po_room r : pd_room pd = Some r -> holds (pd_taken pd ++ pd_held pd) r }.

Record cl_ok (c : cluster) : Prop := {
  ok_wire m : m ∈ (cl_wire c).*1 -> exists p e u, m = frame_of p e u /\ is_Some (cl_pods c !! p);
  ok_pods p pd : cl_pods c !! p = Some pd -> pod_ok c p pd }.

(** While fewer than 2^64 turns were made. *)
Definition cl_live (n : Z) (c : cluster) : Prop :=
  forall p pd r, serving c p pd r -> @live Y (env p) n r.

Lemma holds_more us vs r r' :
  holds us r -> guarded (co r') -> Forall (acceptable (doc (co r))) vs ->
  same (doc (co r')) (replay (doc (co r)) vs) -> holds (vs ++ us) r'.
Proof.
  intros (_ & Ha & Hs) Hg Hv Hs'. apply (accepted_any _ d0) in Hv. split; [done|].
  assert (Hall : Forall (acceptable d0) (us ++ vs)) by (by apply Forall_app).
  split; [by apply Forall_app|]. etrans; [exact Hs'|]. etrans; [apply (replay_proper vs), Hs|].
  rewrite <- replay_app. apply replay_perm; [apply Permutation_app_comm|done].
Qed.

(** Where the document stands is decided by which updates it took. *)
Lemma holds_set us vs r : (forall u, u ∈ us <-> u ∈ vs) -> holds us r -> holds vs r.
Proof.
  intros Heq (Hg & Ha & Hs). split; [done|]. split; [|by etrans; [exact Hs|apply replay_set]].
  rewrite Forall_forall in *. intros u Hu. by apply Ha, Heq.
Qed.

(** ** Turns *)

(** What a pod that goes on serving has after a turn. *)
Definition turn_holds (pd : pod) (r : Room) (s : loop_state) (took held : list bytes) : Prop :=
  forall r', s = Running r' ->
    holds ((updates_out (rev (turn_effects r r')) ++ took ++ pd_taken pd) ++ held ++ pd_held pd) r'.

Lemma sent_turned p (c : cluster) effs :
  updates_in (cl_wire c ++ omap (framed p) effs) = (sent c ++ omap published_of effs)%list.
Proof. by rewrite updates_in_app, (updates_framed Dp). Qed.

Lemma updates_out_rev effs u : u ∈ updates_out (rev effs) <-> u ∈ omap published_of effs.
Proof. unfold updates_out. by rewrite <- Permutation_rev. Qed.

Lemma framed_update p effs u : frame_of p false u ∈ (omap (framed p) effs).*1 -> u ∈ updates_out (rev effs).
Proof.
  intros Hin. rewrite updates_out_rev, <- (updates_framed Dp p). unfold updates_in. rewrite list_elem_of_omap.
  exists (frame_of p false u). by rewrite (update_in_frame Dp).
Qed.

(** A frame tells which pod sent it. *)
Lemma frame_of_inj p e u p' e' u' : frame_of p e u = frame_of p' e' u' -> p = p' /\ e = e' /\ u = u'.
Proof.
  intros Heq.
  assert (He : e = e').
  { assert (Hk : kind_of_channel (rm_Channel (frame_of p e u)) = kind_of_channel (rm_Channel (frame_of p' e' u')))
      by (by rewrite Heq).
    simpl in Hk. rewrite !kind_of_channelFor in Hk by (destruct e, e'; auto). by destruct e, e'. }
  assert (Hd : decode (rm_Payload (frame_of p e u)) = decode (rm_Payload (frame_of p' e' u'))) by (by rewrite Heq).
  simpl in Hd. rewrite !encode_fields, !clamp_id_small in Hd by (apply dp_instance_len, Dp || apply dp_source_len, Dp).
  pose proof (dp_instance_len Dp p). pose proof (dp_source_len Dp p).
  pose proof (dp_instance_len Dp p'). pose proof (dp_source_len Dp p'). unfold maxIDLen in *.
  rewrite !decode_fields in Hd by lia. injection Hd as Hi _ Hu. split; [by apply (dp_instance Dp)|done].
Qed.

Lemma framed_frame p effs m : m ∈ (omap (framed p) effs).*1 -> exists e u, m = frame_of p e u.
Proof.
  intros ([m' ok] & -> & (e & _ & He)%list_elem_of_omap)%list_elem_of_fmap.
  destruct e; try done. simpl in He. injection He as <- <-. by do 2 eexists.
Qed.

Lemma own_frame_of_other p q (effs : list effect) u : p <> q -> frame_of q false u ∈ (omap (framed p) effs).*1 -> False.
Proof. by intros Hpq (e & v & (Hp & _)%frame_of_inj)%framed_frame. Qed.

Lemma pod_ok_more c c' p pd ws :
  cl_wire c' = (cl_wire c ++ ws)%list -> (forall u, frame_of p false u ∉ ws.*1) -> pod_ok c p pd -> pod_ok c' p pd.
Proof.
  intros Hw Hn []. assert (Hs : sent c ⊆ sent c').
  { unfold sent. rewrite Hw, updates_in_app. intros u Hu. apply elem_of_app. by left. }
  split; [|by etrans| |done].
  - eapply Forall_impl; [exact po_queue0|]. intros u Hu He. by apply Hs, Hu.
  - intros u. rewrite Hw, fmap_app, elem_of_app. intros [Hu|Hu]; [by apply po_own0|by destruct (Hn u)].
Qed.

Lemma put_ok c p pd pd' : cl_ok c -> cl_pods c !! p = Some pd -> pod_ok c p pd' -> cl_ok (put_pod p pd' c).
Proof.
  intros [Hwire Hpods] Hp Hok.
  assert (Hput : forall q x, pod_ok c q x -> pod_ok (put_pod p pd' c) q x).
  { intros q x. apply (pod_ok_more c _ q x []); [by rewrite app_nil_r|by intros u ?%elem_of_nil]. }
  split; simpl.
  - intros m Hm. destruct (Hwire m Hm) as (q & e & u & -> & Hin). exists q, e, u. split; [done|].
    rewrite lookup_insert. case_decide; [by eexists|done].
  - intros q x. rewrite lookup_insert. case_decide; [|intros; by apply Hput, Hpods].
    subst q. intros [= <-]. by apply Hput.
Qed.

(** The cluster after the publishes of one turn of pod [p]. *)
Lemma published_ok c p pd r r' room queue calls took held :
  let effs := turn_effects r r' in
  let own := updates_out (rev effs) in
  cl_ok c -> cl_pods c !! p = Some pd ->
  Forall (fun u => pu_ephemeral u = false -> pu_data u ∈ sent c) queue -> took ⊆ sent c ->
  (forall r1, room = Some r1 -> holds ((own ++ took ++ pd_taken pd) ++ held ++ pd_held pd) r1) ->
  cl_ok (mkCluster (<[p := mkPod room queue calls (own ++ took ++ pd_taken pd) (held ++ pd_held pd)]> (cl_pods c))
           (cl_wire c ++ omap (framed p) effs)).
Proof.
  intros effs own [Hwire Hpods] Hp Hq Ht Hr. pose proof (Hpods p pd Hp) as [_ Htk Hown _].
  set (c' := mkCluster _ _).
  assert (Hs : sent c' = (sent c ++ omap published_of effs)%list) by (apply sent_turned).
  split.
  - simpl. rewrite fmap_app. intros m [Hm|Hm]%elem_of_app.
    + destruct (Hwire m Hm) as (q & e & u & -> & Hin). exists q, e, u. split; [done|].
      rewrite lookup_insert. case_decide; [by eexists|done].
    + apply framed_frame in Hm as (e & u & ->). exists p, e, u. split; [done|]. rewrite lookup_insert, decide_True by done. by eexists.
  - simpl. intros q pdq. rewrite lookup_insert. case_decide as Hpq.
    + subst q. intros [= <-]. split; simpl.
      * eapply Forall_impl; [exact Hq|]. intros u Hu He. rewrite Hs. apply elem_of_app. left. by apply Hu.
      * rewrite Hs. intros u. rewrite !elem_of_app. intros [Hu|[Hu|Hu]]; [right|left; by apply Ht|left; by apply Htk].
        by rewrite <- updates_out_rev.
      * intros u. rewrite fmap_app, !elem_of_app. intros [Hu|Hu]; [right; right; by apply Hown|left; by apply (framed_update p)].
      * exact Hr.
    + intros Hq'. apply (pod_ok_more c _ _ _ (omap (framed p) effs)); [done| |by apply Hpods].
      intros u Hu. by apply (own_frame_of_other p q effs u).
Qed.

Lemma turned_ok c p pd r s took held queue :
  cl_ok c -> cl_pods c !! p = Some pd ->
  Forall (fun u => pu_ephemeral u = false -> pu_data u ∈ sent c) queue -> took ⊆ sent c ->
  turn_holds pd r s took held ->
  cl_ok (turned p c (mkPod (Some r) queue (pd_calls pd) (pd_taken pd) (pd_held pd)) r s took held).
Proof.
  intros Hok Hp Hq Ht Hr. unfold turned. simpl.
  assert (Hafter : forall r' room, (forall r1, room = Some r1 -> s = Running r1 /\ r' = r1) ->
    cl_ok (let '(calls, wire) := publish_all p (pd_calls pd) (turn_effects r r') in
           mkCluster (<[p := mkPod room queue calls (updates_out (rev (turn_effects r r')) ++ took ++ pd_taken pd)
                               (held ++ pd_held pd)]> (cl_pods c))
             (cl_wire c ++ wire))).
  { intros r' room Hroom. pose proof (publish_all_wire Dp p (pd_calls pd) (turn_effects r r')) as Hw.
    destruct (publish_all _ _ _) as [calls wire]. simpl in Hw. subst wire.
    apply published_ok; [done..|]. intros r1 Hr1. destruct (Hroom r1 Hr1) as [-> ->]. by apply Hr. }
  destruct s as [r'|r'|]; [apply Hafter; by intros r1 [= <-]|by apply Hafter|].
  destruct (ok_pods c Hok p pd Hp). by apply (put_ok c p pd).
Qed.

(** A turn of its own adds to a pod what it published and what it left waiting. *)
Lemma member_turn_holds n p pd r ev :
  holds (pd_taken pd ++ pd_held pd) r -> @live Y (env p) n r -> (n + 1 < 2 ^ 64)%Z -> from_peer ev = false ->
  turn_holds pd r (@run_step Y (env p) ev r) [] (left_waiting (@run_step Y (env p) ev r)).
Proof.
  intros Hh Hl Hn Hev r' Hs. rewrite Hs. simpl.
  assert (Ht : tracked r r').
  { apply (@member_turn Y (env p) L Mg Henc n ev); [apply (dp_fair Dp)|done|done| |done]. by intros data ->. }
  destruct (tracked_adds r r' Ht (proj1 Hh)) as (us & (new & Hnew & Hu) & Ha & Hd).
  rewrite (turn_effects_new _ _ _ Hnew), Hu.
  eapply holds_set; [|apply (holds_more (pd_taken pd ++ pd_held pd) (us ++ waiting (doc (co r'))) r r' Hh); [apply Ht, Hh|exact Ha|exact Hd]].
  intros u. rewrite !elem_of_app. tauto.
Qed.

Lemma peer_turn_holds p pd r u :
  holds (pd_taken pd ++ pd_held pd) r ->
  turn_holds pd r (@run_step Y (env p) (LPeer (pu_data u) (pu_ephemeral u)) r)
    (if negb (pu_ephemeral u) && screens r (pu_data u) then [pu_data u] else []) [].
Proof.
  intros Hh r' Hs.
  assert (Hout : updates_out (rev (turn_effects r r')) = []).
  { destruct (@peer_turn_runs Y (env p) L Henc (pu_data u) (pu_ephemeral u) r (proj1 Hh))
      as (r1 & Hr1 & (new & Hn & Hu) & _). rewrite Hs in Hr1. injection Hr1 as <-.
    by rewrite (turn_effects_new _ _ _ Hn). }
  rewrite Hout. destruct u as [data []]; simpl in *.
  - destruct (@presence_turn Y (env p) L Mg data r r' Hs) as [Ht Hd].
    destruct Hh as (Hg & Ha & Hsame). split; [by apply Ht|]. by rewrite Hd.
  - destruct (@peer_turn Y (env p) L Henc data r r' (proj1 Hh) Hs) as (Hg & Hd & _).
    destruct (screens r data) eqn:E.
    + change (holds ([data] ++ (pd_taken pd ++ pd_held pd)) r').
      apply (holds_more _ _ r); [done|done| |by rewrite Hd].
      apply Forall_singleton. by apply screens_accepted.
    + destruct Hh as (_ & Ha & Hsame). split; [done|]. by rewrite Hd.
Qed.

Lemma cl_step_turn n p ev c c' :
  cl_ok c -> cl_live n c -> (n + 1 < 2 ^ 64)%Z -> cl_step (Turn p ev) c = Some c' -> cl_ok c'.
Proof.
  intros Hok Hl Hn Hs. simpl in Hs. destruct (cl_pods c !! p) as [pd|] eqn:Hp; [|done]. simpl in Hs.
  destruct (pd_room pd) as [r|] eqn:Hr; [|done]. simpl in Hs. destruct (from_peer ev) eqn:Hev; [done|].
  injection Hs as <-. destruct (ok_pods c Hok p pd Hp).
  assert (Hpd : pd = mkPod (Some r) (pd_queue pd) (pd_calls pd) (pd_taken pd) (pd_held pd)) by (rewrite <- Hr; by destruct pd).
  rewrite Hpd at 1. apply turned_ok; [done..|by intros ? ?%elem_of_nil|].
  apply (member_turn_holds n); [by apply po_room0|by apply (Hl p pd)|done..].
Qed.

Lemma cl_step_take p c c' : cl_ok c -> cl_step (Take p) c = Some c' -> cl_ok c'.
Proof.
  intros Hok Hs. simpl in Hs. destruct (cl_pods c !! p) as [pd|] eqn:Hp; [|done]. simpl in Hs.
  destruct (pd_room pd) as [r|] eqn:Hr; [|done]. simpl in Hs. destruct (pd_queue pd) as [|u queue] eqn:Hq; [done|].
  injection Hs as <-. destruct (ok_pods c Hok p pd Hp). rewrite Hq in *.
  apply Forall_cons in po_queue0 as [Hu Hqueue]. apply turned_ok; [done..| |].
  - destruct (pu_ephemeral u); [by intros ? ?%elem_of_nil|]. destruct (screens _ _); [|by intros ? ?%elem_of_nil].
    intros v Hv%list_elem_of_singleton. subst v. by apply Hu.
  - apply peer_turn_holds. by apply po_room0.
Qed.

Lemma receive_inv p i ok c c' :
  receive p i ok c = Some c' -> exists pd r m, serving c p pd r /\ cl_wire c !! i = Some (m, ok)
    /\ let calls := dispatchRemote (instance p) (subs p) (pd_calls pd) documentID m in
       c' = put_pod p (mkPod (Some r) (pd_queue pd ++ received_by p (skipn (List.length (pd_calls pd)) calls))
                         calls (pd_taken pd) (pd_held pd)) c.
Proof.
  unfold receive. destruct (cl_pods c !! p) as [pd|] eqn:Hp; [|done]. simpl.
  destruct (cl_wire c !! i) as [[m b]|] eqn:Hm; [|done]. simpl. destruct (pd_room pd) as [r|] eqn:Hr; [|done]. simpl.
  destruct (Bool.eqb b ok) eqn:Hb; [|done]. apply Bool.eqb_prop in Hb as ->. simpl.
  destruct (_ <=? _)%nat; [|done]. intros [= <-]. by exists pd, r, m.
Qed.

Lemma receive_ok p i ok c c' : cl_ok c -> receive p i ok c = Some c' -> cl_ok c'.
Proof.
  intros Hok (pd & r & m & [Hp Hr] & Hm & ->)%receive_inv.
  destruct (ok_pods c Hok p pd Hp). apply (put_ok c p pd); [done..|]. split; try done; simpl.
  - apply Forall_app. split; [done|].
    apply list_elem_of_lookup_2, (list_elem_of_fmap_2 fst) in Hm.
    destruct (ok_wire c Hok m Hm) as (q & e & u & -> & _). rewrite (received_frame Dp).
    case_bool_decide; [constructor|]. apply Forall_singleton. simpl. intros ->.
    apply list_elem_of_omap. exists (frame_of q false u). by rewrite (update_in_frame Dp).
  - intros r1 [= <-]. by apply po_room0.
Qed.

Lemma turned_live n p c pd r ev took held :
  cl_live n c -> @live Y (env p) n r -> (n + 1 < 2 ^ 64)%Z ->
  cl_live (n + 1) (turned p c pd r (@run_step Y (env p) ev r) took held).
Proof.
  intros Hl Hr Hn q x rx [Hq Hx].
  assert (Hold : forall y, cl_pods c !! q = Some y -> pd_room y = Some rx -> @live Y (env q) (n + 1) rx).
  { intros y Hy Hyr. apply (live_mono n); [lia|]. by apply (Hl q y). }
  pose proof (@live_run_step Y (env p) (dp_fair Dp p) n r ev Hr Hn) as Hs.
  unfold turned in Hq. destruct (run_step ev r) as [r'|r'|]; [| |done].
  all: destruct (publish_all _ _ _) as [calls wire]; simpl in Hq; rewrite lookup_insert in Hq; case_decide as Hpq;
    [subst q; injection Hq as <-; simpl in Hx; by simplify_eq|by apply (Hold x)].
Qed.

Lemma receive_live n p i ok c c' :
  cl_live n c -> (n + 1 < 2 ^ 64)%Z -> receive p i ok c = Some c' -> cl_live (n + 1) c'.
Proof.
  intros Hl Hn (pd & r & m & Hsv & _ & ->)%receive_inv q x rx [Hq Hx]. apply (live_mono n); [lia|].
  simpl in Hq. rewrite lookup_insert in Hq. case_decide; [|by apply (Hl q x)]. subst q. injection Hq as <-.
  simpl in Hx. simplify_eq. by apply (Hl p pd).
Qed.

Lemma cl_step_live n e c c' :
  cl_live n c -> (n + 1 < 2 ^ 64)%Z -> cl_step e c = Some c' -> cl_live (n + 1) c'.
Proof.
  intros Hl Hn Hs. destruct e as [p ev|p i|p i|p]; simpl in Hs; [|by eapply receive_live..|];
    (destruct (cl_pods c !! p) as [pd|] eqn:Hp; [|done]); simpl in Hs.
  - destruct (pd_room pd) as [r|] eqn:Hr; [|done]. simpl in Hs. destruct (from_peer ev); [done|].
    injection Hs as <-. apply turned_live; [done| |done]. by apply (Hl p pd).
  - destruct (pd_room pd) as [r|] eqn:Hr; [|done]. simpl in Hs. destruct (pd_queue pd); [done|].
    injection Hs as <-. apply turned_live; [done| |done]. by apply (Hl p pd).
Qed.
End Invariant.

(** ** Converging *)

Section Converging.
Context {Y : YCore} {L : YLaws Y} {Mg : YMerge Y} {Hub : HubEnv} {D : Deployment}.

(** Whiteboards or memos just opened from one stored document ([newRoom]). *)
Definition fresh (d0 : Doc) (c : cluster) : Prop :=
  cl_wire c = [] /\ forall p pd, cl_pods c !! p = Some pd ->
    pd_queue pd = [] /\ pd_taken pd = [] /\ pd_held pd = []
    /\ exists r, pd_room pd = Some r /\ opened r /\ screened r /\ same (doc (co r)) d0.

Lemma fresh_ok d0 c : fresh d0 c -> cl_ok d0 c /\ cl_live 0 c.
Proof.
  intros [Hw Hf]. split; [split|].
  - rewrite Hw. by intros m ?%elem_of_nil.
  - intros p pd Hp. destruct (Hf p pd Hp) as (Hq & Ht & Hh & r & Hr & _ & Hs & Hd). split; rewrite ?Hq, ?Ht, ?Hh, ?Hw.
    + constructor.
    + by intros u ?%elem_of_nil.
    + by intros u ?%elem_of_nil.
    + intros r1 Hr1. simplify_eq. split; [by apply screened_guarded|]. split; [constructor|done].
  - intros p pd r [Hp Hr]. destruct (Hf p pd Hp) as (_ & _ & _ & r1 & Hr1 & Ho & _). simplify_eq. by apply opened_live.
Qed.

Lemma drive_ok d0 evs c0 c :
  deployed D -> (forall d, is_Some (EncodeStateAsUpdateV2 d)) ->
  fresh d0 c0 -> drive cl_step evs c0 = Some c -> (Z.of_nat (List.length evs) < 2 ^ 64)%Z ->
  cl_ok d0 c /\ cl_live (Z.of_nat (List.length evs)) c.
Proof.
  intros Dp Henc Hf Hd Hn.
  apply (drive_inv_below cl_step (2 ^ 64) (fun n c => cl_ok d0 c /\ cl_live n c) evs c0); [|by apply fresh_ok|done..].
  intros n ev c1 c2 H0 Hb [Hok Hl] Hs. split; [|by apply (cl_step_live Dp n ev c1)].
  destruct ev; [by eapply cl_step_turn|by eapply receive_ok..|by eapply cl_step_take].
Qed.

(** What the turns of the pod left waiting has been published, or was in the opened
    document. *)
Definition told (d0 : Doc) (c : cluster) (pd : pod) : Prop :=
  same (replay d0 (sent c ++ pd_held pd)) (replay d0 (sent c)).

(** The document of a pod that has taken what was published. *)
Lemma all_taken d0 c p pd r :
  cl_ok d0 c -> serving c p pd r -> sent c ⊆ pd_taken pd -> same (doc (co r)) (replay d0 (sent c ++ pd_held pd)).
Proof.
  intros Hok [Hp Hr] Hall. destruct (ok_pods d0 c Hok p pd Hp).
  apply (holds_set d0 (pd_taken pd ++ pd_held pd)); [|by apply po_room0].
  intros u. rewrite !elem_of_app. split; intros [H|H]; auto.
Qed.

(** C5: pods converge.  Whatever the members of every pod do, and whichever frames
    reach which pod, late, repeatedly, never or before one they depend on: a serving pod
    holds the document it opened with, the updates it took, all of which were published,
    and what its own turns left waiting.  Two pods that have taken everything
    published differ in no more than what each left waiting, and hold the same document,
    the opened one with every published update, once that was published too. *)
Theorem pods_converge (d0 : Doc) (evs : list cl_event) (c0 c : cluster) :
  deployed D -> (forall d, is_Some (EncodeStateAsUpdateV2 d)) ->
  fresh d0 c0 -> drive cl_step evs c0 = Some c -> (Z.of_nat (List.length evs) < 2 ^ 64)%Z ->
  (forall p pd r, serving c p pd r ->
     pd_taken pd ⊆ sent c /\ Forall (acceptable d0) (pd_taken pd ++ pd_held pd)
     /\ same (doc (co r)) (replay d0 (pd_taken pd ++ pd_held pd)) /\ screened r
     /\ (sent c ⊆ pd_taken pd -> same (doc (co r)) (replay d0 (sent c ++ pd_held pd))))
  /\ (forall p q pd qd r s, serving c p pd r -> serving c q qd s ->
        sent c ⊆ pd_taken pd -> sent c ⊆ pd_taken qd -> told d0 c pd -> told d0 c qd ->
        same (doc (co r)) (doc (co s)) /\ same (doc (co r)) (replay d0 (sent c))).
Proof.
  intros Dp Henc Hf Hd Hn. destruct (drive_ok d0 evs c0 c Dp Henc Hf Hd Hn) as [Hok _]. split.
  - intros p pd r Hs. pose proof (all_taken d0 c p pd r Hok Hs) as Hall. destruct Hs as [Hp Hr].
    destruct (ok_pods d0 c Hok p pd Hp). destruct (po_room0 r Hr) as (H2 & H3 & H4).
    split_and!; try done. by apply screened_guarded.
  - intros p q pd qd r s Hp Hq Hpa Hqa Hpt Hqt.
    pose proof (all_taken d0 c p pd r Hok Hp Hpa) as H1. pose proof (all_taken d0 c q qd s Hok Hq Hqa) as H2.
    assert (H3 : same (doc (co r)) (replay d0 (sent c))) by (by etrans). split; [|done].
    etrans; [exact H3|]. symmetry. by etrans.
Qed.
End Converging.

(** ** Catching up *)

Section CatchingUp.
Context {Y : YCore} {L : YLaws Y} {Mg : YMerge Y} {Hub : HubEnv} {D : Deployment}.
Context (Dp : deployed D) (Henc : forall d, is_Some (EncodeStateAsUpdateV2 d)) (d0 : Doc).

Definition is_delivery (e : cl_event) : Prop := match e with Receive _ _ | Take _ => True | _ => False end.

(** What was published can be applied in any order, over what a pod held back, without
    leaving the schema. *)
Definition mergeable (c : cluster) : Prop := forall p pd r us,
  serving c p pd r -> us ⊆ sent c ->
  Forall (acceptable d0) us
  /\ validateStoredContent (content (co r)) (replay d0 (us ++ pd_held pd)) = None.

(** Deliveries that lost nothing. *)
Record progress (c c' : cluster) : Prop := {
  pg_run : exists evs, Forall is_delivery evs /\ drive cl_step evs c = Some c';
  pg_ok : cl_ok d0 c -> cl_ok d0 c';
  pg_wire : exists ws, cl_wire c' = (cl_wire c ++ ws)%list /\ updates_in ws = [];
  pg_serves p pd r : serving c p pd r ->
    exists pd' r', serving c' p pd' r' /\ pd_taken pd ⊆ pd_taken pd' /\ pd_held pd' = pd_held pd;
  pg_served p pd' r' : serving c' p pd' r' ->
    exists pd r, serving c p pd r /\ content (co r') = content (co r) /\ pd_held pd' = pd_held pd }.

#[export] Instance progress_preorder : PreOrder progress.
Proof.
  split.
  - intros c. split; [by exists []|done|exists []; by rewrite app_nil_r| |].
    + intros p pd r Hs. by exists pd, r.
    + intros p pd r Hs. by exists pd, r.
  - intros c1 c2 c3 [(e1 & F1 & D1) O1 (w1 & W1 & U1) V1 B1] [(e2 & F2 & D2) O2 (w2 & W2 & U2) V2 B2]. split.
    + exists (e1 ++ e2)%list. split; [by apply Forall_app|]. by rewrite drive_app, D1.
    + auto.
    + exists (w1 ++ w2)%list. by rewrite W2, W1, app_assoc, updates_in_app, U1, U2.
    + intros p pd r Hs. destruct (V1 p pd r Hs) as (pd2 & r2 & Hs2 & Ht & Hh). destruct (V2 p pd2 r2 Hs2) as (pd3 & r3 & Hs3 & Ht3 & Hh3).
      exists pd3, r3. split_and!; [done|by etrans|congruence].
    + intros p pd r Hs. destruct (B2 p pd r Hs) as (pd2 & r2 & Hs2 & Hc & Hh). destruct (B1 p pd2 r2 Hs2) as (pd1 & r1 & Hs1 & Hc1 & Hh1).
      exists pd1, r1. split_and!; [done|congruence..].
Qed.

Lemma pg_sent c c' : progress c c' -> sent c' = sent c.
Proof. intros [_ _ (ws & Hw & Hu) _ _]. unfold sent. by rewrite Hw, updates_in_app, Hu, app_nil_r. Qed.

(** Redis took every update; refusing presence loses nothing that matters here. *)
Definition all_accepted (c : cluster) : Prop := forall m, (m, false) ∈ cl_wire c -> update_in m = None.

Lemma accepted_progress c c' : progress c c' -> all_accepted c -> all_accepted c'.
Proof.
  intros [_ _ (ws & Hw & Hu) _ _] Ha m. rewrite Hw, elem_of_app. intros [Hm|Hm]; [by apply Ha|].
  destruct (update_in m) as [u|] eqn:E; [|done]. exfalso.
  assert (Hin : u ∈ updates_in ws) by (apply list_elem_of_omap; exists m; split; [by apply (list_elem_of_fmap_2 fst) in Hm|done]).
  rewrite Hu in Hin. by apply elem_of_nil in Hin.
Qed.

Lemma mergeable_progress c c' : progress c c' -> mergeable c -> mergeable c'.
Proof.
  intros P Hm p pd r us Hsv Hus. pose proof (pg_sent _ _ P) as Hs. destruct (pg_served _ _ P p pd r Hsv) as (pd1 & r1 & Hsv1 & -> & ->).
  rewrite Hs in Hus. by apply (Hm p pd1 r1).
Qed.

Lemma list_nil_in {A} (l : list A) : (forall x, x ∉ l) -> l = [].
Proof. destruct l as [|x l]; [done|]. intros H. destruct (H x). by left. Qed.

(** A pod moves on: one delivery step that touches only pod [p]. *)
Lemma step_progress e c c' p pd r pd' r' ws :
  cl_step e c = Some c' -> is_delivery e -> (cl_ok d0 c -> cl_ok d0 c') ->
  serving c p pd r -> cl_pods c' = <[p := pd']> (cl_pods c) -> pd_room pd' = Some r' ->
  content (co r') = content (co r) -> pd_taken pd ⊆ pd_taken pd' -> pd_held pd' = pd_held pd ->
  cl_wire c' = (cl_wire c ++ ws)%list -> updates_in ws = [] -> progress c c'.
Proof.
  intros Hs He Hok [Hp Hr] Hpods Hr' Hct Ht Hh Hw Hws. split; [|done|by exists ws| |].
  - exists [e]. split; [by constructor|]. simpl. by rewrite Hs.
  - intros q x y [Hx Hy]. unfold serving. rewrite Hpods, lookup_insert. case_decide as Hpq.
    + subst q. simplify_eq. by exists pd', r'.
    + by exists x, y.
  - intros q x y. unfold serving. rewrite Hpods, lookup_insert. case_decide as Hpq; [|by exists x, y].
    subst q. intros [[= <-] Hy]. exists pd, r. split; [done|]. split; [congruence|done].
Qed.

(** A room in step takes whatever was published. *)
Lemma takes_sent c p pd r u :
  cl_ok d0 c -> mergeable c -> serving c p pd r -> u ∈ sent c -> screens r u = true.
Proof.
  intros Hok Hm Hsv Hu. pose proof Hsv as [Hp Hr].
  destruct (ok_pods d0 c Hok p pd Hp). destruct (po_room0 r Hr) as (_ & Ha & Hs).
  destruct (Hm p pd r (u :: pd_taken pd) (conj Hp Hr)) as [Hall Hv].
  { intros v [Hv|Hv]%elem_of_cons; [by subst v|by apply po_taken0]. }
  apply Forall_cons in Hall as [Hacc0 _]. pose proof (law_accept _ (doc (co r)) _ Hacc0) as Hacc.
  unfold screens. unfold acceptable in Hacc. rewrite Hacc. simpl.
  rewrite (validate_same (content (co r)) _ (replay d0 ((u :: pd_taken pd) ++ pd_held pd))); [by rewrite Hv|].
  transitivity (replay (replay d0 (pd_taken pd ++ pd_held pd)) [u]); [by apply (law_same _ _ u Hs)|].
  rewrite <- replay_app. apply replay_perm; [simpl; symmetry; apply Permutation_cons_append|].
  by apply Forall_app; split; [|apply Forall_singleton].
Qed.

Lemma take_progress c p pd r u queue :
  cl_ok d0 c -> mergeable c -> serving c p pd r -> pd_queue pd = u :: queue ->
  exists c' pd' r', progress c c' /\ serving c' p pd' r' /\ pd_queue pd' = queue
    /\ (pu_ephemeral u = false -> pu_data u ∈ pd_taken pd').
Proof.
  intros Hok Hm Hsv Hq. pose proof Hsv as [Hp Hr].
  destruct (ok_pods d0 c Hok p pd Hp). destruct (po_room0 r Hr) as (Hg & _).
  destruct (@peer_turn_runs Y (env p) L Henc (pu_data u) (pu_ephemeral u) r Hg)
    as (r' & Hrun & (new & Hn & Hu) & Hf).
  assert (Htk : pu_ephemeral u = false -> screens r (pu_data u) = true).
  { intros He. apply (takes_sent c p pd); [done..|]. rewrite Hq in po_queue0.
    apply Forall_cons in po_queue0 as [H _]. by apply H. }
  eassert (Hs : cl_step (Take p) c = Some _).
  { simpl. rewrite Hp. simpl. rewrite Hr. simpl. rewrite Hq, Hrun. unfold turned. simpl.
    rewrite (surjective_pairing (publish_all _ _ _)). reflexivity. }
  eexists _, _, r'. split; [eapply (step_progress (Take p) c _ p pd r)|].
  - exact Hs.
  - done.
  - intros _. by eapply (cl_step_take Dp Henc d0 p c).
  - by split.
  - reflexivity.
  - reflexivity.
  - by apply row_fields_content.
  - simpl. intros v Hv. rewrite !elem_of_app. by right; right.
  - reflexivity.
  - simpl. rewrite (publish_all_wire Dp). reflexivity.
  - rewrite (updates_framed Dp). pose proof (updates_out_rev (turn_effects r r')) as Hrev.
    rewrite (turn_effects_new _ _ _ Hn), Hu in Hrev.
    apply list_nil_in. intros v Hv%Hrev. by apply elem_of_nil in Hv.
  - split; [split; [simpl; apply lookup_insert_eq|reflexivity]|]. split; [done|]. intros He. simpl.
    rewrite He, (Htk He). simpl. rewrite elem_of_app. right. by left.
Qed.

(** A pod empties its queue. *)
Lemma drain_progress queue : forall c p pd r,
  cl_ok d0 c -> mergeable c -> serving c p pd r -> pd_queue pd = queue ->
  exists c' pd' r', progress c c' /\ serving c' p pd' r' /\ pd_queue pd' = []
    /\ forall u, u ∈ queue -> pu_ephemeral u = false -> pu_data u ∈ pd_taken pd'.
Proof.
  induction queue as [|u queue IH]; intros c p pd r Hok Hm Hsv Hq.
  - exists c, pd, r. split_and!; [done..|]. by intros u Hu%elem_of_nil.
  - destruct (take_progress c p pd r u queue Hok Hm Hsv Hq) as (c1 & pd1 & r1 & P1 & Hsv1 & Hq1 & Hu).
    destruct (IH c1 p pd1 r1 (pg_ok _ _ P1 Hok) (mergeable_progress _ _ P1 Hm) Hsv1 Hq1)
      as (c2 & pd2 & r2 & P2 & Hsv2 & Hq2 & Hqu).
    exists c2, pd2, r2. split_and!; [by etrans|done|done|]. intros v [Hv|Hv]%elem_of_cons He; [subst v|by apply Hqu].
    destruct (pg_serves _ _ P2 p pd1 r1 Hsv1) as (pd3 & r3 & Hsv3 & Ht & _). destruct Hsv2, Hsv3. simplify_eq. auto.
Qed.

(** One frame reaches a pod with nothing queued, which takes it. *)
Lemma frame_progress c p pd r i m :
  cl_ok d0 c -> mergeable c -> serving c p pd r -> pd_queue pd = [] -> cl_wire c !! i = Some (m, true) ->
  exists c' pd' r', progress c c' /\ serving c' p pd' r' /\ pd_queue pd' = []
    /\ forall u, update_in m = Some u -> u ∈ pd_taken pd'.
Proof.
  intros Hok Hm Hsv Hq Hi. pose proof Hsv as [Hp Hr].
  pose proof (list_elem_of_fmap_2 fst _ _ (list_elem_of_lookup_2 _ _ _ Hi)) as Hin.
  destruct (ok_wire d0 c Hok m Hin) as (a & e & u & -> & _).
  assert (Hs : exists calls, cl_step (Receive p i) c = Some (put_pod p
    (mkPod (Some r) (if bool_decide (a = p) then [] else [mkPeerUpdate u e]) calls (pd_taken pd) (pd_held pd)) c)).
  { eexists. simpl. unfold receive. rewrite Hp. simpl. rewrite Hi. simpl. rewrite Hr. simpl.
    rewrite (received_frame Dp), Hq. simpl.
    case_bool_decide; reflexivity. }
  destruct Hs as [calls Hs]. set (c1 := put_pod _ _ _) in Hs.
  assert (P1 : progress c c1).
  { eapply (step_progress (Receive p i) c c1 p pd r _ r []); try done.
    - intros _. by eapply (receive_ok Dp d0 p i true c).
    - simpl. by rewrite app_nil_r. }
  destruct (drain_progress _ c1 p _ r (pg_ok _ _ P1 Hok) (mergeable_progress _ _ P1 Hm)
    ltac:(split; [apply lookup_insert_eq|reflexivity]) eq_refl) as (c2 & pd2 & r2 & P2 & Hsv2 & Hq2 & Hqu).
  exists c2, pd2, r2. split_and!; [by etrans|done|done|].
  intros v. rewrite (update_in_frame Dp). destruct e; [done|]. intros [= <-]. simpl in Hqu.
  case_bool_decide as Ha; [|apply (Hqu (mkPeerUpdate u false)); [by left|done]]. subst a.
  assert (P12 : progress c c2) by (by etrans).
  destruct (pg_serves _ _ P12 p pd r (conj Hp Hr)) as (pd3 & r3 & [Hp3 _] & Ht & _).
  destruct Hsv2 as [Hp2 _]. simplify_eq. apply Ht.
  apply (po_own d0 c p pd (ok_pods d0 c Hok p pd Hp)). exact Hin.
Qed.

(** The first [n] frames. *)
Lemma frames_progress n : forall c p pd r,
  cl_ok d0 c -> mergeable c -> all_accepted c -> serving c p pd r -> pd_queue pd = [] ->
  (n <= List.length (cl_wire c))%nat ->
  exists c' pd' r', progress c c' /\ serving c' p pd' r' /\ pd_queue pd' = []
    /\ forall u, u ∈ updates_in (firstn n (cl_wire c)) -> u ∈ pd_taken pd'.
Proof.
  induction n as [|n IH]; intros c p pd r Hok Hm Hacc Hsv Hq Hn.
  - exists c, pd, r. split_and!; [done..|]. by intros u Hu%elem_of_nil.
  - destruct (IH c p pd r Hok Hm Hacc Hsv Hq ltac:(lia)) as (c1 & pd1 & r1 & P1 & Hsv1 & Hq1 & Hu1).
    destruct (lookup_lt_is_Some_2 (cl_wire c) n ltac:(lia)) as [[m ok] Hi].
    assert (Hi1 : cl_wire c1 !! n = Some (m, ok)).
    { destruct (pg_wire _ _ P1) as (ws & -> & _). by apply lookup_app_l_Some. }
    rewrite (take_S_r _ _ _ Hi), updates_in_app. unfold updates_in at 2. simpl.
    destruct ok; [|exists c1, pd1, r1; split_and!; [done..|]; rewrite (Hacc m) by (by eapply list_elem_of_lookup_2);
                    intros u; rewrite app_nil_r; apply Hu1].
    destruct (frame_progress c1 p pd1 r1 n m (pg_ok _ _ P1 Hok) (mergeable_progress _ _ P1 Hm) Hsv1 Hq1 Hi1)
      as (c2 & pd2 & r2 & P2 & Hsv2 & Hq2 & Hu2).
    exists c2, pd2, r2. split_and!; [by etrans|done|done|]. intros u [Hu|Hu]%elem_of_app.
    + destruct (pg_serves _ _ P2 p pd1 r1 Hsv1) as (pd3 & r3 & [Hp3 _] & Ht & _).
      destruct Hsv2 as [Hp2 _]. simplify_eq. by apply Ht, Hu1.
    + apply Hu2. destruct (update_in m); [|by apply elem_of_nil in Hu].
      apply list_elem_of_singleton in Hu. by subst u.
Qed.

(** Pod [p] has taken all that was published. *)
Definition caught_up (c : cluster) (p : host) : Prop :=
  forall pd r, serving c p pd r -> sent c ⊆ pd_taken pd.

Lemma caught_up_progress c c' p : progress c c' -> caught_up c p -> caught_up c' p.
Proof.
  intros P Hc pd' r' Hsv. destruct (pg_served _ _ P p pd' r' Hsv) as (pd & r & Hsv0 & _).
  destruct (pg_serves _ _ P p pd r Hsv0) as (pd2 & r2 & [Hp2 _] & Ht & _). destruct Hsv as [Hp' _]. simplify_eq.
  rewrite (pg_sent _ _ P). etrans; [by apply (Hc pd r)|done].
Qed.

Lemma pod_progress c p :
  cl_ok d0 c -> mergeable c -> all_accepted c -> exists c', progress c c' /\ caught_up c' p.
Proof.
  intros Hok Hm Hacc.
  destruct (cl_pods c !! p) as [pd|] eqn:Hp; [|by exists c; split; [|intros pd r [H _]; simplify_eq]].
  destruct (pd_room pd) as [r|] eqn:Hr; [|by exists c; split; [|intros x y [H H']; simplify_eq]].
  destruct (drain_progress _ c p pd r Hok Hm (conj Hp Hr) eq_refl) as (c1 & pd1 & r1 & P1 & Hsv1 & Hq1 & _).
  destruct (frames_progress _ c1 p pd1 r1 (pg_ok _ _ P1 Hok) (mergeable_progress _ _ P1 Hm)
    (accepted_progress _ _ P1 Hacc) Hsv1 Hq1 (Nat.le_refl _))
    as (c2 & pd2 & r2 & P2 & Hsv2 & _ & Hu).
  exists c2. split; [by etrans|]. intros x y [Hx _]. destruct Hsv2 as [Hp2 _]. simplify_eq.
  rewrite (pg_sent _ _ P2). unfold sent. rewrite firstn_all in Hu. exact Hu.
Qed.

Lemma pods_progress (ps : list host) : forall c,
  cl_ok d0 c -> mergeable c -> all_accepted c -> exists c', progress c c' /\ forall p, p ∈ ps -> caught_up c' p.
Proof.
  induction ps as [|p ps IH]; intros c Hok Hm Hacc; [by exists c; split; [|intros p ?%elem_of_nil]|].
  destruct (pod_progress c p Hok Hm Hacc) as (c1 & P1 & H1).
  destruct (IH c1 (pg_ok _ _ P1 Hok) (mergeable_progress _ _ P1 Hm) (accepted_progress _ _ P1 Hacc))
    as (c2 & P2 & H2).
  exists c2. split; [by etrans|]. intros q [Hq|Hq]%elem_of_cons; [subst q; by eapply caught_up_progress|by apply H2].
Qed.
End CatchingUp.

Section Catching.
Context {Y : YCore} {L : YLaws Y} {Mg : YMerge Y} {Hub : HubEnv} {D : Deployment}.

(** C14: delivering is enough.  From any cluster that came about, as long as
    Redis took every update and what was published merges within the schema, some
    deliveries, and nothing else, leave every pod that was serving still serving, with
    the opened document, every published update and what its own turns left waiting, none
    added; where that was published too, with the published updates alone. *)
Theorem pods_can_converge (d0 : Doc) (evs : list cl_event) (c0 c : cluster) :
  deployed D -> (forall d, is_Some (EncodeStateAsUpdateV2 d)) ->
  fresh d0 c0 -> drive cl_step evs c0 = Some c -> (Z.of_nat (List.length evs) < 2 ^ 64)%Z ->
  mergeable d0 c -> all_accepted c ->
  exists deliveries c', Forall is_delivery deliveries /\ drive cl_step deliveries c = Some c'
    /\ sent c' = sent c
    /\ forall p pd r, serving c p pd r -> exists pd' r', serving c' p pd' r'
         /\ same (doc (co r')) (replay d0 (sent c ++ pd_held pd))
         /\ (told d0 c pd -> same (doc (co r')) (replay d0 (sent c))).
Proof.
  intros Dp Henc Hf Hd Hn Hm Hacc. destruct (drive_ok d0 evs c0 c Dp Henc Hf Hd Hn) as [Hok _].
  destruct (pods_progress Dp Henc d0 (map_to_list (cl_pods c)).*1 c Hok Hm Hacc) as (c' & P & Hall).
  destruct (pg_run _ _ _ P) as (ds & Fd & Dd). pose proof (pg_sent _ _ _ P) as Hs.
  exists ds, c'. split_and!; [done|done|done|].
  intros p pd r Hsv. destruct (pg_serves _ _ _ P p pd r Hsv) as (pd' & r' & Hsv' & _ & Hh).
  exists pd', r'. split; [done|].
  assert (Hin : p ∈ (map_to_list (cl_pods c)).*1).
  { apply list_elem_of_fmap. exists (p, pd). split; [done|]. by apply elem_of_map_to_list, Hsv. }
  pose proof (all_taken d0 c' p pd' r' (pg_ok _ _ _ P Hok) Hsv' (Hall p Hin pd' r' Hsv')) as Hd'.
  rewrite Hs, Hh in Hd'. split; [done|]. intros Ht. by etrans.
Qed.
End Catching.

(** ** Two pods *)

(** A core that merges and lets updates wait: a document is a set of characters; a capital
    letter waits for its small one; an update starting with an exclamation mark is
    refused. *)
Definition letters (s : string) : gset ascii := list_to_set (list_ascii_of_string s).
Definition chars (s : string) : gset ascii := letters s ∖ {["!"%char]}.
Definition str (d : gset ascii) : string := string_of_list_ascii (elements d).

Definition ready (d : gset ascii) (c : ascii) : bool :=
  let n := N_of_ascii c in
  if ((65 <=? n) && (n <=? 90))%N then bool_decide (ascii_of_N (n + 32) ∈ d) else true.
Definition settled (d : gset ascii) : gset ascii := filter (fun c => ready d c = true) d.
Definition as_update (d : gset ascii) : list string := if decide (d = ∅) then [] else [str d].

Definition refused (u : string) : bool :=
  match u with String c _ => Ascii.eqb c "!" | EmptyString => false end.

Definition set_apply (d : gset ascii) (u : string) : applied (gset ascii) :=
  if refused u then mkApplied d [] false
  else mkApplied (chars u ∪ d) (as_update (settled (chars u ∪ d) ∖ settled d)) true.

Lemma letters_str d : letters (str d) = d.
Proof. unfold letters, str. rewrite list_ascii_of_string_of_list_ascii. set_solver. Qed.

Lemma ready_mono d d' c : d ⊆ d' -> ready d c = true -> ready d' c = true.
Proof. intros H. unfold ready. case_match; [|done]. rewrite !bool_decide_eq_true. apply H. Qed.

Lemma settled_mono d d' : d ⊆ d' -> settled d ⊆ settled d'.
Proof.
  intros H c. unfold settled. rewrite !elem_of_filter. intros [Hr Hc]. split; [by eapply ready_mono|by apply H].
Qed.

Lemma settled_sub d : settled d ⊆ d.
Proof. unfold settled. intros c. by rewrite elem_of_filter; intros [_ ?]. Qed.

(** What was left out of a document that has all of [d], applied to it. *)
Lemma apply_as_update (a e : gset ascii) :
  "!"%char ∉ e -> let us := as_update e in
  Forall (fun u => refused u = false) us /\ fold_left (fun d u => ap_doc (set_apply d u)) us a = e ∪ a.
Proof.
  intros He. unfold as_update. case_decide as Hd; simpl; [split; [constructor|]; set_solver|].
  assert (Hr : refused (str e) = false).
  { unfold str. destruct (elements e) as [|c l] eqn:El; [done|]. simpl. apply Ascii.eqb_neq. intros ->.
    apply He, elem_of_elements. rewrite El. by left. }
  split; [by apply Forall_singleton|]. unfold set_apply. rewrite Hr. simpl. unfold chars. rewrite letters_str.
  set_solver.
Qed.

Lemma settled_bang d : "!"%char ∈ d -> "!"%char ∈ settled d.
Proof. intros H. unfold settled. by rewrite elem_of_filter. Qed.

Module Merging.
#[local] Instance core : YCore := {|
  Doc := gset ascii;
  NewDoc := fun _ => ∅;
  ApplyUpdate := set_apply;
  ApplyUpdateV2 := fun d u => mkApplied (letters u ∪ d) [u] true;
  EncodeStateAsUpdate := fun d => Some (str d);
  EncodeStateAsUpdateV2 := fun d => Some (str d);
  EncodeStateVectorFromUpdateV2 := fun s => Some (String "v" s);
  GetRoot := fun _ _ d => d;
  map_entries := fun d _ => if bool_decide ("@"%char ∈ d) then [("img"%string, YString "data:x")] else [];
  image_srcs := fun d _ => if bool_decide ("@"%char ∈ d) then [Some (YString "data:x")] else [];
  Awareness := @Awareness toy;
  NewAwareness := fun _ => [];
  ClearLocalState := @ClearLocalState toy;
  ApplyAwarenessUpdate := @ApplyAwarenessUpdate toy;
  RemoveAwarenessStates := @RemoveAwarenessStates toy;
  EncodeAwarenessUpdate := @EncodeAwarenessUpdate toy;
  GetStates := @GetStates toy;
  InspectMessage := @InspectMessage toy;
  ReadMessage := @ReadMessage toy;
  WriteMessage := @WriteMessage toy;
  EncodeUpdate := @EncodeUpdate toy;
  EncodeAwarenessUpdateMessage := @EncodeAwarenessUpdateMessage toy;
  DecodeAwarenessMessage := @DecodeAwarenessMessage toy;
  EncodeSyncStep1 := fun d => ("00" +:+ str d)%string;
  EncodeSyncStep2 := fun d _ => Some ("01" +:+ str d)%string |}.

#[local] Instance laws : YLaws core.
Proof.
  refine {| same := fun d d' : @Doc core => d = d' |}; simpl; try congruence; try done.
  - intros _ d b [= <-]. split; [done|]. rewrite letters_str. set_solver.
  - intros d d' u ->. done.
  - by intros d d' _ ->.
  - by intros d d' _ ->.
Defined.

Lemma acceptable_iff d u : @acceptable core d u <-> refused u = false.
Proof. unfold acceptable. simpl. unfold set_apply. by destruct (refused u). Qed.

#[local] Instance merge : YMerge core.
Proof.
  refine {| integrated := settled : @Doc core -> @Doc core;
            waiting := fun d : @Doc core => as_update (d ∖ settled d) |}.
  - intros d d' u. by rewrite !acceptable_iff.
  - intros d u v. rewrite !acceptable_iff. intros Hu Hv. simpl. unfold set_apply. rewrite Hu, Hv. simpl. set_solver.
  - intros d u. rewrite !acceptable_iff. intros Hu. simpl. unfold set_apply. rewrite Hu. simpl. set_solver.
  - intros d. destruct (apply_as_update (settled d) (d ∖ settled d)) as [H1 H2].
    { intros [H3 H4]%elem_of_difference. by apply H4, settled_bang. }
    split; [eapply Forall_impl; [exact H1|]; intros u; by rewrite acceptable_iff|].
    unfold replay. simpl in *. rewrite H2. pose proof (settled_sub d). apply set_eq. intros c.
    destruct (decide (c ∈ settled d)); set_solver.
  - intros d u. rewrite !acceptable_iff. intros Hu. simpl. unfold set_apply. rewrite Hu. simpl.
    destruct (apply_as_update (settled d) (settled (chars u ∪ d) ∖ settled d)) as [H1 H2].
    { intros [H3%settled_sub H4]%elem_of_difference. apply elem_of_union in H3 as [H3|H3]; [|by apply H4, settled_bang].
      unfold chars in H3. set_solver. }
    split; [eapply Forall_impl; [exact H1|]; intros v; by rewrite acceptable_iff|].
    unfold replay. simpl in *. rewrite H2. pose proof (settled_mono d (chars u ∪ d)). apply set_eq. intros c.
    destruct (decide (c ∈ settled d)); set_solver.
Defined.
End Merging.

Module TwoPods.
#[local] Existing Instances Merging.core Merging.laws Merging.merge.

#[local] Instance deployment : Deployment := {|
  host := bool;
  documentID := "doc";
  env := fun _ => healthy;
  instance := fun p => if p then "pod-a" else "pod-b";
  source := fun p => if p then "room-a" else "room-b";
  subs := fun p => {["doc"%string := {[1%Z := mkSub "doc" 1 (if p then "room-a" else "room-b")]}]};
  sid := fun _ => 1%Z |}.

Lemma is_deployed : deployed deployment.
Proof.
  split; simpl; try done; try (by intros [] []); try (by intros []).
Qed.

(** A memo holding nothing yet, open on both pods. *)
Definition room0 : Room :=
  mkRoom (mkCore ContentTypeMemo (∅ : @Doc Merging.core) (Some (∅ : @Doc Merging.core)) stateActive 0 false 0 0 None 0
            None ∅ 0 None 0 None (Some (30 * second)%Z) false true "" "" "") ∅ [] ∅ [EMetric RoomOpened].
Definition pod0 : pod := mkPod (Some room0) [] [] [] [].
Definition cluster0 : cluster := mkCluster {[true := pod0; false := pod0]} [].

(** Both pods have an editor; each edits before it hears of the other.  The second
    update of the first pod waits wherever the first is missing. *)
Definition edits (p : bool) (fs : list bytes) : list cl_event :=
  map (Turn p) ([join_as 1 ModeCollaborator; activate_id 1] ++ map (sends 1) fs).
Definition edited : list cl_event :=
  (edits true ["02ab"; "02Bx"] ++ edits false ["02cd"; "02!no"])%list%string.
(** The frames arrive in the wrong order and twice, and an edit comes in between. *)
Definition concurrent : list cl_event :=
  (edited ++ [Receive false 1; Take false; Turn false (sends 1 "02f"); Receive true 2; Receive false 1;
              Receive false 0; Receive true 0; Receive true 3; Take false; Take true; Take false; Take true])%list%string.
(** The editor of the second pod sends what waits for an update nobody made. *)
Definition waiting_edit : list cl_event := (edited ++ [Turn false (sends 1 "02E")])%list%string.

(** Another pod makes that update in the end, and everything published is delivered. *)
Definition completed_elsewhere : list cl_event :=
  (waiting_edit ++ [Turn true (sends 1 "02e"); Receive false 0; Receive false 1; Receive false 3; Receive true 2;
                    Take false; Take false; Take false; Take true])%list%string.

Definition reached (evs : list cl_event) : cluster := default cluster0 (drive cl_step evs cluster0).
Definition cluster1 : cluster := reached concurrent.
Definition cluster_w : cluster := reached waiting_edit.
Definition cluster_d : cluster := reached completed_elsewhere.
Definition pod_in (c : cluster) (p : bool) : pod := default pod0 (cl_pods c !! p).
Definition room_in (c : cluster) (p : bool) : Room := default room0 (pd_room (pod_in c p)).
(** Both pods came through and serve. *)
Definition is_some {A} (o : option A) : bool := match o with Some _ => true | None => false end.

Lemma is_some_default {A} (d : A) o : is_some o = true -> o = Some (default d o).
Proof. by destruct o. Qed.

Lemma ran : drive cl_step concurrent cluster0 = Some cluster1.
Proof. apply is_some_default. vm_compute. reflexivity. Qed.
Lemma ran_waiting : drive cl_step waiting_edit cluster0 = Some cluster_w.
Proof. apply is_some_default. vm_compute. reflexivity. Qed.

Lemma serving_at p : serving cluster1 p (pod_in cluster1 p) (room_in cluster1 p).
Proof. destruct p; (split; apply is_some_default; vm_compute; reflexivity). Qed.
Lemma serving_waiting p : serving cluster_w p (pod_in cluster_w p) (room_in cluster_w p).
Proof. destruct p; (split; apply is_some_default; vm_compute; reflexivity). Qed.

Lemma cluster0_fresh : fresh (∅ : @Doc Merging.core) cluster0.
Proof.
  split; [done|]. intros p pd Hp. unfold cluster0, cl_pods in Hp.
  assert (Hpd : pd = pod0).
  { destruct p; [rewrite lookup_insert_eq in Hp|rewrite lookup_insert_ne, lookup_singleton_eq in Hp by done]; congruence. }
  subst pd.
  split_and!; [done..|]. exists room0. split_and!; try done.
  exists ∅. split_and!; [done..|]. by apply validateStoredContent_None.
Qed.

Definition included (us vs : list bytes) : bool := forallb (fun u => bool_decide (u ∈ vs)) us.

Lemma included_sub us vs : included us vs = true -> us ⊆ vs.
Proof.
  unfold included. rewrite forallb_forall. intros H u Hu. apply list_elem_of_In in Hu.
  by apply H, bool_decide_eq_true in Hu.
Qed.

Lemma everything_taken p : sent cluster1 ⊆ pd_taken (pod_in cluster1 p).
Proof. apply included_sub. destruct p; vm_compute; reflexivity. Qed.

(** What waited in the second pod when it made a turn of its own was the first pod's. *)
Lemma everything_told p : told (∅ : @Doc Merging.core) cluster1 (pod_in cluster1 p).
Proof. destruct p; vm_compute; reflexivity. Qed.

Lemma pods_converge_witness :
  sent cluster1 = ["ab"; "Bx"; "cd"; "f"]%string
  /\ pd_taken (pod_in cluster1 false) = ["ab"; "Bx"; "f"; "Bx"; "cd"]%string
  /\ pd_held (pod_in cluster1 false) = ["B"]%string
  /\ doc (co (room_in cluster1 true)) = doc (co (room_in cluster1 false))
  /\ doc (co (room_in cluster1 true)) = @replay Merging.core ∅ (sent cluster1).
Proof.
  do 3 (split; [vm_compute; reflexivity|]).
  exact (proj2 (@pods_converge Merging.core Merging.laws Merging.merge quiet_hub deployment ∅ concurrent
    cluster0 cluster1 is_deployed (fun d => ex_intro _ _ eq_refl) cluster0_fresh ran eq_refl)
    true false _ _ _ _ (serving_at true) (serving_at false) (everything_taken true) (everything_taken false)
    (everything_told true) (everything_told false)).
Defined.

(** Without [told] pods part: an edit that waited in one pod was completed by another's
    update, and is published by neither. *)
Example pods_part :
  forallb (fun p => included (sent cluster_d) (pd_taken (pod_in cluster_d p))) [true; false] = true
  /\ map (fun p => waiting (doc (co (room_in cluster_d p)))) [true; false] = [[]; []]
  /\ doc (co (room_in cluster_d false)) = doc (co (room_in cluster_d true)) ∪ {["E"%char]}
  /\ "E"%char ∉ doc (co (room_in cluster_d true)).
Proof. split_and!; [vm_compute; reflexivity..|]. by vm_compute. Qed.

Definition updates : list bytes := ["ab"; "Bx"; "cd"; "E"]%string.

(** Nothing that was sent holds an inline image. *)
Lemma no_image us : us ⊆ updates -> forall d : gset ascii, "@"%char ∉ d ->
  Forall (@acceptable Merging.core ∅) us /\ "@"%char ∉ @replay Merging.core d us.
Proof.
  induction us as [|u us IH]; intros Hus d Hd; [by split; [constructor|]|].
  assert (Hu : @acceptable Merging.core ∅ u /\ @ap_doc (gset ascii) (set_apply d u) = chars u ∪ d /\ "@"%char ∉ chars u).
  { assert (Hin : u ∈ updates) by (apply Hus; left). unfold updates in Hin.
    repeat (apply elem_of_cons in Hin as [->|Hin]; [split_and!; [done|done|by vm_compute]|]).
    by apply elem_of_nil in Hin. }
  destruct Hu as (H1 & H2 & H3).
  destruct (IH ltac:(set_solver) (chars u ∪ d) ltac:(set_solver)) as [H4 H5].
  split; [by constructor|]. unfold replay in *. simpl. by rewrite H2.
Qed.

Lemma memo_waiting p : content (co (room_in cluster_w p)) = ContentTypeMemo.
Proof. destruct p; vm_compute; reflexivity. Qed.

Lemma known_updates p : included (sent cluster_w ++ pd_held (pod_in cluster_w p)) updates = true.
Proof. destruct p; vm_compute; reflexivity. Qed.

Lemma waiting_mergeable : mergeable ∅ cluster_w.
Proof.
  intros p pd r us [Hp Hr] Hus. pose proof (included_sub _ _ (known_updates p)) as Hk.
  destruct (serving_waiting p) as [Hp' Hr']. rewrite Hp' in Hp. apply (inj Some) in Hp as <-.
  rewrite Hr' in Hr. apply (inj Some) in Hr as <-.
  assert (Hus1 : us ⊆ updates).
  { intros u Hu. apply Hk, elem_of_app. left. by apply Hus. }
  assert (Hus2 : us ++ pd_held (pod_in cluster_w p) ⊆ updates).
  { intros u [Hu|Hu]%elem_of_app; [by apply Hus1|]. apply Hk, elem_of_app. by right. }
  destruct (no_image us Hus1 ∅ (not_elem_of_empty _)) as [H1 _]. split; [exact H1|].
  destruct (no_image _ Hus2 ∅ (not_elem_of_empty _)) as [_ H2].
  apply validateStoredContent_None. rewrite memo_waiting. split; [done|]. intros _. simpl.
  rewrite bool_decide_eq_false_2 by exact H2. constructor.
Qed.

Lemma waiting_accepted : all_accepted cluster_w.
Proof.
  assert (H : forallb snd (cl_wire cluster_w) = true) by (vm_compute; reflexivity).
  rewrite forallb_forall in H. intros m Hm%list_elem_of_In%H. done.
Qed.

Lemma pods_can_converge_witness :
  pd_held (pod_in cluster_w false) = ["E"]%string
  /\ exists ds c', Forall is_delivery ds /\ drive cl_step ds cluster_w = Some c'
       /\ (exists pd r, serving c' true pd r /\ doc (co r) = @replay Merging.core ∅ (sent cluster_w))
       /\ exists pd r, serving c' false pd r /\ doc (co r) = @replay Merging.core ∅ (sent cluster_w ++ ["E"]%string).
Proof.
  assert (Hh : pd_held (pod_in cluster_w false) = ["E"]%string) by (vm_compute; reflexivity). split; [exact Hh|].
  destruct (@pods_can_converge Merging.core Merging.laws Merging.merge quiet_hub deployment ∅ waiting_edit
    cluster0 cluster_w is_deployed (fun d => ex_intro _ _ eq_refl) cluster0_fresh ran_waiting eq_refl waiting_mergeable
    waiting_accepted)
    as (ds & c' & H1 & H2 & _ & H3).
  exists ds, c'. split; [exact H1|]. split; [exact H2|]. split.
  - destruct (H3 true _ _ (serving_waiting true)) as (pd & r & Hs & _ & Ht). exists pd, r.
    split; [exact Hs|]. apply Ht. vm_compute. reflexivity.
  - destruct (H3 false _ _ (serving_waiting false)) as (pd & r & Hs & Hd & _). exists pd, r.
    split; [exact Hs|]. rewrite Hh in Hd. exact Hd.
Defined.
End TwoPods.
