(* ===== verification/Hub.v ===== *)
(** * The Redis hub: subscriptions and pumps (adapter/outbound/hub/redis/hub.go)

    A hub keeps, per document, its local subscribers and at most one PUMP, the Redis
    subscription they share.  [Subscribe] opens a pump off the lock, so several calls
    for one document may race each other, handles being closed and the hub's own
    [Close].  Every section of the code under [Hub.mu] is one event of the machine
    [step]; a pump's goroutine ends in an event of its own. *)

From stdpp Require Import base gmap sets list strings.
From Stdlib Require Import ZArith String Lia.
From S2P Require Import Prelude Control HubWire.

Local Open Scope string_scope.

(** ** State *)

Inductive pump_state := PRunning | PStopping | PStopped.
#[export] Instance pump_state_eq_dec : EqDecision pump_state.
Proof. solve_decision. Defined.

(** Where a call of [Subscribe] is: opening its pump off the lock, holding one it
    opened, about to take its entry back ([answered] says whether it still returns the
    handle), returned with an open handle, with a closed one, or failed. *)
Inductive sub_pc :=
| SStarting (sub : subscription)
| SUp (sub : subscription) (p : nat)
| SCleanup (sub : subscription) (answered : bool)
| SOpen (sub : subscription)
| SShut (sub : subscription)
| SFailed (e : hubError).

(** [pumps] maps a document to its pump and the pump's reference count; [runs] are the
    pump goroutines ever started. *)
Record hub := mkHub {
  h_closed : bool;
  nextID : Z;
  subs : registry;
  pumps : gmap DocumentID (nat * Z);
  calls : gmap nat sub_pc;
  runs : gmap nat (DocumentID * pump_state);
  nextPump : nat }.

Definition NewWithClient : hub := mkHub false 0 ∅ ∅ ∅ ∅ 0.

Definition set_subs (m : registry) (s : hub) : hub :=
  mkHub (h_closed s) (nextID s) m (pumps s) (calls s) (runs s) (nextPump s).
Definition set_pumps (m : gmap DocumentID (nat * Z)) (s : hub) : hub :=
  mkHub (h_closed s) (nextID s) (subs s) m (calls s) (runs s) (nextPump s).
Definition set_call (k : nat) (pc : sub_pc) (s : hub) : hub :=
  mkHub (h_closed s) (nextID s) (subs s) (pumps s) (<[k := pc]> (calls s)) (runs s) (nextPump s).
Definition set_runs (m : gmap nat (DocumentID * pump_state)) (s : hub) : hub :=
  mkHub (h_closed s) (nextID s) (subs s) (pumps s) (calls s) m (nextPump s).

(** [pump.stop]: the cancellation; the goroutine's end is [EvStopped]. *)
Definition stop (p : nat) (s : hub) : hub :=
  set_runs (alter (fun x => (x.1, PStopping)) p (runs s)) s.

(** ** Operations *)

(** [removeSubscriber] *)
Definition removeSubscriber (doc : DocumentID) (id : Z) (s : hub) : hub :=
  match subs s !! doc with
  | None => s
  | Some m =>
      match m !! id with
      | None => s
      | Some _ =>
          let m' := delete id m in
          let s1 := set_subs (if bool_decide (m' = ∅) then delete doc (subs s)
                              else <[doc := m']> (subs s)) s in
          match pumps s !! doc with
          | None => s1
          | Some (p, refs) =>
              if (refs - 1 <=? 0)%Z then stop p (set_pumps (delete doc (pumps s)) s1)
              else set_pumps (<[doc := (p, (refs - 1)%Z)]> (pumps s)) s1
          end
      end
  end.

(** The first section of [Subscribe], with the checks before it. *)
Definition Subscribe (k : nat) (doc : DocumentID) (source : string) (nil_fn ctx_err : bool) (s : hub) : hub :=
  if ctx_err then set_call k (SFailed ErrContext) s
  else if String.eqb doc "" || nil_fn then set_call k (SFailed ErrInvalidMessage) s
  else if h_closed s then set_call k (SFailed ErrClosed) s
  else
    let id := u64 (nextID s + 1) in
    let sub := mkSub doc id source in
    let s1 := mkHub (h_closed s) id (<[doc := <[id := sub]> (subscribers (subs s) doc)]> (subs s))
                (pumps s) (calls s) (runs s) (nextPump s) in
    match pumps s !! doc with
    | Some (p, refs) => set_call k (SOpen sub) (set_pumps (<[doc := (p, (refs + 1)%Z)]> (pumps s)) s1)
    | None => set_call k (SStarting sub) s1
    end.

(** Its second section, once its pump [p] is up. *)
Definition install (k : nat) (sub : subscription) (p : nat) (s : hub) : hub :=
  if h_closed s then stop p (set_call k (SFailed ErrClosed) s)
  else
    let doc := sub_doc sub in
    let live := Z.of_nat (size (subscribers (subs s) doc)) in
    match pumps s !! doc with
    | Some (raced, _) =>
        stop p (set_call k (if (live =? 0)%Z then SCleanup sub true else SOpen sub)
                  (set_pumps (<[doc := (raced, live)]> (pumps s)) s))
    | None =>
        if (live =? 0)%Z then stop p (set_call k (SOpen sub) s)
        else set_call k (SOpen sub) (set_pumps (<[doc := (p, live)]> (pumps s)) s)
    end.

(** [Hub.Close]: every installed pump is stopped. *)
Definition Close (s : hub) : hub :=
  if h_closed s then s
  else
    let stopped := (map_to_list (pumps s)).*2.*1 in
    mkHub true (nextID s) ∅ ∅ (calls s)
      (foldr (fun p m => alter (fun x => (x.1, PStopping)) p m) (runs s) stopped) (nextPump s).

Inductive event :=
| EvSubscribe (k : nat) (doc : DocumentID) (source : string) (nil_fn ctx_err : bool)
| EvPumpUp (k : nat)
| EvPumpFail (k : nat)
| EvInstall (k : nat)
| EvCleanup (k : nat)
| EvCloseSub (k : nat)
| EvStopped (p : nat)
| EvClose.

Definition step (ev : event) (s : hub) : option hub :=
  match ev with
  | EvSubscribe k doc source nil_fn ctx_err =>
      match calls s !! k with Some _ => None | None => Some (Subscribe k doc source nil_fn ctx_err s) end
  | EvPumpUp k =>
      match calls s !! k with
      | Some (SStarting sub) =>
          Some (set_call k (SUp sub (nextPump s))
                  (mkHub (h_closed s) (nextID s) (subs s) (pumps s) (calls s)
                     (<[nextPump s := (sub_doc sub, PRunning)]> (runs s)) (S (nextPump s))))
      | _ => None
      end
  | EvPumpFail k =>
      match calls s !! k with Some (SStarting sub) => Some (set_call k (SCleanup sub false) s) | _ => None end
  | EvInstall k =>
      match calls s !! k with Some (SUp sub p) => Some (install k sub p s) | _ => None end
  | EvCleanup k =>
      match calls s !! k with
      | Some (SCleanup sub answered) =>
          Some (set_call k (if answered : bool then SShut sub else SFailed ErrRedis)
                  (removeSubscriber (sub_doc sub) (sub_id sub) s))
      | _ => None
      end
  | EvCloseSub k =>
      match calls s !! k with
      | Some (SOpen sub) => Some (set_call k (SShut sub) (removeSubscriber (sub_doc sub) (sub_id sub) s))
      | _ => None
      end
  | EvStopped p =>
      match runs s !! p with
      | Some (doc, PStopping) => Some (set_runs (<[p := (doc, PStopped)]> (runs s)) s)
      | _ => None
      end
  | EvClose => Some (Close s)
  end.

(** ** The invariant *)

(** The registered subscription a call stands for. *)
Definition holds (pc : sub_pc) : option subscription :=
  match pc with
  | SStarting sub | SUp sub _ | SCleanup sub false | SOpen sub => Some sub
  | _ => None
  end.

(** Who is registered: exactly the subscriptions some call holds, under fresh ids. *)
Record registered (s : hub) : Prop := mkRegistered {
  r_next : (0 <= nextID s)%Z;
  r_ids : forall k pc sub, calls s !! k = Some pc -> holds pc = Some sub -> (1 <= sub_id sub <= nextID s)%Z;
  r_own : forall k k' pc pc' sub sub',
    calls s !! k = Some pc -> calls s !! k' = Some pc' -> holds pc = Some sub -> holds pc' = Some sub' ->
    sub_id sub = sub_id sub' -> k = k';
  r_live : forall k pc sub, h_closed s = false -> calls s !! k = Some pc -> holds pc = Some sub ->
    subscribers (subs s) (sub_doc sub) !! sub_id sub = Some sub;
  r_held : forall doc id sub, subscribers (subs s) doc !! id = Some sub ->
    sub_doc sub = doc /\ sub_id sub = id /\ exists k pc, calls s !! k = Some pc /\ holds pc = Some sub;
  r_clean : forall k sub, calls s !! k <> Some (SCleanup sub true);
  r_closed : h_closed s = true -> subs s = ∅ }.

(** Which pumps run: the installed ones, referenced once per subscriber, and those a
    call has opened and not yet installed or stopped. *)
Record pumped (s : hub) : Prop := mkPumped {
  p_refs : forall doc p r, pumps s !! doc = Some (p, r) ->
    r = Z.of_nat (size (subscribers (subs s) doc)) /\ (1 <= r)%Z /\ runs s !! p = Some (doc, PRunning);
  p_fed : forall k sub, h_closed s = false -> calls s !! k = Some (SOpen sub) -> is_Some (pumps s !! sub_doc sub);
  p_up : forall k sub p, calls s !! k = Some (SUp sub p) ->
    runs s !! p = Some (sub_doc sub, PRunning) /\ forall doc r, pumps s !! doc <> Some (p, r);
  p_up1 : forall k k' sub sub' p, calls s !! k = Some (SUp sub p) -> calls s !! k' = Some (SUp sub' p) -> k = k';
  p_run : forall p doc, runs s !! p = Some (doc, PRunning) ->
    (exists r, pumps s !! doc = Some (p, r)) \/ (exists k sub, calls s !! k = Some (SUp sub p));
  p_fresh : forall p x, runs s !! p = Some x -> p < nextPump s;
  p_closed : h_closed s = true -> pumps s = ∅ }.

Definition good (s : hub) : Prop := registered s /\ pumped s.

Lemma subscribers_insert m doc x d :
  subscribers (<[doc := x]> m) d = if decide (doc = d) then x else subscribers m d.
Proof. unfold subscribers. rewrite lookup_insert. by case_decide. Qed.

Lemma subscribers_delete m doc d :
  subscribers (delete doc m) d = if decide (doc = d) then ∅ else subscribers m d.
Proof. unfold subscribers. rewrite lookup_delete. by case_decide. Qed.

Lemma subscribers_empty d : subscribers ∅ d = ∅.
Proof. unfold subscribers. by rewrite lookup_empty. Qed.

(** What [removeSubscriber] does, when its subscription is registered and when not. *)
Lemma remove_absent s doc id : subscribers (subs s) doc !! id = None -> removeSubscriber doc id s = s.
Proof.
  unfold subscribers, removeSubscriber. destruct (subs s !! doc) as [m|]; simpl; [|done].
  by intros ->.
Qed.

Lemma remove_subs s doc id d :
  subscribers (subs (removeSubscriber doc id s)) d
  = if decide (doc = d) then delete id (subscribers (subs s) d) else subscribers (subs s) d.
Proof.
  unfold removeSubscriber. destruct (subs s !! doc) as [m|] eqn:Hm.
  2: { case_decide; [subst|done]. unfold subscribers. rewrite Hm. simpl. by rewrite delete_empty. }
  destruct (m !! id) as [sub|] eqn:Hi.
  2: { case_decide; [subst|done]. unfold subscribers. rewrite Hm. simpl. by rewrite delete_id. }
  assert (Hs : forall s1, subs s1 = (if bool_decide (delete id m = ∅) then delete doc (subs s)
      else <[doc := delete id m]> (subs s)) ->
    subscribers (subs s1) d = if decide (doc = d) then delete id (subscribers (subs s) d)
                              else subscribers (subs s) d).
  { intros s1 ->. case_bool_decide as He.
    - rewrite subscribers_delete. case_decide; [subst|done]. unfold subscribers. rewrite Hm. simpl. by rewrite He.
    - rewrite subscribers_insert. case_decide; [subst|done]. unfold subscribers. by rewrite Hm. }
  destruct (pumps s !! doc) as [[p r]|]; [destruct (_ <=? _)%Z|]; by apply Hs.
Qed.

Lemma remove_frame s doc id (s' := removeSubscriber doc id s) :
  h_closed s' = h_closed s /\ nextID s' = nextID s /\ calls s' = calls s /\ nextPump s' = nextPump s
  /\ (subs s = ∅ -> subs s' = ∅).
Proof.
  subst s'. unfold removeSubscriber. repeat case_match; simpl; split_and!; try done; intros Hs;
    rewrite Hs in *; done.
Qed.

(** How the pumps change: nothing to release, one reference less, or the last one. *)
Lemma remove_pumps s doc id sub :
  pumped s -> subscribers (subs s) doc !! id = Some sub ->
  let s' := removeSubscriber doc id s in
  (pumps s !! doc = None /\ pumps s' = pumps s /\ runs s' = runs s)
  \/ (exists p r, pumps s !! doc = Some (p, r) /\ (1 < r)%Z
        /\ pumps s' = <[doc := (p, (r - 1)%Z)]> (pumps s) /\ runs s' = runs s)
  \/ (exists p, pumps s !! doc = Some (p, 1%Z) /\ pumps s' = delete doc (pumps s)
        /\ runs s' = alter (fun x => (x.1, PStopping)) p (runs s)).
Proof.
  intros Hp Hi. cbv zeta. unfold removeSubscriber, subscribers in *.
  destruct (subs s !! doc) as [m|] eqn:Hm; simpl in Hi; [|done]. rewrite Hi.
  destruct (pumps s !! doc) as [[p r]|] eqn:Hd; [|by left]. right.
  destruct (p_refs s Hp doc p r Hd) as (Hr & H1 & _). unfold subscribers in Hr. rewrite Hm in Hr. simpl in Hr.
  destruct (Z.leb_spec (r - 1) 0) as [Hle|Hgt].
  - right. exists p. replace r with 1%Z by lia. done.
  - left. exists p, r. split_and!; try done. lia.
Qed.

(** ** The registry *)

Lemma registered_ext s s' :
  h_closed s' = h_closed s -> nextID s' = nextID s -> subs s' = subs s -> calls s' = calls s ->
  registered s -> registered s'.
Proof. intros E1 E2 E3 E4 []. split; rewrite ?E1, ?E2, ?E3, ?E4; done. Qed.

(** A call moves on and keeps its subscription (or gives it up after [Close]). *)
Lemma registered_move s k pc0 pc :
  registered s -> calls s !! k = Some pc0 -> (forall sub, pc <> SCleanup sub true) ->
  holds pc = holds pc0 \/ (holds pc = None /\ h_closed s = true) ->
  registered (set_call k pc s).
Proof.
  intros R H0 Hc Hh.
  assert (Hback : forall k' pc', <[k := pc]> (calls s) !! k' = Some pc' ->
    exists pc1, calls s !! k' = Some pc1 /\ (forall sub, holds pc' = Some sub -> holds pc1 = Some sub)).
  { intros k' pc' H. rewrite lookup_insert in H. case_decide as E.
    - subst. injection H as <-. exists pc0. split; [done|]. intros sub. destruct Hh as [-> | [-> _]]; done.
    - exists pc'. done. }
  split; simpl; try apply R.
  - intros k' pc' sub H Hs. apply Hback in H as (pc1 & H1 & H2). eapply (r_ids s R); eauto.
  - intros k1 k2 pc1 pc2 sub sub' H1 H2 Hs1 Hs2 E.
    apply Hback in H1 as (? & ? & ?). apply Hback in H2 as (? & ? & ?). eapply (r_own s R); eauto.
  - intros k' pc' sub Ho H Hs. apply Hback in H as (pc1 & H1 & H2). eapply (r_live s R); eauto.
  - intros doc id sub H. destruct (r_held s R doc id sub H) as (H1 & H2 & k' & pc' & H3 & H4).
    split_and!; try done. destruct (decide (k = k')) as [->|Hne].
    + exists k', pc. rewrite lookup_insert_eq. split; [done|]. destruct Hh as [-> | [_ Hcl]]; [congruence|].
      by rewrite (r_closed s R Hcl), subscribers_empty, lookup_empty in H.
    + exists k', pc'. by rewrite lookup_insert_ne.
  - intros k' sub. rewrite lookup_insert. case_decide; [|apply R]. intros [= E]. by apply (Hc sub).
Qed.

(** A call that stands for nothing: a refused [Subscribe]. *)
Lemma registered_refused s k e : registered s -> calls s !! k = None -> registered (set_call k (SFailed e) s).
Proof.
  intros R H0.
  assert (Hback : forall k' pc' sub, <[k := SFailed e]> (calls s) !! k' = Some pc' -> holds pc' = Some sub ->
    calls s !! k' = Some pc').
  { intros k' pc' sub H Hh. rewrite lookup_insert in H. case_decide; by simplify_eq/=. }
  split; simpl; try apply R; eauto using r_ids.
  - intros. eapply (r_own s R); eauto.
  - intros. eapply (r_live s R); eauto.
  - intros doc id sub H. destruct (r_held s R doc id sub H) as (H1 & H2 & k' & pc' & H3 & H4).
    split_and!; try done. exists k', pc'. rewrite lookup_insert_ne; [done|congruence].
  - intros k' sub. rewrite lookup_insert. case_decide; [done|apply R].
Qed.

(** A new subscription under the next id. *)
Lemma registered_add s k doc source pc n (sub := mkSub doc (u64 (nextID s + 1)) source) :
  registered s -> calls s !! k = None -> h_closed s = false -> holds pc = Some sub ->
  (nextID s <= n)%Z -> (n + 1 < 2 ^ 64)%Z ->
  registered (set_call k pc (mkHub (h_closed s) (u64 (nextID s + 1))
    (<[doc := <[u64 (nextID s + 1) := sub]> (subscribers (subs s) doc)]> (subs s))
    (pumps s) (calls s) (runs s) (nextPump s))).
Proof.
  intros R H0 Hopen Hh Hn Hb. pose proof (r_next s R) as Hr. subst sub. rewrite u64_small in * by lia.
  set (id := (nextID s + 1)%Z) in *.
  assert (Hcase : forall k' pc' sub', <[k := pc]> (calls s) !! k' = Some pc' -> holds pc' = Some sub' ->
    (k' = k /\ sub' = mkSub doc id source) \/ (k' <> k /\ calls s !! k' = Some pc')).
  { intros k' pc' sub' H Hs. rewrite lookup_insert in H. case_decide; [left|right]; by simplify_eq/=. }
  split; simpl.
  - lia.
  - intros k' pc' sub' H Hs. destruct (Hcase _ _ _ H Hs) as [[-> ->]|[_ H']]; simpl; [lia|].
    pose proof (r_ids s R _ _ _ H' Hs). lia.
  - intros k1 k2 pc1 pc2 s1 s2 H1 H2 Hs1 Hs2 E.
    destruct (Hcase _ _ _ H1 Hs1) as [[-> ->]|[N1 H1']], (Hcase _ _ _ H2 Hs2) as [[-> ->]|[N2 H2']]; simpl in *.
    + done.
    + pose proof (r_ids s R _ _ _ H2' Hs2). lia.
    + pose proof (r_ids s R _ _ _ H1' Hs1). lia.
    + eapply (r_own s R); eauto.
  - intros k' pc' sub' _ H Hs. rewrite subscribers_insert.
    destruct (Hcase _ _ _ H Hs) as [[-> ->]|[_ H']]; simpl.
    { by rewrite decide_True, lookup_insert_eq. }
    pose proof (r_ids s R _ _ _ H' Hs). pose proof (r_live s R _ _ _ Hopen H' Hs).
    case_decide; [|done]. subst doc. rewrite lookup_insert_ne; [done|lia].
  - intros d i sub' H. rewrite subscribers_insert in H.
    assert (Hold : subscribers (subs s) d !! i = Some sub' -> sub_doc sub' = d /\ sub_id sub' = i
      /\ exists k0 pc0, <[k := pc]> (calls s) !! k0 = Some pc0 /\ holds pc0 = Some sub').
    { intros H'. destruct (r_held s R d i sub' H') as (E1 & E2 & k' & pc' & E3 & E4).
      split_and!; try done. exists k', pc'. rewrite lookup_insert_ne; [done|congruence]. }
    case_decide; [|by apply Hold]. subst d. rewrite lookup_insert in H. case_decide; [|by apply Hold].
    simplify_eq. simpl. split_and!; try done. exists k, pc. by rewrite lookup_insert_eq.
  - intros k' sub'. rewrite lookup_insert. case_decide; [|apply R]. intros [= ->]. done.
  - congruence.
Qed.

(** A subscription taken back. *)
Lemma registered_remove s k pc0 pc sub :
  registered s -> calls s !! k = Some pc0 -> holds pc0 = Some sub -> holds pc = None ->
  (forall sub', pc <> SCleanup sub' true) ->
  registered (set_call k pc (removeSubscriber (sub_doc sub) (sub_id sub) s)).
Proof.
  intros R H0 Hh Hn Hc.
  destruct (remove_frame s (sub_doc sub) (sub_id sub)) as (F1 & F2 & F3 & _ & F5).
  set (s' := removeSubscriber (sub_doc sub) (sub_id sub) s) in *.
  assert (Hcase : forall k' pc' sub', <[k := pc]> (calls s') !! k' = Some pc' -> holds pc' = Some sub' ->
    k' <> k /\ calls s !! k' = Some pc').
  { intros k' pc' sub' H Hs. rewrite F3, lookup_insert in H. case_decide; by simplify_eq/=. }
  split; simpl; rewrite ?F1, ?F2.
  - apply R.
  - intros k' pc' sub' H Hs. destruct (Hcase _ _ _ H Hs) as [_ H']. eapply (r_ids s R); eauto.
  - intros k1 k2 pc1 pc2 s1 s2 H1 H2 Hs1 Hs2 E.
    destruct (Hcase _ _ _ H1 Hs1) as [N1 H1'], (Hcase _ _ _ H2 Hs2) as [N2 H2']. eapply (r_own s R); eauto.
  - intros k' pc' sub' Ho H Hs. destruct (Hcase _ _ _ H Hs) as [Hne H'].
    pose proof (r_live s R _ _ _ Ho H' Hs) as Hl. unfold s'. rewrite remove_subs. case_decide as E; [|done].
    rewrite lookup_delete_ne; [done|]. intros Heq. apply Hne. symmetry.
    eapply (r_own s R); [exact H0|exact H'|exact Hh|exact Hs|done].
  - intros d i sub' H. unfold s' in H. rewrite remove_subs in H.
    assert (H' : subscribers (subs s) d !! i = Some sub' /\ (sub_doc sub = d -> i <> sub_id sub)).
    { case_decide as E; [|done]. rewrite lookup_delete in H. case_decide; [done|]. split; [done|congruence]. }
    destruct H' as [H' Hi]. destruct (r_held s R d i sub' H') as (E1 & E2 & k' & pc' & E3 & E4).
    split_and!; try done. exists k', pc'. rewrite F3, lookup_insert_ne; [done|]. intros ->.
    rewrite H0 in E3. injection E3 as ->. rewrite Hh in E4. injection E4 as ->. subst d i. by apply Hi.
  - intros k' sub'. rewrite F3, lookup_insert. case_decide; [|apply R]. intros [= E]. by apply (Hc sub').
  - intros Hcl. by apply F5, (r_closed s R).
Qed.

(** ** The pumps *)

Definition is_up (pc : sub_pc) (p : nat) : Prop := exists sub, pc = SUp sub p.

Lemma pumped_move s k pc :
  pumped s -> (forall sub p, calls s !! k <> Some (SUp sub p)) -> (forall sub p, pc <> SUp sub p) ->
  (forall sub, pc = SOpen sub -> h_closed s = false -> is_Some (pumps s !! sub_doc sub)) ->
  pumped (set_call k pc s).
Proof.
  intros P H0 H1 H2. split; simpl; try apply P.
  - intros k' sub Ho. rewrite lookup_insert. case_decide; [|by apply (p_fed s P)]. intros [= E]. by apply H2.
  - intros k' sub p. rewrite lookup_insert. case_decide; [|by apply (p_up s P)]. intros [= E]. by destruct (H1 sub p).
  - intros k1 k2 sub sub' p. rewrite !lookup_insert. repeat case_decide; try apply P;
      intros A B; simplify_eq; exfalso; try (by apply (H1 _ _ eq_refl)).
  - intros p doc Hr. destruct (p_run s P p doc Hr) as [?|(k' & sub & E)]; [by left|right].
    exists k', sub. rewrite lookup_insert_ne; [done|]. intros ->. by apply (H0 sub p).
Qed.

Lemma stop_lookup s p q x :
  runs (stop p s) !! q = Some (x, PRunning) -> runs s !! q = Some (x, PRunning) /\ q <> p.
Proof.
  simpl. rewrite lookup_alter. case_decide; [|done]. subst. intros H.
  destruct (runs s !! q) as [[? ?]|]; simpl in H; discriminate.
Qed.

(** A call stops the pump it had opened. *)
Lemma pumped_stop s k sub p pc :
  pumped s -> calls s !! k = Some (SUp sub p) -> (forall sub p, pc <> SUp sub p) ->
  (forall sub, pc = SOpen sub -> h_closed s = false -> is_Some (pumps s !! sub_doc sub)) ->
  pumped (stop p (set_call k pc s)).
Proof.
  intros P H0 H1 H2. destruct (p_up s P k sub p H0) as [Hrun Hnot].
  assert (Hmove : forall k' sub' p', <[k := pc]> (calls s) !! k' = Some (SUp sub' p') ->
    k' <> k /\ calls s !! k' = Some (SUp sub' p')).
  { intros k' sub' p'. rewrite lookup_insert. case_decide; [intros [= E]; by destruct (H1 sub' p')|by split]. }
  assert (Hkeep : forall q x, q <> p -> runs s !! q = Some (x, PRunning) ->
    runs (stop p (set_call k pc s)) !! q = Some (x, PRunning)).
  { intros q x Hq H. simpl. by rewrite lookup_alter_ne. }
  split.
  - intros doc q r H. simpl in H. destruct (p_refs s P doc q r H) as (E1 & E2 & E3). split_and!; try done.
    apply Hkeep; [|done]. intros ->. by apply (Hnot doc r).
  - simpl. intros k' sub' Ho. rewrite lookup_insert. case_decide; [|by apply (p_fed s P)]. intros [= E]. by apply H2.
  - intros k' sub' q H. simpl in H. apply Hmove in H as [Hne H]. destruct (p_up s P k' sub' q H) as [E1 E2].
    split; [|done]. apply Hkeep; [|done]. intros ->. apply Hne. by eapply (p_up1 s P).
  - simpl. intros k1 k2 s1 s2 q A B. apply Hmove in A as [_ A]. apply Hmove in B as [_ B]. by eapply (p_up1 s P).
  - intros q doc H. apply stop_lookup in H as [H Hq]. simpl in H.
    destruct (p_run s P q doc H) as [?|(k' & sub' & E)]; [by left|right].
    exists k', sub'. simpl. rewrite lookup_insert_ne; [done|]. intros ->. congruence.
  - simpl. intros q x. rewrite lookup_alter. case_decide; [|apply (p_fresh s P)]. subst.
    intros _. apply (p_fresh s P _ _ Hrun).
  - apply P.
Qed.

(** A call installs the pump it had opened. *)
Lemma pumped_install s k sub p :
  pumped s -> calls s !! k = Some (SUp sub p) -> h_closed s = false -> pumps s !! sub_doc sub = None ->
  subscribers (subs s) (sub_doc sub) !! sub_id sub = Some sub ->
  pumped (set_call k (SOpen sub)
    (set_pumps (<[sub_doc sub := (p, Z.of_nat (size (subscribers (subs s) (sub_doc sub))))]> (pumps s)) s)).
Proof.
  intros P H0 Hopen Hno Hlive. destruct (p_up s P k sub p H0) as [Hrun Hnot].
  assert (Hmove : forall k' sub' p', <[k := SOpen sub]> (calls s) !! k' = Some (SUp sub' p') ->
    k' <> k /\ calls s !! k' = Some (SUp sub' p')).
  { intros k' sub' p'. rewrite lookup_insert. by case_decide. }
  split; simpl; try apply P.
  - intros doc q r. rewrite lookup_insert. case_decide as E; [|by apply (p_refs s P)]. subst doc. intros [= <- <-].
    split_and!; [done| |done]. rewrite (size_delete_Some _ _ _ Hlive). lia.
  - intros k' sub' Ho. rewrite !lookup_insert. repeat case_decide; try by (intros; simplify_eq; eauto).
    by apply (p_fed s P).
  - intros k' sub' q H. apply Hmove in H as [Hne H]. destruct (p_up s P k' sub' q H) as [E1 E2].
    split; [done|]. intros doc r. rewrite lookup_insert. case_decide; [|apply E2]. intros [= <- E].
    apply Hne. by eapply (p_up1 s P).
  - intros k1 k2 s1 s2 q A B. apply Hmove in A as [_ A]. apply Hmove in B as [_ B]. by eapply (p_up1 s P).
  - intros q doc H. destruct (p_run s P q doc H) as [[r E]|(k' & sub' & E)].
    + left. exists r. rewrite lookup_insert_ne; [done|congruence].
    + destruct (decide (k' = k)) as [->|Hne].
      * left. rewrite H0 in E. injection E as <- <-. rewrite Hrun in H. injection H as <-.
        eexists. by rewrite lookup_insert_eq.
      * right. exists k', sub'. by rewrite lookup_insert_ne.
  - congruence.
Qed.

Lemma set_pumps_same s : set_pumps (pumps s) s = s.
Proof. by destruct s. Qed.

(** The number of subscribers a call finds when it comes back is never zero: its own
    entry cannot have gone while the hub was open. *)
Lemma live_positive s k sub p :
  good s -> calls s !! k = Some (SUp sub p) -> h_closed s = false ->
  (Z.of_nat (size (subscribers (subs s) (sub_doc sub))) =? 0)%Z = false.
Proof.
  intros [R P] H0 Hopen. pose proof (r_live s R k _ sub Hopen H0 eq_refl) as Hl.
  rewrite (size_delete_Some _ _ _ Hl). apply Z.eqb_neq. lia.
Qed.

Lemma good_install s k sub p :
  good s -> calls s !! k = Some (SUp sub p) -> good (install k sub p s).
Proof.
  intros G H0. pose proof G as [R P]. unfold install. destruct (h_closed s) eqn:Hcl.
  - split.
    + eapply registered_ext; [..|eapply (registered_move s k _ (SFailed ErrClosed) R H0)]; try done. by right.
    + by eapply pumped_stop.
  - rewrite (live_positive s k sub p G H0 Hcl). pose proof (r_live s R k _ sub Hcl H0 eq_refl) as Hl.
    destruct (pumps s !! sub_doc sub) as [[raced r]|] eqn:Hp.
    + destruct (p_refs s P _ _ _ Hp) as (<- & _). rewrite insert_id by done. rewrite set_pumps_same. split.
      * eapply registered_ext; [..|eapply (registered_move s k _ (SOpen sub) R H0)]; try done. by left.
      * eapply pumped_stop; try done. intros sub' [= <-] _. eauto.
    + split.
      * eapply registered_ext; [..|eapply (registered_move s k _ (SOpen sub) R H0)]; try done. by left.
      * by apply pumped_install.
Qed.

Lemma pumped_add s k doc source n (id := u64 (nextID s + 1)) (sub := mkSub doc id source) :
  good s -> calls s !! k = None -> h_closed s = false -> (nextID s <= n)%Z -> (n + 1 < 2 ^ 64)%Z ->
  pumped (Subscribe k doc source false false s).
Proof.
  intros [R P] H0 Hopen Hn Hb. unfold Subscribe. rewrite Hopen.
  destruct (String.eqb doc ""); cbn [orb].
  { apply pumped_move; [done|intros ?? E; congruence|done|done]. }
  assert (Hfresh : subscribers (subs s) doc !! id = None).
  { destruct (subscribers (subs s) doc !! id) as [sub'|] eqn:E; [|done]. exfalso.
    destruct (r_held s R doc id sub' E) as (_ & E2 & k' & pc & E3 & E4).
    pose proof (r_ids s R _ _ _ E3 E4). pose proof (r_next s R). subst id. rewrite u64_small in * by lia. lia. }
  assert (Hmove : forall pc k' sub' p', (forall sub p, pc <> SUp sub p) ->
    <[k := pc]> (calls s) !! k' = Some (SUp sub' p') -> calls s !! k' = Some (SUp sub' p')).
  { intros pc k' sub' p' Hpc. rewrite lookup_insert. case_decide; [|done]. intros [= E]. by destruct (Hpc sub' p'). }
  assert (Hup : forall p, (exists k0 sub0, calls s !! k0 = Some (SUp sub0 p)) ->
    forall pc, exists k0 sub0, <[k := pc]> (calls s) !! k0 = Some (SUp sub0 p)).
  { intros p (k0 & sub0 & E) pc. exists k0, sub0. rewrite lookup_insert_ne; [done|congruence]. }
  change (u64 (nextID s + 1)) with id. change (mkSub doc id source) with sub.
  destruct (pumps s !! doc) as [[p r]|] eqn:Hp; (split; simpl; [..|apply P|congruence]).
  - destruct (p_refs s P doc p r Hp) as (Hr & H1 & Hrun).
    intros d q r'. rewrite lookup_insert, subscribers_insert. repeat case_decide; try done.
    + intros [= <- <-]. subst d. rewrite map_size_insert_None by done. split_and!; [lia|lia|done].
    + by apply (p_refs s P).
  - intros k' sub' _. rewrite !lookup_insert. repeat case_decide; try by (intros; eauto).
    + by intros [= <-].
    + by apply (p_fed s P _ _ Hopen).
  - intros k' sub' q H. apply Hmove in H; [|done]. destruct (p_up s P k' sub' q H) as [E1 E2].
    split; [done|]. intros d r'. rewrite lookup_insert. case_decide; [|apply E2]. intros [= E _]. by apply (E2 doc r); congruence.
  - intros k1 k2 s1 s2 q A B. apply Hmove in A; [|done]. apply Hmove in B; [|done]. by eapply (p_up1 s P).
  - intros q d H. destruct (p_run s P q d H) as [[r' E]|E]; [left|right; by apply Hup].
    rewrite lookup_insert. case_decide; [|eauto]. subst. rewrite Hp in E. injection E as -> ->. eauto.
  - intros d q r' E. rewrite subscribers_insert. case_decide; [congruence|by apply (p_refs s P)].
  - intros k' sub' _. rewrite lookup_insert. case_decide; [done|]. by apply (p_fed s P _ _ Hopen).
  - intros k' sub' q H. apply Hmove in H; [|done]. by eapply (p_up s P).
  - intros k1 k2 s1 s2 q A B. apply Hmove in A; [|done]. apply Hmove in B; [|done]. by eapply (p_up1 s P).
  - intros q d H. destruct (p_run s P q d H) as [E|E]; [by left|right; by apply Hup].
Qed.

Lemma remove_set_call s k pc doc id :
  set_call k pc (removeSubscriber doc id s) = removeSubscriber doc id (set_call k pc s).
Proof. unfold removeSubscriber. simpl. by repeat case_match. Qed.

(** Releasing a registered subscription keeps the pumps exact, as long as a handle
    still open on the document is registered besides it. *)
Lemma pumped_release s sub :
  pumped s -> subscribers (subs s) (sub_doc sub) !! sub_id sub = Some sub ->
  (forall k' sub', h_closed s = false -> calls s !! k' = Some (SOpen sub') -> sub_doc sub' = sub_doc sub ->
     1 < size (subscribers (subs s) (sub_doc sub))) ->
  pumped (removeSubscriber (sub_doc sub) (sub_id sub) s).
Proof.
  intros P Hl Hother.
  destruct (remove_frame s (sub_doc sub) (sub_id sub)) as (F1 & F2 & F3 & F4 & _).
  pose proof (fun d => remove_subs s (sub_doc sub) (sub_id sub) d) as Fs.
  pose proof (remove_pumps s _ _ _ P Hl) as Fp. cbv zeta in Fp.
  pose proof (size_delete_Some _ _ _ Hl) as Hsz.
  set (s' := removeSubscriber (sub_doc sub) (sub_id sub) s) in *.
  destruct Fp as [(Hn & Ep & Er)|[(p & r & Hp & Hr & Ep & Er)|(p & Hp & Ep & Er)]];
    (split; rewrite ?F1, ?F3, ?F4, ?Ep, ?Er; try apply P).
  - intros d q r E. rewrite Fs. case_decide; [congruence|by apply (p_refs s P)].
  - destruct (p_refs s P _ _ _ Hp) as (E1 & E2 & E3). intros d q r'. rewrite lookup_insert, Fs.
    case_decide; [|by apply (p_refs s P)]. subst d. intros [= <- <-]. split_and!; [lia|lia|done].
  - intros k' sub' Ho Hk. rewrite lookup_insert. case_decide; [eauto|by apply (p_fed s P k')].
  - intros k' sub' q Hk. destruct (p_up s P k' sub' q Hk) as [E1 E2]. split; [done|].
    intros d r'. rewrite lookup_insert. case_decide; [|apply E2]. intros [= E _]. by apply (E2 (sub_doc sub) r); congruence.
  - intros q d Hq. destruct (p_run s P q d Hq) as [[r' E]|E]; [left|by right].
    rewrite lookup_insert. case_decide; [|eauto]. subst. rewrite Hp in E. injection E as -> ->. eauto.
  - intros Hcl. rewrite (p_closed s P Hcl) in Hp. by rewrite lookup_empty in Hp.
  - intros d q r'. rewrite lookup_delete, Fs. case_decide as Hd; [done|]. intros E.
    destruct (p_refs s P _ _ _ E) as (E1 & E2 & E3). split_and!; try done.
    rewrite lookup_alter_ne; [done|]. intros ->. destruct (p_refs s P _ _ _ Hp) as (_ & _ & E4). congruence.
  - intros k' sub' Ho Hk. rewrite lookup_delete. case_decide as Hd; [|by apply (p_fed s P k')].
    pose proof (Hother k' sub' Ho Hk (eq_sym Hd)). destruct (p_refs s P _ _ _ Hp) as (E1 & _). lia.
  - intros k' sub' q Hk. destruct (p_up s P k' sub' q Hk) as [E1 E2]. split.
    + rewrite lookup_alter_ne; [done|]. intros ->. by apply (E2 (sub_doc sub) 1%Z).
    + intros d r'. rewrite lookup_delete. case_decide; [done|apply E2].
  - intros q d Hq. apply (stop_lookup s) in Hq as [Hq Hne]. destruct (p_run s P q d Hq) as [[r' E]|E]; [left|by right].
    exists r'. rewrite lookup_delete. case_decide; [|done]. subst. congruence.
  - intros q x. rewrite lookup_alter. case_decide; [|apply (p_fresh s P)]. subst.
    intros _. destruct (p_refs s P _ _ _ Hp) as (_ & _ & E3). apply (p_fresh s P _ _ E3).
  - intros Hcl. rewrite (p_closed s P Hcl). apply delete_empty.
Qed.

Lemma pumped_remove s k pc0 pc sub :
  good s -> calls s !! k = Some pc0 -> holds pc0 = Some sub -> (forall sub p, pc0 <> SUp sub p) ->
  (forall sub p, pc <> SUp sub p) -> (forall sub, pc <> SOpen sub) ->
  pumped (set_call k pc (removeSubscriber (sub_doc sub) (sub_id sub) s)).
Proof.
  intros [R P] H0 Hh Hu0 Hu Ho. rewrite remove_set_call.
  assert (P1 : pumped (set_call k pc s)).
  { apply pumped_move; [done|congruence|done|]. intros sub' E. by destruct (Ho sub'). }
  destruct (subscribers (subs s) (sub_doc sub) !! sub_id sub) as [sub1|] eqn:Hl.
  2: { by rewrite remove_absent. }
  destruct (h_closed s) eqn:Hcl.
  { by rewrite (r_closed s R Hcl), subscribers_empty, lookup_empty in Hl. }
  pose proof (r_live s R _ _ _ Hcl H0 Hh) as Hl'. apply pumped_release; [done|done|].
  simpl. intros k' sub' _ Hk' Hd. rewrite lookup_insert in Hk'. case_decide as Hne; [by destruct (Ho sub'); simplify_eq|].
  pose proof (r_live s R _ _ _ Hcl Hk' eq_refl) as Hl2. rewrite Hd in Hl2.
  rewrite (size_delete_Some _ _ _ Hl').
  rewrite (size_delete_Some (delete (sub_id sub) _) (sub_id sub') sub'); [lia|].
  rewrite lookup_delete_ne; [done|]. intros E. apply Hne. eapply (r_own s R); eauto.
Qed.

(** ** Closing the hub *)

Definition stop_all (ps : list nat) (m : gmap nat (DocumentID * pump_state)) : gmap nat (DocumentID * pump_state) :=
  foldr (fun p m => alter (fun x => (x.1, PStopping)) p m) m ps.

Lemma stop_all_lookup ps m q d :
  stop_all ps m !! q = Some (d, PRunning) <-> m !! q = Some (d, PRunning) /\ q ∉ ps.
Proof.
  induction ps as [|p ps IH]; simpl; [set_solver|].
  rewrite lookup_alter, not_elem_of_cons. case_decide as E; [|naive_solver].
  subst. split; [|naive_solver]. destruct (stop_all ps m !! q) as [[? ?]|]; simpl; intros H; discriminate.
Qed.

Lemma stop_all_dom ps m q x : stop_all ps m !! q = Some x -> is_Some (m !! q).
Proof.
  revert x. induction ps as [|p ps IH]; simpl; intros x; [eauto|].
  rewrite lookup_alter. case_decide; [|eauto]. subst.
  destruct (stop_all ps m !! q); simpl; [eauto|done].
Qed.

Lemma elem_of_installed (m : gmap DocumentID (nat * Z)) q :
  q ∈ (map_to_list m).*2.*1 <-> exists doc r, m !! doc = Some (q, r).
Proof.
  rewrite list_elem_of_fmap. split.
  - intros ([q' r] & -> & ([doc x] & Hx & H)%list_elem_of_fmap). apply elem_of_map_to_list in H. simplify_eq/=. eauto.
  - intros (doc & r & H). exists (q, r). split; [done|]. apply list_elem_of_fmap. exists (doc, (q, r)).
    split; [done|]. by apply elem_of_map_to_list.
Qed.

Lemma good_close s : good s -> good (Close s).
Proof.
  intros [R P]. unfold Close. destruct (h_closed s) eqn:Hcl; [done|]. fold (stop_all ((map_to_list (pumps s)).*2.*1) (runs s)).
  split; split; simpl; try apply R; try apply P; try done.
  - intros k sub p Hk. destruct (p_up s P k sub p Hk) as [E1 E2]. split; [|done].
    apply stop_all_lookup. split; [done|]. rewrite elem_of_installed. intros (doc & r & E). by apply (E2 doc r).
  - intros p doc [H Hn]%stop_all_lookup. destruct (p_run s P p doc H) as [[r E]|E]; [|by right].
    exfalso. apply Hn, elem_of_installed. eauto.
  - intros p x Hx. apply stop_all_dom in Hx as [y Hy]. by eapply (p_fresh s P).
Qed.

(** ** Every event keeps the invariant *)

Lemma good_new : good NewWithClient.
Proof.
  split; split; simpl; try done.
Qed.

Lemma good_subscribe s k doc source nil_fn ctx_err n :
  good s -> calls s !! k = None -> (nextID s <= n)%Z -> (n + 1 < 2 ^ 64)%Z ->
  good (Subscribe k doc source nil_fn ctx_err s).
Proof.
  intros [R P] H0 Hn Hb.
  assert (Hfail : forall e, good (set_call k (SFailed e) s)).
  { intros e. split; [by apply registered_refused|]. apply pumped_move; try done. congruence. }
  destruct nil_fn; [unfold Subscribe; rewrite orb_true_r; destruct ctx_err; apply Hfail|].
  destruct ctx_err; [apply Hfail|]. destruct (h_closed s) eqn:Hcl.
  { unfold Subscribe. rewrite Hcl. destruct (String.eqb doc ""); apply Hfail. }
  split; [|by apply (pumped_add s k doc source n)]. unfold Subscribe. rewrite Hcl.
  destruct (String.eqb doc ""); [apply Hfail|]. cbn [orb].
  destruct (pumps s !! doc) as [[p r]|].
  - eapply registered_ext; [..|apply (registered_add s k doc source (SOpen (mkSub doc (u64 (nextID s + 1)) source)) n)];
      try done; simpl; by rewrite Hcl.
  - eapply registered_ext; [..|apply (registered_add s k doc source (SStarting (mkSub doc (u64 (nextID s + 1)) source)) n)];
      try done; simpl; by rewrite Hcl.
Qed.

Lemma pumped_pump_up s k sub :
  pumped s -> calls s !! k = Some (SStarting sub) ->
  pumped (set_call k (SUp sub (nextPump s))
    (mkHub (h_closed s) (nextID s) (subs s) (pumps s) (calls s)
       (<[nextPump s := (sub_doc sub, PRunning)]> (runs s)) (S (nextPump s)))).
Proof.
  intros P H0.
  assert (Hfresh : forall x, runs s !! nextPump s <> Some x).
  { intros x H. pose proof (p_fresh s P _ _ H). lia. }
  split; simpl; try apply P.
  - intros doc q r E. destruct (p_refs s P doc q r E) as (E1 & E2 & E3). split_and!; try done.
    rewrite lookup_insert_ne; [done|]. intros <-. by apply Hfresh in E3.
  - intros k' sub' Ho. rewrite lookup_insert. case_decide; [done|]. by apply (p_fed s P).
  - intros k' sub' q. rewrite lookup_insert. case_decide.
    + intros [= -> <-]. rewrite lookup_insert_eq. split; [done|]. intros doc r E.
      destruct (p_refs s P doc _ r E) as (_ & _ & E3). by apply Hfresh in E3.
    + intros Hk. destruct (p_up s P k' sub' q Hk) as [E1 E2]. split; [|done].
      rewrite lookup_insert_ne; [done|]. intros <-. by apply Hfresh in E1.
  - intros k1 k2 s1 s2 q. rewrite !lookup_insert. repeat case_decide; try congruence.
    + intros [= <- <-] B. destruct (p_up s P _ _ _ B) as [E1 _]. by apply Hfresh in E1.
    + intros A [= <- <-]. destruct (p_up s P _ _ _ A) as [E1 _]. by apply Hfresh in E1.
    + apply (p_up1 s P).
  - intros q doc. rewrite lookup_insert. case_decide.
    + intros _. right. exists k, sub. subst. by rewrite lookup_insert_eq.
    + intros H1. destruct (p_run s P q doc H1) as [?|(k' & sub' & E)]; [by left|right].
      exists k', sub'. rewrite lookup_insert_ne; [done|congruence].
  - intros q x. rewrite lookup_insert. case_decide; [lia|]. intros H1. pose proof (p_fresh s P q x H1). lia.
Qed.

Lemma pumped_stopped s p doc :
  pumped s -> runs s !! p = Some (doc, PStopping) ->
  pumped (set_runs (<[p := (doc, PStopped)]> (runs s)) s).
Proof.
  intros P Hp.
  assert (Hrun : forall q d, <[p := (doc, PStopped)]> (runs s) !! q = Some (d, PRunning)
    <-> runs s !! q = Some (d, PRunning)).
  { intros q d. rewrite lookup_insert. case_decide; [|done]. subst. split; [done|congruence]. }
  split; simpl; try apply P.
  - intros d q r E. rewrite Hrun. by apply (p_refs s P).
  - intros k sub q E. rewrite Hrun. by eapply (p_up s P).
  - intros q d. rewrite Hrun. apply (p_run s P).
  - intros q x. rewrite lookup_insert. case_decide; [|apply (p_fresh s P)]. subst. intros _. by apply (p_fresh s P _ _ Hp).
Qed.

Lemma step_good ev s s' n :
  good s -> (nextID s <= n)%Z -> (0 <= n)%Z -> (n + 1 < 2 ^ 64)%Z -> step ev s = Some s' ->
  good s' /\ (nextID s' <= n + 1)%Z.
Proof.
  intros G Hn H0 Hb Hs. pose proof G as [R P]. pose proof (r_next s R) as Hr.
  assert (Hrm : forall doc id, nextID (removeSubscriber doc id s) = nextID s).
  { intros doc id. apply remove_frame. }
  destruct ev; simpl in Hs; repeat case_match; simplify_eq; simpl; rewrite ?Hrm; (split; [|try lia]).
  - by apply (good_subscribe s k doc source nil_fn ctx_err n).
  - unfold Subscribe. repeat case_match; simpl; try lia; rewrite u64_small; lia.
  - split; [|by apply pumped_pump_up].
    eapply registered_ext; [..|eapply (registered_move s k _ (SUp sub (nextPump s)) R)]; try done. by left.
  - split; [eapply registered_move; try done; by left|]. apply pumped_move; try done. congruence.
  - by apply good_install.
  - unfold install, stop. repeat case_match; simpl; lia.
  - by destruct (r_clean s R k sub).
  - split; [by eapply registered_remove|]. by eapply pumped_remove.
  - split; [by eapply registered_remove|]. by eapply pumped_remove.
  - split; [by apply (registered_ext s)|]. by apply pumped_stopped.
  - by apply good_close.
  - unfold Close. case_match; simpl; lia.
Qed.

Lemma drive_good evs s :
  (Z.of_nat (List.length evs) + 1 < 2 ^ 64)%Z -> drive step evs NewWithClient = Some s -> good s.
Proof.
  intros Hlen H.
  apply (drive_inv_below step (2 ^ 64 - 1) (fun n s => good s /\ (nextID s <= n)%Z) evs NewWithClient s);
    [|split; [apply good_new|done]|lia|done].
  intros n ev s1 s2 H0 Hb [G Hn] Hs. apply (step_good ev s1 s2 n); try done. lia.
Qed.

(** ** What the machine guarantees *)

(** C22: however subscribes, closed handles, failing connections and the hub's own
    close interleave, on an open hub every handle the caller still holds is registered
    and its document has an installed, running pump, referenced exactly once by each
    of the document's subscribers, of whom there is at least one; a call that comes
    back with a pump of its own always finds itself registered, so the count it derives
    is never zero. *)
Theorem open_handle_is_fed (evs : list event) (s : hub) :
  drive step evs NewWithClient = Some s -> (Z.of_nat (List.length evs) + 1 < 2 ^ 64)%Z ->
  h_closed s = false ->
  (forall k sub, calls s !! k = Some (SOpen sub) ->
     subscribers (subs s) (sub_doc sub) !! sub_id sub = Some sub
     /\ exists p r, pumps s !! sub_doc sub = Some (p, r) /\ runs s !! p = Some (sub_doc sub, PRunning))
  /\ (forall doc p r, pumps s !! doc = Some (p, r) ->
        r = Z.of_nat (size (subscribers (subs s) doc)) /\ (1 <= r)%Z)
  /\ (forall k sub p, calls s !! k = Some (SUp sub p) ->
        subscribers (subs s) (sub_doc sub) !! sub_id sub = Some sub
        /\ (Z.of_nat (size (subscribers (subs s) (sub_doc sub))) =? 0)%Z = false).
Proof.
  intros H Hlen Ho. destruct (drive_good evs s Hlen H) as [R P]. split_and!.
  - intros k sub Hk. split; [by eapply (r_live s R k (SOpen sub))|].
    destruct (p_fed s P k sub Ho Hk) as [[p r] Hp]. exists p, r. split; [done|]. by eapply (p_refs s P).
  - intros doc p r Hp. destruct (p_refs s P doc p r Hp) as (? & ? & _). done.
  - intros k sub p Hk. split; [by eapply (r_live s R k (SUp sub p))|].
    by apply (live_positive s k sub p (conj R P)).
Qed.

(** Two subscribes race on one document; the second to come back drops its pump. *)
Definition racing : list event :=
  [EvSubscribe 0 "d" "a" false false; EvSubscribe 1 "d" "b" false false; EvPumpUp 0; EvPumpUp 1;
   EvInstall 1; EvInstall 0; EvCloseSub 1; EvStopped 0].

Definition after_race : hub := default NewWithClient (drive step racing NewWithClient).

Lemma open_handle_is_fed_witness :
  drive step racing NewWithClient = Some after_race
  /\ subscribers (subs after_race) "d" !! 1%Z = Some (mkSub "d" 1 "a").
Proof.
  assert (E : drive step racing NewWithClient = Some after_race) by (vm_compute; reflexivity).
  split; [exact E|].
  destruct (open_handle_is_fed racing after_race E eq_refl ltac:(vm_compute; reflexivity)) as (H & _).
  destruct (H 0 (mkSub "d" 1 "a") ltac:(vm_compute; reflexivity)) as [H1 _]. exact H1.
Defined.

(** No Redis subscription is leaked.  Once no call is in flight and the pumps
    told to stop have stopped, the pumps still running are exactly the installed ones,
    one per subscribed document at most; after the hub's close there is none. *)
Theorem no_pump_is_leaked (evs : list event) (s : hub) :
  drive step evs NewWithClient = Some s -> (Z.of_nat (List.length evs) + 1 < 2 ^ 64)%Z ->
  (forall k sub p, calls s !! k <> Some (SUp sub p)) ->
  (forall p doc, runs s !! p <> Some (doc, PStopping)) ->
  forall p doc, (exists st, runs s !! p = Some (doc, st) /\ st <> PStopped)
    <-> (h_closed s = false /\ subscribers (subs s) doc <> ∅ /\ exists r, pumps s !! doc = Some (p, r)).
Proof.
  intros H Hlen Hup Hstop p doc. destruct (drive_good evs s Hlen H) as [R P]. split.
  - intros (st & Hst & Hne). destruct st; [|by destruct (Hstop p doc)|done].
    destruct (p_run s P p doc Hst) as [[r E]|(k & sub & E)]; [|by destruct (Hup k sub p)]. split_and!.
    + destruct (h_closed s) eqn:Hcl; [|done]. rewrite (p_closed s P Hcl) in E. by rewrite lookup_empty in E.
    + destruct (p_refs s P doc p r E) as (E1 & E2 & _). intros E3. rewrite E3, map_size_empty in E1. lia.
    + eauto.
  - intros (_ & _ & r & E). destruct (p_refs s P doc p r E) as (_ & _ & E3). eauto.
Qed.

Definition after_close : hub := default NewWithClient (drive step (racing ++ [EvClose; EvStopped 1]) NewWithClient).

Lemma no_pump_is_leaked_witness :
  drive step (racing ++ [EvClose; EvStopped 1]) NewWithClient = Some after_close
  /\ ~ (exists st, runs after_close !! 1 = Some ("d", st) /\ st <> PStopped).
Proof.
  assert (Hc : map_Forall (fun _ pc => match pc with SUp _ _ => false | _ => true end = true) (calls after_close))
    by (apply (bool_decide_eq_true_1 _); vm_compute; reflexivity).
  assert (Hr : map_Forall (fun _ x => x.2 = PStopped) (runs after_close))
    by (apply (bool_decide_eq_true_1 _); vm_compute; reflexivity).
  assert (E0 : drive step (racing ++ [EvClose; EvStopped 1]) NewWithClient = Some after_close) by (vm_compute; reflexivity).
  split; [exact E0|]. intros Hrun.
  destruct (proj1 (no_pump_is_leaked (racing ++ [EvClose; EvStopped 1]) after_close E0 eq_refl
    (fun k sub p E => ltac:(discriminate (Hc k _ E))) (fun p doc E => ltac:(discriminate (Hr p _ E))) 1 "d") Hrun)
    as (E & _).
  assert (Hcl : h_closed after_close = true) by (vm_compute; reflexivity).
  congruence.
Defined.
