(* ===== verification/WsConn.v ===== *)
(** * The socket side of a connection (internal/adapter/inbound/ws)

    [wsconn] is the bounded outbound queue of conn.go with its terminal boundary.
    Each operation under the admission lock, each step of the writer goroutine and
    the hard close is one event; the goroutines' events come in any order.  Then
    the close statuses, and the order in which handler.go's [serve] does things. *)

From stdpp Require Import base sets list strings.
From Stdlib Require Import ZArith NArith String Lia.
From S2P Require Import Prelude Control Lifecycle Core RoomState RoomLoop Manager.
From S2P Require Import Auth Admission.

Local Open Scope string_scope.
Local Open Scope list_scope.

(** ** The queue *)

Inductive outgoing := OFrame (frame : bytes) | OEnd (e : SessionEnd).

(** [websocket.StatusCode] *)
Definition StatusGoingAway : N := 1001.
Definition StatusPolicyViolation : N := 1008.
Definition StatusInternalError : N := 1011.
Definition StatusTryAgainLater : N := 1013.

(** What reaches the peer, oldest first. *)
Inductive wire_item := Wrote (frame : bytes) | ClosedWith (status : N) (reason : string).

Definition closeStatusFor (e : SessionEnd) : N * string :=
  let c := end_code e in
  if String.eqb c CodeServerShutdown then (StatusGoingAway, c)
  else if String.eqb c CodeUpdateRateExceeded || String.eqb c CodeUpdateNotAccepted then
    (StatusTryAgainLater, c)
  else if String.eqb c CodeDocumentSizeLimitExceeded || String.eqb c CodeDocumentDeleted
          || String.eqb c CodeEditsNotSaved || String.eqb c CodeContentRefused
          || String.eqb c CodeForbidden then (StatusPolicyViolation, c)
  else if String.eqb (end_disposition e) DispositionTransient then (StatusGoingAway, c)
  else (StatusPolicyViolation, c).

Record wsconn := mkConn {
  depth : nat;
  queue : list outgoing;
  ending : bool;
  gone : bool;
  writing : bool;
  wire : list wire_item }.

Inductive admission := admitted | refusedTerminal | refusedFull.
#[export] Instance admission_eq_dec : EqDecision admission.
Proof. solve_decision. Defined.

Definition newWSConn (buffer : Z) : wsconn :=
  mkConn (Z.to_nat (if (buffer <=? 0)%Z then 64 else buffer)) [] false false true [].

(** A non-blocking send on the channel. *)
Definition push (item : outgoing) (c : wsconn) : admission * wsconn :=
  if (List.length (queue c) <? depth c)%nat
  then (admitted, mkConn (depth c) (queue c ++ [item]) (ending c) (gone c) (writing c) (wire c))
  else (refusedFull, c).

(** [sees_gone]: what the unsynchronised [isClosed] observes; it may be stale. *)
Definition offer (item : outgoing) (sees_gone : bool) (c : wsconn) : admission * wsconn :=
  if ending c || sees_gone then (refusedTerminal, c) else push item c.

Definition set_ending (c : wsconn) : wsconn :=
  mkConn (depth c) (queue c) true (gone c) (writing c) (wire c).

Definition admitEnd (e : SessionEnd) (sees_gone : bool) (c : wsconn) : admission * wsconn :=
  if ending c || sees_gone then (refusedTerminal, c) else push (OEnd e) (set_ending c).

Definition close (c : wsconn) : wsconn :=
  mkConn (depth c) (queue c) (ending c) true (writing c) (wire c).

(** [true] is the nil error. *)
Definition Send (frame : bytes) (sees_gone : bool) (c : wsconn) : bool * wsconn :=
  match offer (OFrame frame) sees_gone c with
  | (admitted, c') => (true, c')
  | (refusedTerminal, c') => (false, c')
  | (refusedFull, c') => (false, close c')
  end.

Definition CloseAfterDrain (e : SessionEnd) (sees_gone : bool) (c : wsconn) : wsconn :=
  match admitEnd e sees_gone c with
  | (refusedFull, c') => close c'
  | (_, c') => c'
  end.

(** One attempt of [sendInitial]'s loop: done, or it waits ([None]). *)
Definition sendInitial_try (frame : bytes) (sees_gone : bool) (c : wsconn) : option bool * wsconn :=
  match offer (OFrame frame) sees_gone c with
  | (admitted, c') => (Some true, c')
  | (refusedTerminal, c') => (Some false, c')
  | (refusedFull, c') => (None, c')
  end.

Definition closing (e : SessionEnd) : wire_item := ClosedWith (closeStatusFor e).1 (closeStatusFor e).2.

(** [closeWith]: the graceful close, whose error is ignored, then the closed channel. *)
Definition closeWith (e : SessionEnd) (close_ok : bool) (c : wsconn) : wsconn :=
  mkConn (depth c) (queue c) (ending c) true (writing c)
    (wire c ++ if close_ok then [closing e] else []).

Definition stop_writer (c : wsconn) : wsconn :=
  mkConn (depth c) (queue c) (ending c) (gone c) false (wire c).

(** One turn of the writer: it takes the oldest item; [write_ok] is the socket's answer. *)
Definition writer_turn (write_ok : bool) (c : wsconn) : option wsconn :=
  if writing c then
    match queue c with
    | [] => None
    | item :: rest =>
        let c1 := mkConn (depth c) rest (ending c) (gone c) (writing c) (wire c) in
        Some (match item with
              | OEnd e => stop_writer (closeWith e write_ok c1)
              | OFrame f =>
                  if write_ok
                  then mkConn (depth c) rest (ending c) (gone c) (writing c) (wire c ++ [Wrote f])
                  else stop_writer (close c1)
              end)
    end
  else None.

(** ** Events *)

Inductive conn_event :=
| CSend (frame : bytes) (sees_gone : bool)
| CInitial (frame : bytes) (sees_gone : bool)
| CInitialTimeout
| CEnd (e : SessionEnd) (sees_gone : bool)
| CWriter (write_ok : bool)
| CWriterExit
| CClose.

(** A closed channel is never seen open again by the goroutine that closed it, but
    may be seen late by others; it is never seen closed before it is. *)
Definition truthful (sees_gone : bool) (c : wsconn) : bool := implb sees_gone (gone c).

(** The new state and the frames it accepted. *)
Definition conn_step (ev : conn_event) (c : wsconn) : option (wsconn * list bytes) :=
  match ev with
  | CSend f sg =>
      if truthful sg c then
        let '(ok, c') := Send f sg c in Some (c', if ok : bool then [f] else [])
      else None
  | CInitial f sg =>
      if truthful sg c then
        let '(ok, c') := sendInitial_try f sg c in
        Some (c', match ok with Some true => [f] | _ => [] end)
      else None
  | CInitialTimeout => Some (close c, [])
  | CEnd e sg => if truthful sg c then Some (CloseAfterDrain e sg c, []) else None
  | CWriter ok => option_map (fun c' => (c', [])) (writer_turn ok c)
  | CWriterExit => if gone c && writing c then Some (stop_writer c, []) else None
  | CClose => Some (close c, [])
  end.

(** Runs events, collecting the accepted frames in order. *)
Fixpoint conn_run (evs : list conn_event) (c : wsconn) (acc : list bytes) : option (wsconn * list bytes) :=
  match evs with
  | [] => Some (c, acc)
  | ev :: evs' =>
      match conn_step ev c with
      | Some (c', fs) => conn_run evs' c' (acc ++ fs)%list
      | None => None
      end
  end.

(** The end the connection is asked for first, by a caller that sees it open. *)
Fixpoint first_end (evs : list conn_event) : option SessionEnd :=
  match evs with
  | [] => None
  | CEnd e false :: _ => Some e
  | _ :: evs' => first_end evs'
  end.

Definition frames (q : list outgoing) : list bytes :=
  omap (fun o => match o with OFrame f => Some f | OEnd _ => None end) q.

(** ** Refused joins and the handler *)

Definition ReasonRoomCapacityReached := "room-capacity-reached".

Definition joinCloseStatus (e : joinFailure) : N * string :=
  match e with
  | RoomFull => (StatusTryAgainLater, ReasonRoomCapacityReached)
  | ErrForbidden | ErrDocumentUnknown => (StatusPolicyViolation, "forbidden")
  | ManagerShuttingDown => (StatusGoingAway, CodeServerShutdown)
  | AuthFailed | MetadataUnavailable | RoomUnavailable | MaterializeFailed =>
      (StatusInternalError, "join failed")
  end.

(** [contentTypeFromRequest] on the [type] query parameter. *)
Definition contentTypeFromRequest (t : string) : option ContentType :=
  if String.eqb t "" || String.eqb t ContentTypeMemo then Some ContentTypeMemo
  else if String.eqb t ContentTypeWhiteboard then Some ContentTypeWhiteboard
  else None.

Definition readHeadroomBytes : Z := Z.shiftl 4 20.
Definition ReadLimitFor (maxDocBytes : Z) : Z := i64 (maxDocBytes + readHeadroomBytes).

(** What [serve] does, in order. *)
Inductive serve_action :=
| AStartWriter | AJoin | ARefused (status : N) (reason : string) | AQueueInitial (f : wire_frame)
| AActivate | AForward (frame : bytes) | ALeave | ACloseConn.

(** The initial batch: [accepts] is what [sendInitial] answers for each frame. *)
Fixpoint send_batch (batch : list (wire_frame * bool)) : list serve_action * bool :=
  match batch with
  | [] => ([], true)
  | (f, true) :: batch' =>
      let '(acts, ok) := send_batch batch' in (AQueueInitial f :: acts, ok)
  | (f, false) :: _ => ([AQueueInitial f], false)
  end.

(** [readLoop]: [inbound] lists what it reads until a read fails; [None] is a text
    message, which is ignored. *)
Definition readLoop (inbound : list (option bytes)) : list serve_action :=
  omap (fun x => match x with Some f => Some (AForward f) | None => None end) inbound.

Definition serve (joined : joinFailure + list (wire_frame * bool)) (activated : bool)
    (inbound : list (option bytes)) : list serve_action :=
  ([AStartWriter; AJoin]
   ++ match joined with
      | inl e => let '(status, reason) := joinCloseStatus e in [ARefused status reason; ACloseConn]
      | inr batch =>
          let '(acts, ok) := send_batch batch in
          acts
          ++ (if ok then
                AActivate :: (if activated then readLoop inbound else [])
              else [])
          ++ [ALeave; ACloseConn]
      end)%list.


(** ** The upgrade *)

(** The handler's configuration, and one request: its document id, its headers, its
    [type] parameter, and whether the upgrade succeeds. *)
Record Handler := mkHandler { h_ActorIDHeader : string; h_ReadLimitBytes : Z }.
Record request := mkRequest {
  r_documentId : DocumentID; r_header : string -> string; r_type : string; r_accepts : bool }.

Inductive upgrade :=
| HTTPError (status : Z)
| NotUpgraded
| Serves (id : DocumentID) (content : ContentType) (identity : Identity) (limit : option Z).

Definition credential (h : Handler) (r : request) : string :=
  if String.eqb (h_ActorIDHeader h) "" then "" else r_header r (h_ActorIDHeader h).

Definition ServeHTTP (authenticate : string -> option Identity) (h : Handler) (r : request) : upgrade :=
  if String.eqb (r_documentId r) "" then HTTPError 400
  else match authenticate (credential h r) with
       | None => HTTPError 401
       | Some identity =>
           match contentTypeFromRequest (r_type r) with
           | None => HTTPError 400
           | Some content =>
               if r_accepts r
               then Serves (r_documentId r) content identity
                      (if (0 <? h_ReadLimitBytes h)%Z then Some (h_ReadLimitBytes h) else None)
               else NotUpgraded
           end
       end.

(** ** The queue's invariant *)

(** [first] is the end asked for first, [acc] the frames accepted so far. *)
Record conn_ok (first : option SessionEnd) (c : wsconn) (acc : list bytes) : Prop := {
  ok_bound : (List.length (queue c) <= depth c)%nat;
  ok_last : forall pre e post, queue c = pre ++ OEnd e :: post -> post = [] /\ first = Some e;
  ok_ending : ending c = bool_decide (is_Some first);
  ok_wire :
    (exists sent, wire c = map Wrote sent
       /\ (if writing c then sent ++ frames (queue c) = acc else sent `prefix_of` acc))
    \/ (exists e, first = Some e /\ writing c = false /\ wire c = map Wrote acc ++ [closing e]) }.

Lemma frames_app q q' : frames (q ++ q') = frames q ++ frames q'.
Proof. apply omap_app. Qed.

Lemma end_last q pre e post item :
  (forall e', OEnd e' ∉ q) -> q ++ [item] = pre ++ OEnd e :: post -> post = [] /\ item = OEnd e.
Proof.
  intros Hno Heq. destruct post as [|x post _] using rev_ind.
  - apply app_inj_tail in Heq as [_ ->]. done.
  - exfalso. rewrite app_comm_cons, app_assoc in Heq. apply app_inj_tail in Heq as [-> _].
    apply (Hno e). set_solver.
Qed.

Lemma ok_open first c acc : conn_ok first c acc -> ending c = false ->
  first = None /\ forall e, OEnd e ∉ queue c.
Proof.
  intros [_ Hlast He _] Hc. rewrite Hc in He. symmetry in He. apply bool_decide_eq_false in He.
  assert (first = None) as -> by (destruct first; [exfalso; eauto|done]). split; [done|].
  intros e (pre & post & Hq)%list_elem_of_split. by destruct (Hlast _ _ _ Hq).
Qed.

Lemma conn_ok_close first c acc : conn_ok first c acc -> conn_ok first (close c) acc.
Proof. intros []; split; done. Qed.

Lemma conn_ok_stop first c acc : conn_ok first c acc -> conn_ok first (stop_writer c) acc.
Proof.
  intros [Hb Hl He Hw]; split; [done..|]. destruct Hw as [(sent & ? & Hs)|(e & ?)]; [left|right; naive_solver].
  exists sent. split; [done|]. simpl. destruct (writing c); [|done].
  rewrite <- Hs. apply prefix_app_r. done.
Qed.

(** A frame joins the queue of an open connection, or nothing changes. *)
Lemma conn_ok_offer first c acc f sg :
  conn_ok first c acc ->
  match offer (OFrame f) sg c with
  | (admitted, c') => conn_ok first c' (acc ++ [f])
  | (_, c') => c' = c
  end.
Proof.
  intros Hok. unfold offer, push. destruct (ending c || sg) eqn:Hg; [done|].
  apply orb_false_iff in Hg as [Hend _]. destruct (ok_open _ _ _ Hok Hend) as [-> Hno].
  destruct (Nat.ltb_spec (List.length (queue c)) (depth c)) as [Hd|]; [|done].
  destruct Hok as [Hb Hl He Hw]. split; simpl.
  - rewrite length_app. simpl. lia.
  - intros pre e post Hq. by apply end_last in Hq as [_ ?].
  - done.
  - destruct Hw as [(sent & Hs & Hacc)|(e & ? & _)]; [left|done].
    exists sent. split; [done|]. destruct (writing c).
    + rewrite frames_app. simpl. rewrite app_assoc, Hacc. done.
    + by apply prefix_app_r.
Qed.

Lemma conn_ok_end first c acc e :
  conn_ok first c acc ->
  conn_ok (if first is Some e' then Some e' else Some e) (CloseAfterDrain e false c) acc.
Proof.
  intros Hok. unfold CloseAfterDrain, admitEnd, push. rewrite orb_false_r.
  destruct (ending c) eqn:Hend.
  - pose proof (ok_ending _ _ _ Hok) as He. rewrite Hend in He.
    destruct first; [done|]. by rewrite bool_decide_eq_false_2 in He by (intros [? [=]]).
  - destruct (ok_open _ _ _ Hok Hend) as [-> Hno]. destruct Hok as [Hb Hl He Hw]. simpl.
    assert (exists sent, wire c = map Wrote sent
       /\ (if writing c then sent ++ frames (queue c) = acc else sent `prefix_of` acc)) as Hw'
      by (destruct Hw as [|(? & ? & _)]; done). clear Hw.
    destruct (Nat.ltb_spec (List.length (queue c)) (depth c)) as [Hd|].
    + split; simpl; [rewrite length_app; simpl; lia| |done|].
      * intros pre e' post Hq. apply end_last in Hq as [-> [= ->]]; done.
      * left. rewrite frames_app. simpl. by rewrite app_nil_r.
    + split; simpl; [done| |done|by left].
      intros pre e' post Hq. exfalso. apply (Hno e'). rewrite Hq. set_solver.
Qed.

Lemma conn_ok_writer first c acc w c' :
  conn_ok first c acc -> writer_turn w c = Some c' -> conn_ok first c' acc.
Proof.
  intros [Hb Hl He Hw] Ht. unfold writer_turn in Ht.
  destruct (writing c) eqn:Hwr; [|done]. destruct (queue c) as [|item rest] eqn:Hq; [done|].
  destruct Hw as [(sent & Hs & Hacc)|(? & ? & ? & _)]; [|done].
  injection Ht as <-. simpl in Hb.
  assert (forall pre e post, rest = pre ++ OEnd e :: post -> post = [] /\ first = Some e) as Hl'
    by (intros pre e post ->; exact (Hl (item :: pre) e post eq_refl)).
  destruct item as [f|e].
  - simpl in Hacc. destruct w; (split; [simpl; lia|done|done|left]); simpl.
    + exists (sent ++ [f]). rewrite map_app, Hs. split; [done|]. by rewrite <- app_assoc.
    + exists sent. split; [done|]. exists (f :: frames rest). done.
  - destruct (Hl [] e rest eq_refl) as [-> ->]. simpl in Hacc. rewrite app_nil_r in Hacc. subst sent.
    split; [simpl; lia|by intros [|? []]|done|]. destruct w; simpl.
    + right. exists e. by rewrite Hs.
    + left. exists acc. by rewrite app_nil_r.
Qed.

Lemma conn_ok_run evs first c acc c' acc' :
  conn_ok first c acc -> conn_run evs c acc = Some (c', acc') ->
  conn_ok (if first is Some e then Some e else first_end evs) c' acc'.
Proof.
  revert first c acc. induction evs as [|ev evs IH]; intros first c acc Hok; simpl.
  - intros [= <- <-]. by destruct first.
  - destruct (conn_step ev c) as [[c1 fs]|] eqn:Hst; [|done]. intros Hrun.
    enough (conn_ok (if first is Some e then Some e
                     else if ev is CEnd e false then Some e else None) c1 (acc ++ fs)) as H1.
    { apply (IH _ _ _ H1) in Hrun. destruct first; [done|]. destruct ev as [| | |? []| | |]; done. }
    assert (forall o : option SessionEnd, (if o is Some e then Some e else None) = o) as Hid by by intros [].
    destruct ev as [f sg|f sg| |e sg|w| |]; simpl in Hst.
    + destruct (truthful sg c); [|done]. unfold Send in Hst. pose proof (conn_ok_offer _ _ _ f sg Hok) as Ho.
      destruct (offer (OFrame f) sg c) as [[] c2]; injection Hst as <- <-; rewrite Hid; [done|subst c2..];
        rewrite app_nil_r; [done|by apply conn_ok_close].
    + destruct (truthful sg c); [|done]. unfold sendInitial_try in Hst.
      pose proof (conn_ok_offer _ _ _ f sg Hok) as Ho.
      destruct (offer (OFrame f) sg c) as [[] c2]; injection Hst as <- <-; rewrite Hid; [done|subst c2..];
        by rewrite app_nil_r.
    + injection Hst as <- <-. rewrite Hid, app_nil_r. by apply conn_ok_close.
    + destruct (truthful sg c); [|done]. injection Hst as <- <-. rewrite app_nil_r. destruct sg.
      * rewrite Hid. unfold CloseAfterDrain, admitEnd. by rewrite orb_true_r.
      * by apply conn_ok_end.
    + destruct (writer_turn w c) as [c2|] eqn:Ht; [|done]. injection Hst as <- <-.
      rewrite Hid, app_nil_r. by eapply conn_ok_writer.
    + destruct (gone c && writing c); [|done]. injection Hst as <- <-.
      rewrite Hid, app_nil_r. by apply conn_ok_stop.
    + injection Hst as <- <-. rewrite Hid, app_nil_r. by apply conn_ok_close.
Qed.

Lemma conn_ok_new buffer : conn_ok None (newWSConn buffer) [].
Proof.
  split; simpl; [lia|by intros [|? []]|done|]. left. by exists [].
Qed.

Lemma conn_ok_reached buffer evs c acc :
  conn_run evs (newWSConn buffer) [] = Some (c, acc) -> conn_ok (first_end evs) c acc.
Proof. apply (conn_ok_run evs None), conn_ok_new. Qed.

(** ** Draining *)

Lemma drain fs e : forall c acc,
  writing c = true -> queue c = map OFrame fs ++ [OEnd e] ->
  conn_run (replicate (S (List.length fs)) (CWriter true)) c acc
  = Some (mkConn (depth c) [] (ending c) true false (wire c ++ map Wrote fs ++ [closing e]), acc).
Proof.
  induction fs as [|f fs IH]; intros c acc Hw Hq; simpl in Hq.
  - simpl. unfold writer_turn. rewrite Hw, Hq. simpl. by rewrite app_nil_r.
  - change (replicate (S (List.length (f :: fs))) (CWriter true))
      with (CWriter true :: replicate (S (List.length fs)) (CWriter true)).
    cbn [conn_run conn_step]. unfold writer_turn. rewrite Hw, Hq. cbn [option_map].
    rewrite IH by done. simpl. by rewrite app_nil_r, <- app_assoc.
Qed.

(** Nothing moves on the wire once the boundary is closed and the writer has left. *)
Lemma sealed evs : forall c acc c' acc',
  ending c = true -> writing c = false ->
  conn_run evs c acc = Some (c', acc') -> acc' = acc /\ wire c' = wire c.
Proof.
  induction evs as [|ev evs IH]; intros c acc c' acc' He Hw; simpl; [by intros [= <- <-]|].
  destruct (conn_step ev c) as [[c1 fs]|] eqn:Hst; [|done]. intros Hrun.
  enough (fs = [] /\ wire c1 = wire c /\ ending c1 = true /\ writing c1 = false) as (-> & <- & ? & ?).
  { rewrite app_nil_r in Hrun. eauto. }
  destruct ev as [f sg|f sg| |e sg|w| |]; simpl in Hst;
    try (destruct (truthful sg c); [|done]);
    unfold Send, sendInitial_try, CloseAfterDrain, admitEnd, offer, writer_turn in Hst;
    rewrite ?He, ?Hw, ?andb_false_r in Hst; simplify_eq/=; done.
Qed.

Lemma conn_run_app evs evs' c acc :
  conn_run (evs ++ evs') c acc
  = match conn_run evs c acc with Some (c1, acc1) => conn_run evs' c1 acc1 | None => None end.
Proof.
  revert c acc. induction evs as [|ev evs IH]; intros c acc; simpl; [done|].
  destruct (conn_step ev c) as [[c1 fs]|]; [apply IH|done].
Qed.

Lemma conn_step_end c e : ending c = false -> (List.length (queue c) < depth c)%nat ->
  conn_step (CEnd e false) c
  = Some (mkConn (depth c) (queue c ++ [OEnd e]) true (gone c) (writing c) (wire c), []).
Proof.
  intros Hend Hroom. simpl. unfold CloseAfterDrain, admitEnd, push. rewrite Hend. simpl.
  by rewrite (proj2 (Nat.ltb_lt _ _) Hroom).
Qed.

Lemma open_queue first c acc : conn_ok first c acc -> ending c = false ->
  queue c = map OFrame (frames (queue c)).
Proof.
  intros Hok Hend. destruct (ok_open _ _ _ Hok Hend) as [_ Hno]. clear -Hno.
  induction (queue c) as [|[f|e] q IH]; simpl; [done| |].
  - f_equal. apply IH. intros e Hin. apply (Hno e). by right.
  - exfalso. apply (Hno e). left.
Qed.

(** ** Properties of the queue *)

(** C27: whatever the interleaving of the room's sends, the handler's initial batch,
    session ends, hard closes and the writer, the peer reads a prefix of the frames
    that were accepted, in the order they were accepted, and the queue never holds
    more than its depth.  If the graceful close reaches the wire, every accepted
    frame precedes it and nothing follows it; it carries the status of the end asked
    for first, and that end is never behind anything but frames. *)
Theorem outbound_in_order (buffer : Z) (evs : list conn_event) (c : wsconn) (acc : list bytes) :
  conn_run evs (newWSConn buffer) [] = Some (c, acc) ->
  (List.length (queue c) <= depth c)%nat
  /\ (forall pre e post, queue c = pre ++ OEnd e :: post -> post = [] /\ first_end evs = Some e)
  /\ ((exists sent, wire c = map Wrote sent /\ sent `prefix_of` acc
         /\ (writing c = true -> acc = sent ++ frames (queue c)))
      \/ (exists e, first_end evs = Some e /\ wire c = map Wrote acc ++ [closing e])).
Proof.
  intros Hrun. destruct (conn_ok_reached _ _ _ _ Hrun) as [Hb Hl _ Hw]. do 2 (split; [done|]).
  destruct Hw as [(sent & Hs & Hacc)|(e & ? & _ & ?)]; [left|right; eauto].
  exists sent. split; [done|]. destruct (writing c); [|done]. rewrite <- Hacc.
  split; [|done]. by apply prefix_app_r.
Qed.

Definition end_a := mkEnd CodeServerShutdown ScopeDocument DispositionTransient.
Definition sample_run : list conn_event :=
  [CSend "a" false; CInitial "b" false; CEnd end_a false; CSend "c" false;
   CWriter true; CWriter true; CWriter true; CSend "d" true].

Definition sample_conn : wsconn :=
  mkConn 3 [] true true false [Wrote "a"; Wrote "b"; ClosedWith 1001 "server-shutdown"].

Lemma outbound_in_order_witness :
  conn_run sample_run (newWSConn 3) []
    = Some (sample_conn, ["a"; "b"])
  /\ (List.length (queue sample_conn) <= depth sample_conn)%nat.
Proof.
  split; [reflexivity|].
  apply (outbound_in_order 3 sample_run sample_conn ["a"; "b"]). reflexivity.
Defined.

(** An end requested on an open connection with room in its queue is a graceful
    one: once the writer has drained, the peer has read every accepted frame and then
    the close, and from then on no send is accepted and the wire never changes. *)
Theorem graceful_end_drains (buffer : Z) (evs later : list conn_event) (c cz : wsconn)
    (acc accz : list bytes) (e : SessionEnd) :
  conn_run evs (newWSConn buffer) [] = Some (c, acc) ->
  writing c = true -> ending c = false ->
  (List.length (queue c) < depth c)%nat ->
  conn_run (CEnd e false :: replicate (S (List.length (queue c))) (CWriter true) ++ later) c acc
    = Some (cz, accz) ->
  accz = acc /\ wire cz = map Wrote acc ++ [closing e].
Proof.
  intros Hrun Hw Hend Hroom. pose proof (conn_ok_reached _ _ _ _ Hrun) as Hok.
  assert (wire c ++ map Wrote (frames (queue c)) = map Wrote acc) as Hwire.
  { destruct (ok_wire _ _ _ Hok) as [(sent & -> & Hacc)|(? & _ & ? & _)]; [|congruence].
    rewrite Hw in Hacc. by rewrite <- Hacc, map_app. }
  pose proof (open_queue _ _ _ Hok Hend) as Hq.
  replace (List.length (queue c)) with (List.length (frames (queue c)))
    by (rewrite Hq at 2; by rewrite length_map).
  rewrite app_comm_cons, conn_run_app. cbn [conn_run].
  rewrite (conn_step_end _ _ Hend Hroom). rewrite app_nil_r, (drain (frames (queue c)) e)
    by (simpl; congruence).
  intros [-> ->]%sealed; [|done..]. simpl. by rewrite app_assoc, Hwire.
Qed.

Lemma graceful_end_drains_witness :
  conn_run [CSend "a" false; CSend "b" false; CWriter true] (newWSConn 2) []
    = Some (mkConn 2 [OFrame "b"] false false true [Wrote "a"], ["a"; "b"])
  /\ ["a"; "b"] = ["a"; "b"]
  /\ [Wrote "a"; Wrote "b"; ClosedWith 1001 "server-shutdown"]
     = map Wrote ["a"; "b"] ++ [closing end_a].
Proof.
  split; [reflexivity|].
  apply (graceful_end_drains 2 [CSend "a" false; CSend "b" false; CWriter true] [CSend "c" false]
    (mkConn 2 [OFrame "b"] false false true [Wrote "a"])
    (mkConn 2 [] true true false [Wrote "a"; Wrote "b"; ClosedWith 1001 "server-shutdown"])
    ["a"; "b"] ["a"; "b"] end_a); [reflexivity..|simpl; lia|reflexivity].
Defined.

(** ** Properties of the close statuses *)

(** For every end of the table the socket closes with the end's own code as its
    reason, and the status invites a reconnect (1001 or 1013) exactly when the end's
    disposition is transient; 1001 is kept for the shutdown of the pod. *)
Theorem close_status_matches_disposition (code : SessionEndCode) (e : SessionEnd) :
  NewSessionEnd code = Some e ->
  (closeStatusFor e).2 = code
  /\ ((closeStatusFor e).1 ∈ [StatusGoingAway; StatusTryAgainLater]
      <-> end_disposition e = DispositionTransient)
  /\ ((closeStatusFor e).1 = StatusGoingAway <-> code = CodeServerShutdown).
Proof.
  intros H%table_lookup_In. simpl in H.
  repeat (destruct H as [[= <- <-]|H];
    [rewrite !elem_of_cons, elem_of_nil; vm_compute; intuition congruence|]). done.
Qed.

Lemma close_status_matches_disposition_witness :
  NewSessionEnd CodeServerShutdown = Some end_a /\ (closeStatusFor end_a).2 = CodeServerShutdown.
Proof.
  split; [reflexivity|]. exact (proj1 (close_status_matches_disposition CodeServerShutdown end_a eq_refl)).
Defined.

(** ** The handler's order *)

Definition precedes {A} (x y : A) (l : list A) : Prop := exists k k', l = k ++ y :: k' /\ x ∈ k.

Lemma precedes_app {A} (x y : A) k l : x ∈ k -> y ∈ l -> precedes x y (k ++ l).
Proof.
  intros Hx (l1 & l2 & ->)%list_elem_of_split. exists (k ++ l1), l2.
  rewrite app_assoc. split; [done|]. set_solver.
Qed.

Lemma send_batch_spec batch acts ok :
  send_batch batch = (acts, ok) ->
  (forall a, a ∈ acts -> exists g, a = AQueueInitial g /\ g ∈ batch.*1)
  /\ (ok = true -> acts = map AQueueInitial batch.*1 /\ Forall (fun p => p.2 = true) batch).
Proof.
  revert acts ok. induction batch as [|[g []] batch IH]; simpl; intros acts ok.
  - intros [= <- <-]. split; [set_solver|]. intros _. split; [done|constructor].
  - destruct (send_batch batch) as [acts' ok'] eqn:Hb. intros [= <- <-].
    destruct (IH _ _ eq_refl) as [H1 H2]. split.
    + intros a [->|Ha]%elem_of_cons; [exists g; set_solver|].
      destruct (H1 _ Ha) as (g' & -> & ?). exists g'. set_solver.
    + intros ->. destruct H2 as [-> ?]; [done|]. split; [done|]. by constructor.
  - intros [= <- <-]. split; [|done]. intros a ->%list_elem_of_singleton. exists g. set_solver.
Qed.

Lemma send_batch_refused batch acts :
  send_batch batch = (acts, false) -> ~ Forall (fun p => p.2 = true) batch.
Proof.
  revert acts. induction batch as [|[g []] batch IH]; simpl; intros acts Hb; [done| |].
  - destruct (send_batch batch) as [acts' ok']. injection Hb as _ ->.
    intros [_ H]%Forall_cons. by eapply IH.
  - by intros [? _]%Forall_cons.
Qed.

(** The handler's order.  The close of the connection is the last thing it does;
    it leaves the room exactly when it joined; the session is activated only behind
    the whole initial batch; a client frame is forwarded only between the activation
    and the leave, and only if the client sent it as a binary message. *)
Theorem serve_order (joined : joinFailure + list (wire_frame * bool)) (activated : bool)
    (inbound : list (option bytes)) :
  (exists l, serve joined activated inbound = l ++ [ACloseConn])
  /\ (ALeave ∈ serve joined activated inbound <-> exists batch, joined = inr batch)
  /\ (AActivate ∈ serve joined activated inbound <->
      exists batch, joined = inr batch /\ Forall (fun p => p.2 = true) batch)
  /\ (AActivate ∈ serve joined activated inbound ->
      forall batch g, joined = inr batch -> g ∈ batch.*1 ->
      precedes (AQueueInitial g) AActivate (serve joined activated inbound))
  /\ (forall f, AForward f ∈ serve joined activated inbound ->
      activated = true /\ Some f ∈ inbound
      /\ precedes AActivate (AForward f) (serve joined activated inbound)
      /\ precedes (AForward f) ALeave (serve joined activated inbound)).
Proof.
  destruct joined as [e|batch]; unfold serve.
  - destruct (joinCloseStatus e) as [st rs].
    split_and!; [by exists [AStartWriter; AJoin; ARefused st rs]|..]; set_solver.
  - destruct (send_batch batch) as [acts ok] eqn:Hb. destruct (send_batch_spec _ _ _ Hb) as [H1 H2].
    assert (forall a, a ∈ acts -> exists g, a = AQueueInitial g) as Hq by naive_solver.
    destruct ok; rewrite (app_assoc _ acts).
    + destruct H2 as [-> Hall]; [done|]. set (fwd := if activated then _ else _).
      set (pre := _ ++ map AQueueInitial _).
      assert (forall a, a ∈ fwd -> exists f, a = AForward f /\ activated = true /\ Some f ∈ inbound) as Hf.
      { intros a. subst fwd. unfold readLoop. destruct activated; [|set_solver].
        intros ([f|] & ? & [= <-])%list_elem_of_omap. eauto. }
      assert (forall f, AForward f ∈ pre ++ (AActivate :: fwd) ++ [ALeave; ACloseConn] -> AForward f ∈ fwd) as Hff
        by (intros f; clear Hf; subst pre; set_solver).
      clearbody fwd. split_and!.
      * exists (pre ++ (AActivate :: fwd) ++ [ALeave]). by rewrite <- !app_assoc.
      * set_solver.
      * set_solver.
      * intros _ batch' g [= <-] Hg. apply precedes_app; set_solver.
      * intros f Hin%Hff. destruct (Hf _ Hin) as (f' & [= <-] & ? & ?). split_and!; [done..| |].
        -- change (AActivate :: fwd) with ([AActivate] ++ fwd). rewrite <- (app_assoc [_]), app_assoc.
           apply precedes_app; set_solver.
        -- rewrite app_assoc. apply precedes_app; set_solver.
    + pose proof (send_batch_refused _ _ Hb) as Hno.
      split_and!; [exists (([AStartWriter; AJoin] ++ acts) ++ [ALeave]); by rewrite <- !app_assoc|set_solver|set_solver|..];
        set_solver.
Qed.

(** Behind the gateway every served connection has an actor: an upgraded one has
    the id the configured header carried, which is not empty, a document id and
    a known content type; without that header every request ends with a 400 or 401
    before the upgrade. *)
Theorem header_mode_serves_named_actors (parse_uuid : string -> option ActorID) (h : Handler) (r : request) :
  (forall id c i lim, ServeHTTP (header_Authenticate parse_uuid) h r = Serves id c i lim ->
     id <> "" /\ (c = ContentTypeMemo \/ c = ContentTypeWhiteboard)
     /\ r_header r (h_ActorIDHeader h) <> ""
     /\ exists a, parse_uuid (r_header r (h_ActorIDHeader h)) = Some a /\ i = mkIdentity (Some a))
  /\ (h_ActorIDHeader h = "" \/ r_header r (h_ActorIDHeader h) = "" ->
     ServeHTTP (header_Authenticate parse_uuid) h r = HTTPError 400
     \/ ServeHTTP (header_Authenticate parse_uuid) h r = HTTPError 401).
Proof.
  unfold ServeHTTP, credential, header_Authenticate, IdentityFromActorID.
  destruct (String.eqb_spec (r_documentId r) ""); [split; [done|by left]|].
  destruct (String.eqb_spec (h_ActorIDHeader h) ""); simpl; [split; [done|by right]|].
  destruct (String.eqb_spec (r_header r (h_ActorIDHeader h)) "") as [->|]; [split; [done|by right]|].
  split; [|tauto]. intros id c i lim. destruct (parse_uuid _) as [a|]; [|done].
  destruct (contentTypeFromRequest (r_type r)) as [ct|] eqn:Hct; [|done].
  destruct (r_accepts r); [|done]. intros [= <- <- <- _]. split_and!; [done| |done|eauto].
  unfold contentTypeFromRequest in Hct. repeat case_match; simplify_eq; auto.
Qed.
