(* ===== verification/Http.v ===== *)
(** * The HTTP surface (adapter/inbound/http)

    [Create]: the document-create endpoint of deployments without a bus (collab_api.go).
    [observe]: the Prometheus bridge (metrics.go), of which the gauges of documents that
    cannot be saved are recomputed from a registry shared by every room.  Routing and
    middleware are in [Router]; the exposition format is Prometheus's. *)

From stdpp Require Import base gmap sets list strings.
From Stdlib Require Import ZArith String Lia.
From S2P Require Import Prelude Json Control RoomState RoomBarrier Manager Store FileStore.
From S2P Require Import Decode Auth WsConn.

Local Open Scope string_scope.

(** ** Creating a document *)

Definition maxCreateBody : Z := Z.shiftl 4 10.

Record CreateDocumentRequest := mkCreate {
  cr_ContentType : string; cr_OwnerRef : string; cr_AuthorizationPolicyID : string; cr_StorageBucketID : string }.
Definition create_fields : list (string * shape) :=
  [("contentType", SString); ("ownerRef", SString); ("authorizationPolicyId", SString); ("storageBucketId", SString)].

(** [Decoder.Decode] with unknown fields refused: the first value of the stream. *)
Definition decode_create (body : bytes) : option CreateDocumentRequest :=
  match parse_value (2 * String.length body + 2) max_nesting_depth body with
  | Some (v, _) =>
      match members_of (SStruct create_fields) v with
      | Some kvs =>
          if forallb (fun '(k, _) => existsb (fun '(name, _) => key_matches name k) create_fields) kvs then
            Some (mkCreate (string_field "contentType" kvs) (string_field "ownerRef" kvs)
                    (string_field "authorizationPolicyId" kvs) (string_field "storageBucketId" kvs))
          else None
      | None => None
      end
  | None => None
  end.

Definition resolveContentType (v : string) : option ContentType :=
  if String.eqb v "" then Some ContentTypeMemo
  else if String.eqb v ContentTypeMemo then Some ContentTypeMemo
  else if String.eqb v ContentTypeWhiteboard then Some ContentTypeWhiteboard else None.

(** [Manager.PreRegister] *)
Definition PreRegister `{MetadataStore W} (m : Metadata) (w : W) : bool * W := ms_save m w.

Definition created_row (id : DocumentID) (content : ContentType) (req : CreateDocumentRequest) : Metadata :=
  mkMetadata id content 0 "" true None (cr_AuthorizationPolicyID req) (cr_StorageBucketID req) (cr_OwnerRef req) 0 0.

(** What [Create] renders: [CreateDocumentResponse], or [ErrorResponse] under a code. *)
Inductive create_response := Registered (id : DocumentID) (content : ContentType) | Failed (code : Z) (why : string).

Definition create_document `{MetadataStore W} (requirePolicy : bool) (id : DocumentID) (body : bytes) (w : W)
    : create_response * W :=
  if String.eqb id "" then (Failed 400 "missing document id", w)
  else match decode_create (limited maxCreateBody body) with
       | None => (Failed 400 "malformed request body", w)
       | Some req =>
           match resolveContentType (cr_ContentType req) with
           | None => (Failed 400 "contentType must be one of memo, whiteboard", w)
           | Some content =>
               if requirePolicy && String.eqb (cr_AuthorizationPolicyID req) ""
               then (Failed 400 "authorizationPolicyId is required in authzeval mode", w)
               else let '(ok, w') := PreRegister (created_row id content req) w in
                    (if ok : bool then Registered id content else Failed 500 "failed to register document", w')
           end
       end.

Definition create_status (r : create_response) : Z := match r with Registered _ _ => 201 | Failed code _ => code end.

(** The status answered, and what became of the index. *)
Definition Create `{MetadataStore W} (requirePolicy : bool) (id : DocumentID) (body : bytes) (w : W) : Z * W :=
  let '(r, w') := create_document requirePolicy id body w in (create_status r, w').

(** ** Metrics *)

Record undurableEntry := mkUndurable { un_consecutive : Z; un_since : Z }.

(** Gauges and counters, and the observations of each histogram, latest first;
    durations in nanoseconds. *)
Record counters := mkCounters {
  RoomsActive : Z;
  ConnectionsActive : Z;
  SnapshotsSaved : Z;
  SnapshotsFailed : Z;
  FanoutsPublished : Z;
  FanoutsFailed : Z;
  FanoutLag : list Z;
  ActorsPerWindow : list Z;
  Escalations : Z;
  EscalationUndurable : list Z }.

Record metrics := mkMetrics {
  counted : counters;
  UndurableFlushFailures : Z;
  UndurableSince : Z;
  UndurableDocuments : Z;
  undurableDocs : gmap string undurableEntry }.

Definition InitMetrics : metrics := mkMetrics (mkCounters 0 0 0 0 0 0 [] [] 0 []) 0 0 0 ∅.

(** The methods of [PrometheusMetrics]. *)
Inductive metric_event :=
| RoomOpened | RoomClosed (doc : string) | ConnOpened | ConnClosed | SnapshotSaved | SnapshotFailed
| DocumentUndurable (doc : string) (consecutive since : Z)
| DocumentDurabilityRestored (doc : string)
| DocumentEscalated (doc : string) (undurableFor : Z)
| FanoutPublished (lag : Z) | FanoutFailed
| ContributingActors (n : Z).

Definition tally (ev : metric_event) (k : counters) : counters :=
  let '(mkCounters rooms conns saved failed published unpublished lags actors escalated lost) := k in
  match ev with
  | RoomOpened => mkCounters (rooms + 1) conns saved failed published unpublished lags actors escalated lost
  | RoomClosed _ => mkCounters (rooms - 1) conns saved failed published unpublished lags actors escalated lost
  | ConnOpened => mkCounters rooms (conns + 1) saved failed published unpublished lags actors escalated lost
  | ConnClosed => mkCounters rooms (conns - 1) saved failed published unpublished lags actors escalated lost
  | SnapshotSaved => mkCounters rooms conns (saved + 1) failed published unpublished lags actors escalated lost
  | SnapshotFailed => mkCounters rooms conns saved (failed + 1) published unpublished lags actors escalated lost
  | FanoutPublished lag =>
      mkCounters rooms conns saved failed (published + 1) unpublished (lag :: lags) actors escalated lost
  | FanoutFailed => mkCounters rooms conns saved failed published (unpublished + 1) lags actors escalated lost
  | ContributingActors n => mkCounters rooms conns saved failed published unpublished lags (n :: actors) escalated lost
  | DocumentEscalated _ since =>
      mkCounters rooms conns saved failed published unpublished lags actors (escalated + 1) (since :: lost)
  | DocumentUndurable _ _ _ | DocumentDurabilityRestored _ => k
  end.

(** The worst of the entries a range visits, starting from zero. *)
Definition worst (f : undurableEntry -> Z) (es : list undurableEntry) : Z :=
  fold_left (fun acc e => if (acc <? f e)%Z then f e else acc) es 0%Z.

Definition publishUndurableLocked (docs : gmap string undurableEntry) (k : counters) : metrics :=
  let es := (map_to_list docs).*2 in
  mkMetrics k (worst un_consecutive es) (worst un_since es) (Z.of_nat (size docs)) docs.

Definition observe (m : metrics) (ev : metric_event) : metrics :=
  let k := tally ev (counted m) in
  match ev with
  | DocumentUndurable doc consecutive since =>
      publishUndurableLocked (<[doc := mkUndurable consecutive since]> (undurableDocs m)) k
  | RoomClosed doc | DocumentDurabilityRestored doc | DocumentEscalated doc _ =>
      publishUndurableLocked (delete doc (undurableDocs m)) k
  | _ => mkMetrics k (UndurableFlushFailures m) (UndurableSince m) (UndurableDocuments m) (undurableDocs m)
  end.

(** [PrometheusLifecycleObserver]: a gauge per queue, a counter per pattern. *)
Record lifecycle_metrics := mkLifecycleMetrics { ready_depths : gmap string Z; dead_letters : gmap string Z }.
Definition QueueReadyDepth (queue : string) (ready : Z) (m : lifecycle_metrics) : lifecycle_metrics :=
  mkLifecycleMetrics (<[queue := ready]> (ready_depths m)) (dead_letters m).
Definition EventDeadLettered (pattern : string) (m : lifecycle_metrics) : lifecycle_metrics :=
  mkLifecycleMetrics (ready_depths m) (<[pattern := (default 0 (dead_letters m !! pattern) + 1)%Z]> (dead_letters m)).

Definition observe_all (evs : list metric_event) : metrics := fold_left observe evs InitMetrics.

(** ** What the gauges mean *)

(** The last thing said of a document. *)
Definition says (doc : string) (ev : metric_event) : option (option undurableEntry) :=
  match ev with
  | DocumentUndurable d n s => if String.eqb d doc then Some (Some (mkUndurable n s)) else None
  | RoomClosed d | DocumentDurabilityRestored d | DocumentEscalated d _ =>
      if String.eqb d doc then Some None else None
  | _ => None
  end.
Definition currently (doc : string) (evs : list metric_event) : option undurableEntry :=
  fold_left (fun acc ev => match says doc ev with Some x => x | None => acc end) evs None.

Definition event_doc (ev : metric_event) : list string :=
  match ev with
  | DocumentUndurable d _ _ | RoomClosed d | DocumentDurabilityRestored d | DocumentEscalated d _ => [d]
  | _ => []
  end.

(** The documents undurable now, from the history alone. *)
Definition undurable_now (evs : list metric_event) : list undurableEntry :=
  omap (fun d => currently d evs) (remove_dups (evs ≫= event_doc)).
Definition greatest (f : undurableEntry -> Z) (es : list undurableEntry) : Z := foldr Z.max 0%Z (map f es).

(** ** Properties of the metrics *)

Lemma observe_all_snoc evs ev : observe_all (evs ++ [ev]) = observe (observe_all evs) ev.
Proof. unfold observe_all. by rewrite fold_left_app. Qed.

Lemma currently_snoc doc evs ev :
  currently doc (evs ++ [ev]) = match says doc ev with Some x => x | None => currently doc evs end.
Proof. unfold currently. by rewrite fold_left_app. Qed.

(** The registry is the history: an entry is the last thing said of its document. *)
Lemma registry_is_history evs doc : undurableDocs (observe_all evs) !! doc = currently doc evs.
Proof.
  induction evs as [|ev evs IH] using rev_ind; [apply lookup_empty|].
  rewrite observe_all_snoc, currently_snoc.
  destruct ev; simpl; try exact IH; (destruct (String.eqb_spec doc0 doc) as [->|Hne];
    [by rewrite ?lookup_insert_eq, ?lookup_delete_eq
    |by rewrite ?lookup_insert_ne, ?lookup_delete_ne by done]).
Qed.

(** The gauges are published from the registry as it stands. *)
Lemma gauges_published evs :
  let m := observe_all evs in
  let es := (map_to_list (undurableDocs m)).*2 in
  UndurableFlushFailures m = worst un_consecutive es /\ UndurableSince m = worst un_since es
  /\ UndurableDocuments m = Z.of_nat (size (undurableDocs m)).
Proof.
  induction evs as [|ev evs IH] using rev_ind; [done|].
  rewrite observe_all_snoc. destruct ev; simpl; try exact IH; done.
Qed.

Lemma currently_known doc evs e : currently doc evs = Some e -> doc ∈ evs ≫= event_doc.
Proof.
  induction evs as [|ev evs IH] using rev_ind; [done|].
  rewrite currently_snoc, bind_app. intros H. apply elem_of_app.
  destruct ev; simpl in *; try (left; by apply IH);
    (destruct (String.eqb_spec doc0 doc) as [->|_]; [right; by left|left; by apply IH]).
Qed.

Lemma registry_entries evs : (map_to_list (undurableDocs (observe_all evs))).*2 ≡ₚ undurable_now evs.
Proof.
  set (ds := remove_dups (evs ≫= event_doc)).
  set (f := fun d => (fun e => (d, e)) <$> currently d evs).
  assert (Hf : undurable_now evs = (omap f ds).*2).
  { unfold undurable_now. fold ds. clearbody ds. induction ds as [|d ds IH]; [done|]. simpl.
    assert (E : f d = (fun e => (d, e)) <$> currently d evs) by done. rewrite E.
    destruct (currently d evs); simpl in *; [f_equal|]; exact IH. }
  rewrite Hf. apply fmap_Permutation, NoDup_Permutation.
  - apply NoDup_map_to_list.
  - assert (Hd : NoDup ds) by apply NoDup_remove_dups. clearbody ds. clear Hf. induction Hd as [|d ds Hin Hd IH]; simpl; [constructor|].
    unfold f at 1. destruct (currently d evs) as [e|]; simpl; [|exact IH]. constructor; [|exact IH].
    intros (d' & Hd' & H)%list_elem_of_omap. unfold f in H.
    destruct (currently d' evs); simplify_eq/=. done.
  - intros [d e]. rewrite elem_of_map_to_list, registry_is_history, list_elem_of_omap. split.
    + intros H. exists d. split; [by apply elem_of_remove_dups, (currently_known d evs e)|].
      unfold f. by rewrite H.
    + intros (d' & _ & H). unfold f in H. destruct (currently d' evs) eqn:E; simplify_eq/=. done.
Qed.

Lemma worst_greatest f es : worst f es = greatest f es.
Proof.
  unfold worst, greatest. enough (H : forall a, (0 <= a)%Z ->
    fold_left (fun acc e => if (acc <? f e)%Z then f e else acc) es a = Z.max a (foldr Z.max 0%Z (map f es))).
  { rewrite H by done. enough (0 <= foldr Z.max 0 (map f es))%Z by lia. clear H. induction es; simpl; lia. }
  induction es as [|e es IH]; intros a Ha; simpl; [lia|].
  destruct (Z.ltb_spec a (f e)); rewrite IH by lia; lia.
Qed.

#[export] Instance greatest_Permutation f : Proper ((≡ₚ) ==> eq) (greatest f).
Proof. intros es es' H. unfold greatest. induction H; simpl; lia. Qed.

(** C39: the exported gauges describe the platform, not the room that reported last:
    after any events of any rooms they show the greatest failure count and the longest
    window among the documents that are undurable now, and how many there are. *)
Theorem gauges_match_history (evs : list metric_event) :
  let m := observe_all evs in
  UndurableFlushFailures m = greatest un_consecutive (undurable_now evs)
  /\ UndurableSince m = greatest un_since (undurable_now evs)
  /\ UndurableDocuments m = Z.of_nat (List.length (undurable_now evs)).
Proof.
  destruct (gauges_published evs) as (Hf & Hs & Hd). cbv zeta.
  rewrite Hf, Hs, Hd, !worst_greatest, (registry_entries evs).
  split_and!; [done..|]. f_equal. rewrite <- (registry_entries evs), length_fmap.
  symmetry. apply length_map_to_list.
Qed.

Example recovery_of_another_document :
  let m := observe_all [DocumentUndurable "a" 3 (5 * second); DocumentUndurable "b" 1 second;
                        DocumentDurabilityRestored "b"; RoomClosed "c"] in
  UndurableFlushFailures m = 3%Z /\ UndurableSince m = (5 * second)%Z /\ UndurableDocuments m = 1%Z.
Proof. vm_compute. split_and!; reflexivity. Qed.

(** ** Properties of the create endpoint *)

(** The endpoint and the upgrade agree on content types. *)
Lemma content_types_agree t : resolveContentType t = contentTypeFromRequest t.
Proof. unfold resolveContentType, contentTypeFromRequest. by destruct (String.eqb t ""), (String.eqb t ContentTypeMemo). Qed.

(** The in-memory index, whose writes do not fail, as a metadata store. *)
Definition inmemory_index (now : Z) : MetadataStore InMemory.rows := {|
  ms_load id s := (InMemory.Load id s, s);
  ms_save m s := (true, InMemory.Save now m s) |}.

(** Answers of the endpoint and what they mean for the index [s']. *)
Definition create_answered (requirePolicy : bool) (id : DocumentID) (s s' : InMemory.rows) (status : Z) : Prop :=
  if (status =? 201)%Z then
    id <> "" /\ exists row, requireDocument (InMemory.Load id s') = inr row
      /\ (s !! id = None -> m_ContentType row = ContentTypeMemo \/ m_ContentType row = ContentTypeWhiteboard)
      /\ (requirePolicy = true -> m_AuthorizationPolicyID row <> "")
      /\ forall d, d <> id -> InMemory.Load d s' = InMemory.Load d s
  else status = 400%Z /\ s' = s.

Lemma resolveContentType_known t c :
  resolveContentType t = Some c -> c = ContentTypeMemo \/ c = ContentTypeWhiteboard.
Proof. unfold resolveContentType. repeat case_match; intros; simplify_eq; auto. Qed.

Lemma saved_row_joinable now id content req s :
  exists row, requireDocument (InMemory.Load id (InMemory.Save now (created_row id content req) s)) = inr row
    /\ (s !! id = None -> m_ContentType row = content)
    /\ (cr_AuthorizationPolicyID req <> "" -> m_AuthorizationPolicyID row = cr_AuthorizationPolicyID req).
Proof.
  unfold InMemory.Load, InMemory.Save. simpl. rewrite lookup_insert_eq.
  destruct (s !! id) as [old|] eqn:Hold; simpl.
  - replace (if m_Migrated old then true else true) with true by (by destruct (m_Migrated old)).
    simpl. eexists. split; [done|]. split; [done|]. simpl. intros Hp. by apply InMemory.blank_or_keeps.
  - eexists. split; [done|]. done.
Qed.

(** A document whose creation is answered 201 can be joined: its row is there and
    passes the checks of a join, a new row has a known content type, where authorization
    is evaluated it names a policy, and no other document changed.  Every other answer is
    400 and leaves the index as it was. *)
Theorem created_document_is_joinable (now : Z) (requirePolicy : bool) (id : DocumentID) (body : bytes)
    (s : InMemory.rows) :
  let '(status, s') := Create (H := inmemory_index now) requirePolicy id body s in
  create_answered requirePolicy id s s' status.
Proof.
  unfold Create, create_document, create_answered. destruct (String.eqb_spec id "") as [->|Hid]; [done|].
  destruct (decode_create _) as [req|]; [|done].
  destruct (resolveContentType (cr_ContentType req)) as [content|] eqn:Hc; [|done].
  destruct (requirePolicy && String.eqb (cr_AuthorizationPolicyID req) "") eqn:Hp; [done|].
  simpl. split; [done|].
  destruct (saved_row_joinable now id content req s) as (row & Hrow & Hct & Hpol).
  exists row. split; [done|]. split_and!.
  - intros Hnew. rewrite (Hct Hnew). by eapply resolveContentType_known.
  - intros ->. simpl in Hp. destruct (String.eqb_spec (cr_AuthorizationPolicyID req) ""); [done|].
    by rewrite Hpol.
  - intros d Hd. unfold InMemory.Load, InMemory.Save. simpl. by rewrite lookup_insert_ne by done.
Qed.

Example create_examples :
  let create := Create (H := inmemory_index 7) true in
  (create "d" "{}" ∅).1 = 400%Z /\ (create "d" "" ∅).1 = 400%Z
  /\ (create "d" (print (JObj [("authorizationPolicyId", JStr "p"); ("contentType", JStr "board")])) ∅).1 = 400%Z
  /\ (create "d" (print (JObj [("authorizationPolicyId", JStr "p"); ("owner", JStr "o")])) ∅).1 = 400%Z
  /\ create "d" (print (JObj [("authorizationPolicyId", JStr "p"); ("ownerRef", JStr "o")])) ∅
     = (201%Z, {["d" := mkMetadata "d" "memo" 1 "" true None "p" "" "o" 7 7]}).
Proof. vm_compute. split_and!; reflexivity. Qed.
