(* ===== verification/Router.v ===== *)
(** * The router and its middleware (adapter/inbound/http: router.go, middleware.go, health.go)

    [NewRouter]: the routes and the middleware around them.  [RequestID],
    [RequestLogger] and the [statusWriter] it wraps the response in, [ServeHealthz],
    the document-create handler as it writes its response, and what the application
    mounts ([routerDeps], app.go).

    The response of net/http is the state a handler runs on ([exchange]).  chi's
    matching and its [Recoverer] are the class [Chi], with its documented behaviour. *)

From stdpp Require Import base gmap list strings.
From Stdlib Require Import ZArith String Ascii Lia.
From S2P Require Import Prelude Json Control Manager Store FileStore Config Http.

Local Open Scope string_scope.
Local Open Scope go_scope.

(** ** Responses *)

Record log_line := mkLog { lg_requestID : string; lg_method : string; lg_path : string; lg_status : Z }.

Section Exchange.
Context {W : Type}.

(** One request being answered: net/http's response, of which only the first status
    counts and takes the headers with it; the status the [statusWriter] recorded; the
    request log, latest first; the random source of request ids; the index behind the
    handlers. *)
Record exchange := mkExchange {
  ex_header : gmap string string;
  ex_sent : option (Z * gmap string string);
  ex_body : bytes;
  ex_recorded : Z;
  ex_log : list log_line;
  ex_uuid : list string;
  ex_index : W }.

(** A response writer: net/http's own, or one wrapped to record the status. *)
Inductive writer := base | statusWriter (inner : writer).

Record request := mkRequest {
  rq_Method : string;
  rq_Path : string;
  rq_documentId : string;
  rq_body : bytes;
  rq_upgrade : bool;
  rq_requestID : option string }.

Definition handler : Type := writer -> request -> M exchange unit.

Definition set_sent s x := mkExchange (ex_header x) s (ex_body x) (ex_recorded x) (ex_log x) (ex_uuid x) (ex_index x).
Definition set_recorded c x := mkExchange (ex_header x) (ex_sent x) (ex_body x) c (ex_log x) (ex_uuid x) (ex_index x).
Definition send_status (code : Z) (x : exchange) : exchange :=
  match ex_sent x with Some _ => x | None => set_sent (Some (code, ex_header x)) x end.

Definition Header_Set (k v : string) : M exchange unit :=
  modify (fun x => mkExchange (<[k := v]> (ex_header x)) (ex_sent x) (ex_body x) (ex_recorded x) (ex_log x)
                     (ex_uuid x) (ex_index x)).

Fixpoint WriteHeader (w : writer) (code : Z) : M exchange unit :=
  match w with
  | base => modify (send_status code)
  | statusWriter inner => modify (set_recorded code);; WriteHeader inner code
  end.

(** [Write], which the [statusWriter] leaves to the writer it embeds. *)
Definition Write (b : bytes) : M exchange unit :=
  modify (fun x => let x := send_status 200 x in
    mkExchange (ex_header x) (ex_sent x) (ex_body x ++ b) (ex_recorded x) (ex_log x) (ex_uuid x) (ex_index x)).

(** What a WebSocket upgrade looks for: a hijacker behind the wrappers ([Unwrap]). *)
Fixpoint hijacker (w : writer) : bool :=
  match w with base => true | statusWriter inner => hijacker inner end.

(** ** Handlers *)

(** What every [Render] does: a JSON body under a status. *)
Definition render (w : writer) (code : Z) (v : json) : M exchange unit :=
  Header_Set "Content-Type" "application/json";;
  WriteHeader w code;;
  Write (print v ++ String "010" "").

Definition HealthResponse_Render (status : string) (w : writer) (code : Z) : M exchange unit :=
  render w code (JObj [("status", JStr status)]).
Definition ServeHealthz : handler := fun w _ => HealthResponse_Render "ok" w 200.

(** [CreateDocumentResponse] and [ErrorResponse]. *)
Definition create_render (r : create_response) (w : writer) : M exchange unit :=
  match r with
  | Registered id content => render w 201 (JObj [("id", JStr id); ("contentType", JStr content)])
  | Failed code why => render w code (JObj [("error", JStr why)])
  end.

Definition set_index (i : W) (x : exchange) : exchange :=
  mkExchange (ex_header x) (ex_sent x) (ex_body x) (ex_recorded x) (ex_log x) (ex_uuid x) i.

(** [CollabAPIHandler.Create] *)
Definition serve_create `{MetadataStore W} (requirePolicy : bool) : handler := fun w r =>
  res ← gets (fun x => create_document requirePolicy (rq_documentId r) (rq_body r) (ex_index x));
  modify (set_index res.2);;
  create_render res.1 w.

(** ** Middleware *)

Definition GetRequestID (r : request) : string := default "" (rq_requestID r).

Definition with_requestID (id : string) (r : request) : request :=
  mkRequest (rq_Method r) (rq_Path r) (rq_documentId r) (rq_body r) (rq_upgrade r) (Some id).
Definition with_documentId (id : string) (r : request) : request :=
  mkRequest (rq_Method r) (rq_Path r) id (rq_body r) (rq_upgrade r) (rq_requestID r).

(** [uuid.New]: the next of the random source. *)
Definition new_uuid : M exchange string :=
  id ← gets (fun x => hd "" (ex_uuid x));
  modify (fun x => mkExchange (ex_header x) (ex_sent x) (ex_body x) (ex_recorded x) (ex_log x) (tl (ex_uuid x)) (ex_index x));;
  ret id.

Definition RequestID (next : handler) : handler := fun w r =>
  id ← new_uuid;
  Header_Set "X-Request-ID" id;;
  next w (with_requestID id r).

Definition log_request (r : request) (x : exchange) : exchange :=
  mkExchange (ex_header x) (ex_sent x) (ex_body x) (ex_recorded x)
    (mkLog (GetRequestID r) (rq_Method r) (rq_Path r) (ex_recorded x) :: ex_log x) (ex_uuid x) (ex_index x).

Definition RequestLogger (next : handler) : handler := fun w r =>
  modify (set_recorded 200);;
  next (statusWriter w) r;;
  if String.eqb (rq_Method r) "GET" && String.eqb (rq_Path r) "/healthz" then ret tt
  else modify (log_request r).

(** ** Routes *)

(** A registration; no method means any. *)
Record route := mkRoute { rt_method : option string; rt_pattern : string; rt_handler : handler }.

(** [Deps]: what the router mounts; no [CollabAPI] omits the create endpoint. *)
Record Deps := mkDeps { CollabHandler : handler; MetricsHandler : handler; CollabAPI : option handler }.

Definition routes (deps : Deps) : list route :=
  [mkRoute (Some "GET") "/healthz" ServeHealthz;
   mkRoute None "/metrics" (MetricsHandler deps);
   mkRoute (Some "GET") "/collab/{documentId}" (CollabHandler deps)]
  ++ match CollabAPI deps with
     | Some create => [mkRoute (Some "POST") "/collab/{documentId}" create]
     | None => []
     end.
End Exchange.
Arguments exchange : clear implicits.
Arguments handler : clear implicits.
Arguments route : clear implicits.
Arguments Deps : clear implicits.

(** ** chi *)

(** A pattern is a path, or a path that ends in one parameter, which takes one
    non-empty segment. *)
Fixpoint match_pattern (pattern path : string) : option string :=
  match pattern, path with
  | "", "" => Some ""
  | String "{" _, String _ _ => if existsb (Ascii.eqb "/") (list_ascii_of_string path) then None else Some path
  | String a pattern', String b path' => if Ascii.eqb a b then match_pattern pattern' path' else None
  | _, _ => None
  end.

Definition method_fits (registered : option string) (m : string) : bool :=
  match registered with None => true | Some m' => String.eqb m' m end.

Inductive chi_answer := Matched (i : nat) (documentId : string) | NoMethod | NoRoute.

(** The route of a request, where no two registrations compete for it. *)
Fixpoint route_of (i : nat) (rs : list (option string * string)) (m path : string) : chi_answer :=
  match rs with
  | [] => NoRoute
  | (k, pattern) :: rs' =>
      match match_pattern pattern path with
      | Some id => if method_fits k m then Matched i id
                   else match route_of (S i) rs' m path with NoRoute => NoMethod | a => a end
      | None => route_of (S i) rs' m path
      end
  end.
Definition competing (rs : list (option string * string)) (m path : string) : nat :=
  List.length (List.filter (fun '(k, pattern) => method_fits k m && bool_decide (is_Some (match_pattern pattern path))) rs).

Section Answers.
Context {W : Type}.

(** A handler that sets headers, and answers [code]. *)
Definition answers (code : Z) (h : handler W) : Prop := forall w r, exists kvs b,
  Forall (fun kv => kv.1 <> "X-Request-ID") kvs
  /\ h w r = (forM kvs (fun kv => Header_Set kv.1 kv.2);; WriteHeader w code;; Write b).
End Answers.

(** Documented behaviour of chi.  [find_route]: a request goes to the one route of its
    path and method, or is answered 404 or 405.  [Recoverer] leaves a handler that
    returns alone; a panic it answers with 500, unless something was answered
    already or the connection asks to be upgraded. *)
Class Chi (W : Type) := {
  find : list (option string * string) -> string -> string -> chi_answer;
  notFound : handler W;
  methodNotAllowed : handler W;
  Recoverer : handler W -> handler W;
  find_route rs m path : (competing rs m path <= 1)%nat -> find rs m path = route_of 0 rs m path;
  notFound_answers : answers 404 notFound;
  methodNotAllowed_answers : answers 405 methodNotAllowed;
  recover_returns next w r x x' : next w r x = Ret tt x' -> Recoverer next w r x = Ret tt x';
  recover_panics next w r x x' : rq_upgrade r = false -> next w r x = Panic x' ->
    Recoverer next w r x = Ret tt (send_status 500 x') }.

(** The create endpoint, [None] where the bus owns creation and it is not mounted, with
    its policy requirement. *)
Definition collabAPI (c : Config) : option bool :=
  match c_MetadataStore c with
  | MetadataStoreInMemory => Some (bool_decide (c_AuthZMode c = AuthZModeEval))
  | MetadataStoreRabbitMQ => None
  end.

Section Router.
Context {W : Type} `{!Chi W}.

Definition dispatch (rs : list (route W)) : handler W := fun w r =>
  match find (map (fun rt => (rt_method rt, rt_pattern rt)) rs) (rq_Method r) (rq_Path r) with
  | Matched i id => match rs !! i with
                    | Some rt => rt_handler rt w (with_documentId id r)
                    | None => notFound w r
                    end
  | NoMethod => methodNotAllowed w r
  | NoRoute => notFound w r
  end.

Definition NewRouter (deps : Deps W) : handler W :=
  Recoverer (RequestID (RequestLogger (dispatch (routes deps)))).

(** What [buildRouter] mounts. *)
Definition routerDeps `{MetadataStore W} (c : Config) (collab metrics : handler W) : Deps W :=
  mkDeps collab metrics (option_map serve_create (collabAPI c)).
End Router.

(** ** What comes out *)

Section Answered.
Context {W : Type} `{!Chi W}.

(** The response to a request that came in at [x]: its status, under the request id it
    was given, what became of the index, and what was logged. *)
Definition answered (x x' : exchange W) (code : Z) (index : W) (logged : list log_line) : Prop :=
  (exists hdr, ex_sent x' = Some (code, hdr) /\ hdr !! "X-Request-ID" = Some (hd "" (ex_uuid x)))
  /\ ex_index x' = index /\ ex_log x' = (logged ++ ex_log x)%list.

Definition entered (x : exchange W) : exchange W :=
  mkExchange (<["X-Request-ID" := hd "" (ex_uuid x)]> (ex_header x)) (ex_sent x) (ex_body x) 200 (ex_log x)
    (tl (ex_uuid x)) (ex_index x).

Definition unlogged (r : request) : bool := String.eqb (rq_Method r) "GET" && String.eqb (rq_Path r) "/healthz".

(** What the middleware adds to a handler that returns. *)
Lemma middleware_returns next r x x' :
  let r' := with_requestID (hd "" (ex_uuid x)) r in
  next (statusWriter base) r' (entered x) = Ret tt x' ->
  Recoverer (RequestID (RequestLogger next)) base r x = Ret tt (if unlogged r then x' else log_request r' x').
Proof.
  intros r' Hn. apply recover_returns.
  unfold RequestID, RequestLogger, new_uuid, Header_Set, bindM, gets, modify, ret.
  change (match next (statusWriter base) r' (entered x) with
          | Ret _ y => (if unlogged r then fun s => Ret tt s else fun s => Ret tt (log_request r' s)) y
          | Panic y => Panic y | Stuck => Stuck end = Ret tt (if unlogged r then x' else log_request r' x')).
  rewrite Hn. by destruct (unlogged r).
Qed.

Lemma headers_set (kvs : list (string * string)) (x : exchange W) :
  Forall (fun kv => kv.1 <> "X-Request-ID") kvs ->
  exists hdr, forM kvs (fun kv => Header_Set kv.1 kv.2) x
    = Ret tt (mkExchange hdr (ex_sent x) (ex_body x) (ex_recorded x) (ex_log x) (ex_uuid x) (ex_index x))
  /\ hdr !! "X-Request-ID" = ex_header x !! "X-Request-ID".
Proof.
  intros H. revert x. induction H as [|[k v] kvs Hk _ IH]; intros x; simpl.
  - exists (ex_header x). by destruct x.
  - unfold bindM at 1, Header_Set, modify. edestruct IH as (hdr & Hr & Hx). rewrite Hr. simpl in *.
    exists hdr. split; [done|]. by rewrite Hx, lookup_insert_ne.
Qed.

(** A handler that answers, behind the status writer: what is recorded is what is sent. *)
Lemma answers_run code h r (x : exchange W) :
  answers code h -> ex_sent x = None ->
  exists x', h (statusWriter base) r x = Ret tt x'
    /\ (exists hdr, ex_sent x' = Some (code, hdr) /\ hdr !! "X-Request-ID" = ex_header x !! "X-Request-ID")
    /\ ex_recorded x' = code /\ ex_index x' = ex_index x /\ ex_log x' = ex_log x.
Proof.
  intros Ha Hs. destruct (Ha (statusWriter base) r) as (kvs & b & Hk & ->).
  destruct (headers_set kvs x Hk) as (hdr & Hr & Hx). unfold bindM at 1. rewrite Hr.
  unfold bindM, WriteHeader, Write, modify, send_status. simpl. rewrite Hs. simpl.
  eexists. split; [done|]. by split; [exists hdr|].
Qed.

Lemma render_answers code v : answers (W := W) code (fun w _ => render w code v).
Proof. intros w r. exists [("Content-Type", "application/json")], (print v ++ String "010" ""). split; [by repeat constructor|]. reflexivity. Qed.
End Answered.

(** ** Which handler a request reaches *)

Section Served.
Context {W : Type} `{!Chi W} `{!MetadataStore W}.

Definition mounted_create (c : Config) : bool := match collabAPI c with Some _ => true | None => false end.

(** The registrations, whatever the handlers are. *)
Definition table (create : bool) : list (option string * string) :=
  [(Some "GET", "/healthz"); (None, "/metrics"); (Some "GET", "/collab/{documentId}")]
  ++ (if create then [(Some "POST", "/collab/{documentId}")] else []).

Lemma routes_table c (collab metrics : handler W) :
  map (fun rt => (rt_method rt, rt_pattern rt)) (routes (routerDeps c collab metrics)) = table (mounted_create c).
Proof. unfold routerDeps, mounted_create. by destruct (collabAPI c). Qed.

(** A parameter is one segment. *)
Definition segment (id : string) : bool :=
  negb (String.eqb id "") && negb (existsb (Ascii.eqb "/") (list_ascii_of_string id)).

Lemma route_healthz create : route_of 0 (table create) "GET" "/healthz" = Matched 0 "".
Proof. by destruct create. Qed.

Lemma match_segment id : segment id = true -> match_pattern "/collab/{documentId}" ("/collab/" ++ id) = Some id.
Proof.
  unfold segment. destruct id as [|a id]; [done|]. intros H.
  change (match_pattern _ _) with
    (if existsb (Ascii.eqb "/") (list_ascii_of_string (String a id)) then None else Some (String a id)).
  apply andb_true_iff in H as [_ H%negb_true_iff]. by rewrite H.
Qed.

Lemma route_post create id :
  segment id = true ->
  route_of 0 (table create) "POST" ("/collab/" ++ id) = if create then Matched 3 id else NoMethod.
Proof.
  intros H. pose proof (match_segment id H) as Hm. unfold table, route_of.
  change (match_pattern "/healthz" ("/collab/" ++ id)) with (@None string).
  change (match_pattern "/metrics" ("/collab/" ++ id)) with (@None string). cbv iota.
  destruct create; simpl app; cbv iota beta; rewrite Hm; reflexivity.
Qed.

Lemma competing_post create id :
  segment id = true -> (competing (table create) "POST" ("/collab/" ++ id) <= 1)%nat.
Proof.
  intros H. pose proof (match_segment id H) as Hm. unfold competing, table.
  destruct create; simpl app; cbn [List.filter]; rewrite ?Hm;
    change (match_pattern "/healthz" ("/collab/" ++ id)) with (@None string);
    change (match_pattern "/metrics" ("/collab/" ++ id)) with (@None string);
    rewrite ?bool_decide_eq_false_2 by (by intros [? ?]); simpl; lia.
Qed.

Lemma route_none i rs m path : route_of i rs m path = NoRoute -> competing rs m path = 0%nat.
Proof.
  unfold competing. revert i. induction rs as [|[k pattern] rs IH]; intros i H; simpl in *; [done|].
  destruct (match_pattern pattern path) as [id|] eqn:Hp.
  - destruct (method_fits k m); [done|]. by destruct (route_of (S i) rs m path).
  - rewrite bool_decide_eq_false_2 by (by intros [? ?]). rewrite andb_false_r. by apply (IH (S i)).
Qed.

(** From a handler that answers to the response. *)
Lemma served c (collab metrics : handler W) code h r r' x i :
  answers code h -> ex_sent x = None ->
  (forall y, ex_sent y = None -> ex_index y = ex_index x ->
     dispatch (routes (routerDeps c collab metrics)) (statusWriter base) (with_requestID (hd "" (ex_uuid x)) r) y
     = h (statusWriter base) r' (set_index i y)) ->
  exists x', NewRouter (routerDeps c collab metrics) base r x = Ret tt x'
    /\ answered x x' code i
         (if unlogged r then [] else [mkLog (hd "" (ex_uuid x)) (rq_Method r) (rq_Path r) code]).
Proof.
  intros Ha Hs Hd.
  destruct (answers_run code h r' (set_index i (entered x)) Ha Hs) as (x' & Hr & (hdr & Hsent & Hh) & Hrec & Hi & Hl).
  rewrite <- Hd in Hr by done. apply middleware_returns in Hr. eexists. split; [exact Hr|].
  assert (Hid : hdr !! "X-Request-ID" = Some (hd "" (ex_uuid x))) by (rewrite Hh; simpl; apply lookup_insert_eq).
  unfold answered. destruct (unlogged r); simpl; [by split; [exists hdr|]|].
  split; [by exists hdr|]. by rewrite Hrec, Hl.
Qed.
End Served.

Section Properties.
Context {W : Type} `{!Chi W} `{!MetadataStore W}.

Lemma create_answers (res : create_response) : answers (create_status res) (fun w (_ : request) => create_render (W := W) res w).
Proof. destruct res; apply render_answers. Qed.

(** C29: what the HTTP surface answers.  The liveness probe is answered 200 whatever
    the backends do and is not logged.  A creation reaches the create endpoint exactly
    where the bus does not own creation, with the answer and the index [Create] gives;
    in the integrated deployment it is answered 405 and touches nothing, and an unknown
    path is answered 404.  Every one of these responses carries the id of its request,
    and, the probe apart, leaves exactly one log line, with that id and the status
    that was sent. *)
Theorem http_surface (c : Config) (collab metrics : handler W) (r : request) (x : exchange W) :
  ex_sent x = None ->
  let serve := NewRouter (routerDeps c collab metrics) base r x in
  let line code := mkLog (hd "" (ex_uuid x)) (rq_Method r) (rq_Path r) code in
  (rq_Method r = "GET" -> rq_Path r = "/healthz" ->
     exists x', serve = Ret tt x' /\ answered x x' 200 (ex_index x) [])
  /\ (forall id, rq_Method r = "POST" -> rq_Path r = "/collab/" ++ id -> segment id = true ->
        exists x' code i, serve = Ret tt x' /\ answered x x' code i [line code]
          /\ match c_MetadataStore c with
             | MetadataStoreRabbitMQ => code = 405%Z /\ i = ex_index x
             | MetadataStoreInMemory =>
                 (code, i) = Create (bool_decide (c_AuthZMode c = AuthZModeEval)) id (rq_body r) (ex_index x)
             end)
  /\ (route_of 0 (table (mounted_create c)) (rq_Method r) (rq_Path r) = NoRoute ->
        exists x', serve = Ret tt x' /\ answered x x' 404 (ex_index x)
          (if unlogged r then [] else [line 404%Z])).
Proof.
  intros Hs. cbv zeta.
  assert (Hset : forall y : exchange W, ex_index y = ex_index x -> set_index (ex_index x) y = y)
    by (intros [] <-; reflexivity).
  split_and!.
  - intros Hm Hp. assert (Hu : unlogged r = true) by (unfold unlogged; by rewrite Hm, Hp).
    edestruct (served c collab metrics 200 ServeHealthz r (with_documentId "" (with_requestID (hd "" (ex_uuid x)) r)) x (ex_index x)
      (render_answers 200 _) Hs) as (x' & H); [|].
    + intros y _ Hi. rewrite Hset by done. unfold dispatch. rewrite routes_table. simpl. rewrite Hm, Hp.
      rewrite find_route, route_healthz by (destruct (mounted_create c); vm_compute; lia). done.
    + rewrite Hu in H. by exists x'.
  - intros id Hm Hp Hid. assert (Hu : unlogged r = false) by (unfold unlogged; by rewrite Hm).
    set (r1 := with_requestID (hd "" (ex_uuid x)) r).
    pose proof (eq_refl (collabAPI c)) as Hst. unfold collabAPI in Hst at 2.
    destruct (c_MetadataStore c).
    + set (policy := bool_decide _) in *. destruct (create_document policy id (rq_body r) (ex_index x)) as [res i] eqn:Hc.
      edestruct (served c collab metrics (create_status res) _ r (with_documentId id r1) x i (create_answers res) Hs)
        as (x' & Hx & Ha); [|].
      * intros y _ Hi. unfold dispatch. rewrite routes_table. simpl. unfold mounted_create. rewrite Hst, Hm, Hp.
        rewrite find_route, route_post by (done || by apply competing_post).
        unfold routes, routerDeps. simpl. rewrite Hst. simpl. unfold serve_create, bindM, gets, modify. simpl.
        by rewrite Hi, Hc.
      * rewrite Hu in Ha. exists x', (create_status res), i. split_and!; [done|done|]. unfold Create. by rewrite Hc.
    + edestruct (served c collab metrics 405 methodNotAllowed r r1 x (ex_index x) methodNotAllowed_answers Hs)
        as (x' & Hx & Ha); [|].
      * intros y _ Hi. rewrite Hset by done. unfold dispatch. rewrite routes_table. simpl. unfold mounted_create.
        rewrite Hst, Hm, Hp. by rewrite find_route, route_post by (done || by apply competing_post).
      * rewrite Hu in Ha. by exists x', 405%Z, (ex_index x).
  - intros Hn.
    edestruct (served c collab metrics 404 notFound r (with_requestID (hd "" (ex_uuid x)) r) x (ex_index x) notFound_answers Hs)
      as (x' & Hx & Ha); [|by exists x'].
    intros y _ Hi. rewrite Hset by done. unfold dispatch. rewrite routes_table. simpl.
    rewrite find_route by (rewrite (route_none _ _ _ _ Hn); lia). by rewrite Hn.
Qed.

(** A handler that panics before it answered is answered for, with 500 and the id of
    its request; but nothing is logged, as the log line is written after the handler
    returns. *)
Theorem panic_answered_unlogged (deps : Deps W) (r : request) (x x1 : exchange W) :
  ex_sent x = None -> rq_upgrade r = false ->
  dispatch (routes deps) (statusWriter base) (with_requestID (hd "" (ex_uuid x)) r) (entered x) = Panic x1 ->
  ex_sent x1 = None -> ex_header x1 = ex_header (entered x) -> ex_index x1 = ex_index x -> ex_log x1 = ex_log x ->
  exists x', NewRouter deps base r x = Ret tt x' /\ answered x x' 500 (ex_index x) [].
Proof.
  intros Hs Hu Hp Hs1 Hh Hi Hl. exists (send_status 500 x1). split.
  - apply recover_panics; [done|]. unfold RequestID, RequestLogger, new_uuid, Header_Set, bindM, gets, modify, ret.
    change (match dispatch (routes deps) (statusWriter base) (with_requestID (hd "" (ex_uuid x)) r) (entered x) with
            | Ret _ y => (if unlogged r then fun s => Ret tt s else fun s => Ret tt (log_request (with_requestID (hd "" (ex_uuid x)) r) s)) y
            | Panic y => Panic y | Stuck => Stuck end = Panic x1).
    by rewrite Hp.
  - unfold send_status. rewrite Hs1. split; [|done]. exists (ex_header x1). split; [done|].
    rewrite Hh. apply lookup_insert_eq.
Qed.
End Properties.

(** ** A chi *)

Module PlainChi.
Section Chi.
Context {W : Type}.

Definition plain (code : Z) : handler W := fun w _ => render w code (JStr "").
Definition recoverer (next : handler W) : handler W := fun w r x =>
  match next w r x with
  | Panic x' => Ret tt (send_status 500 x')
  | o => o
  end.

#[local] Program Instance chi : Chi W := {|
  find := route_of 0;
  notFound := plain 404;
  methodNotAllowed := plain 405;
  Recoverer := recoverer |}.
Next Obligation. done. Qed.
Next Obligation. apply render_answers. Qed.
Next Obligation. apply render_answers. Qed.
Next Obligation. intros next w r x x' H. unfold recoverer. by rewrite H. Qed.
Next Obligation. intros next w r x x' _ H. unfold recoverer. by rewrite H. Qed.
End Chi.
End PlainChi.

(** ** Requests *)

Section Examples.
#[local] Existing Instance PlainChi.chi.
#[local] Instance index : MetadataStore InMemory.rows := inmemory_index 7.

Definition request_of (m path body : string) : request := mkRequest m path "" body false None.
Definition incoming (s : InMemory.rows) : exchange InMemory.rows := mkExchange ∅ None "" 0 [] ["id-1"] s.
Definition crashing : handler InMemory.rows := fun _ _ => panic.
Definition quiet : handler InMemory.rows := fun w _ => WriteHeader w 200.

(** No bus, authorization evaluated elsewhere. *)
Definition local_config : Config :=
  match Load (fun k => if String.eqb k "HUB_MODE" then "inmemory" else if String.eqb k "CHECKPOINT_STORE" then "inline"
                       else "") with inr c => c | inl _ => deployed_config end.

Definition outcome_of (o : outcome (exchange InMemory.rows) unit) : option (option Z * bytes * list log_line) :=
  match o with Ret _ x | Panic x => Some (fst <$> ex_sent x, ex_body x, ex_log x) | Stuck => None end.
Definition ask (c : Config) (r : request) := outcome_of (NewRouter (routerDeps c crashing quiet) base r (incoming ∅)).

Example answers_of_the_surface :
  ask deployed_config (request_of "GET" "/healthz" "")
    = Some (Some 200%Z, "{" ++ quote ++ "status" ++ quote ++ ":" ++ quote ++ "ok" ++ quote ++ "}" ++ String "010" "", [])
  /\ option_map (fun o => (o.1.1, o.2)) (ask deployed_config (request_of "POST" "/collab/d1" "{}"))
    = Some (Some 405%Z, [mkLog "id-1" "POST" "/collab/d1" 405])
  /\ option_map (fun o => (o.1.1, o.2)) (ask local_config (request_of "POST" "/collab/d1" "{}"))
    = Some (Some 201%Z, [mkLog "id-1" "POST" "/collab/d1" 201])
  /\ option_map (fun o => (o.1.1, o.2)) (ask local_config (request_of "POST" "/collab/d1/x" "{}"))
    = Some (Some 404%Z, [mkLog "id-1" "POST" "/collab/d1/x" 404])
  /\ option_map (fun o => (o.1.1, o.2)) (ask local_config (request_of "GET" "/collab/d1" ""))
    = Some (Some 500%Z, []).
Proof. vm_compute. split_and!; reflexivity. Qed.

Lemma http_surface_witness :
  segment "d1" = true
  /\ exists x' code i,
       NewRouter (routerDeps local_config crashing quiet) base (request_of "POST" "/collab/d1" "{}") (incoming ∅) = Ret tt x'
       /\ answered (incoming ∅) x' code i [mkLog "id-1" "POST" "/collab/d1" code]
       /\ (code, i) = Create false "d1" "{}" ∅.
Proof.
  split; [reflexivity|].
  exact (proj1 (proj2 (http_surface local_config crashing quiet (request_of "POST" "/collab/d1" "{}") (incoming ∅) eq_refl))
    "d1" eq_refl eq_refl eq_refl).
Defined.

Lemma panic_answered_unlogged_witness :
  exists x', NewRouter (routerDeps local_config crashing quiet) base (request_of "GET" "/collab/d1" "") (incoming ∅) = Ret tt x'
    /\ answered (incoming ∅) x' 500 ∅ [].
Proof.
  apply (panic_answered_unlogged (routerDeps local_config crashing quiet) (request_of "GET" "/collab/d1" "") (incoming ∅)
    (entered (incoming ∅))); reflexivity.
Defined.
End Examples.
