(* ===== verification/App.v ===== *)
(** * The assembled service (app/app.go, cmd/server/main.go)

    Which adapter each configuration selects, what is opened and released on every path
    of [New], [Close] and [main]'s [run], and the room configuration.  That a backend
    can be reached is the outside's answer ([outside]).  The last part puts the selected
    adapters together: what a session of the deployed topology rests on, and what a
    stranger learns from being refused one. *)

From stdpp Require Import base gmap list strings.
From Stdlib Require Import ZArith NArith String Lia.
From S2P Require Import Prelude Utf8 Json Control RoomState RoomLoop Manager Admission Store FileStore.
From S2P Require Import Router Decode Auth WsConn Config Http.

Local Open Scope string_scope.

(** ** The room configuration *)

Definition millisecond : Z := 1000000.

(** [time.Duration(n) * unit] *)
Definition duration (n unit : Z) : Z := i64 (n * unit).

Definition roomCfg (l : LimitsConfig) : RoomConfig :=
  RoomState.mkConfig (duration (lc_SaveDebounceMillis l) millisecond) (duration (lc_IdleReleaseSeconds l) second)
    (SendBuffer DefaultRoomConfig)
    (mkLimits (lc_FlushFailureThreshold l) (lc_MaxDocBytes l) (lc_MaxConnsPerRoom l) (lc_UpdateRatePerSec l)
       (lc_UpdateBurst l))
    (duration (lc_ContributionWindowSeconds l) second) (BackendTimeout DefaultRoomConfig).

(** [NewManager] replaces a configuration nobody filled in. *)
Definition managerCfg (cfg : RoomConfig) : RoomConfig :=
  if (SendBuffer cfg =? 0)%Z && (SaveDebounce cfg =? 0)%Z && (IdleTimeout cfg =? 0)%Z then DefaultRoomConfig else cfg.

(** ** Opening and releasing *)

Inductive backend := RedisHub | MetadataBus | Rooms | LifecycleConsumer | Server.
#[export] Instance backend_eq_dec : EqDecision backend.
Proof. solve_decision. Defined.

Inductive effect := Opened (b : backend) | Released (b : backend).

(** What answers when the service starts: an address that parses, a bus that connects. *)
Record outside := mkOutside {
  redis_opens : string -> bool;
  bus_connects : RabbitMQConfig -> bool;
  lifecycle_connects : string -> string -> bool }.

(** [unicode.IsSpace] *)
Definition is_space (r : N) : bool :=
  in_range 9 13 r || in_range 8192 8202 r
  || existsb (N.eqb r) [32; 133; 160; 5760; 8232; 8233; 8239; 8287; 12288]%N.
Definition TrimSpace (s : string) : string := trim_func is_space s.

(** What one construction step did: its effects, the backends to release so far, and
    whether it succeeded. *)
Definition built : Type := list effect * list backend * bool.

Definition cleanup (closers : list backend) : list effect := Released <$> rev closers.

Section App.
Context (o : outside).

Definition buildHub (c : Config) (closers : list backend) : built :=
  match c_HubMode c with
  | HubInMemory => ([], closers, true)
  | HubRedis =>
      if redis_opens o (c_RedisURL c) then ([Opened RedisHub], closers ++ [RedisHub], true)%list
      else ([], closers, false)
  end.

Definition buildMetadata (c : Config) (closers : list backend) : built :=
  match c_MetadataStore c with
  | MetadataStoreRabbitMQ =>
      if bus_connects o (c_RabbitMQ c) then ([Opened MetadataBus], closers ++ [MetadataBus], true)%list
      else ([], closers, false)
  | MetadataStoreInMemory => ([], closers, true)
  end.

(** [fileservice.New]: it needs an address. *)
Definition fileservice_New (cfg : FileServiceConfig) : bool := negb (String.eqb (TrimSpace (fs_BaseURL cfg)) "").

Definition buildCheckpoint (c : Config) : bool :=
  match c_CheckpointStore c with
  | CheckpointStoreFileService => fileservice_New (c_FileService c)
  | CheckpointStoreInline => true
  end.

Definition buildDeps (c : Config) : list effect * option (list backend) :=
  let '(e1, closers1, ok1) := buildHub c [] in
  if negb ok1 then (e1 ++ cleanup closers1, None)%list
  else
    let '(e2, closers2, ok2) := buildMetadata c closers1 in
    if negb ok2 then (e1 ++ e2 ++ cleanup closers2, None)%list
    else if negb (buildCheckpoint c) then (e1 ++ e2 ++ cleanup closers2, None)%list
    else (e1 ++ e2, Some closers2)%list.

Definition lifecycleQueue (c : Config) : string :=
  if negb (String.eqb (rb_LifecycleQueue (c_RabbitMQ c)) "") then rb_LifecycleQueue (c_RabbitMQ c)
  else DefaultLifecycleQueue.

(** What [App.Close] will run, last first. *)
Inductive closer := DepsCleanup (closers : list backend) | ManagerClose | ConsumerClose.
Definition run_closer (k : closer) : list effect :=
  match k with
  | DepsCleanup closers => cleanup closers
  | ManagerClose => [Released Rooms]
  | ConsumerClose => [Released LifecycleConsumer]
  end.

Definition startLifecycle (c : Config) (closers : list closer) : list effect * list closer * bool :=
  match c_MetadataStore c with
  | MetadataStoreInMemory => ([], closers, true)
  | MetadataStoreRabbitMQ =>
      if lifecycle_connects o (rb_URL (c_RabbitMQ c)) (lifecycleQueue c)
      then ([Opened LifecycleConsumer], closers ++ [ConsumerClose], true)%list
      else ([], closers, false)
  end.

(** [App], of which only the closers change. *)
Definition Close (closers : list closer) : list effect * list closer := (rev closers ≫= run_closer, []).

Definition New (c : Config) : list effect * option (list closer) :=
  match buildDeps c with
  | (e1, None) => (e1, None)
  | (e1, Some deps) =>
      let '(e2, closers, ok) := startLifecycle c [DepsCleanup deps; ManagerClose] in
      let opened := (e1 ++ [Opened Rooms] ++ e2)%list in
      if ok then (opened, Some closers) else (opened ++ (Close closers).1, None)%list
  end.

(** Why the process stops serving. *)
Inductive ended := Signal | ServerFailed.

(** [main]'s [run]: its effects, the deferred [Close] included, and the exit code. *)
Definition run (logger_ok : bool) (env : string -> string) (e : ended) : list effect * Z :=
  if negb logger_ok then ([], 1%Z)
  else match Load env with
       | inl _ => ([], 1%Z)
       | inr c =>
           match New c with
           | (effs, None) => (effs, 1%Z)
           | (effs, Some closers) =>
               (effs ++ [Opened Server; Released Server] ++ (Close closers).1,
                match e with Signal => 0%Z | ServerFailed => 1%Z end)%list
           end
       end.
End App.

(** ** Every path releases what it opened, last first *)

Definition opens (opened : list backend) : list effect := Opened <$> opened.
Definition bracketed (opened : list backend) : list effect := (opens opened ++ cleanup opened)%list.

(** The backends of a configuration, in the order they are opened. *)
Definition backends (c : Config) : list backend :=
  ((if bool_decide (c_HubMode c = HubRedis) then [RedisHub] else [])
   ++ (if bool_decide (c_MetadataStore c = MetadataStoreRabbitMQ) then [MetadataBus; Rooms; LifecycleConsumer]
       else [Rooms]))%list.

Lemma opens_app a b : opens (a ++ b) = (opens a ++ opens b)%list.
Proof. apply fmap_app. Qed.

Lemma cleanup_app a b : cleanup (a ++ b) = (cleanup b ++ cleanup a)%list.
Proof. unfold cleanup. by rewrite rev_app_distr, fmap_app. Qed.

Lemma backends_nodup c : NoDup (backends c).
Proof. apply (bool_decide_eq_true_1 _). unfold backends. by destruct (c_HubMode c), (c_MetadataStore c). Qed.

Ltac rolled_back l := solve [exists l; split; [repeat constructor; apply sublist_nil_l|reflexivity]].

(** [New] either leaves nothing open or has opened the configuration's backends and
    holds the closers that release exactly these. *)
Lemma new_brackets o c :
  match New o c with
  | (effs, None) => exists opened, opened `sublist_of` backends c /\ effs = bracketed opened
  | (effs, Some closers) => effs = opens (backends c) /\ (Close closers).1 = cleanup (backends c)
  end.
Proof.
  unfold New, buildDeps, buildHub, buildMetadata, startLifecycle, backends.
  destruct (c_HubMode c), (c_MetadataStore c);
    repeat match goal with |- context [redis_opens ?o ?x] => destruct (redis_opens o x) end;
    repeat match goal with |- context [bus_connects ?o ?x] => destruct (bus_connects o x) end;
    destruct (buildCheckpoint c);
    repeat match goal with |- context [lifecycle_connects ?o ?x ?y] => destruct (lifecycle_connects o x y) end;
    simpl; try done.
  all: first [rolled_back (@nil backend) | rolled_back [RedisHub] | rolled_back [MetadataBus]
    | rolled_back [RedisHub; MetadataBus] | rolled_back [MetadataBus; Rooms] | rolled_back [RedisHub; MetadataBus; Rooms]].
Qed.

(** C33: whatever fails, and whenever, the process closes what it opened, once each
    and last first: the server stops taking requests before the lifecycle consumer
    stops, that before the rooms save and go, and these before the bus and the hub they
    need.  It exits with 0 exactly when it served with the backends of a configuration
    that loads until it was told to stop. *)
Theorem process_releases_everything (o : outside) (logger_ok : bool) (env : string -> string) (e : ended) :
  let '(effs, exit) := run o logger_ok env e in
  exists opened, effs = bracketed opened /\ NoDup opened
    /\ (exit = 0%Z <-> e = Signal /\ Server ∈ opened)
    /\ (Server ∈ opened -> exists c, Load env = inr c /\ opened = (backends c ++ [Server])%list).
Proof.
  assert (Hnone : forall c opened, opened `sublist_of` backends c ->
    NoDup opened /\ (1%Z = 0%Z <-> e = Signal /\ Server ∈ opened)
    /\ (Server ∈ opened -> exists c0, Load env = inr c0 /\ opened = (backends c0 ++ [Server])%list)).
  { intros c opened Hsub.
    assert (Hno : Server ∉ opened).
    { intros Hin. apply (elem_of_sublist _ _ _ Hin) in Hsub. revert Hsub. unfold backends.
      destruct (c_HubMode c), (c_MetadataStore c); simpl; set_solver. }
    split_and!; [exact (sublist_NoDup _ _ (backends_nodup c) Hsub)|split; [done|naive_solver]|done]. }
  unfold run. destruct logger_ok; cbn [negb].
  2: { exists []. split; [done|]. apply (Hnone deployed_config), sublist_nil_l. }
  destruct (Load env) as [|c] eqn:Hl.
  { exists []. split; [done|]. apply (Hnone deployed_config), sublist_nil_l. }
  pose proof (new_brackets o c) as Hn. destruct (New o c) as [effs [closers|]].
  - destruct Hn as [-> Hc]. exists (backends c ++ [Server])%list. rewrite Hc. split_and!.
    + unfold bracketed. by rewrite opens_app, cleanup_app, <- !app_assoc.
    + apply NoDup_app. split_and!; [apply backends_nodup| |apply NoDup_singleton].
      unfold backends. intros x Hx ->%list_elem_of_singleton. revert Hx.
      destruct (c_HubMode c), (c_MetadataStore c); simpl; set_solver.
    + destruct e; split; try done; [|naive_solver]. intros _. split; [done|]. set_solver.
    + intros _. by exists c.
  - destruct Hn as (opened & Hsub & ->). exists opened. split; [done|]. by apply Hnone with c.
Qed.

Definition all_up : outside := mkOutside (fun _ => true) (fun _ => true) (fun _ _ => true).
Definition no_lifecycle : outside := mkOutside (fun _ => true) (fun _ => true) (fun _ _ => false).

Example deployed_run :
  run all_up true deployed Signal
  = ([Opened MetadataBus; Opened Rooms; Opened LifecycleConsumer; Opened Server;
      Released Server; Released LifecycleConsumer; Released Rooms; Released MetadataBus], 0%Z)
  /\ run no_lifecycle true deployed Signal
     = ([Opened MetadataBus; Opened Rooms; Released Rooms; Released MetadataBus], 1%Z).
Proof. vm_compute. split; reflexivity. Qed.

(** ** The room configuration is the environment's *)

(** The longest times that fit a [time.Duration]. *)
Definition max_seconds : Z := 9223372036.
Definition max_millis : Z := 9223372036854.

Definition limit_variables : list string :=
  ["MAX_DOC_BYTES"; "MAX_CONNS_PER_ROOM"; "UPDATE_RATE_PER_SEC"; "UPDATE_BURST"; "CONTRIBUTION_WINDOW_SECONDS";
   "IDLE_RELEASE_SECONDS"; "SAVE_DEBOUNCE_MILLIS"; "FLUSH_FAILURE_THRESHOLD"].

Lemma duration_exact n unit top : (0 <= n <= top)%Z -> (0 < unit)%Z -> (top * unit < 2 ^ 63)%Z -> duration n unit = (n * unit)%Z.
Proof. intros H Hu Ht. apply i64_small. nia. Qed.

Lemma manager_keeps_cfg l : managerCfg (roomCfg l) = roomCfg l.
Proof. done. Qed.

Lemma reads_unset env key fallback n : env key = "" -> reads env key fallback n -> n = fallback.
Proof. intros H [[_ E]|[Hne _]]; [exact E|contradiction]. Qed.

(** The rooms run with the limits the environment gives: each count is passed on
    as it is and each time is exactly the number of seconds or milliseconds configured,
    zero included, as long as it fits a duration; with no limit configured the rooms run
    with the domain's own defaults.  Every connection's outbound queue holds 64 frames. *)
Theorem room_config_exact (env : string -> string) (c : Config) :
  Load env = inr c ->
  let l := c_Limits c in let cfg := managerCfg (roomCfg l) in
  cfg_Limits cfg = mkLimits (lc_FlushFailureThreshold l) (lc_MaxDocBytes l) (lc_MaxConnsPerRoom l)
                     (lc_UpdateRatePerSec l) (lc_UpdateBurst l)
  /\ ((lc_SaveDebounceMillis l <= max_millis)%Z -> SaveDebounce cfg = (lc_SaveDebounceMillis l * millisecond)%Z)
  /\ ((lc_IdleReleaseSeconds l <= max_seconds)%Z -> IdleTimeout cfg = (lc_IdleReleaseSeconds l * second)%Z)
  /\ ((lc_ContributionWindowSeconds l <= max_seconds)%Z ->
        ContributionWindow cfg = (lc_ContributionWindowSeconds l * second)%Z)
  /\ (Forall (fun key => env key = "") limit_variables -> cfg = DefaultRoomConfig)
  /\ depth (newWSConn (manager_SendBuffer cfg)) = 64%nat.
Proof.
  intros H. apply load_inv in H as (_ & _ & _ & _ & _ & _ & _ & Hl).
  apply limits_ok in Hl as (Hok & R1 & R2 & R3 & R4 & R5 & R6 & R7 & R8).
  rewrite !Forall_cons in Hok. destruct Hok as (_ & _ & _ & _ & [Hw _] & [Hi _] & [Hs _] & _).
  cbv zeta. rewrite manager_keeps_cfg. split_and!.
  - done.
  - intros Hb. by apply (duration_exact _ _ max_millis).
  - intros Hb. by apply (duration_exact _ _ max_seconds).
  - intros Hb. by apply (duration_exact _ _ max_seconds).
  - unfold limit_variables. rewrite !Forall_cons. intros (E1 & E2 & E3 & E4 & E5 & E6 & E7 & E8 & _).
    apply reads_unset in R1, R2, R3, R4, R5, R6, R7, R8; try done.
    unfold roomCfg. rewrite R1, R2, R3, R4, R5, R6, R7, R8. vm_compute. reflexivity.
  - done.
Qed.

Lemma room_config_exact_witness :
  Load deployed = inr deployed_config
  /\ IdleTimeout (managerCfg (roomCfg (c_Limits deployed_config))) = (30 * second)%Z.
Proof.
  assert (E : Load deployed = inr deployed_config) by (vm_compute; reflexivity).
  split; [exact E|].
  destruct (room_config_exact deployed deployed_config E) as (_ & _ & Hi & _).
  apply Hi. vm_compute. discriminate.
Defined.

(** A time the configuration accepts and a duration cannot hold: an empty room is then
    released at once. *)
Example idle_release_overflows :
  (0 < max_seconds + 1 < 2 ^ 63)%Z /\ (duration (max_seconds + 1) second < 0)%Z.
Proof. vm_compute. split; [split|]; reflexivity. Qed.

(** ** The selected adapters together *)

Definition policyResolver (row : load_answer) : policy_answer :=
  match row with
  | Loaded m => PolicyFound (m_AuthorizationPolicyID m)
  | NotFound => PolicyNotFound
  | LoadFailed => PolicyFailed
  end.

Definition collab_handler (c : Config) : Handler :=
  mkHandler (c_ActorIDHeader c) (ReadLimitFor (lc_MaxDocBytes (c_Limits c))).

(** The breaker of the authorization client. *)
Definition breaker_of (z : AuthZEvalConfig) : breakerSettings :=
  breaker_settings (az_BreakerFailureThreshold z) (duration (az_BreakerTimeoutSeconds z) second)
    (az_BreakerHalfOpenMaxReqs z).

(** Positive and as configured, while the probe count fits its 32 bits. *)
Lemma breaker_bounds z :
  (az_BreakerHalfOpenMaxReqs z < 2 ^ 32)%Z ->
  (0 < br_failures (breaker_of z))%Z /\ (0 < br_timeout (breaker_of z))%Z /\ (0 < br_halfOpen (breaker_of z))%Z
  /\ ((0 < az_BreakerHalfOpenMaxReqs z)%Z -> br_halfOpen (breaker_of z) = az_BreakerHalfOpenMaxReqs z).
Proof.
  intros H. unfold breaker_of, breaker_settings. cbn [br_failures br_timeout br_halfOpen].
  rewrite Z.mod_small by (destruct (Z.leb_spec (az_BreakerHalfOpenMaxReqs z) 0); lia).
  unfold second. split_and!; try intros Hpos;
    match goal with |- context [(?x <=? 0)%Z] => destruct (Z.leb_spec x 0) end; lia.
Qed.

Example breaker_probes_wrap : br_halfOpen (breaker_of (mkAuthZEval "http://auth" 3 15 (2 ^ 32))) = 0%Z.
Proof. vm_compute. reflexivity. Qed.

(** The unauthenticated create endpoint never faces durable documents. *)
Lemma create_surface env c requirePolicy :
  Load env = inr c -> collabAPI c = Some requirePolicy -> c_CheckpointStore c = CheckpointStoreInline.
Proof.
  intros (_ & _ & _ & _ & _ & _ & Ha & _)%load_inv Hc. apply adapters_ok in Ha as (Ht & _).
  unfold collabAPI in Hc. destruct (c_CheckpointStore c); [done|]. destruct Ht as (_ & E & _); [done|]. by rewrite E in Hc.
Qed.

Section Selected.
Context (parse_uuid : string -> option ActorID) (uuid_string : ActorID -> string).
Context (post : evaluateRequest -> response bytes) (execute : evalError + AuthDecision -> evalError + AuthDecision).

Definition buildAuthN (c : Config) : string -> option Identity :=
  match c_AuthMode c with
  | AuthModeHeader => header_Authenticate parse_uuid
  | AuthModeOpen => open_Authenticate
  end.

(** [row]: what the index answers when the policy is resolved. *)
Definition buildAuthZ (c : Config) (row : load_answer) (i : Identity) (id : DocumentID) (p : Privilege)
    : option AuthDecision :=
  match c_AuthZMode c with
  | AuthZModeOpen => open_Evaluate i id p
  | AuthZModeEval =>
      match Evaluate uuid_string post execute (Some (policyResolver row)) i p with
      | inr d => Some d
      | inl _ => None
      end
  end.

(** A request from the upgrade to the session: each evaluation resolves the policy anew. *)
Definition connect (c : Config) (r : request) (policy_row : Privilege -> load_answer) (tomb : option Z) (now : Z)
    (row : load_answer) (attempt : CollaboratorMode -> option bool -> nat -> join_attempt)
    : option (joinFailure + (connID * list wire_frame)) :=
  match ServeHTTP (buildAuthN c) (collab_handler c) r with
  | Serves id _ i _ => Some (Join (fun p => buildAuthZ c (policy_row p) i id p) tomb now row attempt)
  | _ => None
  end.

(** The authorization service itself granted [actor] the privilege, on the policy of
    the document's row. *)
Definition granted (policy_row : Privilege -> load_answer) (actor : ActorID) (p : Privilege) : Prop :=
  exists m body d, policy_row p = Loaded m /\ m_AuthorizationPolicyID m <> ""
    /\ post (mkEvaluate (uuid_string actor) (privilege_string p) (m_AuthorizationPolicyID m)) = Response 200 body
    /\ unmarshal_decision (limited maxBody body) = Some d /\ Allowed d = true.

Hypothesis breaker_reports : forall r, execute r = r \/ exists e, execute r = inl e.

Lemma grant_is_evaluated c policy_row actor id p d :
  c_AuthZMode c = AuthZModeEval ->
  buildAuthZ c (policy_row p) (mkIdentity (Some actor)) id p = Some d -> Allowed d = true ->
  granted policy_row actor p.
Proof.
  intros Hz Hd Ha. unfold buildAuthZ in Hd. rewrite Hz in Hd.
  destruct (Evaluate _ _ _ _ _ _) as [|d'] eqn:E; [done|]. injection Hd as ->.
  apply authorization_fails_closed in E; [|exact breaker_reports].
  destruct E as [[_ E]|(policy & body & Hp & Hne & Hpost & Hdec)]; [congruence|].
  unfold policyResolver in Hp. destruct (policy_row p) as [m| |] eqn:Hrow; try done. injection Hp as <-.
  exists m, body, d. done.
Qed.

(** C8: what a session of a gateway deployment rests on, from its environment to its
    room: the actor the trusted header names, which is not the Authorization header; a
    read grant the authorization service gave this actor on this document's policy; an
    index row that exists and is migrated; no deletion still in force.  The room is
    asked for an editor only when the service also granted update-content, and at most
    twice. *)
Theorem session_is_authorized (env : string -> string) (c : Config) (r : request)
    (policy_row : Privilege -> load_answer) (tomb : option Z) (now : Z) (row : load_answer)
    (attempt : CollaboratorMode -> option bool -> nat -> join_attempt) (cid : connID) (frames : list wire_frame) :
  Load env = inr c -> c_AuthMode c = AuthModeHeader -> c_AuthZMode c = AuthZModeEval ->
  connect c r policy_row tomb now row attempt = Some (inr (cid, frames)) ->
  equal_fold (c_ActorIDHeader c) "Authorization" = false
  /\ exists actor m mode n,
       parse_uuid (r_header r (c_ActorIDHeader c)) = Some actor
       /\ granted policy_row actor PrivilegeRead
       /\ row = Loaded m /\ m_Migrated m = true
       /\ (forall expires, tomb = Some expires -> (expires <= now)%Z)
       /\ (n < 2)%nat /\ attempt mode (m_IsMultiUser m) n = RoomAnswered (Joined cid frames)
       /\ (mode = ModeCollaborator -> granted policy_row actor PrivilegeUpdateContent).
Proof.
  intros Hl Hn Hz Hc. apply load_inv in Hl as (_ & _ & _ & _ & _ & _ & Ha & _).
  apply adapters_ok in Ha as (_ & _ & _ & Hh & _). split; [by apply Hh|].
  unfold connect, buildAuthN in Hc. rewrite Hn in Hc.
  destruct (ServeHTTP _ _ r) as [| |id ct i lim] eqn:Hs; try done. injection Hc as Hj.
  apply header_mode_serves_named_actors in Hs as (_ & _ & _ & actor & Hu & ->).
  apply join_gate in Hj as (read & write & m & n & Hr & Hra & Hw & Ht & Hrow & Hm & Hn2 & Hat & _).
  exists actor, m, (if Allowed write then ModeCollaborator else ModeViewer), n.
  split_and!; try done; [by eapply grant_is_evaluated|].
  destruct (Allowed write) eqn:Hwa; [|done]. intros _. by eapply grant_is_evaluated.
Qed.
(** The close frame a refused connection reads. *)
Definition refusal_seen (c : Config) (r : request) (policy_row : Privilege -> load_answer) (tomb : option Z)
    (now : Z) (row : load_answer) (attempt : CollaboratorMode -> option bool -> nat -> join_attempt)
    : option (N * string) :=
  match connect c r policy_row tomb now row attempt with
  | Some (inl f) => Some (joinCloseStatus f)
  | _ => None
  end.

(** The service, through the breaker, gave an answer on the policy of [m]. *)
Definition service_answered (actor : ActorID) (m : Metadata) : Prop :=
  m_AuthorizationPolicyID m <> ""
  /\ exists d, execute (doEvaluate post (mkEvaluate (uuid_string actor) (privilege_string PrivilegeRead)
                          (m_AuthorizationPolicyID m))) = inr d.

Lemma stranger_evaluated c id policy_row actor :
  c_AuthZMode c = AuthZModeEval -> ~ granted policy_row actor PrivilegeRead ->
  let answer := buildAuthZ c (policy_row PrivilegeRead) (mkIdentity (Some actor)) id PrivilegeRead in
  (policy_row PrivilegeRead = NotFound \/ (exists m, policy_row PrivilegeRead = Loaded m /\ service_answered actor m) ->
     exists d, answer = Some d /\ Allowed d = false)
  /\ (policy_row PrivilegeRead = LoadFailed
       \/ (exists m, policy_row PrivilegeRead = Loaded m /\ ~ service_answered actor m) -> answer = None).
Proof.
  intros Hz Hno answer.
  assert (Hdeny : forall d, answer = Some d -> Allowed d = false).
  { intros d Hd. destruct (Allowed d) eqn:Ha; [|done]. destruct Hno. exact (grant_is_evaluated c policy_row actor id PrivilegeRead d Hz Hd Ha). }
  assert (E : answer = match Evaluate uuid_string post execute (Some (policyResolver (policy_row PrivilegeRead)))
      (mkIdentity (Some actor)) PrivilegeRead with inr d => Some d | inl _ => None end).
  { unfold answer, buildAuthZ. by rewrite Hz. }
  clearbody answer. unfold Evaluate, policyResolver in E.
  change (ActorIDString uuid_string (mkIdentity (Some actor))) with (uuid_string actor) in E. split.
  - intros [Hr|(m & Hr & Hne & d & Hx)]; rewrite Hr in E; [eexists; split; [exact E|by apply Hdeny]|].
    apply String.eqb_neq in Hne. rewrite Hne, Hx in E.
    exists d. split; [exact E|by apply Hdeny].
  - intros [Hr|(m & Hr & Hn)]; rewrite Hr in E; [done|].
    destruct (String.eqb_spec (m_AuthorizationPolicyID m) "") as [|Hne]; [done|].
    destruct (execute _) as [e|d] eqn:Hx; [done|]. destruct Hn. split; [exact Hne|by exists d].
Qed.

(** C30: what a stranger learns from a refused join.  An actor whom the service gave no
    read grant on a document is refused, whatever the deletions, the existence read, the
    registry and the room are, and reads one of two close frames.  A document that does
    not exist and a document whose policy the service has answered on give the same one,
    1008 forbidden, so with every row under a policy and the service answering nothing is
    learnt.  A row without a policy, or one on whose policy no answer came, from the
    service or through an open breaker, gives 1011 join failed, as does an index that
    does not answer: there a stranger does tell it from a document that does not
    exist. *)
Theorem stranger_refused_alike (c : Config) (r : request) (id : DocumentID) (ct : ContentType)
    (actor : ActorID) (lim : option Z) (policy_row : Privilege -> load_answer) (tomb : option Z) (now : Z)
    (row : load_answer) (attempt : CollaboratorMode -> option bool -> nat -> join_attempt) :
  c_AuthZMode c = AuthZModeEval ->
  ServeHTTP (buildAuthN c) (collab_handler c) r = Serves id ct (mkIdentity (Some actor)) lim ->
  ~ granted policy_row actor PrivilegeRead ->
  (policy_row PrivilegeRead = NotFound \/ (exists m, policy_row PrivilegeRead = Loaded m /\ service_answered actor m) ->
     refusal_seen c r policy_row tomb now row attempt = Some (StatusPolicyViolation, "forbidden"))
  /\ (policy_row PrivilegeRead = LoadFailed
       \/ (exists m, policy_row PrivilegeRead = Loaded m /\ ~ service_answered actor m) ->
     refusal_seen c r policy_row tomb now row attempt = Some (StatusInternalError, "join failed")).
Proof.
  intros Hz Hs Hno. destruct (stranger_evaluated c id policy_row actor Hz Hno) as [H1 H2].
  unfold refusal_seen, connect. rewrite Hs. split.
  - intros (d & Hd & Hf)%H1. by rewrite (join_blind _ d).
  - intros Hn%H2. unfold Join, authorizeSession. by rewrite Hn.
Qed.
End Selected.

Definition gateway_request (actor : string) : request :=
  mkRequest "d" (fun h => if String.eqb h "X-Alkemio-Actor-Id" then actor else "") "" true.
Definition policy_doc : Metadata := mkMetadata "d" "memo" 1 "ptr" true None "pol" "" "" 0 0.
Definition toy_uuid (s : string) : option ActorID := if String.eqb s "alice" then Some 1%N else None.

Lemma session_is_authorized_witness :
  connect toy_uuid (fun _ => "u") answering id deployed_config (gateway_request "alice") (fun _ => Loaded policy_doc)
    (Some 5%Z) 6 (Loaded policy_doc) second_time = Some (inr (3%Z, [WBytes "x"]))
  /\ connect toy_uuid (fun _ => "u") answering id deployed_config (gateway_request "bob") (fun _ => Loaded policy_doc)
    (Some 5%Z) 6 (Loaded policy_doc) second_time = None
  /\ equal_fold (c_ActorIDHeader deployed_config) "Authorization" = false.
Proof.
  split; [vm_compute; reflexivity|]. split; [vm_compute; reflexivity|].
  apply (session_is_authorized toy_uuid (fun _ => "u") answering id (fun r => or_introl eq_refl) deployed deployed_config
    (gateway_request "alice") (fun _ => Loaded policy_doc) (Some 5%Z) 6 (Loaded policy_doc) second_time 3 [WBytes "x"]).
  - vm_compute. reflexivity.
  - reflexivity.
  - reflexivity.
  - vm_compute. reflexivity.
Defined.

(** A service that denies, and three documents: one it denies, one that does not exist,
    and one whose row names no policy. *)
Definition denying (req : evaluateRequest) : response bytes := Response 200 "{}".
Definition bare_doc : Metadata := mkMetadata "d" "memo" 1 "ptr" true None "" "" "" 0 0.
Definition deployed_limit : option Z :=
  let n := h_ReadLimitBytes (collab_handler deployed_config) in if (0 <? n)%Z then Some n else None.
Definition stranger_sees (policy_row : load_answer) : option (N * string) :=
  refusal_seen toy_uuid (fun _ => "u") denying id deployed_config (gateway_request "alice") (fun _ => policy_row)
    None 6 (Loaded policy_doc) second_time.

Lemma stranger_refused_alike_witness :
  stranger_sees (Loaded policy_doc) = Some (1008%N, "forbidden")
  /\ stranger_sees NotFound = stranger_sees (Loaded policy_doc)
  /\ stranger_sees (Loaded bare_doc) = Some (1011%N, "join failed").
Proof.
  assert (Hs : ServeHTTP (buildAuthN toy_uuid deployed_config) (collab_handler deployed_config) (gateway_request "alice")
    = Serves "d" ContentTypeMemo (mkIdentity (Some 1%N))
        deployed_limit) by (vm_compute; reflexivity).
  assert (Hno : forall row, ~ granted (fun _ => "u") denying (fun _ => row) 1%N PrivilegeRead).
  { intros row (m & body & d & _ & _ & Hp & Hd & Ha). injection Hp as <-. vm_compute in Hd.
    injection Hd as <-. discriminate. }
  assert (H : forall row, (row = NotFound \/ (exists m, row = Loaded m /\ service_answered (fun _ => "u") denying id 1%N m) ->
      stranger_sees row = Some (1008%N, "forbidden"))
    /\ (row = LoadFailed \/ (exists m, row = Loaded m /\ ~ service_answered (fun _ => "u") denying id 1%N m) ->
      stranger_sees row = Some (1011%N, "join failed"))).
  { intros row. apply (stranger_refused_alike toy_uuid (fun _ => "u") denying id (fun r => or_introl eq_refl)
      deployed_config (gateway_request "alice") "d" ContentTypeMemo 1%N deployed_limit (fun _ => row) None 6 (Loaded policy_doc)
      second_time); [reflexivity|exact Hs|apply Hno]. }
  assert (H1 : stranger_sees (Loaded policy_doc) = Some (1008%N, "forbidden")).
  { apply H. right. exists policy_doc. split; [reflexivity|]. split; [discriminate|].
    exists (mkDecision false ""). vm_compute. reflexivity. }
  split; [exact H1|]. split.
  - rewrite H1. apply H. left. reflexivity.
  - apply H. right. exists bare_doc. split; [reflexivity|]. intros [Hne _]. apply Hne. reflexivity.
Defined.
