(* ===== verification/Wire.v ===== *)
(** * The messages on the wire

    What a peer reads from the bytes this service writes, with Go's own decoder: the
    control messages to clients (domain/model/control.go), the envelopes to the bus
    (metadatastore/rabbitmq) and the requests to the authorization service (authzeval).
    [JsonRound] is the printing and parsing these rest on. *)

From stdpp Require Import base list sets strings pretty.
From Stdlib Require Import ZArith NArith Ascii String Lia.
From S2P Require Import Prelude Utf8 Json JsonRound Control RoomState RoomBarrier Decode.
From S2P Require Import Consumer MetaRpc Auth.

Local Open Scope string_scope.

(** ** Integers *)

Lemma digits_value_sum s :
  all_digits s = true -> s <> "" -> digits_value s = Some (Z.of_N (digit_sum s 0)).
Proof.
  intros Hs Hne. unfold digits_value.
  pose proof (span_digits_app s "" Hs eq_refl) as Hd. rewrite string_app_nil_r in Hd. rewrite Hd.
  destruct (String.eqb_spec s ""); [done|]. f_equal. unfold digit_sum.
  change 0%Z with (Z.of_N 0). generalize 0%N. clear Hd Hne Hs n. induction (list_ascii_of_string s) as [|c l IH]; intros n; [done|].
  simpl. rewrite <- IH. f_equal. lia.
Qed.

Lemma int_literal_pretty z : (- 2 ^ 63 <= z < 2 ^ 63)%Z -> int_literal (pretty z) = Some z.
Proof.
  intros Hz.
  assert (Hin : ((- 2 ^ 63 <=? z) && (z <? 2 ^ 63))%Z = true) by (rewrite andb_true_iff, Z.leb_le, Z.ltb_lt; lia).
  destruct z as [|p|p]; [done| |]; destruct (pretty_pos p) as (s & E & Hb & Ha & Hv);
    destruct (int_body_start s Hb) as (c & s' & -> & Hd).
  - change (pretty (Z.pos p)) with (pretty (N.pos p)). rewrite E. unfold int_literal.
    replace (Ascii.eqb c (ch 45)) with false by (by destruct c as [[] [] [] [] [] [] [] []]).
    cbv iota zeta. rewrite digits_value_sum, Hv by done. change (Z.of_N (N.pos p)) with (Z.pos p). by rewrite Hin.
  - change (pretty (Z.neg p)) with ("-" +:+ pretty (N.pos p)). rewrite E. unfold int_literal.
    change (Ascii.eqb "-" (ch 45)) with true. cbv iota zeta.
    change (("-" +:+ String c s')) with (String "-" (String c s')). cbv iota.
    change (Ascii.eqb "-" (ch 45)) with true. cbv iota.
    rewrite digits_value_sum, Hv by done. cbn [option_map]. change (Z.of_N (N.pos p)) with (Z.pos p).
    change (- Z.pos p)%Z with (Z.neg p). by rewrite Hin.
Qed.

(** ** Control messages *)

(** The struct of control.go, as [json.Unmarshal] fills it. *)
Definition control_shape : shape :=
  SStruct [("kind", SString); ("requestId", SString); ("version", SInt); ("error", SString); ("readOnly", SBool);
           ("reason", SString); ("mode", SString); ("users", SInt); ("code", SString); ("scope", SString);
           ("disposition", SString)].
Definition unmarshal_control (body : bytes) : option ControlMessage :=
  v ← parse body;
  kvs ← members_of control_shape v;
  Some (mkControl (string_field "kind" kvs) (string_field "requestId" kvs) (int_field "version" kvs 0)
          (string_field "error" kvs) (bool_ptr_field "readOnly" kvs None) (string_field "reason" kvs)
          (string_field "mode" kvs) (int_field "users" kvs 0) (string_field "code" kvs) (string_field "scope" kvs)
          (string_field "disposition" kvs)).

(** Strings a client can be told: everything the service writes itself is plain text; a
    request id comes from the client, where it was already valid. *)
Definition control_sendable (m : ControlMessage) : bool :=
  forallb utf8_valid [Kind m; RequestID m; Error m; Reason m; Mode m; Code m; Scope m; Disposition m]
  && forallb (fun z => (- 2 ^ 63 <=? z) && (z <? 2 ^ 63))%Z [Version m; Users m].

(** Reading past an optional member. *)
Section Members.
Context (rest : list (string * json)).

Lemma string_skip_str name k v acc : key_matches name k = false ->
  decode_string_field name (opt_str k v ++ rest) acc = decode_string_field name rest acc.
Proof. intros H. unfold opt_str. destruct (String.eqb v ""); simpl; by rewrite ?H. Qed.
Lemma string_read_str name k v : key_matches name k = true ->
  decode_string_field name (opt_str k v ++ rest) "" = decode_string_field name rest v.
Proof. intros H. unfold opt_str. destruct (String.eqb_spec v "") as [->|]; simpl; by rewrite ?H. Qed.
Lemma string_skip_int name k v acc : key_matches name k = false ->
  decode_string_field name (opt_int k v ++ rest) acc = decode_string_field name rest acc.
Proof. intros H. unfold opt_int. destruct (Z.eqb v 0); simpl; by rewrite ?H. Qed.
Lemma string_skip_bool name k v acc : key_matches name k = false ->
  decode_string_field name (opt_bool k v ++ rest) acc = decode_string_field name rest acc.
Proof. intros H. destruct v; simpl; by rewrite ?H. Qed.

Lemma string_read_head name k v acc : key_matches name k = true ->
  decode_string_field name ((k, JStr v) :: rest) acc = decode_string_field name rest v.
Proof. intros H. simpl. by rewrite H. Qed.
Lemma string_skip_head name k v acc : key_matches name k = false ->
  decode_string_field name ((k, JStr v) :: rest) acc = decode_string_field name rest acc.
Proof. intros H. simpl. by rewrite H. Qed.
Lemma int_skip_head name k v acc : int_field name ((k, JStr v) :: rest) acc = int_field name rest acc.
Proof. done. Qed.
Lemma ptr_skip_head name k v acc : bool_ptr_field name ((k, JStr v) :: rest) acc = bool_ptr_field name rest acc.
Proof. done. Qed.

Lemma int_skip_str name k v acc : int_field name (opt_str k v ++ rest) acc = int_field name rest acc.
Proof. unfold opt_str. by destruct (String.eqb v ""). Qed.
Lemma int_skip_bool name k v acc : int_field name (opt_bool k v ++ rest) acc = int_field name rest acc.
Proof. by destruct v. Qed.
Lemma int_skip_int name k v acc : key_matches name k = false ->
  int_field name (opt_int k v ++ rest) acc = int_field name rest acc.
Proof. intros H. unfold opt_int. destruct (Z.eqb v 0); simpl; by rewrite ?H. Qed.
Lemma int_read_int name k v : key_matches name k = true -> (- 2 ^ 63 <= v < 2 ^ 63)%Z ->
  int_field name (opt_int k v ++ rest) 0 = int_field name rest v.
Proof.
  intros H Hv. unfold opt_int. destruct (Z.eqb_spec v 0) as [->|]; simpl; rewrite ?H; [done|].
  by rewrite int_literal_pretty.
Qed.

Lemma ptr_skip_str name k v acc : bool_ptr_field name (opt_str k v ++ rest) acc = bool_ptr_field name rest acc.
Proof. unfold opt_str. by destruct (String.eqb v ""). Qed.
Lemma ptr_skip_int name k v acc : bool_ptr_field name (opt_int k v ++ rest) acc = bool_ptr_field name rest acc.
Proof. unfold opt_int. by destruct (Z.eqb v 0). Qed.
Lemma ptr_read_bool name k v : key_matches name k = true ->
  bool_ptr_field name (opt_bool k v ++ rest) None = bool_ptr_field name rest v.
Proof. intros H. destruct v; simpl; by rewrite ?H. Qed.
End Members.

Section Every.
Context (f : string * json -> bool) (rest : list (string * json)).

Lemma forallb_opt_str k v : (v <> "" -> f (k, JStr v) = true) -> forallb f (opt_str k v ++ rest) = forallb f rest.
Proof. intros H. unfold opt_str. destruct (String.eqb_spec v ""); simpl; [done|]. by rewrite H. Qed.
Lemma forallb_opt_int k v : f (k, JInt v) = true -> forallb f (opt_int k v ++ rest) = forallb f rest.
Proof. intros H. unfold opt_int. destruct (Z.eqb v 0); simpl; by rewrite ?H. Qed.
Lemma forallb_opt_bool k v : (forall b, f (k, JBool b) = true) -> forallb f (opt_bool k v ++ rest) = forallb f rest.
Proof. intros H. destruct v; simpl; by rewrite ?H. Qed.
End Every.

Lemma control_fields_eq m :
  control_fields m = (("kind", JStr (Kind m)) :: opt_str "requestId" (RequestID m) ++ opt_int "version" (Version m)
    ++ opt_str "error" (Error m) ++ opt_bool "readOnly" (ReadOnly m) ++ opt_str "reason" (Reason m)
    ++ opt_str "mode" (Mode m) ++ opt_int "users" (Users m) ++ opt_str "code" (Code m) ++ opt_str "scope" (Scope m)
    ++ opt_str "disposition" (Disposition m) ++ [])%list.
Proof. unfold control_fields. by rewrite app_nil_r. Qed.

Lemma in_i64 z : ((- 2 ^ 63 <=? z) && (z <? 2 ^ 63))%Z = true -> (- 2 ^ 63 <= z < 2 ^ 63)%Z.
Proof. rewrite andb_true_iff, Z.leb_le, Z.ltb_lt. done. Qed.

Lemma control_fits m : control_sendable m = true -> members_of control_shape (JObj (control_fields m)) = Some (control_fields m).
Proof.
  intros [_ H]%andb_true_iff. simpl in H. apply andb_true_iff in H as [Hv [Hu _]%andb_true_iff].
  apply in_i64 in Hv, Hu. unfold members_of.
  assert (E : fits (JObj (control_fields m)) control_shape = true).
  { unfold control_shape. cbn [fits]. rewrite control_fields_eq. cbn [forallb].
    rewrite forallb_opt_str by (intros; reflexivity).
    rewrite forallb_opt_int by (simpl; by rewrite int_literal_pretty).
    rewrite forallb_opt_str by (intros; reflexivity). rewrite forallb_opt_bool by (intros; reflexivity).
    rewrite !forallb_opt_str by (intros; reflexivity).
    rewrite forallb_opt_int by (simpl; by rewrite int_literal_pretty).
    rewrite !forallb_opt_str by (intros; reflexivity). reflexivity. }
  by rewrite E.
Qed.

Ltac told H := intros; cbv beta iota; cbn [sendable]; rewrite H; reflexivity.

Lemma control_valid m : control_sendable m = true -> sendable (JObj (control_fields m)) = true.
Proof.
  intros [H _]%andb_true_iff. simpl in H. rewrite !andb_true_iff in H.
  destruct H as (H1 & H2 & H3 & H4 & H5 & H6 & H7 & H8 & _).
  rewrite control_fields_eq. cbn [sendable forallb]. cbv beta iota. cbn [sendable]. rewrite H1.
  rewrite forallb_opt_str by told H2. rewrite forallb_opt_int by (simpl; apply pretty_int_shape).
  rewrite forallb_opt_str by told H3. rewrite forallb_opt_bool by (intros; reflexivity).
  rewrite forallb_opt_str by told H4. rewrite forallb_opt_str by told H5.
  rewrite forallb_opt_int by (simpl; apply pretty_int_shape).
  rewrite forallb_opt_str by told H6. rewrite forallb_opt_str by told H7.
  rewrite forallb_opt_str by told H8. reflexivity.
Qed.

(** An object of scalars is one level deep. *)
Definition flat (l : list (string * json)) : Prop := Forall (fun kv => nesting kv.2 = 0%nat) l.
Lemma nesting_flat l : flat l -> nesting (JObj l) = 1%nat.
Proof.
  intros H. simpl. f_equal. induction H as [|[k v] l Hv H IH]; [done|]. simpl in *. by rewrite Hv, IH.
Qed.
Lemma flat_app a b : flat a -> flat b -> flat (a ++ b).
Proof. apply Forall_app_2. Qed.
Lemma flat_opt_str k v : flat (opt_str k v).
Proof. unfold opt_str. destruct (String.eqb v ""); repeat constructor. Qed.
Lemma flat_opt_int k v : flat (opt_int k v).
Proof. unfold opt_int. destruct (Z.eqb v 0); repeat constructor. Qed.
Lemma flat_opt_bool k v : flat (opt_bool k v).
Proof. destruct v; repeat constructor. Qed.

Lemma control_flat m : flat (control_fields m).
Proof.
  rewrite control_fields_eq. constructor; [done|].
  repeat (apply flat_app; [first [apply flat_opt_str|apply flat_opt_int|apply flat_opt_bool]|]). constructor.
Qed.

Lemma shallow n : (n <= 2)%nat -> (n <= max_nesting_depth)%nat.
Proof. intros H. etrans; [exact H|]. apply Nat.leb_le. vm_compute. reflexivity. Qed.

Ltac members := repeat first
  [ rewrite string_read_head by reflexivity | rewrite string_skip_head by reflexivity
  | rewrite int_skip_head | rewrite ptr_skip_head
  | rewrite string_read_str by reflexivity | rewrite string_skip_str by reflexivity
  | rewrite string_skip_int by reflexivity | rewrite string_skip_bool by reflexivity
  | rewrite int_read_int by (reflexivity || assumption) | rewrite int_skip_int by reflexivity
  | rewrite int_skip_str | rewrite int_skip_bool | rewrite ptr_skip_str | rewrite ptr_skip_int
  | rewrite ptr_read_bool by reflexivity ].

(** C40: a client reads exactly the control message the service meant: the bytes put
    on the wire decode, with Go's decoder and the message's own field names, to the same
    kind, request id, version, texts and flags, a false read-only flag and an absent one
    included. *)
Theorem control_message_roundtrip (m : ControlMessage) :
  control_sendable m = true -> unmarshal_control (marshal_control m) = Some m.
Proof.
  intros Hm. unfold unmarshal_control, marshal_control.
  rewrite parse_print; [|by apply control_valid|rewrite nesting_flat by apply control_flat; apply shallow; lia].
  cbn [mbind option_bind]. rewrite control_fits by done. cbn [mbind option_bind].
  pose proof Hm as [_ H]%andb_true_iff. simpl in H. apply andb_true_iff in H as [Hv [Hu _]%andb_true_iff].
  apply in_i64 in Hv, Hu. rewrite control_fields_eq. unfold string_field.
  members. by destruct m.
Qed.

Definition sample_message : ControlMessage :=
  mkControl ControlPersistFailed "req-é<1>" (-7) "not saved" (Some false) "" "" 0 "" ScopeDocument "".

Lemma control_message_roundtrip_witness :
  control_sendable sample_message = true /\ unmarshal_control (marshal_control sample_message) = Some sample_message.
Proof.
  assert (H : control_sendable sample_message = true) by (vm_compute; reflexivity).
  split; [exact H|exact (control_message_roundtrip sample_message H)].
Defined.

(** ** Requests *)

Lemma print_inj v w :
  sendable v = true -> sendable w = true -> (nesting v <= max_nesting_depth)%nat -> (nesting w <= max_nesting_depth)%nat ->
  print v = print w -> v = w.
Proof.
  intros Hv Hw Dv Dw E. pose proof (parse_print v Hv Dv) as H. rewrite E, (parse_print w Hw Dw) in H. by injection H.
Qed.

Definition request_sendable (r : evaluateRequest) : bool :=
  utf8_valid (ev_actor r) && utf8_valid (ev_privilege r) && utf8_valid (ev_policy r).

(** No actor, privilege or policy can pass for another in what the authorization
    service is asked, whatever characters they contain. *)
Theorem authorization_request_unambiguous (r r' : evaluateRequest) :
  request_sendable r = true -> request_sendable r' = true -> evaluate_payload r = evaluate_payload r' -> r = r'.
Proof.
  unfold request_sendable. intros [[H1 H2]%andb_true_iff H3]%andb_true_iff [[H1' H2']%andb_true_iff H3']%andb_true_iff.
  unfold evaluate_payload. intros E%print_inj; cycle 1.
  1,2: cbn [sendable forallb]; cbv beta iota; cbn [sendable]; rewrite ?H1, ?H2, ?H3, ?H1', ?H2', ?H3'; reflexivity.
  1,2: apply shallow; simpl; lia.
  destruct r, r'. simpl in *. by simplify_eq.
Qed.

(** An envelope is read as it was marshalled, by whoever uses the same framing: this
    service's own consumer among them. *)
Theorem envelope_read_back (pattern id : string) (data : json) :
  utf8_valid pattern = true -> utf8_valid id = true -> sendable data = true -> (S (nesting data) <= max_nesting_depth)%nat ->
  unmarshal_envelope (marshalEnvelope pattern id data) = Some (mkEnvelope pattern (Some data) id).
Proof.
  intros Hp Hi Hd Hn. unfold unmarshal_envelope, marshalEnvelope. rewrite parse_print.
  - assert (E : fits (JObj [("pattern", JStr pattern); ("data", data); ("id", JStr id)]) envelope_shape = true).
    { unfold envelope_shape. cbn [fits forallb]. cbv beta iota. by destruct data. }
    unfold members_of. rewrite E. unfold string_field. simpl. by destruct data.
  - cbn [sendable forallb]. cbv beta iota. cbn [sendable]. rewrite Hp, Hd, Hi. reflexivity.
  - simpl nesting. lia.
Qed.

(** So a deletion published in that framing reaches the handler as the deletion of
    exactly that document. *)
Corollary published_deletion_is_handled {E} (refused : DocumentID -> option E) (corr id : string) :
  utf8_valid corr = true -> utf8_valid id = true -> id <> "" ->
  handle refused (marshalEnvelope PatternDocumentDeleted corr (JObj [("id", JStr id)]))
  = match refused id with Some _ => requeue | None => ackSuccess end.
Proof.
  intros Hc Hi Hne. unfold handle. rewrite envelope_read_back; [|reflexivity|exact Hc| |apply shallow; simpl; lia].
  - cbn [env_Pattern env_Data]. rewrite String.eqb_refl. unfold handleDeleted, unmarshal_deleted.
    change (members_of DeletedEvent (JObj [("id", JStr id)])) with (Some [("id", JStr id)]). cbv iota.
    change (string_field "id" [("id", JStr id)]) with id. by destruct (String.eqb_spec id "").
  - cbn [sendable forallb]. cbv beta iota. cbn [sendable]. rewrite Hi. reflexivity.
Qed.
