(* ===== verification/Runs.v ===== *)
(** * Sample runs

    Runs of the model on the concrete core of [Fixture]: an ordinary session, then
    three that show behaviour the comments of the source rule out.  Nothing here is
    used elsewhere. *)

From stdpp Require Import base gmap sets list strings.
From Stdlib Require Import ZArith String.
From S2P Require Import Prelude Control Lifecycle Core RoomState RoomFanout RoomBarrier.
From S2P Require Import RoomApply RoomLife RoomLoop Fixture.

Local Open Scope string_scope.

(** ** An ordinary session *)

Example session_edits :
  (fun r : Room => (doc (co r), dirty (co r), saveTimer (co r), member_count r)) (@after healthy session)
  = ("hello", true, Some (2 * second)%Z, 1%nat).
Proof. vm_compute. reflexivity. Qed.

Example session_saves :
  (fun r : Room => (dirty (co r), version (co r), saveTimer (co r)))
    (@after healthy (session ++ [LSaveTimer]))
  = (false, 1%Z, None).
Proof. vm_compute. reflexivity. Qed.

(** ** Where the code and its comments part *)

(** The toy core with an encoder that fails. *)
Definition mute : YCore := {|
  Doc := string;
  NewDoc := @NewDoc toy;
  ApplyUpdate := @ApplyUpdate toy;
  ApplyUpdateV2 := @ApplyUpdateV2 toy;
  EncodeStateAsUpdate := @EncodeStateAsUpdate toy;
  EncodeStateAsUpdateV2 := fun _ => None;
  EncodeStateVectorFromUpdateV2 := @EncodeStateVectorFromUpdateV2 toy;
  GetRoot := @GetRoot toy;
  map_entries := @map_entries toy;
  image_srcs := @image_srcs toy;
  Awareness := list N;
  NewAwareness := @NewAwareness toy;
  ClearLocalState := @ClearLocalState toy;
  ApplyAwarenessUpdate := @ApplyAwarenessUpdate toy;
  RemoveAwarenessStates := @RemoveAwarenessStates toy;
  EncodeAwarenessUpdate := @EncodeAwarenessUpdate toy;
  GetStates := @GetStates toy;
  InspectMessage := @InspectMessage toy;
  ReadMessage := @ReadMessage toy;
  WriteMessage := @WriteMessage toy;
  EncodeUpdate := @EncodeUpdate toy;
  EncodeAwarenessUpdateMessage := @EncodeAwarenessUpdateMessage toy;
  DecodeAwarenessMessage := @DecodeAwarenessMessage toy;
  EncodeSyncStep1 := @EncodeSyncStep1 toy;
  EncodeSyncStep2 := @EncodeSyncStep2 toy |}.

Definition mute_room : @Room mute := @mkRoom mute
  (@mkCore mute ContentTypeMemo "hello" (Some "hello") stateActive 1 true 5 0 None 0 None ∅ 1 None 0
    (Some (2 * second)%Z) None false true "" "" "")
  {[1%Z := first_member "r1"]} [] ∅ [].

(** room.go, [handleDurabilityRequest]: "a dirty room always has a flush scheduled".
    After a save whose encoding fails the room is dirty, no timer is armed, and the
    parked request is still waiting. *)
Lemma failed_encode_leaves_no_flush :
  match @run_step mute healthy LSaveTimer mute_room with
  | Running r => dirty (co r) = true /\ saveTimer (co r) = None
                 /\ mb_barrier <$> (members r !! 1%Z) = Some "r1"
  | _ => False
  end.
Proof. vm_compute. done. Qed.

(** room.go, [releaseIfEmpty]: "idling out must not silently cost a window of edits".
    With the same encoder the empty room is released with its edits unsaved, as an
    orderly shutdown. *)
Lemma failed_encode_loses_edits_on_release :
  match @run_step mute healthy LIdleTimer (@set_members mute ∅ (@upd_core mute (@set_idleTimer mute (Some 1%Z)) mute_room)) with
  | Exited r => dirty (co r) = true /\ lc (co r) = stateClosed
                /\ List.filter (fun e => match e with ESaveCheckpoint _ _ _ => true | _ => false end) (trace r) = []
  | _ => False
  end.
Proof. vm_compute. done. Qed.

(** room.go, [roomMember]: the request that follows a refused update must not be
    answered [persisted].  An update the candidate document refuses marks nothing,
    and the next request is acknowledged. *)
Lemma refused_update_then_persisted :
  (fun r : Room => (doc (co r), mb_durabilityPoisoned <$> (members r !! 1%Z), trace r !! 0%nat))
    (@after healthy [join_as 1 ModeCollaborator; activate_id 1; sends 1 "02!bad"; sends 1 (request_frame "r1")])
  = ("", Some false, Some (ESend 1 (WControl (msg_persisted "r1")) true)).
Proof. vm_compute. reflexivity. Qed.
